(* ===== verification/_CoqProject ===== *)
-Q . S2P
Prelude.v
OrderTypes.v
OrderPool.v
PoolTheorems.v
PriceLevel.v
OrderIndex.v
OrderBook.v
OrderBookInv.v
OrderBookOps.v
OrderBookQueries.v
BookFacets.v
SPSCQueue.v
Sink.v
SPSCConc.v
SPSCConcInv.v
SPSCAtomic.v
SPSCTheorems.v
MatchingEngine.v
EngineInv.v
SweepSpec.v
EngineSweep.v
EngineMatch.v
EngineHandlers.v
EngineRun.v
EngineView.v
EngineSink.v
EngineTypes.v
EngineExample.v
EngineTheorems.v
BookTheorems.v
WireProtocol.v
Decoder.v
DecoderProps.v
DecoderTheorems.v
Uring.v
UringSender.v
UringSenderProps.v
UringReceiver.v
UringReceiverProps.v
UringTheorems.v
Pipeline.v
PipelineInv.v
PipelineSequential.v
PipelineShutdown.v
PipelineHang.v
PipelineFair.v
PipelineDrain.v
PipelineLive.v
PipelineLog.v
PipelineWire.v
PipelineStats.v
PipelineExit.v
PipelineExample.v
PipelineRuns.v
PipelineTheorems.v
ExitTheorems.v
