(* ===== verification/Prelude.v ===== *)
(** * NanoMatch-OME: a verification development

    NanoMatch-OME ([src/src]) is an order matching engine for a limit order
    book, run as a pipeline of four threads that talk through lock-free
    single-producer single-consumer rings:

      [io_uring] -> UringReceiver -> Decoder -> MatchingEngine -> UringSender -> [io_uring]
                       ^                |
                       +-- buffer ids --+

    This library models the program's own code as executable Rocq functions
    and proves what makes it correct.

    ** Conventions

    - Integers are [Z] with the wrap-around of their C++ width written out
      ([u8] .. [u64], [i64], [i32]).
    - An operation that can dereference a bad pointer, index out of range,
      fail an assertion or spin returns [res]: [Ok] or the [fault].  Theorems
      state [Ok] outright, so they include memory safety and termination.
    - [Order*] is an address ([option nat]) into an object store [heap]; bytes
      live in a [memory].  Linked lists are mutated in the store the way the
      code mutates them, with aliasing.
    - [assert] depends on the build ([Build]): Release ignores it, Debug stops.
    - Loops that are not structural take fuel.  The fuel is computed from the
      state ([sweep_fuel], the span's length, the number of buffers, the
      length of a queue) and the theorems show it is enough; a loop that waits
      for another thread takes a bound on its patience, and its theorems say
      what the other thread has to do.

    ** Components

    - [OrderTypes], [core/order.hpp]: the enumerations, [Order] with its
      layout, [Order_reset]; [load] and [store] through a pointer.
    - [OrderPool], [core/order_pool.hpp]: the slab with its intrusive free
      list ([acquire], [release], [reset], construction over [mmap] as a
      parameter).  [pool_rep] is the invariant; [PoolTheorems] shows that the
      pool is a stack of free slots.
    - [PriceLevel], [OrderIndex], [OrderBook], [lob/order_book.hpp]: the FIFO
      queues of a price level, the id index, and every operation of the book.
      [OrderBookInv] has the representation invariant [book_rep] (levels,
      doubly linked queues, best-price cursors, index) and the cursor scan,
      [OrderBookOps] the effect of each operation on it, [OrderBookQueries]
      the queries (best level, available quantity, price-time priority),
      [BookFacets] the properties that hold only under conditions (exact
      aggregates, complete index, uncrossed), [BookTheorems] the properties.
    - [SPSCQueue], [spsc/spsc_queue.hpp]: the ring's operations and their
      refinement to a bounded FIFO list, and the message structs.  [SPSCConc]
      runs the same code on two threads, one memory access at a time, with
      release stores, possibly stale acquire loads and vector clocks that
      detect data races; [SPSCConcInv] is its invariant; [SPSCAtomic] what
      this comes to, a queue whose operations happen at once;
      [SPSCTheorems] the properties.
    - [Sink]: the interface between a producing component and the queue it
      posts to with a spin loop; a ring with a consumer that keeps coming back
      provides it, and so does a list.  Where a theorem has a [Sink] in it the
      posting loops return; [Pipeline] is where they can wait for ever.
    - [MatchingEngine], [matching/matching_engine.hpp]: all handlers, the
      sweep, the four order types, polling, set-up, reset.  [EngineInv] has
      the invariant (every slot of the slab is free, resting in exactly one
      queue, or lost), [SweepSpec] the abstract matching rule on lists of
      orders, [EngineSweep], [EngineMatch], [EngineHandlers] and [EngineRun]
      the refinement, from one turn of the sweep up to every reachable state;
      [EngineView] the executable views theorems speak about; [EngineExample]
      a small engine; [EngineTheorems] the properties.
    - [WireProtocol], [Decoder], [io/wire_protocol.hpp] and [io/decoder.hpp]:
      the structs with their object representations, decoding and encoding
      over the byte store.  [DecoderProps] says what a byte stream means
      (frames and a tail, a unique cut); [DecoderTheorems] the properties.
    - [Uring]: liburing as an interface with its documented behaviour, and an
      instance.  [UringReceiver], [UringSender], [io/uring_receiver.hpp] and
      [io/uring_sender.hpp]; [UringReceiverProps] (who owns which receive
      buffer), [UringSenderProps] (who uses which send buffer) and
      [UringTheorems].
    - [EngineSink]: the engine behaves the same whatever queue it posts into,
      so that one that posts into a list stands for one that posts into a
      ring another thread reads.  [EngineTypes]: every assignment stays
      within the declared width of its target, and the engine writes only to
      orders that exist, so that what is mapped does not change.
    - [Pipeline], [main.cpp]: start-up with its exceptions, the four worker
      threads, [g_running] and the signal handler, the joins and the final
      statistics.  A thread is a program counter and a step function over the
      shared [world]; a step is one access to something another thread sees.
      [step] composes the threads, the signals and the kernel's writes into
      receive buffers, in any order; with [stale_step] a thread reads an older
      value of [g_running] or of a ring's index.  Safety is shown for both
      together ([weak_reach]); progress from any state so reached, by steps
      that see what is there ([reach], and the infinite runs of
      [PipelineFair]).  [PipelineInv] has the invariant and
      shows that each step keeps it and is no fault; [PipelineSequential]
      reads it as a run of a sequential engine; [PipelineShutdown] has the
      measure of the work left after the signal, [PipelineHang] the ways to
      wait for ever, [PipelineFair] the runs in which every thread is
      scheduled again and again and how they end after the signal,
      [PipelineDrain] the runs that work off what has been received,
      [PipelineLive] why fair runs do so; [PipelineLog] the log of what a
      run does at the two io_uring rings, [PipelineWire] where by that log
      each report handed to the sender is, [PipelineStats] what the counters
      count;
      [PipelineExample] computes runs and [PipelineRuns] three of them, one
      that jams, one that returns and one that a burst stops for good;
      [PipelineTheorems] the properties.
    - [PipelineExit], the ends of [main.cpp]: the destructors in their order,
      the exception handler, the exit status, and a thread that cannot be
      started; [ExitTheorems] the properties.

    ** What the theorems show

    - Matching: [submit] of a new order does what the abstract rule says, on
      the book, the reports and the counters ([new_order_refinement]); books
      are never crossed; limit orders trade in price-time priority at resting
      prices; market and IOC orders never rest and are accounted for to the
      last share; FOK orders are all or nothing; cancels remove exactly their
      order and its index entry; resting orders are where they belong
      ([resting_orders_placed]); every message is processed without a fault from every reachable
      state, also with assertions on.
    - Memory: slots are never lost, except in the one way
      [limit_off_grid_lost] exhibits, and [reset_state] recovers them.
    - Queues: FIFO refinement, batches as singles, race freedom, wait-freedom;
      the code of the two threads, access by access, is an atomic queue
      ([spsc_linearizable]).
    - Protocol: total decoding of arbitrary bytes, round trips both ways.
    - I/O: no receive buffer is shared between kernel and decoder, reports are
      sent in order from buffers nobody overwrites; a burst of more than 256
      reports hangs the sender ([sender_burst_hangs]).
    - The daemon: whatever the interleaving, no thread faults
      ([pipeline_safe]); the reports sent are those of a sequential engine on
      the messages in the received bytes ([pipeline_reports]); every receive
      buffer is in one place ([pipeline_buffers]); for every report taken a
      SEND of its bytes is prepared, which is queued, in flight or completed
      ([pipeline_wire]); integers keep their types ([pipeline_types]).  Everything received is answered in every fair
      run ([pipeline_delivers]), unless the sender runs out of buffers for
      good; the threads never wait for each other in a circle
      ([pipeline_drains]).  After the signal the work left is bounded
      ([shutdown_bounded]) and every fair run ends with [main] returning, in
      which case the statistics are exact ([final_statistics_exact]), or with
      a thread that waits for ever ([shutdown_outcome], [hung_forever]).  On its way out [main] gives back exactly what it
      acquired ([main_releases]), except the sockets if an object could not
      be constructed ([start_failure]).
    - What goes wrong: [fok_below_grid_vanishes], [limit_off_grid_lost],
      [split_message_lost], [short_frame_not_counted], [sender_burst_hangs],
      [hung_forever], [start_failure], [thread_failure_hangs].

    ** Parameters

    The clock, [mmap], the sockets and liburing are not part of the repository: they are
    arguments, with the behaviour relied on as hypotheses that an instance
    shows to be satisfiable.  Of liburing ([Uring]) that is: a prepared entry
    is queued; a submission, whose result the code ignores, passes on the
    first few of the queued entries, possibly none ([submits_all] is the
    extra hypothesis where all are wanted); a completion belongs to a request
    in flight and brings no more than was asked for; and ([sq_depth]) an entry
    is to be had as long as fewer requests than the ring has entries have not
    completed.

    ** Not modelled

    Of [main.cpp], the text it prints and the build without Linux; exceptions
    for want of heap memory.
    In [Pipeline] a ring operation is one step; [SPSCConc] is where its memory
    accesses are steps of their own, one ring at a time, and
    [spsc_linearizable] what allows the former.  Progress is shown for runs
    with a fair schedule, loads that return the newest value and a kernel
    that completes SENDs ([fair_run], [responsive]); nothing is shown about
    how long a step takes.  Cache-line padding
    and CPU pause hints have no effect on results.  The benchmarks and tests
    call the components and hold no logic of their own. *)

From stdpp Require Import base numbers list gmap fin_maps.
From Stdlib Require Import ZArith Lia.

#[global] Open Scope Z_scope.
#[global] Set Default Goal Selector "!".

(** ** Machine integers

    A C++ integer is a [Z]; the conversions below are the wrap-around of the
    fixed-width types ([uint8_t], [uint16_t], [uint32_t], [uint64_t] /
    [std::size_t] on x86-64, [int64_t]). *)

Definition u8 (x : Z) : Z := x mod 2 ^ 8.
Definition u16 (x : Z) : Z := x mod 2 ^ 16.
Definition u32 (x : Z) : Z := x mod 2 ^ 32.
Definition u64 (x : Z) : Z := x mod 2 ^ 64.
Definition i64 (x : Z) : Z := (x + 2 ^ 63) mod 2 ^ 64 - 2 ^ 63.
Definition i32 (x : Z) : Z := (x + 2 ^ 31) mod 2 ^ 32 - 2 ^ 31.

Definition INT64_MIN : Z := - 2 ^ 63.
Definition INT64_MAX : Z := 2 ^ 63 - 1.
Definition SIZE_MAX : Z := 2 ^ 64 - 1.

Definition in_u8 (x : Z) : Prop := 0 <= x < 2 ^ 8.
Definition in_u32 (x : Z) : Prop := 0 <= x < 2 ^ 32.
Definition in_u64 (x : Z) : Prop := 0 <= x < 2 ^ 64.
Definition in_i64 (x : Z) : Prop := - 2 ^ 63 <= x < 2 ^ 63.

(** ** Faults and the result type

    Every operation that dereferences a pointer, indexes a vector, evaluates
    an [assert] or spins returns a [res]: [Ok] with the value, or [Err] with
    the reason the C++ execution has no defined continuation. *)

Inductive fault : Type :=
| NullDeref      (* *p with p == nullptr *)
| BadAddress     (* *p with p outside every live object *)
| OutOfRange     (* operator[] past the end of an array or vector *)
| AssertFailed   (* assert(e) with e false, assertions compiled in *)
| DivByZero      (* x / 0 or x % 0 *)
| SignedOverflow (* int64_t arithmetic past its range *)
| Unreachable    (* __builtin_unreachable() *)
| NoProgress.    (* a loop that has not exited within its fuel *)

Inductive res (A : Type) : Type :=
| Ok (a : A)
| Err (f : fault).
Arguments Ok {A} a.
Arguments Err {A} f.

Definition bind {A B} (m : res A) (k : A -> res B) : res B :=
  match m with Ok a => k a | Err f => Err f end.

Declare Scope res_scope.
Delimit Scope res_scope with res.
Notation "'let*' x := m 'in' k" := (bind m (fun x => k))
  (at level 10, x name, m at level 100, k at level 200)
  : res_scope.
Notation "'let*' ' p := m 'in' k" := (bind m (fun x => match x with p => k end))
  (at level 10, p pattern, m at level 100, k at level 200)
  : res_scope.
#[global] Open Scope res_scope.

(** ** Build mode

    [CMakeLists.txt] builds Release with [-DNDEBUG], where [assert] is a
    no-op, and Debug without it, where a false [assert] aborts.  A definition
    that contains an [assert] is parametrised by the mode. *)

Class Build : Type := asserts_enabled : bool.

Definition assert_ `{Build} (b : bool) : res unit :=
  if asserts_enabled && negb b then Err AssertFailed else Ok tt.

Definition Release : Build := false.
Definition DebugBuild : Build := true.

(** ** Arrays and vectors: [operator[]] *)

Definition vec_at {A} (v : list A) (i : Z) : res A :=
  if i <? 0 then Err OutOfRange
  else match v !! Z.to_nat i with Some x => Ok x | None => Err OutOfRange end.

Definition vec_set {A} (v : list A) (i : Z) (x : A) : res (list A) :=
  if (i <? 0) || (Z.of_nat (length v) <=? i) then Err OutOfRange
  else Ok (<[Z.to_nat i := x]> v).

(** [a - b] on [int64_t]. *)
Definition i64_sub (a b : Z) : res Z :=
  if (INT64_MIN <=? a - b) && (a - b <=? INT64_MAX) then Ok (a - b)
  else Err SignedOverflow.

(** ** Object layout

    The x86-64 ABI rule for a standard-layout struct: each member at the next
    multiple of its alignment, the size rounded up to the struct's alignment.
    A member is given by its size and alignment in bytes. *)

Definition align_up (x a : Z) : Z := (x + a - 1) / a * a.

Fixpoint layout_offsets (at_ : Z) (ms : list (Z * Z)) : list Z * Z :=
  match ms with
  | [] => ([], at_)
  | (sz, al) :: ms' =>
      let off := align_up at_ al in
      let '(offs, end_) := layout_offsets (off + sz) ms' in
      (off :: offs, end_)
  end.

Definition layout_size (ms : list (Z * Z)) (al : Z) : Z :=
  align_up (snd (layout_offsets 0 ms)) al.

(** * Lemmas and automation *)

Create HintDb nm.

Lemma u8_id x : in_u8 x -> u8 x = x.
Proof. apply Z.mod_small. Qed.
Lemma u32_id x : in_u32 x -> u32 x = x.
Proof. apply Z.mod_small. Qed.
Lemma u64_id x : in_u64 x -> u64 x = x.
Proof. apply Z.mod_small. Qed.

Lemma u8_range x : in_u8 (u8 x).
Proof. by apply Z.mod_pos_bound. Qed.
Lemma u32_range x : in_u32 (u32 x).
Proof. by apply Z.mod_pos_bound. Qed.
Lemma u64_range x : in_u64 (u64 x).
Proof. by apply Z.mod_pos_bound. Qed.

Lemma i64_id x : in_i64 x -> i64 x = x.
Proof. unfold in_i64, i64. intros. rewrite Z.mod_small by lia. lia. Qed.
Lemma i64_range x : in_i64 (i64 x).
Proof.
  unfold in_i64, i64. pose proof (Z.mod_pos_bound (x + 2 ^ 63) (2 ^ 64)). lia.
Qed.

Lemma u64_add_l x y : u64 (u64 x + y) = u64 (x + y).
Proof. unfold u64. by rewrite Zplus_mod_idemp_l. Qed.
Lemma u64_add_r x y : u64 (x + u64 y) = u64 (x + y).
Proof. unfold u64. by rewrite Zplus_mod_idemp_r. Qed.

#[export] Hint Resolve u8_range u32_range u64_range i64_range : nm.

Lemma u32_le x : 0 <= x -> u32 x <= x.
Proof. intros. by apply Z.mod_le. Qed.

(** [assert] never stops a Release build, and never stops any build when its
    condition holds. *)
Lemma assert_Ok `{Build} b :
  (asserts_enabled = true -> b = true) -> assert_ b = Ok tt.
Proof. unfold assert_. destruct asserts_enabled, b; naive_solver. Qed.

Lemma vec_at_Ok {A} (v : list A) i x :
  v !! i = Some x -> vec_at v (Z.of_nat i) = Ok x.
Proof.
  intros Hi. unfold vec_at. rewrite (proj2 (Z.ltb_ge _ _)) by lia.
  by rewrite Nat2Z.id, Hi.
Qed.

Lemma vec_set_Ok {A} (v : list A) i x :
  (i < length v)%nat -> vec_set v (Z.of_nat i) x = Ok (<[i := x]> v).
Proof.
  intros Hi. unfold vec_set.
  rewrite (proj2 (Z.ltb_ge _ _)), (proj2 (Z.leb_gt _ _)) by lia.
  simpl. by rewrite Nat2Z.id.
Qed.

Lemma bind_Ok {A B} (m : res A) (k : A -> res B) r :
  bind m k = Ok r <-> exists a, m = Ok a /\ k a = Ok r.
Proof.
  split; [destruct m; simpl; [by eauto|done]|]. by intros (a & -> & E).
Qed.

