(* ===== verification/OrderTypes.v ===== *)
(** * Orders: [src/core/order.hpp]

    The enumerations, type aliases and the [Order] record, the object store
    the engine's [Order*] pointers point into, and the pointer accesses. *)

From stdpp Require Import base numbers list gmap fin_maps.
From Stdlib Require Import ZArith Lia.
From S2P Require Import Prelude.

(** ** Enumerations

    [Side] and [OrderType] have the fixed underlying type [uint8_t] and are
    produced by [static_cast] from an unchecked wire byte, so an object of
    these types can hold a byte that is no enumerator. *)

Inductive Side : Type :=
| Buy
| Sell
| SideRaw (v : Z).

Inductive OrderType : Type :=
| Limit
| Market
| IOC
| FOK
| TypeRaw (v : Z).

Inductive OrderStatus : Type :=
| New
| Partial
| Filled
| Cancelled
| Rejected.

#[export] Instance Side_eq_dec : EqDecision Side.
Proof. solve_decision. Defined.
#[export] Instance OrderType_eq_dec : EqDecision OrderType.
Proof. solve_decision. Defined.
#[export] Instance OrderStatus_eq_dec : EqDecision OrderStatus.
Proof. solve_decision. Defined.

Definition Side_of_u8 (b : Z) : Side :=
  if b =? 0 then Buy else if b =? 1 then Sell else SideRaw b.

Definition OrderType_of_u8 (b : Z) : OrderType :=
  if b =? 0 then Limit else if b =? 1 then Market
  else if b =? 2 then IOC else if b =? 3 then FOK else TypeRaw b.

(** ** Sentinels *)

Definition kInvalidOrderId : Z := 0.
Definition kInvalidInstrumentId : Z := 0xFFFFFFFF.
Definition kInvalidPrice : Z := INT64_MIN.

(** ** Pointers and the object store

    An [Order*] is [None] for [nullptr] or the address of an [Order] object;
    addresses count in units of [sizeof(Order)], which is what pointer
    arithmetic on [Order*] does. *)

Abbreviation ptr := (option nat).

Record Order : Type := mkOrder {
  o_order_id : Z;
  o_price : Z;
  o_timestamp_ns : Z;
  o_quantity : Z;
  o_orig_quantity : Z;
  o_instrument_id : Z;
  o_side : Side;
  o_type : OrderType;
  o_status : OrderStatus;
  o_pad0 : Z;
  o_next : ptr;
  o_prev : ptr;
  o_client_id : Z;
  o_reserved : Z
}.

#[export] Instance Order_eq_dec : EqDecision Order.
Proof. solve_decision. Defined.

Abbreviation heap := (gmap nat Order).

Definition is_buy (o : Order) : bool := bool_decide (o_side o = Buy).
Definition is_sell (o : Order) : bool := bool_decide (o_side o = Sell).
Definition is_filled (o : Order) : bool := bool_decide (o_status o = Filled).
Definition is_cancelled (o : Order) : bool := bool_decide (o_status o = Cancelled).
Definition is_active (o : Order) : bool :=
  bool_decide (o_status o = New) || bool_decide (o_status o = Partial).

(** [Order::reset()] *)
Definition Order_reset (o : Order) : Order := {|
  o_order_id := kInvalidOrderId;
  o_price := kInvalidPrice;
  o_timestamp_ns := 0;
  o_quantity := 0;
  o_orig_quantity := 0;
  o_instrument_id := kInvalidInstrumentId;
  o_side := Buy;
  o_type := Limit;
  o_status := New;
  o_pad0 := 0;
  o_next := None;
  o_prev := None;
  o_client_id := 0;
  o_reserved := 0
|}.

(** The members of [Order] with their size and alignment, in order. *)
Definition Order_members : list (Z * Z) :=
  [(8, 8); (8, 8); (8, 8); (4, 4); (4, 4); (4, 4); (1, 1); (1, 1); (1, 1);
   (1, 1); (8, 8); (8, 8); (8, 8); (8, 8)].

Definition sizeof_Order : Z := layout_size Order_members 64.

(** ** Member assignment *)

Definition set_next (n : ptr) (o : Order) : Order :=
  mkOrder (o_order_id o) (o_price o) (o_timestamp_ns o) (o_quantity o)
    (o_orig_quantity o) (o_instrument_id o) (o_side o) (o_type o) (o_status o)
    (o_pad0 o) n (o_prev o) (o_client_id o) (o_reserved o).

Definition set_prev (n : ptr) (o : Order) : Order :=
  mkOrder (o_order_id o) (o_price o) (o_timestamp_ns o) (o_quantity o)
    (o_orig_quantity o) (o_instrument_id o) (o_side o) (o_type o) (o_status o)
    (o_pad0 o) (o_next o) n (o_client_id o) (o_reserved o).

Definition set_quantity (q : Z) (o : Order) : Order :=
  mkOrder (o_order_id o) (o_price o) (o_timestamp_ns o) q
    (o_orig_quantity o) (o_instrument_id o) (o_side o) (o_type o) (o_status o)
    (o_pad0 o) (o_next o) (o_prev o) (o_client_id o) (o_reserved o).

Definition set_status (s : OrderStatus) (o : Order) : Order :=
  mkOrder (o_order_id o) (o_price o) (o_timestamp_ns o) (o_quantity o)
    (o_orig_quantity o) (o_instrument_id o) (o_side o) (o_type o) s
    (o_pad0 o) (o_next o) (o_prev o) (o_client_id o) (o_reserved o).

(** [*p] as a value and as the target of assignments. *)
Definition load (h : heap) (p : ptr) : res Order :=
  match p with
  | None => Err NullDeref
  | Some a => match h !! a with Some o => Ok o | None => Err BadAddress end
  end.

Definition store (h : heap) (p : ptr) (f : Order -> Order) : res heap :=
  match p with
  | None => Err NullDeref
  | Some a =>
      match h !! a with Some o => Ok (<[a := f o]> h) | None => Err BadAddress end
  end.

(** ** Lemmas *)

Lemma load_Ok h a o : h !! a = Some o -> load h (Some a) = Ok o.
Proof. intros Ha. simpl. by rewrite Ha. Qed.

Lemma store_Ok h a o f :
  h !! a = Some o -> store h (Some a) f = Ok (<[a := f o]> h).
Proof. intros Ha. simpl. by rewrite Ha. Qed.

(** Everything of an order except its list links. *)
Definition data (o : Order) : Order := set_next None (set_prev None o).

Lemma data_set_next n o : data (set_next n o) = data o.
Proof. done. Qed.
Lemma data_set_prev n o : data (set_prev n o) = data o.
Proof. done. Qed.

(** Two stores that hold the same objects up to their list links: the
    equivalence the list operations preserve. *)
Definition same_data (h h' : heap) : Prop := forall a, data <$> h !! a = data <$> h' !! a.

#[export] Instance same_data_equivalence : Equivalence same_data.
Proof.
  split.
  - by intros h a.
  - intros h h' E a. by rewrite E.
  - intros h1 h2 h3 E1 E2 a. by rewrite E1, E2.
Qed.

Lemma same_data_insert h a o o' :
  h !! a = Some o -> data o = data o' -> same_data h (<[a := o']> h).
Proof.
  intros Ha Ho b. destruct (decide (a = b)) as [->|].
  - rewrite Ha, lookup_insert_eq. simpl. by rewrite Ho.
  - by rewrite lookup_insert_ne.
Qed.

Lemma fmap_data_Some (x : option Order) o :
  data <$> x = data <$> Some o -> exists o', x = Some o' /\ data o' = data o.
Proof.
  destruct x as [o'|]; simpl; [|done]. intros E. exists o'. split; congruence.
Qed.

(** The remaining quantity of the object at an address, and the sum over a
    list of addresses. *)
Definition qty_at (h : heap) (a : nat) : Z := from_option o_quantity 0 (h !! a).

Definition sum_qty (h : heap) (ps : list nat) : Z :=
  foldr (fun a s => qty_at h a + s) 0 ps.

Lemma qty_at_data h a : qty_at h a = from_option o_quantity 0 (data <$> h !! a).
Proof. unfold qty_at. by destruct (h !! a). Qed.

#[export] Instance qty_at_proper : Proper (same_data ==> eq ==> eq) qty_at.
Proof. intros h h' E a ? <-. by rewrite !qty_at_data, E. Qed.

#[export] Instance sum_qty_proper : Proper (same_data ==> eq ==> eq) sum_qty.
Proof.
  intros h h' E ps ? <-. induction ps as [|a ps IH]; simpl; [done|].
  by rewrite IH, E.
Qed.

Lemma sum_qty_app h l1 l2 : sum_qty h (l1 ++ l2) = sum_qty h l1 + sum_qty h l2.
Proof. induction l1; simpl; lia. Qed.

Lemma sum_qty_agree h h' ps :
  (forall a, a ∈ ps -> h !! a = h' !! a) -> sum_qty h ps = sum_qty h' ps.
Proof.
  induction ps as [|a ps IH]; intros E; simpl; [done|].
  unfold qty_at at 1 2. rewrite E by set_solver. rewrite IH; set_solver.
Qed.
