(* ===== verification/OrderPool.v ===== *)
(** * The order pool: [src/core/order_pool.hpp]

    [OrderPool<Capacity>]: a slab of [Capacity] orders with an intrusive
    free list threaded through [Order::next].  The slab lives in the object
    store of [OrderTypes]; the pool keeps the address of its first slot. *)

From stdpp Require Import base numbers list gmap fin_maps.
From Stdlib Require Import ZArith Lia.
From S2P Require Import Prelude.
From S2P Require Import OrderTypes.

Record OrderPool : Type := mkPool {
  storage_ : nat;
  freelist_head_ : ptr;
  free_count_ : Z;
  bytes_allocated_ : Z;
  huge_pages_active_ : bool
}.

Definition kDefaultPoolCapacity : Z := 1000000.

(** The exception [OrderPool()] throws. *)
Inductive runtime_error : Type := MmapFailed.

Section pool.
Context `{Build} (Capacity : nat).

Definition is_from_this_pool (p : OrderPool) (q : ptr) : bool :=
  match q with
  | None => false
  | Some a => bool_decide (storage_ p <= a)%nat
              && bool_decide (a < storage_ p + Capacity)%nat
  end.

(** [acquire()] *)
Definition acquire (h : heap) (p : OrderPool) : res (heap * OrderPool * ptr) :=
  match freelist_head_ p with
  | None => Ok (h, p, None)
  | Some _ =>
      let order := freelist_head_ p in
      let* o := load h (freelist_head_ p) in
      let freelist_head' := o_next o in
      let* h1 := store h order Order_reset in
      Ok (h1,
          mkPool (storage_ p) freelist_head' (u64 (free_count_ p - 1))
            (bytes_allocated_ p) (huge_pages_active_ p),
          order)
  end.

(** [release(order)] *)
Definition release (h : heap) (p : OrderPool) (order : ptr) : res (heap * OrderPool) :=
  let* _ := assert_ (bool_decide (order <> None)) in
  let* _ := assert_ (is_from_this_pool p order) in
  let* h1 := store h order (set_next (freelist_head_ p)) in
  let* h2 := store h1 order (set_prev None) in
  Ok (h2,
      mkPool (storage_ p) order (u64 (free_count_ p + 1))
        (bytes_allocated_ p) (huge_pages_active_ p)).

(** [build_freelist()]: slots [i-1], ..., [0] are pushed in that order. *)
Fixpoint build_freelist_loop (base i : nat) (h : heap) (head : ptr) : res (heap * ptr) :=
  match i with
  | O => Ok (h, head)
  | S i' =>
      let* h1 := store h (Some (base + i')%nat) (set_next head) in
      let* h2 := store h1 (Some (base + i')%nat) (set_prev None) in
      build_freelist_loop base i' h2 (Some (base + i')%nat)
  end.

Definition build_freelist (h : heap) (p : OrderPool) : res (heap * OrderPool) :=
  let* '(h1, head) := build_freelist_loop (storage_ p) Capacity h None in
  Ok (h1, mkPool (storage_ p) head (Z.of_nat Capacity)
            (bytes_allocated_ p) (huge_pages_active_ p)).

(** [reset()] *)
Definition reset (h : heap) (p : OrderPool) : res (heap * OrderPool) :=
  build_freelist h p.

Definition capacity (p : OrderPool) : Z := Z.of_nat Capacity.
Definition free_count (p : OrderPool) : Z := free_count_ p.
Definition used_count (p : OrderPool) : Z := u64 (Z.of_nat Capacity - free_count_ p).
Definition huge_pages (p : OrderPool) : bool := huge_pages_active_ p.
Definition exhausted (p : OrderPool) : bool := bool_decide (freelist_head_ p = None).

(** ** Construction and destruction

    [mmap] is the operating system's: given whether [MAP_HUGETLB] is set and
    the length, the address of a zero-filled private mapping or [None] for
    [MAP_FAILED]. *)
Variable mmap : bool -> Z -> option nat.

Definition zero_Order : Order :=
  mkOrder 0 0 0 0 0 0 Buy Limit New 0 None None 0 0.

Fixpoint map_zero (base n : nat) (h : heap) : heap :=
  match n with
  | O => h
  | S n' => <[(base + n')%nat := zero_Order]> (map_zero base n' h)
  end.

Fixpoint unmap (base n : nat) (h : heap) : heap :=
  match n with
  | O => h
  | S n' => delete (base + n')%nat (unmap base n' h)
  end.

Definition OrderPool_new (h : heap) : res (heap * OrderPool + runtime_error) :=
  let bytes := u64 (Z.of_nat Capacity * sizeof_Order) in
  let finish base huge :=
    let p := mkPool base None 0 bytes huge in
    let* '(h1, p1) := build_freelist (map_zero base (Z.to_nat (bytes / sizeof_Order)) h) p in
    Ok (inl (h1, p1)) in
  match mmap true bytes with
  | Some base => finish base true
  | None =>
      match mmap false bytes with
      | Some base => finish base false
      | None => Ok (inr MmapFailed)
      end
  end.

(** [~OrderPool]: the constructor throws unless a slab is mapped, so the
    [storage_] of an object to destroy is the address of one and the guard
    against [nullptr] and [MAP_FAILED], which [storage_] cannot hold here,
    always passes. *)
Definition OrderPool_delete (h : heap) (p : OrderPool) : heap :=
  unmap (storage_ p) (Z.to_nat (bytes_allocated_ p / sizeof_Order)) h.

End pool.

(** * The free list as a list of addresses *)

Fixpoint freelist (h : heap) (hd : ptr) (fs : list nat) : Prop :=
  match fs with
  | [] => hd = None
  | a :: fs' => hd = Some a /\ exists o, h !! a = Some o /\ freelist h (o_next o) fs'
  end.

Definition in_slab (Capacity : nat) (p : OrderPool) (a : nat) : Prop :=
  (storage_ p <= a < storage_ p + Capacity)%nat.

(** The pool's invariant: [fs] is the free list, most recently released slot
    first.  The slots of the slab that are not in [fs] are the ones handed
    out. *)
Record pool_rep (Capacity : nat) (h : heap) (p : OrderPool) (fs : list nat) : Prop := {
  pr_list : freelist h (freelist_head_ p) fs;
  pr_nodup : NoDup fs;
  pr_in : forall a, a ∈ fs -> in_slab Capacity p a;
  pr_count : free_count_ p = Z.of_nat (length fs);
  pr_mem : forall a, in_slab Capacity p a -> is_Some (h !! a);
  pr_size : Z.of_nat Capacity < 2 ^ 64
}.

Lemma freelist_agree h h' hd fs :
  (forall a, a ∈ fs -> o_next <$> h !! a = o_next <$> h' !! a) ->
  freelist h hd fs -> freelist h' hd fs.
Proof.
  revert hd. induction fs as [|a fs IH]; intros hd E; simpl; [done|].
  intros (-> & o & Ha & Hfs). split; [done|].
  specialize (E a ltac:(set_solver)) as Ea. rewrite Ha in Ea. simpl in Ea.
  destruct (h' !! a) as [o'|] eqn:Ha'; [|done]. simpl in Ea. injection Ea as Ea.
  exists o'. split; [done|]. rewrite <- Ea. apply IH; [set_solver|done].
Qed.

Lemma freelist_insert h hd fs a o :
  a ∉ fs -> freelist h hd fs -> freelist (<[a := o]> h) hd fs.
Proof.
  intros Ha. apply freelist_agree. intros b Hb. rewrite lookup_insert_ne; set_solver.
Qed.

Section pool_lemmas.
Context `{Build} (Capacity : nat).
Implicit Types (h : heap) (p : OrderPool) (fs : list nat) (a : nat) (o : Order).

Lemma is_from_this_pool_spec p a :
  is_from_this_pool Capacity p (Some a) = true <-> in_slab Capacity p a.
Proof. unfold in_slab. simpl. rewrite andb_true_iff, !bool_decide_eq_true. done. Qed.

Lemma in_slab_iff p a : in_slab Capacity p a <-> a ∈ seq (storage_ p) Capacity.
Proof. by rewrite elem_of_seq. Qed.

Lemma pool_rep_length h p fs : pool_rep Capacity h p fs -> (length fs <= Capacity)%nat.
Proof.
  intros [_ Hnd Hin _ _ _]. rewrite <- (length_seq Capacity (storage_ p)).
  apply submseteq_length, NoDup_submseteq; [done|].
  intros a Ha. by apply in_slab_iff, Hin.
Qed.

(** A store update that keeps the links of the free slots keeps the pool's
    invariant: the rest of the engine may write to any slot handed out. *)
Lemma pool_rep_frame h h' p fs :
  (forall a, a ∈ fs -> h !! a = h' !! a) ->
  (forall a, is_Some (h !! a) -> is_Some (h' !! a)) ->
  pool_rep Capacity h p fs -> pool_rep Capacity h' p fs.
Proof.
  intros E Hdom [Hl Hnd Hin Hc Hm Hs]. split; try done.
  - eapply freelist_agree; [|done]. intros a Ha. by rewrite E.
  - eauto.
Qed.

Lemma acquire_empty h p :
  pool_rep Capacity h p [] -> acquire h p = Ok (h, p, None).
Proof. intros [Hl _ _ _ _ _]. unfold acquire. simpl in Hl. by rewrite Hl. Qed.

Lemma acquire_cons h p a fs :
  pool_rep Capacity h p (a :: fs) ->
  exists o p',
    h !! a = Some o /\
    acquire h p = Ok (<[a := Order_reset o]> h, p', Some a) /\
    storage_ p' = storage_ p /\
    pool_rep Capacity (<[a := Order_reset o]> h) p' fs.
Proof.
  intros Hp. pose proof (pool_rep_length _ _ _ Hp) as Hlen.
  destruct Hp as [(Hhd & o & Ha & Hl) Hnd Hin Hc Hm Hs].
  apply NoDup_cons in Hnd as [Hna Hnd].
  eexists o, _. split; [done|]. unfold acquire. rewrite Hhd. cbn [load bind].
  rewrite Ha. cbn [bind]. rewrite (store_Ok _ _ _ _ Ha). cbn [bind].
  split; [done|]. split; [done|]. split; simpl.
  - by apply freelist_insert.
  - done.
  - set_solver.
  - simpl in *. rewrite u64_id; unfold in_u64; lia.
  - intros b Hb. apply lookup_insert_is_Some'. right. by apply Hm.
  - done.
Qed.

Lemma release_rep h p fs a o :
  pool_rep Capacity h p fs ->
  in_slab Capacity p a -> a ∉ fs -> h !! a = Some o ->
  let o' := set_prev None (set_next (freelist_head_ p) o) in
  exists p',
    release Capacity h p (Some a) = Ok (<[a := o']> h, p') /\
    storage_ p' = storage_ p /\
    pool_rep Capacity (<[a := o']> h) p' (a :: fs).
Proof.
  intros Hp Hslab Hna Ha o'.
  assert (pool_rep Capacity (<[a := o']> h) p fs) as Hp'.
  { eapply pool_rep_frame; [..|done].
    - intros b Hb. rewrite lookup_insert_ne; set_solver.
    - intros b Hb. apply lookup_insert_is_Some'. by right. }
  assert (length (a :: fs) <= Capacity)%nat as Hlen.
  { rewrite <- (length_seq Capacity (storage_ p)).
    apply submseteq_length, NoDup_submseteq; [by constructor; [|apply Hp]|].
    intros b Hb%elem_of_cons. apply in_slab_iff. destruct Hb as [->|Hb]; [done|].
    by apply (pr_in _ _ _ _ Hp). }
  eexists. unfold release.
  rewrite assert_Ok by (intros; by apply bool_decide_eq_true).
  cbn [bind]. rewrite assert_Ok by (intros; by apply is_from_this_pool_spec).
  cbn [bind]. rewrite (store_Ok _ _ _ _ Ha). cbn [bind].
  rewrite (store_Ok _ _ (set_next (freelist_head_ p) o)) by apply lookup_insert_eq.
  cbn [bind]. rewrite insert_insert_eq. split; [done|]. split; [done|].
  destruct Hp' as [Hl Hnd Hin Hc Hm Hs]. simpl in Hlen. split; simpl.
  - split; [done|]. eexists. rewrite lookup_insert_eq. split; [done|]. done.
  - by constructor.
  - intros b Hb%elem_of_cons. destruct Hb as [->|Hb]; [done|]. by apply Hin.
  - simpl in *. rewrite u64_id; unfold in_u64; lia.
  - done.
  - done.
Qed.

(** The loop of [build_freelist] leaves slots [base], ..., [base+i-1] in
    front of the list built so far. *)
Lemma build_freelist_loop_rep base i h hd fs :
  (forall a, (base <= a < base + i)%nat -> is_Some (h !! a)) ->
  (forall a, a ∈ fs -> (base + i <= a)%nat) ->
  freelist h hd fs ->
  exists h' hd',
    build_freelist_loop base i h hd = Ok (h', hd') /\
    freelist h' hd' (seq base i ++ fs) /\
    (forall a, is_Some (h !! a) -> is_Some (h' !! a)) /\
    (forall a, ~ (base <= a < base + i)%nat -> h' !! a = h !! a).
Proof.
  revert h hd fs. induction i as [|i IH]; intros h hd fs Hm Hfs Hl.
  { exists h, hd. naive_solver. }
  destruct (Hm (base + i)%nat ltac:(lia)) as [o Ho].
  set (o' := set_prev None (set_next hd o)).
  destruct (IH (<[(base + i)%nat := o']> h) (Some (base + i)%nat)
              ((base + i)%nat :: fs)) as (h' & hd' & E & Hl' & Hd & Hf).
  - intros a Hab. apply lookup_insert_is_Some'. right. apply Hm. lia.
  - intros a Hab%elem_of_cons. destruct Hab as [->|Hab]; [lia|].
    specialize (Hfs _ Hab). lia.
  - split; [done|]. eexists. rewrite lookup_insert_eq. split; [done|].
    apply freelist_insert; [|done]. intros Hab. specialize (Hfs _ Hab). lia.
  - exists h', hd'. split.
    { cbn [build_freelist_loop]. rewrite (store_Ok _ _ _ _ Ho). cbn [bind].
      rewrite (store_Ok _ _ (set_next hd o)) by apply lookup_insert_eq.
      cbn [bind]. by rewrite insert_insert_eq. }
    split.
    { rewrite seq_S, <- app_assoc. done. }
    split.
    + intros a Hab. apply Hd, lookup_insert_is_Some'. by right.
    + intros a Hab. rewrite Hf by lia. rewrite lookup_insert_ne by lia. done.
Qed.

Lemma build_freelist_rep h p :
  (forall a, in_slab Capacity p a -> is_Some (h !! a)) ->
  Z.of_nat Capacity < 2 ^ 64 ->
  exists h' p',
    build_freelist Capacity h p = Ok (h', p') /\
    storage_ p' = storage_ p /\
    pool_rep Capacity h' p' (seq (storage_ p) Capacity) /\
    (forall a, ~ in_slab Capacity p a -> h' !! a = h !! a).
Proof.
  intros Hm Hs. unfold build_freelist.
  destruct (build_freelist_loop_rep (storage_ p) Capacity h None [])
    as (h' & hd' & E & Hl & Hd & Hf); [done|set_solver|done|].
  rewrite E. cbn [bind]. eexists h', _. split; [done|]. split; [done|].
  rewrite app_nil_r in Hl. split; [|done]. split; simpl; try done.
  - apply NoDup_seq.
  - intros a Ha. by apply in_slab_iff.
  - by rewrite length_seq.
  - intros a Ha. apply Hd, Hm, Ha.
Qed.

Lemma lookup_map_zero base n h a :
  map_zero base n h !! a =
    if decide (base <= a < base + n)%nat then Some zero_Order else h !! a.
Proof.
  induction n as [|n IH]; simpl.
  { rewrite decide_False by lia. done. }
  destruct (decide (a = base + n)%nat) as [->|].
  - rewrite lookup_insert_eq, decide_True by lia. done.
  - rewrite lookup_insert_ne by lia. rewrite IH.
    repeat case_decide; try done; lia.
Qed.

Lemma lookup_unmap base n h a :
  unmap base n h !! a = if decide (base <= a < base + n)%nat then None else h !! a.
Proof.
  induction n as [|n IH]; simpl.
  { rewrite decide_False by lia. done. }
  destruct (decide (a = base + n)%nat) as [->|].
  - rewrite lookup_delete_eq, decide_True by lia. done.
  - rewrite lookup_delete_ne by lia. rewrite IH.
    repeat case_decide; try done; lia.
Qed.

(** A mapping of [bytes] holds the whole slab when the size does not wrap. *)
Lemma slab_bytes :
  Z.of_nat Capacity * sizeof_Order < 2 ^ 64 ->
  Z.to_nat (u64 (Z.of_nat Capacity * sizeof_Order) / sizeof_Order) = Capacity.
Proof.
  change sizeof_Order with 128. intros Hc. rewrite u64_id by (unfold in_u64; lia).
  rewrite Z.div_mul by lia. apply Nat2Z.id.
Qed.

(** The constructor: every slot free, or an exception. *)
Lemma OrderPool_new_rep (mmap : bool -> Z -> option nat) h :
  Z.of_nat Capacity * sizeof_Order < 2 ^ 64 ->
  let bytes := u64 (Z.of_nat Capacity * sizeof_Order) in
  match mmap true bytes, mmap false bytes with
  | Some base, _ | None, Some base =>
      exists h' p, OrderPool_new Capacity mmap h = Ok (inl (h', p)) /\ storage_ p = base /\
        pool_rep Capacity h' p (seq base Capacity)
  | None, None => OrderPool_new Capacity mmap h = Ok (inr MmapFailed)
  end.
Proof.
  intros Hc bytes. pose proof (slab_bytes Hc) as Hsb. unfold OrderPool_new. cbv zeta.
  fold bytes in Hsb |- *. rewrite Hsb.
  assert (forall base huge, exists h' p',
    build_freelist Capacity (map_zero base Capacity h) (mkPool base None 0 bytes huge) = Ok (h', p') /\
    storage_ p' = base /\ pool_rep Capacity h' p' (seq base Capacity)) as Hb.
  { intros base huge.
    destruct (build_freelist_rep (map_zero base Capacity h) (mkPool base None 0 bytes huge))
      as (h' & p' & E & Hs & Hp & _); [| |by exists h', p'].
    - intros a Ha. rewrite lookup_map_zero, decide_True by exact Ha. by eexists.
    - change sizeof_Order with 128 in Hc. lia. }
  destruct (mmap true _) as [base|]; [|destruct (mmap false _) as [base|]; [|done]].
  - destruct (Hb base true) as (h' & p & E & Hs & Hp). rewrite E. by exists h', p.
  - destruct (Hb base false) as (h' & p & E & Hs & Hp). rewrite E. by exists h', p.
Qed.

End pool_lemmas.
