(* ===== verification/PoolTheorems.v ===== *)
(** * The properties of the order pool *)

From stdpp Require Import base numbers list gmap fin_maps.
From Stdlib Require Import ZArith Lia.
From S2P Require Import Prelude.
From S2P Require Import OrderTypes.
From S2P Require Import OrderPool.

(** The calls a client makes. *)
Inductive pool_op : Type := PoolAcquire | PoolRelease (a : nat) | PoolReset.

Section pool.
Context `{Build} (Capacity : nat).

(** The specification: a stack of free slots.  [base] is the first slot. *)
Definition spec_pool_op (base : nat) (op : pool_op) (fs : list nat) : list nat * option nat :=
  match op with
  | PoolAcquire => match fs with [] => ([], None) | a :: fs' => (fs', Some a) end
  | PoolRelease a => (a :: fs, None)
  | PoolReset => (seq base Capacity, None)
  end.

(** Only slots that are handed out may be released. *)
Definition legal_op (base : nat) (op : pool_op) (fs : list nat) : Prop :=
  match op with
  | PoolRelease a => (base <= a < base + Capacity)%nat /\ a ∉ fs
  | _ => True
  end.

Fixpoint spec_pool_run (base : nat) (ops : list pool_op) (fs : list nat)
  : list nat * list (option nat) :=
  match ops with
  | [] => (fs, [])
  | op :: ops' =>
      let '(fs1, r) := spec_pool_op base op fs in
      let '(fs2, rs) := spec_pool_run base ops' fs1 in (fs2, r :: rs)
  end.

Fixpoint legal_run (base : nat) (ops : list pool_op) (fs : list nat) : Prop :=
  match ops with
  | [] => True
  | op :: ops' => legal_op base op fs /\ legal_run base ops' (spec_pool_op base op fs).1
  end.

Definition pool_op_run (op : pool_op) (h : heap) (p : OrderPool) : res (heap * OrderPool * ptr) :=
  match op with
  | PoolAcquire => acquire h p
  | PoolRelease a => let* '(h1, p1) := release Capacity h p (Some a) in Ok (h1, p1, None)
  | PoolReset => let* '(h1, p1) := reset Capacity h p in Ok (h1, p1, None)
  end.

Fixpoint pool_run (ops : list pool_op) (h : heap) (p : OrderPool)
  : res (heap * OrderPool * list ptr) :=
  match ops with
  | [] => Ok (h, p, [])
  | op :: ops' =>
      let* '(h1, p1, r) := pool_op_run op h p in
      let* '(h2, p2, rs) := pool_run ops' h1 p1 in Ok (h2, p2, r :: rs)
  end.

Lemma pool_op_refines op h p fs :
  pool_rep Capacity h p fs -> legal_op (storage_ p) op fs ->
  exists h' p', pool_op_run op h p = Ok (h', p', (spec_pool_op (storage_ p) op fs).2) /\
    pool_rep Capacity h' p' (spec_pool_op (storage_ p) op fs).1 /\ storage_ p' = storage_ p.
Proof.
  intros Hp Hlegal. destruct op as [|a|]; cbn [pool_op_run spec_pool_op legal_op] in *.
  - destruct fs as [|a fs].
    + rewrite (acquire_empty _ _ _ Hp). by exists h, p.
    + destruct (acquire_cons _ _ _ _ _ Hp) as (o & p' & _ & -> & Hs & Hp'). eauto.
  - destruct Hlegal as [Hslab Hnot]. destruct (pr_mem _ _ _ _ Hp a Hslab) as [o Ho].
    destruct (release_rep _ _ _ _ _ _ Hp Hslab Hnot Ho) as (p' & -> & Hs & Hp'). cbn [bind]. eauto.
  - destruct (build_freelist_rep Capacity h p (pr_mem _ _ _ _ Hp) (pr_size _ _ _ _ Hp))
      as (h' & p' & E & Hs & Hp' & _).
    unfold reset. rewrite E. cbn [bind]. by exists h', p'.
Qed.

(** C32: the pool is a stack of free slots: any sequence of [acquire],
    [release] of slots that are handed out, and [reset] never touches memory
    outside the slab and returns the slots the specification does, the most
    recently released one first, and null exactly when none is free;
    [free_count] is the number of free slots throughout. *)
Theorem pool_refines_stack (ops : list pool_op) (h : heap) (p : OrderPool) (fs : list nat) :
  pool_rep Capacity h p fs -> legal_run (storage_ p) ops fs ->
  exists h' p', pool_run ops h p = Ok (h', p', (spec_pool_run (storage_ p) ops fs).2) /\
    pool_rep Capacity h' p' (spec_pool_run (storage_ p) ops fs).1 /\
    free_count p' = Z.of_nat (length (spec_pool_run (storage_ p) ops fs).1).
Proof.
  revert h p fs. induction ops as [|op ops IH]; intros h p fs Hp Hl; cbn [pool_run spec_pool_run].
  { exists h, p. split_and!; [done|done|apply Hp]. }
  destruct Hl as [Hop Hl]. destruct (pool_op_refines op h p fs Hp Hop) as (h1 & p1 & -> & Hp1 & Hs1).
  cbn [bind]. destruct (spec_pool_op (storage_ p) op fs) as [fs1 r]. cbn [fst snd] in *.
  rewrite <- Hs1 in Hl. destruct (IH h1 p1 fs1 Hp1 Hl) as (h2 & p2 & -> & Hp2 & Hc). cbn [bind].
  rewrite Hs1 in *. destruct (spec_pool_run (storage_ p) ops fs1). by exists h2, p2.
Qed.

(** Construction: when [mmap] gives a slab, from huge pages or from the
    fallback, every slot is free, slot 0 first; when both attempts fail the
    constructor throws. *)
Theorem pool_construction (mmap : bool -> Z -> option nat) (h : heap) :
  Z.of_nat Capacity * sizeof_Order < 2 ^ 64 ->
  let bytes := u64 (Z.of_nat Capacity * sizeof_Order) in
  match mmap true bytes, mmap false bytes with
  | Some base, _ | None, Some base =>
      exists h' p, OrderPool_new Capacity mmap h = Ok (inl (h', p)) /\ storage_ p = base /\
        pool_rep Capacity h' p (seq base Capacity)
  | None, None => OrderPool_new Capacity mmap h = Ok (inr MmapFailed)
  end.
Proof. apply OrderPool_new_rep. Qed.

End pool.

(** ** The theorems at work *)

#[local] Existing Instance Release.

Definition px_mmap (huge : bool) (bytes : Z) : option nat := if huge then None else Some 100%nat.

Lemma pool_construction_witness :
  exists h p, OrderPool_new 4 px_mmap ∅ = Ok (inl (h, p)) /\ pool_rep 4 h p [100; 101; 102; 103]%nat.
Proof.
  destruct (pool_construction 4 px_mmap ∅) as (h & p & E & _ & Hp); [vm_compute; reflexivity|].
  exists h, p. split; [exact E|exact Hp].
Defined.

Definition px_pool : heap * OrderPool :=
  match OrderPool_new 4 px_mmap ∅ with
  | Ok (inl hp) => hp
  | _ => (∅, mkPool 0 None 0 0 false)
  end.

Lemma px_pool_rep : pool_rep 4 px_pool.1 px_pool.2 [100; 101; 102; 103]%nat.
Proof.
  destruct (OrderPool_new_rep 4 px_mmap ∅) as (h' & p' & E & _ & Hp); [vm_compute; reflexivity|].
  unfold px_pool. rewrite E. exact Hp.
Qed.

Lemma pool_refines_stack_witness :
  exists h' p', pool_run 4 [PoolAcquire; PoolAcquire; PoolRelease 100; PoolAcquire; PoolReset; PoolAcquire]
    px_pool.1 px_pool.2
  = Ok (h', p', [Some 100; Some 101; None; Some 100; None; Some 100]%nat).
Proof.
  destruct (pool_refines_stack 4
    [PoolAcquire; PoolAcquire; PoolRelease 100; PoolAcquire; PoolReset; PoolAcquire]
    px_pool.1 px_pool.2 [100; 101; 102; 103]%nat) as (h' & p' & E & _).
  - exact px_pool_rep.
  - split; [exact I|]. split; [exact I|]. split; [|split; [exact I|split; [exact I|split; exact I]]].
    split; [change (storage_ px_pool.2) with 100%nat; lia|]. cbn. set_solver.
  - exists h', p'. exact E.
Defined.
