(* ===== verification/PriceLevel.v ===== *)
(** * Price levels: [PriceLevel] and the [level_*] functions of
    [src/lob/order_book.hpp]

    A level is the header of an intrusive doubly linked queue threaded
    through [Order::next] / [Order::prev].  The functions take the level by
    reference and write to the orders it links, so each is a function from a
    store and a level to a store and a level. *)

From stdpp Require Import base numbers list gmap fin_maps.
From Stdlib Require Import ZArith Lia.
From S2P Require Import Prelude.
From S2P Require Import OrderTypes.

Record PriceLevel : Type := mkLevel {
  lv_head : ptr;
  lv_tail : ptr;
  lv_price : Z;
  lv_total_qty : Z;
  lv_order_count : Z
}.

Definition PriceLevel_members : list (Z * Z) :=
  [(8, 8); (8, 8); (8, 8); (4, 4); (4, 4)].

Definition sizeof_PriceLevel : Z := layout_size PriceLevel_members 8.

(** [if (x >= y) x -= y; else x = 0;] on [uint32_t]. *)
Definition sub_clamp (x y : Z) : Z := if x >=? y then u32 (x - y) else 0.

Section level.
Context `{Build}.

Definition level_empty (lvl : PriceLevel) : bool := bool_decide (lv_head lvl = None).

Definition level_enqueue_tail (h : heap) (lvl : PriceLevel) (o : ptr)
  : res (heap * PriceLevel) :=
  match o with
  | None => Ok (h, lvl)
  | Some _ =>
      let* _ := assert_ (bool_decide (o <> None)) in
      let* h1 := store h o (set_next None) in
      let* h2 := store h1 o (set_prev (lv_tail lvl)) in
      let* '(h3, head1) :=
        match lv_tail lvl with
        | Some _ =>
            let* h3 := store h2 (lv_tail lvl) (set_next o) in Ok (h3, lv_head lvl)
        | None => Ok (h2, o)
        end in
      let* ord := load h3 o in
      Ok (h3, mkLevel head1 o (lv_price lvl)
                (u32 (lv_total_qty lvl + o_quantity ord))
                (u32 (lv_order_count lvl + 1)))
  end.

Definition level_dequeue_head (h : heap) (lvl : PriceLevel)
  : res (heap * PriceLevel * ptr) :=
  let o := lv_head lvl in
  match o with
  | None => Ok (h, lvl, None)
  | Some _ =>
      let* ord := load h o in
      let head1 := o_next ord in
      let* '(h1, tail1) :=
        match head1 with
        | Some _ => let* h1 := store h head1 (set_prev None) in Ok (h1, lv_tail lvl)
        | None => Ok (h, None)
        end in
      let* ord1 := load h1 o in
      let* _ := assert_ (lv_total_qty lvl >=? o_quantity ord1) in
      let* _ := assert_ (lv_order_count lvl >=? 1) in
      let total1 := sub_clamp (lv_total_qty lvl) (o_quantity ord1) in
      let count1 := sub_clamp (lv_order_count lvl) 1 in
      let* h2 := store h1 o (set_next None) in
      let* h3 := store h2 o (set_prev None) in
      Ok (h3, mkLevel head1 tail1 (lv_price lvl) total1 count1, o)
  end.

Definition level_remove (h : heap) (lvl : PriceLevel) (o : ptr)
  : res (heap * PriceLevel) :=
  match o with
  | None => Ok (h, lvl)
  | Some _ =>
      let* _ := assert_ (bool_decide (o <> None)) in
      let* ord := load h o in
      let* _ := assert_ (lv_order_count lvl >=? 1) in
      let* _ := assert_ (lv_total_qty lvl >=? o_quantity ord) in
      let* '(h1, head1) :=
        match o_prev ord with
        | Some _ =>
            let* h1 := store h (o_prev ord) (set_next (o_next ord)) in
            Ok (h1, lv_head lvl)
        | None => Ok (h, o_next ord)
        end in
      let* ord1 := load h1 o in
      let* '(h2, tail1) :=
        match o_next ord1 with
        | Some _ =>
            let* h2 := store h1 (o_next ord1) (set_prev (o_prev ord1)) in
            Ok (h2, lv_tail lvl)
        | None => Ok (h1, o_prev ord1)
        end in
      let* ord2 := load h2 o in
      let total1 := sub_clamp (lv_total_qty lvl) (o_quantity ord2) in
      let count1 := sub_clamp (lv_order_count lvl) 1 in
      let* h3 := store h2 o (set_next None) in
      let* h4 := store h3 o (set_prev None) in
      Ok (h4, mkLevel head1 tail1 (lv_price lvl) total1 count1)
  end.

Definition level_reduce_qty (h : heap) (lvl : PriceLevel) (o : ptr) (delta : Z)
  : res (heap * PriceLevel) :=
  match o with
  | None => Ok (h, lvl)
  | Some _ =>
      let* ord := load h o in
      let* _ := assert_ (delta <=? o_quantity ord) in
      let* _ := assert_ (lv_total_qty lvl >=? delta) in
      let* h1 := store h o (set_quantity (sub_clamp (o_quantity ord) delta)) in
      Ok (h1, mkLevel (lv_head lvl) (lv_tail lvl) (lv_price lvl)
                (sub_clamp (lv_total_qty lvl) delta) (lv_order_count lvl))
  end.

End level.

(** * The queue as a list of addresses *)

(** The first element of [ps], or [nx] when there is none; the last element
    of [ps], or [pv] when there is none. *)
Definition first_of (ps : list nat) (nx : ptr) : ptr :=
  match ps with [] => nx | p :: _ => Some p end.
Definition last_of (ps : list nat) (pv : ptr) : ptr :=
  match last ps with Some q => Some q | None => pv end.

(** [dseg h pv ps nx]: the objects at [ps] are linked in order, the first
    pointing back to [pv] and the last forward to [nx]. *)
Fixpoint dseg (h : heap) (pv : ptr) (ps : list nat) (nx : ptr) : Prop :=
  match ps with
  | [] => True
  | p :: ps' =>
      (exists o, h !! p = Some o /\ o_prev o = pv /\ o_next o = first_of ps' nx)
      /\ dseg h (Some p) ps' nx
  end.

Record level_rep (h : heap) (lvl : PriceLevel) (ps : list nat) : Prop := {
  lr_head : lv_head lvl = first_of ps None;
  lr_tail : lv_tail lvl = last_of ps None;
  lr_seg : dseg h None ps None;
  lr_nodup : NoDup ps
}.

(** The aggregates are exact: the quantity is the sum over the queue, which
    fits [uint32_t], and the count its length. *)
Record level_agg (h : heap) (lvl : PriceLevel) (ps : list nat) : Prop := {
  la_total : lv_total_qty lvl = sum_qty h ps;
  la_fits : in_u32 (sum_qty h ps);
  la_count : lv_order_count lvl = Z.of_nat (length ps);
  la_count_fits : Z.of_nat (length ps) < 2 ^ 32;
  la_nonneg : forall a, a ∈ ps -> 0 <= qty_at h a
}.

Lemma first_of_app l1 l2 nx : first_of (l1 ++ l2) nx = first_of l1 (first_of l2 nx).
Proof. by destruct l1. Qed.

Lemma last_of_snoc l q pv : last_of (l ++ [q]) pv = Some q.
Proof. unfold last_of. by rewrite last_snoc. Qed.

Lemma last_of_app l1 l2 pv : last_of (l1 ++ l2) pv = last_of l2 (last_of l1 pv).
Proof.
  destruct l2 as [|x l2 _] using rev_ind.
  - by rewrite app_nil_r.
  - by rewrite app_assoc, !last_of_snoc.
Qed.

Lemma last_of_cons p l pv : last_of (p :: l) pv = last_of l (Some p).
Proof. change (p :: l) with ([p] ++ l). by rewrite last_of_app. Qed.

Lemma dseg_app h pv l1 l2 nx :
  dseg h pv (l1 ++ l2) nx <->
  dseg h pv l1 (first_of l2 nx) /\ dseg h (last_of l1 pv) l2 nx.
Proof.
  revert pv. induction l1 as [|p l1 IH]; intros pv; simpl; [naive_solver|].
  rewrite IH, first_of_app, last_of_cons. naive_solver.
Qed.

(** A segment depends on nothing but the links of its elements. *)
Definition links (o : Order) : ptr * ptr := (o_prev o, o_next o).

Lemma dseg_links h h' pv ps nx :
  (forall a, a ∈ ps -> links <$> h' !! a = links <$> h !! a) ->
  dseg h pv ps nx -> dseg h' pv ps nx.
Proof.
  revert pv. induction ps as [|p ps IH]; intros pv E; simpl; [done|].
  intros [(o & Ho & Hp & Hn) Hs]. split; [|apply IH; [set_solver|done]].
  specialize (E p ltac:(set_solver)). rewrite Ho in E. unfold links in E.
  destruct (h' !! p) as [o'|]; simplify_eq/=. eexists. split; [done|]. by split; congruence.
Qed.

Lemma dseg_frame h h' pv ps nx :
  (forall a, a ∈ ps -> h' !! a = h !! a) -> dseg h pv ps nx -> dseg h' pv ps nx.
Proof. intros E. apply dseg_links. intros a Ha. by rewrite E. Qed.

Lemma dseg_lookup h pv ps nx a :
  dseg h pv ps nx -> a ∈ ps -> is_Some (h !! a).
Proof.
  revert pv. induction ps as [|p ps IH]; intros pv; simpl; [set_solver|].
  intros [(o & Ho & _) Hs] [->|Ha]%elem_of_cons; eauto.
Qed.

(** The links of the element at a split point. *)
Lemma dseg_mid h pv l1 a l2 nx :
  dseg h pv (l1 ++ a :: l2) nx ->
  exists o, h !! a = Some o /\ o_prev o = last_of l1 pv /\ o_next o = first_of l2 nx.
Proof. rewrite dseg_app. by intros [_ [H _]]. Qed.

(** Rewriting the forward link out of a segment and the backward link into
    one. *)
Lemma dseg_set_next h pv l q nx nx' o :
  dseg h pv (l ++ [q]) nx -> q ∉ l -> h !! q = Some o ->
  dseg (<[q := set_next nx' o]> h) pv (l ++ [q]) nx'.
Proof.
  intros Hs Hq Ho. apply dseg_app in Hs as [Hl Hx].
  apply dseg_app. split.
  - eapply dseg_frame; [|done]. intros b Hb. rewrite lookup_insert_ne; set_solver.
  - destruct Hx as [(o1 & Ho1 & Hp & _) _].
    assert (o1 = o) as -> by congruence. split; [|done].
    exists (set_next nx' o). by rewrite lookup_insert_eq.
Qed.

Lemma dseg_set_prev h pv pv' q l nx o :
  dseg h pv (q :: l) nx -> q ∉ l -> h !! q = Some o ->
  dseg (<[q := set_prev pv' o]> h) pv' (q :: l) nx.
Proof.
  intros [(o1 & Ho1 & _ & Hn) Hl] Hq Ho.
  assert (o1 = o) as -> by congruence. split.
  - exists (set_prev pv' o). by rewrite lookup_insert_eq.
  - eapply dseg_frame; [|done]. intros b Hb. rewrite lookup_insert_ne; set_solver.
Qed.

(** The two halves of [level_remove]: what the neighbour assignments do to
    the segments on either side. *)
Lemma relink_left h l1 m n hd :
  dseg h None l1 m -> NoDup l1 -> hd = first_of l1 m ->
  exists h1 hd1,
    match last_of l1 None with
    | Some _ =>
        let* h1 := store h (last_of l1 None) (set_next n) in Ok (h1, hd)
    | None => Ok (h, n)
    end = Ok (h1, hd1)
    /\ hd1 = first_of l1 n /\ dseg h1 None l1 n
    /\ same_data h h1 /\ (forall b, b ∉ l1 -> h1 !! b = h !! b).
Proof.
  intros Hs Hnd ->. destruct l1 as [|q l _] using rev_ind.
  { exists h, n. simpl. repeat split; try done. }
  apply NoDup_app in Hnd as (_ & Hd & _).
  assert (q ∉ l) as Hq by set_solver.
  destruct (dseg_lookup _ _ _ _ q Hs ltac:(set_solver)) as [o Ho].
  rewrite last_of_snoc, (store_Ok _ _ _ _ Ho). cbn [bind].
  eexists _, _. split; [done|]. split; [by destruct l|].
  split; [by eapply dseg_set_next|].
  split; [by eapply same_data_insert|].
  intros b Hb. rewrite lookup_insert_ne; set_solver.
Qed.

Lemma relink_right h pv l2 m tl :
  dseg h m l2 None -> NoDup l2 -> tl = last_of l2 m ->
  exists h1 tl1,
    match first_of l2 None with
    | Some _ =>
        let* h1 := store h (first_of l2 None) (set_prev pv) in Ok (h1, tl)
    | None => Ok (h, pv)
    end = Ok (h1, tl1)
    /\ tl1 = last_of l2 pv /\ dseg h1 pv l2 None
    /\ same_data h h1 /\ (forall b, b ∉ l2 -> h1 !! b = h !! b).
Proof.
  intros Hs Hnd ->. destruct l2 as [|q l].
  { exists h, pv. simpl. repeat split; try done. }
  apply NoDup_cons in Hnd as [Hq _].
  destruct (dseg_lookup _ _ _ _ q Hs ltac:(set_solver)) as [o Ho].
  simpl first_of. rewrite (store_Ok _ _ _ _ Ho). cbn [bind].
  eexists _, _. split; [done|]. split; [by rewrite !last_of_cons|].
  split; [by eapply dseg_set_prev|].
  split; [by eapply same_data_insert|].
  intros b Hb. rewrite lookup_insert_ne; set_solver.
Qed.

Section level_lemmas.
Context `{Build}.
Implicit Types (h : heap) (lvl : PriceLevel) (ps : list nat).

Lemma level_empty_rep h lvl ps :
  level_rep h lvl ps -> level_empty lvl = bool_decide (ps = []).
Proof.
  intros [Hh _ _ _]. unfold level_empty. rewrite Hh. by destruct ps.
Qed.

Lemma sum_qty_nonneg h ps : (forall a, a ∈ ps -> 0 <= qty_at h a) -> 0 <= sum_qty h ps.
Proof.
  induction ps as [|a ps IH]; intros Hn; simpl; [lia|].
  specialize (Hn a ltac:(set_solver)) as Ha.
  assert (0 <= sum_qty h ps) by (apply IH; set_solver). lia.
Qed.

Lemma level_rep_frame h h' lvl ps :
  (forall a, a ∈ ps -> h' !! a = h !! a) -> level_rep h lvl ps -> level_rep h' lvl ps.
Proof. intros E [Hh Ht Hs Hnd]. split; try done. by eapply dseg_frame. Qed.

Lemma level_rep_set h lvl lvl' ps a o o' :
  level_rep h lvl ps -> h !! a = Some o -> links o' = links o ->
  lv_head lvl' = lv_head lvl -> lv_tail lvl' = lv_tail lvl ->
  level_rep (<[a := o']> h) lvl' ps.
Proof.
  intros [Hh Ht Hs Hnd] Ho Hlk Eh Et. split; [congruence..| |done].
  eapply dseg_links; [|done]. intros b _. destruct (decide (a = b)) as [->|].
  - rewrite lookup_insert_eq, Ho. simpl. by rewrite Hlk.
  - by rewrite lookup_insert_ne.
Qed.

Lemma level_agg_frame h h' lvl ps :
  (forall a, a ∈ ps -> h' !! a = h !! a) -> level_agg h lvl ps -> level_agg h' lvl ps.
Proof.
  intros E [Htot Hfit Hcnt Hcf Hnn].
  assert (sum_qty h' ps = sum_qty h ps) as Hs by (by apply sum_qty_agree).
  split; rewrite ?Hs; try done.
  intros a Ha. unfold qty_at. rewrite E by done. by apply Hnn.
Qed.

Lemma sub_clamp_le x y : 0 <= y <= x -> in_u32 x -> sub_clamp x y = x - y.
Proof.
  unfold sub_clamp, in_u32. intros. rewrite (proj2 (Z.geb_le _ _)) by lia.
  apply u32_id. unfold in_u32. lia.
Qed.

(** [level_enqueue_tail] appends to the queue, writes links only, and keeps
    exact aggregates exact when the new total fits. *)
Lemma level_enqueue_tail_rep h lvl ps a o :
  level_rep h lvl ps -> a ∉ ps -> h !! a = Some o ->
  exists h' lvl',
    level_enqueue_tail h lvl (Some a) = Ok (h', lvl')
    /\ level_rep h' lvl' (ps ++ [a])
    /\ lv_price lvl' = lv_price lvl
    /\ same_data h h'
    /\ (forall b, b ∉ a :: ps -> h' !! b = h !! b)
    /\ (level_agg h lvl ps -> 0 <= o_quantity o ->
        sum_qty h ps + o_quantity o < 2 ^ 32 ->
        Z.of_nat (length ps) + 1 < 2 ^ 32 ->
        level_agg h' lvl' (ps ++ [a])).
Proof.
  intros [Hh Ht Hs Hnd] Ha Ho. unfold level_enqueue_tail.
  rewrite assert_Ok by (intros; by apply bool_decide_eq_true). cbn [bind].
  rewrite (store_Ok _ _ _ _ Ho). cbn [bind].
  rewrite (store_Ok _ _ (set_next None o)) by apply lookup_insert_eq. cbn [bind].
  rewrite insert_insert_eq.
  set (o1 := set_prev (lv_tail lvl) (set_next None o)).
  assert (dseg (<[a := o1]> h) None ps None) as Hs1.
  { eapply dseg_frame; [|done]. intros b Hb. rewrite lookup_insert_ne; set_solver. }
  destruct (relink_left (<[a := o1]> h) ps None (Some a) (lv_head lvl) Hs1 Hnd Hh)
    as (h3 & hd & E & -> & Hs3 & Hd3 & Hf3).
  rewrite Ht in *. rewrite E. clear E. cbn [bind].
  assert (h3 !! a = Some o1) as Ha3 by (by rewrite Hf3, lookup_insert_eq).
  rewrite (load_Ok _ _ _ Ha3). cbn [bind].
  eexists h3, _. split; [done|].
  assert (same_data h h3) as Hsd.
  { etrans; [|done]. by eapply same_data_insert. }
  split; [split; simpl|].
  - by rewrite first_of_app.
  - by rewrite last_of_snoc.
  - apply dseg_app. split; [done|]. split; [|done]. by exists o1.
  - apply NoDup_app. split; [done|]. split; [set_solver|apply NoDup_singleton].
  - split; [done|]. split; [done|]. split.
    + intros b Hb. rewrite Hf3 by set_solver. rewrite lookup_insert_ne; set_solver.
    + assert (qty_at h a = o_quantity o) as Hqa by (unfold qty_at; by rewrite Ho).
      intros [Htot Hfit Hcnt Hcf Hnn] Hq Hsum Hlen. split; simpl.
      all: rewrite <- ?Hsd, ?sum_qty_app, ?length_app; simpl;
        rewrite <- ?Hsd, ?Hqa; unfold in_u32 in *.
      * rewrite Htot, u32_id; unfold in_u32; lia.
      * lia.
      * rewrite Hcnt, u32_id; unfold in_u32; lia.
      * lia.
      * intros b Hb. rewrite <- Hsd. apply elem_of_app in Hb as [Hb|Hb]; [by apply Hnn|].
        apply list_elem_of_singleton in Hb as ->. lia.
Qed.

Lemma level_agg_mid h lvl l1 a l2 o :
  level_agg h lvl (l1 ++ a :: l2) -> h !! a = Some o ->
  0 <= o_quantity o <= lv_total_qty lvl /\ 1 <= lv_order_count lvl /\
  lv_total_qty lvl = sum_qty h (l1 ++ l2) + o_quantity o.
Proof.
  intros [Htot Hfit Hcnt Hcf Hnn] Ho.
  assert (qty_at h a = o_quantity o) as Hqa by (unfold qty_at; by rewrite Ho).
  assert (0 <= sum_qty h (l1 ++ l2)) by (apply sum_qty_nonneg; set_solver).
  specialize (Hnn a ltac:(set_solver)).
  rewrite sum_qty_app in *. simpl in *. rewrite length_app in *. simpl in *. lia.
Qed.

Lemma level_agg_removed h h' lvl lvl' l1 a l2 o :
  level_agg h lvl (l1 ++ a :: l2) -> h !! a = Some o -> same_data h h' ->
  lv_total_qty lvl' = sub_clamp (lv_total_qty lvl) (o_quantity o) ->
  lv_order_count lvl' = sub_clamp (lv_order_count lvl) 1 ->
  level_agg h' lvl' (l1 ++ l2).
Proof.
  intros Hagg Ho Hsd Ht' Hc'.
  destruct (level_agg_mid _ _ _ _ _ _ Hagg Ho) as (Hq & Hc & Htot).
  assert (in_u32 (lv_total_qty lvl)) as Hu by (rewrite (la_total _ _ _ Hagg); apply Hagg).
  assert (Z.of_nat (length (l1 ++ a :: l2)) = Z.of_nat (length (l1 ++ l2)) + 1) as Hlen.
  { rewrite !length_app. simpl. lia. }
  assert (forall b, b ∈ l1 ++ l2 -> 0 <= qty_at h b) as Hnn.
  { intros b Hb. apply Hagg. set_solver. }
  pose proof (sum_qty_nonneg _ _ Hnn).
  pose proof (la_count_fits _ _ _ Hagg). pose proof (la_count _ _ _ Hagg) as Hcnt.
  unfold in_u32 in *. split; rewrite <- ?Hsd; unfold in_u32 in *.
  - rewrite Ht', sub_clamp_le; unfold in_u32; lia.
  - lia.
  - rewrite Hc', sub_clamp_le; unfold in_u32; lia.
  - lia.
  - intros b Hb. rewrite <- Hsd. by apply Hnn.
Qed.

(** [level_remove] splices the order out of the queue wherever it stands,
    leaves it unlinked and writes nothing but links. *)
Lemma level_remove_rep h lvl l1 a l2 o :
  level_rep h lvl (l1 ++ a :: l2) -> h !! a = Some o ->
  (asserts_enabled = true -> level_agg h lvl (l1 ++ a :: l2)) ->
  exists h' lvl',
    level_remove h lvl (Some a) = Ok (h', lvl')
    /\ level_rep h' lvl' (l1 ++ l2)
    /\ lv_price lvl' = lv_price lvl
    /\ same_data h h'
    /\ h' !! a = Some (data o)
    /\ (forall b, b ∉ l1 ++ a :: l2 -> h' !! b = h !! b)
    /\ (level_agg h lvl (l1 ++ a :: l2) -> level_agg h' lvl' (l1 ++ l2)).
Proof.
  intros [Hh Ht Hs Hnd] Ho Hasrt. unfold level_remove.
  rewrite assert_Ok by (intros; by apply bool_decide_eq_true). cbn [bind].
  rewrite (load_Ok _ _ _ Ho). cbn [bind].
  rewrite assert_Ok, assert_Ok by (intros He; apply Z.geb_le;
    by destruct (level_agg_mid _ _ _ _ _ _ (Hasrt He) Ho) as (? & ? & ?); lia).
  cbn [bind].
  apply NoDup_app in Hnd as (Hnd1 & Hd & [Ha2 Hnd2]%NoDup_cons).
  assert (a ∉ l1) as Ha1 by set_solver.
  destruct (dseg_mid _ _ _ _ _ _ Hs) as (o' & Ho' & Hp & Hn).
  assert (o' = o) as -> by congruence. clear Ho'.
  apply dseg_app in Hs as [Hs1 [_ Hs2]].
  destruct (relink_left h l1 (Some a) (o_next o) (lv_head lvl))
    as (h1 & hd1 & E1 & -> & Hs1' & Hd1 & Hf1); [done..|by rewrite Hh, first_of_app|].
  rewrite Hp, E1. clear E1. cbn [bind].
  assert (h1 !! a = Some o) as Ho1 by (by rewrite Hf1).
  rewrite (load_Ok _ _ _ Ho1). cbn [bind].
  assert (dseg h1 (Some a) l2 None) as Hs2'.
  { eapply dseg_frame; [|done]. intros b Hb. apply Hf1. set_solver. }
  destruct (relink_right h1 (o_prev o) l2 (Some a) (lv_tail lvl))
    as (h2 & tl1 & E2 & -> & Hs2'' & Hd2 & Hf2);
    [done..|by rewrite Ht, last_of_app, last_of_cons|].
  rewrite Hn, E2. clear E2. cbn [bind].
  assert (h2 !! a = Some o) as Ho2 by (by rewrite Hf2).
  rewrite (load_Ok _ _ _ Ho2). cbn [bind].
  rewrite (store_Ok _ _ _ _ Ho2). cbn [bind].
  rewrite (store_Ok _ _ (set_next None o)) by apply lookup_insert_eq. cbn [bind].
  rewrite insert_insert_eq. change (set_prev None (set_next None o)) with (data o).
  eexists _, _. split; [done|].
  assert (same_data h (<[a := data o]> h2)) as Hsd.
  { rewrite Hd1, Hd2. by eapply same_data_insert. }
  split; [split; simpl|].
  - by rewrite first_of_app.
  - rewrite last_of_app. congruence.
  - apply (dseg_frame h2).
    { intros b Hb. rewrite lookup_insert_ne; set_solver. }
    apply dseg_app. rewrite <- Hn, <- Hp. split; [|done].
    eapply dseg_frame; [|done]. intros b Hb. apply Hf2. set_solver.
  - apply NoDup_app. set_solver.
  - split; [done|]. split; [done|]. split; [apply lookup_insert_eq|]. split.
    + intros b Hb. rewrite lookup_insert_ne, Hf2, Hf1; set_solver.
    + intros Hagg. by eapply level_agg_removed.
Qed.

(** On a well-formed level [level_dequeue_head] is [level_remove] of the
    oldest order. *)
Lemma level_dequeue_head_remove h lvl a l :
  level_rep h lvl (a :: l) ->
  (asserts_enabled = true -> level_agg h lvl (a :: l)) ->
  level_dequeue_head h lvl =
    let* '(h', lvl') := level_remove h lvl (Some a) in Ok (h', lvl', Some a).
Proof.
  intros [Hh Ht Hs [Ha Hnd]%NoDup_cons] Hasrt.
  destruct Hs as [(o & Ho & Hp & Hn) Hs].
  unfold level_dequeue_head, level_remove. rewrite Hh. cbn [first_of].
  rewrite (load_Ok _ _ _ Ho). cbn [bind].
  rewrite Hp. cbn [bind]. rewrite (load_Ok _ _ _ Ho). cbn [bind]. rewrite Hp.
  destruct (relink_right h None l (Some a) (lv_tail lvl))
    as (h2 & tl1 & E2 & -> & _ & _ & Hf2); [done..|by rewrite Ht, last_of_cons|].
  rewrite Hn, E2. clear E2. cbn [bind].
  assert (h2 !! a = Some o) as Ho2 by (by rewrite Hf2).
  rewrite (load_Ok _ _ _ Ho2). cbn [bind].
  assert (asserts_enabled = true ->
          0 <= o_quantity o <= lv_total_qty lvl /\ 1 <= lv_order_count lvl) as Hc.
  { intros He. destruct (level_agg_mid h lvl [] a l o) as (? & ? & _); eauto. }
  rewrite !assert_Ok
    by (intros He; first [by apply bool_decide_eq_true
                         | apply Z.geb_le; specialize (Hc He); lia]).
  cbn [bind]. rewrite (store_Ok _ _ _ _ Ho2). cbn [bind].
  by rewrite (store_Ok _ _ (set_next None o)) by apply lookup_insert_eq.
Qed.

(** Taking [delta] off one order and off the level's total. *)
Lemma level_agg_reduce h lvl lvl' l1 a l2 o o' delta :
  level_agg h lvl (l1 ++ a :: l2) -> NoDup (l1 ++ a :: l2) -> h !! a = Some o ->
  0 <= delta <= o_quantity o -> o_quantity o' = o_quantity o - delta ->
  lv_total_qty lvl' = lv_total_qty lvl - delta ->
  lv_order_count lvl' = lv_order_count lvl ->
  level_agg (<[a := o']> h) lvl' (l1 ++ a :: l2).
Proof.
  intros Hagg Hnd Ho Hd Hq' Ht' Hc'.
  apply NoDup_app in Hnd as (_ & Hdis & [Ha2 _]%NoDup_cons).
  assert (a ∉ l1) as Ha1 by set_solver.
  destruct (level_agg_mid _ _ _ _ _ _ Hagg Ho) as (Hq & Hcnt & Htot).
  assert (in_u32 (lv_total_qty lvl)) as Hut by (rewrite (la_total _ _ _ Hagg); apply Hagg).
  assert (sum_qty (<[a := o']> h) (l1 ++ a :: l2)
          = sum_qty h (l1 ++ l2) + (o_quantity o - delta)) as Hsum.
  { rewrite !sum_qty_app. simpl. unfold qty_at at 1. rewrite lookup_insert_eq. simpl.
    rewrite !(sum_qty_agree (<[a := o']> h) h);
      [lia|intros b Hb; rewrite lookup_insert_ne; set_solver..]. }
  assert (0 <= sum_qty h (l1 ++ l2))
    by (apply sum_qty_nonneg; intros b Hb; apply Hagg; set_solver).
  split; simpl; rewrite ?Hsum; unfold in_u32 in *.
  - lia.
  - lia.
  - rewrite Hc'. apply Hagg.
  - apply Hagg.
  - intros b Hb. destruct (decide (b = a)) as [->|]; unfold qty_at.
    + rewrite lookup_insert_eq. simpl. lia.
    + rewrite lookup_insert_ne by done. by apply (la_nonneg _ _ _ Hagg).
Qed.

(** [level_reduce_qty] with a delta no larger than the order's quantity. *)
Lemma level_reduce_qty_rep h lvl l1 a l2 o delta :
  level_rep h lvl (l1 ++ a :: l2) -> h !! a = Some o ->
  0 <= delta <= o_quantity o -> in_u32 (o_quantity o) ->
  (asserts_enabled = true -> level_agg h lvl (l1 ++ a :: l2)) ->
  exists lvl',
    let h' := <[a := set_quantity (o_quantity o - delta) o]> h in
    level_reduce_qty h lvl (Some a) delta = Ok (h', lvl')
    /\ level_rep h' lvl' (l1 ++ a :: l2)
    /\ lv_price lvl' = lv_price lvl
    /\ (level_agg h lvl (l1 ++ a :: l2) -> level_agg h' lvl' (l1 ++ a :: l2)).
Proof.
  intros Hrep Ho Hd Hu Hasrt. unfold level_reduce_qty.
  rewrite (load_Ok _ _ _ Ho). cbn [bind].
  assert (asserts_enabled = true -> o_quantity o <= lv_total_qty lvl) as Hc.
  { intros He. destruct (level_agg_mid h lvl l1 a l2 o) as (? & ? & _); eauto. lia. }
  rewrite !assert_Ok
    by (intros He; specialize (Hc He); first [apply Z.leb_le; lia|apply Z.geb_le; lia]).
  cbn [bind]. rewrite (store_Ok _ _ _ _ Ho). cbn [bind].
  rewrite sub_clamp_le by done. eexists. split; [done|].
  set (o' := set_quantity (o_quantity o - delta) o).
  split; [by eapply level_rep_set|]. split; [done|].
  intros Hagg. eapply level_agg_reduce; eauto; [apply Hrep|]. simpl.
  destruct (level_agg_mid _ _ _ _ _ _ Hagg Ho) as (? & _ & _).
  apply sub_clamp_le; [lia|]. rewrite (la_total _ _ _ Hagg). apply Hagg.
Qed.

End level_lemmas.
