(* ===== verification/OrderIndex.v ===== *)
(** * The order index: [OrderIndex] of [src/lob/order_book.hpp]

    [std::unordered_map<OrderId, Order*>] as a finite map; only non-null
    pointers are ever stored. *)

From stdpp Require Import base numbers list gmap fin_maps.
From Stdlib Require Import ZArith Lia.
From S2P Require Import Prelude.
From S2P Require Import OrderTypes.

Abbreviation OrderIndex := (gmap Z nat).

Section index.
Context `{Build}.

Definition OrderIndex_new : OrderIndex := ∅.

(** [insert]: [emplace] leaves an existing entry for the id in place. *)
Definition insert (h : heap) (m : OrderIndex) (o : ptr) : res OrderIndex :=
  match o with
  | None => Ok m
  | Some a =>
      let* _ := assert_ (bool_decide (o <> None)) in
      let* ord := load h o in
      match m !! o_order_id ord with
      | Some _ => Ok m
      | None => Ok (<[o_order_id ord := a]> m)
      end
  end.

Definition erase (m : OrderIndex) (id : Z) : OrderIndex := delete id m.
Definition find (m : OrderIndex) (id : Z) : ptr := m !! id.
Definition contains (m : OrderIndex) (id : Z) : bool := bool_decide (is_Some (m !! id)).
Definition index_size (m : OrderIndex) : Z := Z.of_nat (size m).
Definition empty (m : OrderIndex) : bool := bool_decide (m = ∅).
Definition clear (m : OrderIndex) : OrderIndex := ∅.

Lemma insert_Ok h m a o :
  h !! a = Some o ->
  exists m', insert h m (Some a) = Ok m' /\
    forall id, m' !! id =
      if decide (id = o_order_id o) then
        Some (default a (m !! id)) else m !! id.
Proof.
  intros Ho. unfold insert.
  rewrite assert_Ok by (intros; by apply bool_decide_eq_true). cbn [bind].
  rewrite (load_Ok _ _ _ Ho). cbn [bind].
  destruct (m !! o_order_id o) as [b|] eqn:Hm.
  - exists m. split; [done|]. intros id. case_decide as Hid; [|done].
    subst id. by rewrite Hm.
  - eexists. split; [done|]. intros id. case_decide as Hid.
    + subst id. by rewrite lookup_insert_eq, Hm.
    + by rewrite lookup_insert_ne.
Qed.

End index.
