(* ===== verification/OrderBook.v ===== *)
(** * The limit order book: [OrderBook] of [src/lob/order_book.hpp]

    Two flat arrays of price levels, the best-bid and best-ask cursors and
    the order index.  The operations take the object store the [Order*]
    arguments point into and return it with the updated book. *)

From stdpp Require Import base numbers list gmap fin_maps.
From Stdlib Require Import ZArith Lia.
From S2P Require Import Prelude.
From S2P Require Import OrderTypes.
From S2P Require Import PriceLevel.
From S2P Require Import OrderIndex.

Record OrderBook : Type := mkBook {
  bk_instrument_id : Z;
  bk_min_price : Z;
  bk_max_price : Z;
  bk_tick_size : Z;
  bk_bid_levels : list PriceLevel;
  bk_ask_levels : list PriceLevel;
  bk_best_bid_idx : Z;
  bk_best_ask_idx : Z;
  bk_order_index : OrderIndex
}.

Definition kNoBest : Z := SIZE_MAX.

(** Member assignment. *)
Definition set_bid_levels (l : list PriceLevel) (b : OrderBook) : OrderBook :=
  mkBook (bk_instrument_id b) (bk_min_price b) (bk_max_price b) (bk_tick_size b)
    l (bk_ask_levels b) (bk_best_bid_idx b) (bk_best_ask_idx b) (bk_order_index b).
Definition set_ask_levels (l : list PriceLevel) (b : OrderBook) : OrderBook :=
  mkBook (bk_instrument_id b) (bk_min_price b) (bk_max_price b) (bk_tick_size b)
    (bk_bid_levels b) l (bk_best_bid_idx b) (bk_best_ask_idx b) (bk_order_index b).
Definition set_best_bid_idx (i : Z) (b : OrderBook) : OrderBook :=
  mkBook (bk_instrument_id b) (bk_min_price b) (bk_max_price b) (bk_tick_size b)
    (bk_bid_levels b) (bk_ask_levels b) i (bk_best_ask_idx b) (bk_order_index b).
Definition set_best_ask_idx (i : Z) (b : OrderBook) : OrderBook :=
  mkBook (bk_instrument_id b) (bk_min_price b) (bk_max_price b) (bk_tick_size b)
    (bk_bid_levels b) (bk_ask_levels b) (bk_best_bid_idx b) i (bk_order_index b).
Definition set_order_index (m : OrderIndex) (b : OrderBook) : OrderBook :=
  mkBook (bk_instrument_id b) (bk_min_price b) (bk_max_price b) (bk_tick_size b)
    (bk_bid_levels b) (bk_ask_levels b) (bk_best_bid_idx b) (bk_best_ask_idx b) m.

(** [side_levels(s)] as a value and as the target of an assignment. *)
Definition side_levels (b : OrderBook) (s : Side) : list PriceLevel :=
  if bool_decide (s = Buy) then bk_bid_levels b else bk_ask_levels b.
Definition set_side_levels (s : Side) (l : list PriceLevel) (b : OrderBook) : OrderBook :=
  if bool_decide (s = Buy) then set_bid_levels l b else set_ask_levels l b.

(** [side_levels(s)[idx] = lvl] *)
Definition write_level (b : OrderBook) (s : Side) (idx : Z) (lvl : PriceLevel)
  : res OrderBook :=
  let* l := vec_set (side_levels b s) idx lvl in
  Ok (set_side_levels s l b).

Section book.
Context `{Build}.

(** ** Prices and indices *)

(** On a book the constructor accepts, [config_ok] in [OrderBookInv], neither
    the subtraction nor the remainder of [is_valid_price] and [tick_to_index]
    can overflow or divide by zero: the first, and the callers of the second,
    test the range before, the grid is at most [INT64_MAX] wide and the tick
    is positive. *)
Definition is_valid_price (b : OrderBook) (p : Z) : bool :=
  (p >=? bk_min_price b) && (p <=? bk_max_price b)
  && (Z.rem (p - bk_min_price b) (bk_tick_size b) =? 0).

Definition tick_to_index (b : OrderBook) (p : Z) : res Z :=
  let* _ := assert_ (is_valid_price b p) in
  Ok (u64 (Z.quot (p - bk_min_price b) (bk_tick_size b))).

Definition index_to_price (b : OrderBook) (idx : Z) : Z :=
  bk_min_price b + i64 idx * bk_tick_size b.

Definition num_levels_for (mn mx tick : Z) : res Z :=
  let* d := i64_sub mx mn in
  if tick =? 0 then Err DivByZero else Ok (u64 (u64 (Z.quot d tick) + 1)).

(** ** Construction *)

Definition empty_level (mn tick : Z) (i : nat) : PriceLevel :=
  mkLevel None None (mn + Z.of_nat i * tick) 0 0.

Definition OrderBook_new (instrument_id min_price max_price tick_size : Z)
  : res OrderBook :=
  let* _ := assert_ (min_price <? max_price) in
  let* _ := assert_ (tick_size >? 0) in
  let* _ := assert_ (Z.rem (max_price - min_price) tick_size =? 0) in
  let* n := num_levels_for min_price max_price tick_size in
  let levels := map (empty_level min_price tick_size) (seq 0 (Z.to_nat n)) in
  Ok (mkBook instrument_id min_price max_price tick_size levels levels
        kNoBest kNoBest OrderIndex_new).

(** [clear()] *)
Definition clear_level (lvl : PriceLevel) : PriceLevel :=
  mkLevel None None (lv_price lvl) 0 0.

Definition clear (b : OrderBook) : OrderBook :=
  let b1 := set_bid_levels (map clear_level (bk_bid_levels b)) b in
  let b2 := set_ask_levels (map clear_level (bk_ask_levels b1)) b1 in
  let b3 := set_best_ask_idx kNoBest (set_best_bid_idx kNoBest b2) in
  set_order_index (OrderIndex.clear (bk_order_index b3)) b3.

(** ** The cursors *)

(** The downward scan of [advance_best_cursor]: the first non-empty level at
    [i], [i-1], ..., [0]. *)
Fixpoint scan_down (lvls : list PriceLevel) (i : nat) : res Z :=
  let* l := vec_at lvls (Z.of_nat i) in
  if negb (level_empty l) then Ok (Z.of_nat i)
  else match i with
       | O => Ok kNoBest
       | S i' => scan_down lvls i'
       end.

(** The upward scan: levels [i], [i+1], ..., [i+k-1]. *)
Fixpoint scan_up (lvls : list PriceLevel) (i k : nat) : res Z :=
  match k with
  | O => Ok kNoBest
  | S k' =>
      let* l := vec_at lvls (Z.of_nat i) in
      if negb (level_empty l) then Ok (Z.of_nat i) else scan_up lvls (S i) k'
  end.

Definition advance_best_cursor (b : OrderBook) (side : Side) (drained_idx : Z)
  : res OrderBook :=
  if bool_decide (side = Buy) then
    if negb (bk_best_bid_idx b =? drained_idx) then Ok b
    else if drained_idx =? 0 then Ok (set_best_bid_idx kNoBest b)
    else
      let* i := scan_down (bk_bid_levels b) (Z.to_nat (drained_idx - 1)) in
      Ok (set_best_bid_idx i b)
  else
    if negb (bk_best_ask_idx b =? drained_idx) then Ok b
    else
      let size := Z.of_nat (length (bk_ask_levels b)) in
      let last := u64 (size - 1) in
      if drained_idx =? last then Ok (set_best_ask_idx kNoBest b)
      else
        let* i := scan_up (bk_ask_levels b) (Z.to_nat (drained_idx + 1))
                    (Z.to_nat (size - (drained_idx + 1))) in
        Ok (set_best_ask_idx i b).

(** ** Updates *)

Definition add_order (h : heap) (b : OrderBook) (o : ptr) : res (heap * OrderBook) :=
  match o with
  | None => Ok (h, b)
  | Some _ =>
      let* _ := assert_ (bool_decide (o <> None)) in
      let* ord := load h o in
      let* _ := assert_ (is_active ord) in
      let* _ := assert_ (is_valid_price b (o_price ord)) in
      if negb (is_valid_price b (o_price ord)) then Ok (h, b)
      else
        let* idx := tick_to_index b (o_price ord) in
        let* lvl := vec_at (side_levels b (o_side ord)) idx in
        let* '(h1, lvl1) := level_enqueue_tail h lvl o in
        let* b1 := write_level b (o_side ord) idx lvl1 in
        let* m := OrderIndex.insert h1 (bk_order_index b1) o in
        let b2 := set_order_index m b1 in
        if is_buy ord then
          if (bk_best_bid_idx b2 =? kNoBest) || (idx >? bk_best_bid_idx b2)
          then Ok (h1, set_best_bid_idx idx b2) else Ok (h1, b2)
        else
          if (bk_best_ask_idx b2 =? kNoBest) || (idx <? bk_best_ask_idx b2)
          then Ok (h1, set_best_ask_idx idx b2) else Ok (h1, b2)
  end.

(** [cancel_order(Order* o)] *)
Definition cancel_order_ptr (h : heap) (b : OrderBook) (o : ptr)
  : res (heap * OrderBook) :=
  match o with
  | None => Ok (h, b)
  | Some _ =>
      let* _ := assert_ (bool_decide (o <> None)) in
      let* ord := load h o in
      let* _ := assert_ (is_valid_price b (o_price ord)) in
      if negb (is_valid_price b (o_price ord)) then Ok (h, b)
      else
        let* idx := tick_to_index b (o_price ord) in
        let* lvl := vec_at (side_levels b (o_side ord)) idx in
        let* '(h1, lvl1) := level_remove h lvl o in
        let* b1 := write_level b (o_side ord) idx lvl1 in
        let b2 := set_order_index (OrderIndex.erase (bk_order_index b1) (o_order_id ord)) b1 in
        let* h2 := store h1 o (set_status Cancelled) in
        if level_empty lvl1 then
          let* b3 := advance_best_cursor b2 (o_side ord) idx in Ok (h2, b3)
        else Ok (h2, b2)
  end.

(** [cancel_order(OrderId)] *)
Definition cancel_order (h : heap) (b : OrderBook) (id : Z)
  : res (heap * OrderBook * bool) :=
  let o := OrderIndex.find (bk_order_index b) id in
  match o with
  | None => Ok (h, b, false)
  | Some _ =>
      let* '(h1, b1) := cancel_order_ptr h b o in Ok (h1, b1, true)
  end.

Definition reduce_order_qty (h : heap) (b : OrderBook) (o : ptr) (new_qty : Z)
  : res (heap * OrderBook) :=
  match o with
  | None => Ok (h, b)
  | Some _ =>
      let* _ := assert_ (bool_decide (o <> None)) in
      let* ord := load h o in
      let* _ := assert_ (new_qty <=? o_quantity ord) in
      if negb (is_valid_price b (o_price ord)) then Ok (h, b)
      else
        let* idx := tick_to_index b (o_price ord) in
        let* lvl := vec_at (side_levels b (o_side ord)) idx in
        let delta := u32 (o_quantity ord - new_qty) in
        let* '(h1, lvl1) := level_reduce_qty h lvl o delta in
        let* b1 := write_level b (o_side ord) idx lvl1 in
        if new_qty =? 0 then
          let* '(h2, lvl2) := level_remove h1 lvl1 o in
          let* b2 := write_level b1 (o_side ord) idx lvl2 in
          let b3 := set_order_index (OrderIndex.erase (bk_order_index b2) (o_order_id ord)) b2 in
          let* h3 := store h2 o (set_status Cancelled) in
          if level_empty lvl2 then
            let* b4 := advance_best_cursor b3 (o_side ord) idx in Ok (h3, b4)
          else Ok (h3, b3)
        else Ok (h1, b1)
  end.

Definition fill_resting_order (h : heap) (b : OrderBook) (rest : ptr) (fill_qty : Z)
  : res (heap * OrderBook * bool) :=
  match rest with
  | None => Ok (h, b, true)
  | Some _ =>
      let* _ := assert_ (bool_decide (rest <> None)) in
      let* _ := assert_ (fill_qty >? 0) in
      let* ord := load h rest in
      let* _ := assert_ (fill_qty <=? o_quantity ord) in
      if negb (is_valid_price b (o_price ord)) then Ok (h, b, true)
      else
        let* idx := tick_to_index b (o_price ord) in
        let* lvl := vec_at (side_levels b (o_side ord)) idx in
        let* _ := assert_ (lv_total_qty lvl >=? fill_qty) in
        let lvl1 := mkLevel (lv_head lvl) (lv_tail lvl) (lv_price lvl)
                      (u32 (lv_total_qty lvl - fill_qty)) (lv_order_count lvl) in
        let* b1 := write_level b (o_side ord) idx lvl1 in
        let* h1 := store h rest (set_quantity (u32 (o_quantity ord - fill_qty))) in
        let* ord1 := load h1 rest in
        if o_quantity ord1 =? 0 then
          let* '(h2, lvl2) := level_remove h1 lvl1 rest in
          let* b2 := write_level b1 (o_side ord) idx lvl2 in
          let b3 := set_order_index (OrderIndex.erase (bk_order_index b2) (o_order_id ord1)) b2 in
          let* h3 := store h2 rest (set_status Filled) in
          if level_empty lvl2 then
            let* b4 := advance_best_cursor b3 (o_side ord1) idx in Ok (h3, b4, true)
          else Ok (h3, b3, true)
        else
          let* h2 := store h1 rest (set_status Partial) in Ok (h2, b1, false)
  end.

(** ** Queries *)

(** [for (i = from; i <= to; ++i) total += levels[i].total_qty;] over [k]
    levels. *)
Fixpoint sum_levels (lvls : list PriceLevel) (from : Z) (k : nat) (total : Z) : res Z :=
  match k with
  | O => Ok total
  | S k' =>
      let* l := vec_at lvls from in
      sum_levels lvls (from + 1) k' (u32 (total + lv_total_qty l))
  end.

Definition available_quantity_at_or_better (b : OrderBook) (agg_side : Side)
  (limit_price : Z) : res Z :=
  if bool_decide (agg_side = Buy) then
    if bk_best_ask_idx b =? kNoBest then Ok 0
    else
      let* to_idx :=
        if limit_price >=? bk_max_price b
        then Ok (u64 (Z.of_nat (length (bk_ask_levels b)) - 1))
        else if limit_price <? bk_min_price b then Ok 0
        else tick_to_index b limit_price in
      if bk_best_ask_idx b >? to_idx then Ok 0
      else sum_levels (bk_ask_levels b) (bk_best_ask_idx b)
             (Z.to_nat (to_idx - bk_best_ask_idx b + 1)) 0
  else
    if bk_best_bid_idx b =? kNoBest then Ok 0
    else
      let* from_idx :=
        if limit_price <=? bk_min_price b then Ok 0
        else if limit_price >? bk_max_price b
        then Ok (Z.of_nat (length (bk_bid_levels b)))
        else tick_to_index b limit_price in
      if from_idx >? bk_best_bid_idx b then Ok 0
      else sum_levels (bk_bid_levels b) from_idx
             (Z.to_nat (bk_best_bid_idx b - from_idx + 1)) 0.

Definition pop_best_bid_head (h : heap) (b : OrderBook) : res (heap * OrderBook * ptr) :=
  if bk_best_bid_idx b =? kNoBest then Ok (h, b, None)
  else
    let idx := bk_best_bid_idx b in
    let* lvl := vec_at (bk_bid_levels b) idx in
    let* '(h1, lvl1, o) := level_dequeue_head h lvl in
    let* l := vec_set (bk_bid_levels b) idx lvl1 in
    let b1 := set_bid_levels l b in
    match o with
    | None => Ok (h1, b1, o)
    | Some _ =>
        let* ord := load h1 o in
        let b2 := set_order_index (OrderIndex.erase (bk_order_index b1) (o_order_id ord)) b1 in
        if level_empty lvl1 then
          let* b3 := advance_best_cursor b2 Buy (bk_best_bid_idx b2) in Ok (h1, b3, o)
        else Ok (h1, b2, o)
    end.

Definition pop_best_ask_head (h : heap) (b : OrderBook) : res (heap * OrderBook * ptr) :=
  if bk_best_ask_idx b =? kNoBest then Ok (h, b, None)
  else
    let idx := bk_best_ask_idx b in
    let* lvl := vec_at (bk_ask_levels b) idx in
    let* '(h1, lvl1, o) := level_dequeue_head h lvl in
    let* l := vec_set (bk_ask_levels b) idx lvl1 in
    let b1 := set_ask_levels l b in
    match o with
    | None => Ok (h1, b1, o)
    | Some _ =>
        let* ord := load h1 o in
        let b2 := set_order_index (OrderIndex.erase (bk_order_index b1) (o_order_id ord)) b1 in
        if level_empty lvl1 then
          let* b3 := advance_best_cursor b2 Sell (bk_best_ask_idx b2) in Ok (h1, b3, o)
        else Ok (h1, b2, o)
    end.

(** [best_bid()] / [best_ask()]: the level the returned pointer points at. *)
Definition best_bid (b : OrderBook) : res (option PriceLevel) :=
  if bk_best_bid_idx b =? kNoBest then Ok None
  else let* l := vec_at (bk_bid_levels b) (bk_best_bid_idx b) in Ok (Some l).
Definition best_ask (b : OrderBook) : res (option PriceLevel) :=
  if bk_best_ask_idx b =? kNoBest then Ok None
  else let* l := vec_at (bk_ask_levels b) (bk_best_ask_idx b) in Ok (Some l).

Definition best_bid_price (b : OrderBook) : res Z :=
  let* l := best_bid b in
  Ok (match l with Some l => lv_price l | None => kInvalidPrice end).
Definition best_ask_price (b : OrderBook) : res Z :=
  let* l := best_ask b in
  Ok (match l with Some l => lv_price l | None => kInvalidPrice end).

Definition has_bids (b : OrderBook) : bool := negb (bk_best_bid_idx b =? kNoBest).
Definition has_asks (b : OrderBook) : bool := negb (bk_best_ask_idx b =? kNoBest).
Definition is_empty (b : OrderBook) : bool := negb (has_bids b) && negb (has_asks b).

Definition bid_level_at (b : OrderBook) (p : Z) : res PriceLevel :=
  let* i := tick_to_index b p in vec_at (bk_bid_levels b) i.
Definition ask_level_at (b : OrderBook) (p : Z) : res PriceLevel :=
  let* i := tick_to_index b p in vec_at (bk_ask_levels b) i.

(** The sweep spans: the levels the returned [std::span] covers. *)
Definition ask_sweep_span (b : OrderBook) : list PriceLevel :=
  if bk_best_ask_idx b =? kNoBest then []
  else drop (Z.to_nat (bk_best_ask_idx b)) (bk_ask_levels b).
Definition bid_sweep_span (b : OrderBook) : list PriceLevel :=
  if bk_best_bid_idx b =? kNoBest then []
  else take (Z.to_nat (bk_best_bid_idx b + 1)) (bk_bid_levels b).

Definition find_order (b : OrderBook) (id : Z) : ptr := OrderIndex.find (bk_order_index b) id.
Definition has_order (b : OrderBook) (id : Z) : bool :=
  OrderIndex.contains (bk_order_index b) id.
Definition live_order_count (b : OrderBook) : Z := OrderIndex.index_size (bk_order_index b).
Definition instrument_id (b : OrderBook) : Z := bk_instrument_id b.
Definition min_price (b : OrderBook) : Z := bk_min_price b.
Definition max_price (b : OrderBook) : Z := bk_max_price b.
Definition tick_size (b : OrderBook) : Z := bk_tick_size b.
Definition num_levels (b : OrderBook) : Z := Z.of_nat (length (bk_bid_levels b)).

End book.
