(* ===== verification/OrderBookInv.v ===== *)
(** * The order book's invariant

    The book holds, per side, a list of queues of order addresses, one queue
    per price level, oldest order first.  [book_rep h b q] says that the
    store [h] and the book [b] represent the queues [q]; the lemmas of this
    file say how each operation of [OrderBook] changes [q]. *)

From stdpp Require Import base numbers list gmap fin_maps.
From Stdlib Require Import ZArith Lia.
From S2P Require Import Prelude.
From S2P Require Import OrderTypes.
From S2P Require Import PriceLevel.
From S2P Require Import OrderIndex.
From S2P Require Import OrderBook.

(** ** Sides as booleans: [true] for the bids *)

Definition levels_of (b : OrderBook) (buy : bool) : list PriceLevel :=
  if buy then bk_bid_levels b else bk_ask_levels b.
Definition set_levels (buy : bool) (l : list PriceLevel) (b : OrderBook) : OrderBook :=
  if buy then set_bid_levels l b else set_ask_levels l b.
Definition best_of (b : OrderBook) (buy : bool) : Z :=
  if buy then bk_best_bid_idx b else bk_best_ask_idx b.
Definition set_best (buy : bool) (i : Z) (b : OrderBook) : OrderBook :=
  if buy then set_best_bid_idx i b else set_best_ask_idx i b.

Record queues : Type := mkQ { q_bid : list (list nat); q_ask : list (list nat) }.

Definition qside (q : queues) (buy : bool) : list (list nat) :=
  if buy then q_bid q else q_ask q.
Definition qset (buy : bool) (l : list (list nat)) (q : queues) : queues :=
  if buy then mkQ l (q_ask q) else mkQ (q_bid q) l.

(** Every address resting in the book. *)
Definition resting_addrs (q : queues) : list nat := concat (q_bid q) ++ concat (q_ask q).

(** ** The invariant *)

(** The tick grid the constructor is given. *)
Record config_ok (b : OrderBook) : Prop := {
  cf_tick : 0 < bk_tick_size b;
  cf_range : bk_min_price b <= bk_max_price b;
  cf_min : in_i64 (bk_min_price b);
  cf_max : in_i64 (bk_max_price b);
  cf_width : bk_max_price b - bk_min_price b <= INT64_MAX
}.

Definition nlevels (b : OrderBook) : nat :=
  S (Z.to_nat ((bk_max_price b - bk_min_price b) / bk_tick_size b)).

(** What holds of an order resting at price [p] on side [buy]. *)
Record resting (p : Z) (buy : bool) (o : Order) : Prop := {
  rs_price : o_price o = p;
  rs_side : is_buy o = buy;
  rs_active : is_active o = true;
  rs_qty : 0 < o_quantity o < 2 ^ 32
}.

(** One side of the book: level [i] heads queue [i], carries price
    [mn + i * tick], and every order in the queue rests there. *)
Record side_rep (mn tick : Z) (buy : bool) (h : heap)
  (lvs : list PriceLevel) (qs : list (list nat)) : Prop := {
  sr_len : length lvs = length qs;
  sr_level : forall i lvl ps, lvs !! i = Some lvl -> qs !! i = Some ps ->
    level_rep h lvl ps /\ lv_price lvl = mn + Z.of_nat i * tick /\
    forall a, a ∈ ps -> exists o, h !! a = Some o /\ resting (mn + Z.of_nat i * tick) buy o;
  sr_nodup : NoDup (concat qs)
}.

(** The cursor is [kNoBest] on an empty side, and otherwise the best
    non-empty level: the highest for bids, the lowest for asks. *)
Definition best_ok (buy : bool) (idx : Z) (qs : list (list nat)) : Prop :=
  (idx = kNoBest /\ forall i ps, qs !! i = Some ps -> ps = [])
  \/ exists i ps, idx = Z.of_nat i /\ qs !! i = Some ps /\ ps <> [] /\
       forall j ps', qs !! j = Some ps' -> ps' <> [] ->
         if buy then (j <= i)%nat else (i <= j)%nat.

(** The grid and the two level arrays. *)
Record book_struct (h : heap) (b : OrderBook) (q : queues) : Prop := {
  bs_cfg : config_ok b;
  bs_len : forall buy, length (levels_of b buy) = nlevels b;
  bs_side : forall buy, side_rep (bk_min_price b) (bk_tick_size b) buy h
                          (levels_of b buy) (qside q buy);
  bs_disj : forall a, a ∈ concat (q_bid q) -> a ∈ concat (q_ask q) -> False
}.

(** The whole book: the arrays, both cursors, and an index all of whose
    entries lead to a resting order with that id. *)
Record book_rep (h : heap) (b : OrderBook) (q : queues) : Prop := {
  br_struct : book_struct h b q;
  br_best : forall buy, best_ok buy (best_of b buy) (qside q buy);
  br_index : forall id a, bk_order_index b !! id = Some a ->
    a ∈ resting_addrs q /\ exists o, h !! a = Some o /\ o_order_id o = id
}.

(** Exact aggregates at every level. *)
Definition book_agg (h : heap) (b : OrderBook) (q : queues) : Prop :=
  forall buy i lvl ps, levels_of b buy !! i = Some lvl -> qside q buy !! i = Some ps ->
    level_agg h lvl ps.

(** ** Lists of queues *)

Definition others (i : nat) (qs : list (list nat)) : list nat :=
  concat (take i qs) ++ concat (drop (S i) qs).

Lemma concat_lookup_perm (qs : list (list nat)) i ps :
  qs !! i = Some ps -> concat qs ≡ₚ ps ++ others i qs.
Proof.
  intros Hi. rewrite <- (take_drop_middle qs i ps Hi) at 1.
  rewrite concat_app. simpl. unfold others.
  rewrite !(assoc_L (++)). f_equiv. by rewrite Permutation_app_comm.
Qed.

Lemma others_insert i ps (qs : list (list nat)) : others i (<[i := ps]> qs) = others i qs.
Proof. unfold others. by rewrite take_insert_ge, drop_insert_lt by lia. Qed.

Lemma concat_insert_perm (qs : list (list nat)) i ps :
  (i < length qs)%nat -> concat (<[i := ps]> qs) ≡ₚ ps ++ others i qs.
Proof.
  intros Hi. rewrite <- (others_insert i ps). apply concat_lookup_perm.
  by apply list_lookup_insert_eq.
Qed.

Lemma elem_of_concat_lookup (qs : list (list nat)) a :
  a ∈ concat qs <-> exists i ps, qs !! i = Some ps /\ a ∈ ps.
Proof.
  induction qs as [|ps qs IH]; simpl.
  { split; [set_solver|]. by intros (? & ? & ? & ?). }
  rewrite elem_of_app, IH. split.
  - intros [Ha|(i & ps' & Hi & Ha)]; [by exists 0%nat, ps|by exists (S i), ps'].
  - intros ([|i] & ps' & Hi & Ha); simplify_eq/=; [by left|right; by eauto].
Qed.

Lemma qside_qset q buy l : qside (qset buy l q) buy = l.
Proof. by destruct buy. Qed.
Lemma qside_qset_ne q buy buy' l : buy <> buy' -> qside (qset buy l q) buy' = qside q buy'.
Proof. by destruct buy, buy'. Qed.

Lemma elem_of_resting_addrs q a :
  a ∈ resting_addrs q <-> exists buy i ps, qside q buy !! i = Some ps /\ a ∈ ps.
Proof.
  unfold resting_addrs. rewrite elem_of_app, !elem_of_concat_lookup. split.
  - intros [(i & ps & ?)|(i & ps & ?)]; [by exists true, i, ps|by exists false, i, ps].
  - intros ([] & i & ps & ?); [left|right]; by exists i, ps.
Qed.

(** ** Prices and indices *)

Section price.
Context `{Build}.

Lemma nlevels_bound b : config_ok b -> Z.of_nat (nlevels b) < kNoBest.
Proof.
  intros [Ht Hr Hmn Hmx Hw]. unfold nlevels, kNoBest, SIZE_MAX, INT64_MAX in *.
  assert ((bk_max_price b - bk_min_price b) / bk_tick_size b
          <= bk_max_price b - bk_min_price b) by (apply Z.div_le_upper_bound; nia).
  assert (0 <= (bk_max_price b - bk_min_price b) / bk_tick_size b)
    by (apply Z.div_pos; lia). lia.
Qed.

Lemma grid_price_bounds b i :
  config_ok b -> (i < nlevels b)%nat ->
  bk_min_price b <= bk_min_price b + Z.of_nat i * bk_tick_size b <= bk_max_price b.
Proof.
  intros [Ht Hr Hmn Hmx Hw] Hi. unfold nlevels in Hi.
  set (d := bk_max_price b - bk_min_price b) in *.
  assert (Z.of_nat i <= d / bk_tick_size b) as Hle.
  { assert (0 <= d / bk_tick_size b) by (apply Z.div_pos; lia). lia. }
  assert (d / bk_tick_size b * bk_tick_size b <= d)
    by (pose proof (Z.mul_div_le d (bk_tick_size b) Ht); lia). nia.
Qed.

(** A price on the grid is valid and maps to its index. *)
Lemma grid_price_index b i :
  config_ok b -> (i < nlevels b)%nat ->
  let p := bk_min_price b + Z.of_nat i * bk_tick_size b in
  is_valid_price b p = true /\ tick_to_index b p = Ok (Z.of_nat i).
Proof.
  intros Hc Hi p. pose proof (grid_price_bounds b i Hc Hi) as Hb.
  pose proof (cf_tick _ Hc) as Ht. pose proof (nlevels_bound b Hc) as Hn.
  assert (p - bk_min_price b = Z.of_nat i * bk_tick_size b) as E by (unfold p; lia).
  assert (is_valid_price b p = true) as Hv.
  { unfold is_valid_price. rewrite E, Z.rem_mul by lia.
    rewrite !andb_true_iff, Z.geb_le, Z.leb_le. subst p. lia. }
  split; [done|]. unfold tick_to_index. rewrite assert_Ok by done. cbn [bind].
  rewrite E, Z.quot_mul by lia. rewrite u64_id; [done|].
  unfold in_u64, kNoBest, SIZE_MAX in *. lia.
Qed.

(** A valid price lies on the grid. *)
Lemma valid_price_grid b p :
  config_ok b -> is_valid_price b p = true ->
  exists i, (i < nlevels b)%nat /\ p = bk_min_price b + Z.of_nat i * bk_tick_size b.
Proof.
  intros [Ht Hr Hmn Hmx Hw]. unfold is_valid_price.
  rewrite !andb_true_iff, Z.geb_le, Z.leb_le, Z.eqb_eq. intros [[H1 H2] H3].
  rewrite Z.rem_mod_nonneg in H3 by lia.
  exists (Z.to_nat ((p - bk_min_price b) / bk_tick_size b)).
  assert (0 <= (p - bk_min_price b) / bk_tick_size b) by (apply Z.div_pos; lia).
  assert ((p - bk_min_price b) / bk_tick_size b
          <= (bk_max_price b - bk_min_price b) / bk_tick_size b)
    by (apply Z.div_le_mono; lia).
  unfold nlevels. split; [lia|].
  rewrite Z2Nat.id by lia.
  pose proof (Z.div_mod (p - bk_min_price b) (bk_tick_size b)). lia.
Qed.

End price.

(** ** Updating one level *)

Lemma others_lookup (qs : list (list nat)) i j ps a :
  i <> j -> qs !! j = Some ps -> a ∈ ps -> a ∈ others i qs.
Proof.
  intros Hne Hj Ha. unfold others. rewrite elem_of_app, !elem_of_concat_lookup.
  destruct (decide (j < i)%nat).
  - left. exists j, ps. by rewrite lookup_take_lt.
  - right. exists (j - S i)%nat, ps. rewrite lookup_drop. split; [|done].
    by replace (S i + (j - S i))%nat with j by lia.
Qed.

Lemma side_rep_frame mn tick buy h h' lvs qs :
  (forall a, a ∈ concat qs -> h' !! a = h !! a) ->
  side_rep mn tick buy h lvs qs -> side_rep mn tick buy h' lvs qs.
Proof.
  intros E [Hlen Hlv Hnd]. split; try done. intros i lvl ps Hl Hq.
  destruct (Hlv _ _ _ Hl Hq) as (Hr & Hp & Ho).
  assert (forall a, a ∈ ps -> h' !! a = h !! a) as E'.
  { intros a Ha. apply E, elem_of_concat_lookup. eauto. }
  split; [by eapply level_rep_frame|]. split; [done|].
  intros a Ha. rewrite E' by done. by apply Ho.
Qed.

Lemma side_rep_update mn tick buy h h' lvs qs i lvl ps lvl' ps' :
  side_rep mn tick buy h lvs qs -> lvs !! i = Some lvl -> qs !! i = Some ps ->
  level_rep h' lvl' ps' -> lv_price lvl' = lv_price lvl ->
  (forall a, a ∈ ps' -> exists o, h' !! a = Some o /\ resting (mn + Z.of_nat i * tick) buy o) ->
  (forall a, a ∈ others i qs -> h' !! a = h !! a) ->
  (forall a, a ∈ ps' -> a ∉ others i qs) ->
  side_rep mn tick buy h' (<[i := lvl']> lvs) (<[i := ps']> qs).
Proof.
  intros [Hlen Hlv Hnd] Hl Hq Hr' Hp' Ho' Hf Hdis.
  pose proof (lookup_lt_Some _ _ _ Hq) as Hi.
  split.
  - by rewrite !length_insert.
  - intros j lvl1 ps1 Hl1 Hq1. destruct (decide (i = j)) as [<-|Hne].
    + rewrite list_lookup_insert_eq in Hl1 by lia.
      rewrite list_lookup_insert_eq in Hq1 by done. simplify_eq.
      split; [done|]. split; [|done]. rewrite Hp'. by destruct (Hlv _ _ _ Hl Hq) as (_ & ? & _).
    + rewrite list_lookup_insert_ne in Hl1 by done.
      rewrite list_lookup_insert_ne in Hq1 by done.
      destruct (Hlv _ _ _ Hl1 Hq1) as (Hr & Hp & Ho).
      assert (forall a, a ∈ ps1 -> h' !! a = h !! a) as E.
      { intros a Ha. apply Hf. by eapply others_lookup. }
      split; [by eapply level_rep_frame|]. split; [done|].
      intros a Ha. rewrite E by done. by apply Ho.
  - rewrite concat_insert_perm by done. rewrite concat_lookup_perm in Hnd by done.
    apply NoDup_app in Hnd as (_ & _ & Hnd). apply NoDup_app. split; [apply Hr'|]. done.
Qed.

Lemma resting_addrs_perm q buy i ps :
  qside q buy !! i = Some ps ->
  exists rest, resting_addrs q ≡ₚ ps ++ rest /\
    (forall a, a ∈ others i (qside q buy) -> a ∈ rest) /\
    (forall a, a ∈ concat (qside q (negb buy)) -> a ∈ rest) /\
    forall ps', resting_addrs (qset buy (<[i := ps']> (qside q buy)) q) ≡ₚ ps' ++ rest.
Proof.
  intros Hi. pose proof (lookup_lt_Some _ _ _ Hi) as Hlt.
  exists (others i (qside q buy) ++ concat (qside q (negb buy))).
  unfold resting_addrs. split; [|split; [set_solver|split; [set_solver|]]].
  - rewrite (assoc_L (++)), <- concat_lookup_perm by done.
    destruct buy; simpl; [done|]. apply Permutation_app_comm.
  - intros ps'. rewrite (assoc_L (++)), <- (concat_insert_perm _ _ ps') by done.
    destruct buy; simpl; [done|]. apply Permutation_app_comm.
Qed.

Lemma book_struct_nodup h b q : book_struct h b q -> NoDup (resting_addrs q).
Proof.
  intros Hs. apply NoDup_app. split; [apply (bs_side _ _ _ Hs true)|].
  split; [|apply (bs_side _ _ _ Hs false)]. intros a Ha Ha'. by eapply bs_disj.
Qed.

Lemma book_struct_set_best h b q buy i :
  book_struct h (set_best buy i b) q <-> book_struct h b q.
Proof.
  destruct buy; split; intros [[] Hl Hs Hd]; (split; [by split|exact Hl|exact Hs|exact Hd]).
Qed.

Lemma book_struct_set_index h b q m :
  book_struct h (set_order_index m b) q <-> book_struct h b q.
Proof. split; intros [[] Hl Hs Hd]; (split; [by split|exact Hl|exact Hs|exact Hd]). Qed.

Lemma levels_of_set_levels b buy l : levels_of (set_levels buy l b) buy = l.
Proof. by destruct buy. Qed.
Lemma levels_of_set_levels_ne b buy l :
  levels_of (set_levels buy l b) (negb buy) = levels_of b (negb buy).
Proof. by destruct buy. Qed.
Lemma set_levels_set_levels b buy l l' : set_levels buy l (set_levels buy l' b) = set_levels buy l b.
Proof. by destruct buy. Qed.

(** Replacing one level and its queue. *)
Lemma book_struct_update h h' b q buy i lvl ps lvl' ps' :
  book_struct h b q ->
  levels_of b buy !! i = Some lvl -> qside q buy !! i = Some ps ->
  level_rep h' lvl' ps' -> lv_price lvl' = lv_price lvl ->
  (forall a, a ∈ ps' -> exists o, h' !! a = Some o /\
     resting (bk_min_price b + Z.of_nat i * bk_tick_size b) buy o) ->
  (forall a, a ∈ resting_addrs q -> a ∉ ps -> h' !! a = h !! a) ->
  (forall a, a ∈ ps' -> a ∉ ps -> a ∉ resting_addrs q) ->
  book_struct h' (set_levels buy (<[i := lvl']> (levels_of b buy)) b)
    (qset buy (<[i := ps']> (qside q buy)) q).
Proof.
  intros Hb Hl Hq Hr Hp Ho Hf Hnew.
  pose proof (book_struct_nodup _ _ _ Hb) as Hnd.
  destruct (resting_addrs_perm q buy i ps Hq) as (rest & Hperm & Hoth & Hneg & Hperm').
  rewrite Hperm in Hnd. apply NoDup_app in Hnd as (_ & Hdis & Hndr).
  assert (forall a, a ∈ rest -> h' !! a = h !! a) as Hf'.
  { intros a Ha. apply Hf; [rewrite Hperm; set_solver|]. intros Hp'. by eapply Hdis. }
  assert (forall a, a ∈ ps' -> a ∉ rest) as Hdis'.
  { intros a Ha Har. destruct (decide (a ∈ ps)); [by eapply Hdis|].
    apply (Hnew a Ha); [done|]. rewrite Hperm. set_solver. }
  destruct Hb as [Hcfg Hlen Hside Hdisj].
  assert (forall s, side_rep (bk_min_price b) (bk_tick_size b) s h'
            (levels_of (set_levels buy (<[i := lvl']> (levels_of b buy)) b) s)
            (qside (qset buy (<[i := ps']> (qside q buy)) q) s)) as Hside'.
  { intros s. destruct (decide (s = buy)) as [->|Hs].
    - rewrite levels_of_set_levels, qside_qset.
      eapply side_rep_update; [apply Hside|done..|by eauto|].
      intros a Ha Ha'. by eapply Hdis'; eauto.
    - assert (s = negb buy) as -> by (by destruct s, buy).
      rewrite levels_of_set_levels_ne, qside_qset_ne by (by destruct buy).
      eapply side_rep_frame; [|apply Hside]. eauto. }
  split.
  - by destruct buy; destruct Hcfg.
  - intros s. transitivity (length (levels_of b s)); [|by rewrite Hlen; destruct buy].
    destruct buy, s; simpl; rewrite ?length_insert; done.
  - intros s. by destruct buy; apply Hside'.
  - pose proof (lookup_lt_Some _ _ _ Hq) as Hlt. intros a Ha Ha'.
    assert (a ∈ ps' ++ others i (qside q buy) /\ a ∈ concat (qside q (negb buy))) as [H1 H2].
    { rewrite <- concat_insert_perm by done. by destruct buy. }
    apply elem_of_app in H1 as [H1|H1]; [by eapply Hdis'; eauto|].
    assert (a ∈ concat (qside q buy)) by (rewrite concat_lookup_perm by done; set_solver).
    destruct buy; eauto.
Qed.

(** ** The cursors *)

(** The emptiness test on the levels agrees with the queues. *)
Record empties (lvs : list PriceLevel) (qs : list (list nat)) : Prop := {
  em_len : length lvs = length qs;
  em_empty : forall i lvl ps, lvs !! i = Some lvl -> qs !! i = Some ps ->
    level_empty lvl = bool_decide (ps = [])
}.

Lemma side_rep_empties mn tick buy h lvs qs : side_rep mn tick buy h lvs qs -> empties lvs qs.
Proof.
  intros [Hlen Hlv _]. split; [done|]. intros i lvl ps Hl Hq.
  destruct (Hlv _ _ _ Hl Hq) as (Hr & _). by eapply level_empty_rep.
Qed.

Lemma empties_at lvs qs i :
  empties lvs qs -> (i < length qs)%nat ->
  exists lvl ps, vec_at lvs (Z.of_nat i) = Ok lvl /\ qs !! i = Some ps /\
    level_empty lvl = bool_decide (ps = []).
Proof.
  intros [Hlen He] Hi.
  destruct (lookup_lt_is_Some_2 qs i Hi) as [ps Hps].
  destruct (lookup_lt_is_Some_2 lvs i ltac:(lia)) as [lvl Hl].
  exists lvl, ps. split; [by apply vec_at_Ok|]. eauto.
Qed.

Lemma scan_down_spec lvs qs i :
  empties lvs qs -> (i < length qs)%nat ->
  exists r, scan_down lvs i = Ok r /\
    ((r = kNoBest /\ forall j ps, (j <= i)%nat -> qs !! j = Some ps -> ps = [])
     \/ exists j ps, r = Z.of_nat j /\ (j <= i)%nat /\ qs !! j = Some ps /\ ps <> [] /\
          forall k ps', (j < k <= i)%nat -> qs !! k = Some ps' -> ps' = []).
Proof.
  intros He. induction i as [|i IH]; intros Hi;
    destruct (empties_at _ _ _ He Hi) as (lvl & ps & Hv & Hps & Hl);
    cbn [scan_down]; rewrite Hv; cbn [bind]; rewrite Hl;
    case_bool_decide as Hnil; cbn [negb].
  - eexists. split; [done|]. left. split; [done|]. intros j ps' Hj Hq.
    assert (j = 0)%nat as -> by lia. by simplify_eq.
  - eexists. split; [done|]. right. exists 0%nat, ps. repeat split; [done..|]. lia.
  - destruct (IH ltac:(lia)) as (r & -> & Hr). eexists. split; [done|].
    destruct Hr as [[-> Hr]|(j & ps1 & -> & Hj & Hq & Hne & Hr)].
    + left. split; [done|]. intros j ps' Hj Hq.
      destruct (decide (j = S i)) as [->|]; [by simplify_eq|]. eapply Hr; [|done]. lia.
    + right. exists j, ps1. repeat split; [lia|done..|]. intros k ps' Hk Hq'.
      destruct (decide (k = S i)) as [->|]; [by simplify_eq|]. eapply Hr; [|done]. lia.
  - eexists. split; [done|]. right. exists (S i), ps. repeat split; [done..|]. lia.
Qed.

Lemma scan_up_spec lvs qs i k :
  empties lvs qs -> (i + k = length qs)%nat ->
  exists r, scan_up lvs i k = Ok r /\
    ((r = kNoBest /\ forall j ps, (i <= j)%nat -> qs !! j = Some ps -> ps = [])
     \/ exists j ps, r = Z.of_nat j /\ (i <= j)%nat /\ qs !! j = Some ps /\ ps <> [] /\
          forall m ps', (i <= m < j)%nat -> qs !! m = Some ps' -> ps' = []).
Proof.
  intros He. revert i. induction k as [|k IH]; intros i Hi.
  { eexists. split; [done|]. left. split; [done|]. intros j ps Hj Hq.
    apply lookup_lt_Some in Hq. lia. }
  destruct (empties_at _ _ i He ltac:(lia)) as (lvl & ps & Hv & Hps & Hl).
  cbn [scan_up]. rewrite Hv. cbn [bind]. rewrite Hl.
  case_bool_decide as Hnil; cbn [negb].
  - destruct (IH (S i) ltac:(lia)) as (r & -> & Hr). eexists. split; [done|].
    destruct Hr as [[-> Hr]|(j & ps1 & -> & Hj & Hq & Hne & Hr)].
    + left. split; [done|]. intros j ps' Hj Hq.
      destruct (decide (j = i)) as [->|]; [by simplify_eq|]. eapply Hr; [|done]. lia.
    + right. exists j, ps1. repeat split; [lia|done..|]. intros m ps' Hm Hq'.
      destruct (decide (m = i)) as [->|]; [by simplify_eq|]. eapply Hr; [|done]. lia.
  - eexists. split; [done|]. right. exists i, ps. repeat split; [done..|]. lia.
Qed.

(** A level that stays non-empty keeps the cursor. *)
Lemma best_ok_keep buy idx qs i ps ps' :
  best_ok buy idx qs -> qs !! i = Some ps -> ps <> [] -> ps' <> [] ->
  best_ok buy idx (<[i := ps']> qs).
Proof.
  intros [[-> Hb]|(j & psj & -> & Hj & Hne & Hb)] Hi Hps Hps'.
  { destruct Hps. by eapply Hb. }
  right. pose proof (lookup_lt_Some _ _ _ Hi) as Hlt.
  assert (forall k ps1, <[i := ps']> qs !! k = Some ps1 -> ps1 <> [] ->
            exists ps0, qs !! k = Some ps0 /\ ps0 <> []) as Hold.
  { intros k ps1 Hk Hk'. destruct (decide (i = k)) as [<-|]; [by eauto|].
    rewrite list_lookup_insert_ne in Hk by done. eauto. }
  exists j, (if decide (i = j) then ps' else psj). split; [done|]. split.
  { case_decide as Hij; [subst; by rewrite list_lookup_insert_eq|].
    by rewrite list_lookup_insert_ne. }
  split; [by case_decide|]. intros k ps1 Hk Hk1.
  destruct (Hold _ _ Hk Hk1) as (ps0 & Hk0 & Hne0). exact (Hb _ _ Hk0 Hne0).
Qed.

(** A level other than the best one that becomes empty keeps the cursor. *)
Lemma best_ok_other buy idx qs i ps :
  best_ok buy idx qs -> qs !! i = Some ps -> ps <> [] -> idx <> Z.of_nat i ->
  best_ok buy idx (<[i := []]> qs).
Proof.
  intros [[-> Hb]|(j & psj & -> & Hj & Hne & Hb)] Hi Hps Hidx.
  { destruct Hps. by eapply Hb. }
  right. exists j, psj. split; [done|].
  rewrite list_lookup_insert_ne by (intros ->; lia). split; [done|]. split; [done|].
  intros k ps1 Hk Hk1. destruct (decide (i = k)) as [->|].
  - rewrite list_lookup_insert_eq in Hk by (by eapply lookup_lt_Some). by simplify_eq.
  - rewrite list_lookup_insert_ne in Hk by done. exact (Hb _ _ Hk Hk1).
Qed.

Lemma set_best_id buy b : set_best buy (best_of b buy) b = b.
Proof. by destruct buy, b. Qed.

(** Once the best level [i] is emptied, whatever still rests lies beyond it. *)
Lemma best_ok_cleared buy qs i k ps1 :
  best_ok buy (Z.of_nat i) qs -> (i < length qs)%nat -> Z.of_nat i < kNoBest ->
  <[i := []]> qs !! k = Some ps1 -> ps1 <> [] -> if buy then (k < i)%nat else (i < k)%nat.
Proof.
  intros Hb Hlt Hn Hk Hk1. destruct (decide (i = k)) as [<-|].
  - rewrite list_lookup_insert_eq in Hk by done. by simplify_eq.
  - rewrite list_lookup_insert_ne in Hk by done.
    destruct Hb as [[_ Hb]|(j & psj & Hj & Hqj & _ & Hb)].
    { destruct Hk1. by eapply Hb. }
    assert (j = i) as -> by lia. specialize (Hb _ _ Hk Hk1). destruct buy; lia.
Qed.

(** [advance_best_cursor] walks down the bids ... *)
Lemma advance_bid_cursor b qs i :
  empties (bk_bid_levels b) (<[i := []]> qs) -> (i < length qs)%nat ->
  Z.of_nat i < kNoBest -> best_ok true (Z.of_nat i) qs -> bk_best_bid_idx b = Z.of_nat i ->
  exists idx, advance_best_cursor b Buy (Z.of_nat i) = Ok (set_best true idx b) /\
    best_ok true idx (<[i := []]> qs).
Proof.
  intros He Hlt Hn Hb Hbi. unfold advance_best_cursor. simpl.
  pose proof (fun k ps => best_ok_cleared true qs i k ps Hb Hlt Hn) as Hold.
  rewrite Hbi, Z.eqb_refl. cbn [negb]. destruct i as [|i].
  { exists kNoBest. split; [done|]. left. split; [done|]. intros k ps1 Hk.
    destruct ps1 as [|x ps1]; [done|]. specialize (Hold _ _ Hk ltac:(done)). simpl in *. lia. }
  rewrite (proj2 (Z.eqb_neq _ _)) by lia.
  replace (Z.to_nat (Z.of_nat (S i) - 1)) with i by lia.
  destruct (scan_down_spec _ _ i He) as (r & -> & Hr); [rewrite length_insert; lia|].
  cbn [bind]. exists r. split; [done|].
  destruct Hr as [[-> Hr]|(j & psj & -> & Hj & Hqj & Hne & Hr)].
  - left. split; [done|]. intros k ps1 Hk. destruct ps1 as [|x ps1]; [done|].
    specialize (Hold _ _ Hk ltac:(done)). eapply (Hr k); [simpl in *; lia|done].
  - right. exists j, psj. repeat split; [done..|]. intros k ps1 Hk Hk1.
    specialize (Hold _ _ Hk Hk1). destruct (decide (k <= j)%nat); [done|].
    destruct Hk1. eapply (Hr k); [simpl in *; lia|done].
Qed.

(** ... and up the asks, from the emptied level to the next one in use. *)
Lemma advance_ask_cursor b s qs i :
  s <> Buy ->
  empties (bk_ask_levels b) (<[i := []]> qs) -> (i < length qs)%nat ->
  Z.of_nat (length (bk_ask_levels b)) < kNoBest ->
  best_ok false (Z.of_nat i) qs -> bk_best_ask_idx b = Z.of_nat i ->
  exists idx, advance_best_cursor b s (Z.of_nat i) = Ok (set_best false idx b) /\
    best_ok false idx (<[i := []]> qs).
Proof.
  intros Hs He Hlt Hn Hb Hbi. unfold advance_best_cursor. rewrite (bool_decide_eq_false_2 _ Hs).
  pose proof (em_len _ _ He) as Hlen. rewrite length_insert in Hlen.
  pose proof (fun k ps => best_ok_cleared false qs i k ps Hb Hlt ltac:(lia)) as Hold.
  simpl. rewrite Hbi, Z.eqb_refl. cbn [negb].
  rewrite u64_id by (unfold in_u64, kNoBest, SIZE_MAX in *; lia).
  destruct (Z.eqb_spec (Z.of_nat i) (Z.of_nat (length (bk_ask_levels b)) - 1)) as [Hl|Hl].
  { exists kNoBest. split; [done|]. left. split; [done|]. intros k ps1 Hk.
    destruct ps1 as [|x ps1]; [done|]. specialize (Hold _ _ Hk ltac:(done)). simpl in *.
    apply lookup_lt_Some in Hk. rewrite length_insert in Hk. lia. }
  replace (Z.to_nat (Z.of_nat i + 1)) with (S i) by lia.
  destruct (scan_up_spec (bk_ask_levels b) (<[i := []]> qs) (S i)
              (Z.to_nat (Z.of_nat (length (bk_ask_levels b)) - (Z.of_nat i + 1))) He)
    as (r & -> & Hr); [rewrite length_insert; lia|].
  cbn [bind]. exists r. split; [done|].
  destruct Hr as [[-> Hr]|(j & psj & -> & Hj & Hqj & Hne & Hr)].
  - left. split; [done|]. intros k ps1 Hk. destruct ps1 as [|x ps1]; [done|].
    specialize (Hold _ _ Hk ltac:(done)). eapply (Hr k); [simpl in *; lia|done].
  - right. exists j, psj. repeat split; [done..|]. intros k ps1 Hk Hk1.
    specialize (Hold _ _ Hk Hk1). destruct (decide (j <= k)%nat); [done|].
    destruct Hk1. eapply (Hr k); [simpl in *; lia|done].
Qed.

(** [advance_best_cursor] after level [i] has been emptied. *)
Lemma advance_best_cursor_spec b s buy qs i ps :
  bool_decide (s = Buy) = buy ->
  empties (levels_of b buy) (<[i := []]> qs) ->
  Z.of_nat (length (levels_of b buy)) < kNoBest ->
  best_ok buy (best_of b buy) qs -> qs !! i = Some ps -> ps <> [] ->
  exists idx, advance_best_cursor b s (Z.of_nat i) = Ok (set_best buy idx b) /\
    best_ok buy idx (<[i := []]> qs).
Proof.
  intros Hs He Hn Hb Hi Hps.
  pose proof (lookup_lt_Some _ _ _ Hi) as Hlt.
  pose proof (em_len _ _ He) as Hlen. rewrite length_insert in Hlen.
  destruct (decide (best_of b buy = Z.of_nat i)) as [Hbi|Hbi].
  - rewrite Hbi in Hb.
    destruct buy; [apply bool_decide_eq_true in Hs as ->; apply advance_bid_cursor
                  |apply bool_decide_eq_false in Hs; apply advance_ask_cursor];
      simpl in *; try done; lia.
  - exists (best_of b buy). rewrite set_best_id. split; [|by eapply best_ok_other].
    unfold advance_best_cursor. rewrite Hs.
    destruct buy; simpl in *; by rewrite (proj2 (Z.eqb_neq _ _)).
Qed.

(** ** Locating an order and writing its level back *)

Lemma side_levels_of b s : side_levels b s = levels_of b (bool_decide (s = Buy)).
Proof. done. Qed.

Lemma write_level_Ok b s i lvl :
  (i < length (levels_of b (bool_decide (s = Buy))))%nat ->
  write_level b s (Z.of_nat i) lvl =
    Ok (set_levels (bool_decide (s = Buy))
          (<[i := lvl]> (levels_of b (bool_decide (s = Buy)))) b).
Proof.
  intros Hi. unfold write_level. rewrite side_levels_of, vec_set_Ok by done. done.
Qed.

Lemma book_lookup h b q buy i ps a :
  book_struct h b q -> qside q buy !! i = Some ps -> a ∈ ps ->
  exists o lvl,
    h !! a = Some o /\ levels_of b buy !! i = Some lvl /\ level_rep h lvl ps /\
    resting (bk_min_price b + Z.of_nat i * bk_tick_size b) buy o /\ (i < nlevels b)%nat.
Proof.
  intros [Hc Hl Hs Hd] Hq Ha. specialize (Hs buy). specialize (Hl buy).
  pose proof (lookup_lt_Some _ _ _ Hq) as Hi. rewrite <- (sr_len _ _ _ _ _ _ Hs) in Hi.
  destruct (lookup_lt_is_Some_2 _ _ Hi) as [lvl Hlvl].
  destruct (sr_level _ _ _ _ _ _ Hs _ _ _ Hlvl Hq) as (Hr & _ & Ho).
  destruct (Ho a Ha) as (o & Hoa & Hres). exists o, lvl. repeat split; try done; try apply Hr;
    try apply Hres. lia.
Qed.

(** The location of a resting order, as the book computes it from the
    order's price and side. *)
Lemma resting_location `{Build} b buy i o :
  config_ok b -> (i < nlevels b)%nat ->
  resting (bk_min_price b + Z.of_nat i * bk_tick_size b) buy o ->
  is_valid_price b (o_price o) = true /\
  tick_to_index b (o_price o) = Ok (Z.of_nat i) /\
  bool_decide (o_side o = Buy) = buy.
Proof.
  intros Hc Hi [Hp Hs _ _]. rewrite Hp.
  destruct (grid_price_index b i Hc Hi) as [? ?]. by split_and!.
Qed.

Lemma book_agg_update h h' b q buy i lvl' ps ps' :
  book_struct h b q -> qside q buy !! i = Some ps -> book_agg h b q ->
  level_agg h' lvl' ps' ->
  (forall a, a ∈ resting_addrs q -> a ∉ ps -> h' !! a = h !! a) ->
  book_agg h' (set_levels buy (<[i := lvl']> (levels_of b buy)) b)
    (qset buy (<[i := ps']> (qside q buy)) q).
Proof.
  intros Hb Hq Hagg Hl Hf s j lvl1 ps1 Hl1 Hq1.
  pose proof (book_struct_nodup _ _ _ Hb) as Hnd.
  destruct (resting_addrs_perm q buy i ps Hq) as (rest & Hperm & Hoth & Hneg & _).
  rewrite Hperm in Hnd. apply NoDup_app in Hnd as (_ & Hdis & _).
  assert (forall a, a ∈ rest -> h' !! a = h !! a) as Hf'.
  { intros a Ha. apply Hf; [rewrite Hperm; set_solver|]. intros Hp'. by eapply Hdis. }
  pose proof (lookup_lt_Some _ _ _ Hq) as Hlt.
  destruct (decide (s = buy)) as [->|Hs].
  - rewrite levels_of_set_levels in Hl1. rewrite qside_qset in Hq1.
    destruct (decide (i = j)) as [<-|Hij].
    + rewrite list_lookup_insert_eq in Hq1 by done.
      rewrite list_lookup_insert_eq in Hl1
        by (by rewrite (sr_len _ _ _ _ _ _ (bs_side _ _ _ Hb buy))).
      by simplify_eq.
    + rewrite list_lookup_insert_ne in Hl1 by done.
      rewrite list_lookup_insert_ne in Hq1 by done.
      eapply level_agg_frame; [|by eapply Hagg].
      intros a Ha. apply Hf', Hoth. by eapply others_lookup.
  - assert (s = negb buy) as -> by (by destruct s, buy).
    rewrite levels_of_set_levels_ne in Hl1. rewrite qside_qset_ne in Hq1 by (by destruct buy).
    eapply level_agg_frame; [|by eapply Hagg].
    intros a Ha. apply Hf', Hneg, elem_of_concat_lookup. eauto.
Qed.

Lemma book_agg_set_best h b q buy i : book_agg h (set_best buy i b) q <-> book_agg h b q.
Proof. by destruct buy. Qed.
Lemma book_agg_set_index h b q m : book_agg h (set_order_index m b) q <-> book_agg h b q.
Proof. done. Qed.

Lemma best_ok_add buy idx qs i ps a :
  best_ok buy idx qs -> qs !! i = Some ps -> Z.of_nat (length qs) < kNoBest ->
  best_ok buy (if (idx =? kNoBest) || (if buy then Z.of_nat i >? idx else Z.of_nat i <? idx)
               then Z.of_nat i else idx) (<[i := ps ++ [a]]> qs).
Proof.
  intros Hb Hi Hn. pose proof (lookup_lt_Some _ _ _ Hi) as Hlt.
  assert (ps ++ [a] <> []) as Hne by (by destruct ps).
  assert (forall k ps1, <[i := ps ++ [a]]> qs !! k = Some ps1 -> ps1 <> [] ->
            k = i \/ (qs !! k = Some ps1 /\ k <> i)) as Hold.
  { intros k ps1 Hk Hk1. destruct (decide (i = k)) as [<-|]; [by left|].
    rewrite list_lookup_insert_ne in Hk by done. by right. }
  destruct Hb as [[-> Hb]|(j & psj & -> & Hj & Hnej & Hb)].
  - rewrite Z.eqb_refl. simpl. right. exists i, (ps ++ [a]).
    rewrite list_lookup_insert_eq by done. repeat split; [done..|].
    intros k ps1 Hk Hk1. destruct (Hold _ _ Hk Hk1) as [->|[Hk' _]]; [by destruct buy|].
    destruct Hk1. by eapply Hb.
  - destruct (_ || _) eqn:Hcond.
    + right. exists i, (ps ++ [a]). rewrite list_lookup_insert_eq by done.
      repeat split; [done..|]. intros k ps1 Hk Hk1.
      destruct (Hold _ _ Hk Hk1) as [->|[Hk' _]]; [by destruct buy|].
      specialize (Hb _ _ Hk' Hk1). apply lookup_lt_Some in Hj.
      destruct buy; lia.
    + right. destruct (decide (i = j)) as [<-|Hij].
      * exists i, (ps ++ [a]). rewrite list_lookup_insert_eq by done.
        repeat split; [done..|]. intros k ps1 Hk Hk1.
        destruct (Hold _ _ Hk Hk1) as [->|[Hk' _]]; [by destruct buy|]. by eapply Hb.
      * exists j, psj. rewrite list_lookup_insert_ne by done. repeat split; [done..|].
        intros k ps1 Hk Hk1. destruct (Hold _ _ Hk Hk1) as [->|[Hk' _]];
          [destruct buy; lia|by eapply Hb].
Qed.
