(* ===== verification/OrderBookOps.v ===== *)
(** * What the order book's operations do to its queues

    For every operation of [OrderBook] that changes the book: on a book that
    satisfies [book_rep] it returns (no null or dangling pointer, no index
    out of range, no failed assertion), the result satisfies [book_rep] for
    the updated queues, and objects outside the touched level are
    unchanged.  With assertions compiled in, the operations also need the
    aggregates to be exact ([book_agg]), which they preserve. *)

From stdpp Require Import base numbers list gmap fin_maps.
From Stdlib Require Import ZArith Lia.
From S2P Require Import Prelude.
From S2P Require Import OrderTypes.
From S2P Require Import PriceLevel.
From S2P Require Import OrderIndex.
From S2P Require Import OrderBook.
From S2P Require Import OrderBookInv.

(** The members a book keeps for life. *)
Definition same_grid (b b' : OrderBook) : Prop :=
  bk_instrument_id b' = bk_instrument_id b /\ bk_min_price b' = bk_min_price b /\
  bk_max_price b' = bk_max_price b /\ bk_tick_size b' = bk_tick_size b.

#[export] Instance same_grid_equivalence : Equivalence same_grid.
Proof.
  split.
  - by intros b.
  - intros b b' (? & ? & ? & ?). by repeat split.
  - intros b1 b2 b3 (? & ? & ? & ?) (? & ? & ? & ?). repeat split; congruence.
Qed.

Lemma same_grid_set b buy l i m :
  same_grid b (set_order_index m (set_levels buy l b)) /\
  same_grid b (set_best buy i (set_order_index m (set_levels buy l b))).
Proof. by destruct buy. Qed.

Lemma same_grid_set_levels b buy l : same_grid b (set_levels buy l b).
Proof. by destruct buy. Qed.

Lemma resting_data p buy o o' : data o' = data o -> resting p buy o -> resting p buy o'.
Proof.
  intros E [Hp Hs Ha Hq]. split.
  - change (o_price (data o') = p). by rewrite E.
  - change (is_buy (data o') = buy). by rewrite E.
  - change (is_active (data o') = true). by rewrite E.
  - change (0 < o_quantity (data o') < 2 ^ 32). by rewrite E.
Qed.

Lemma order_id_data o o' : data o' = data o -> o_order_id o' = o_order_id o.
Proof. intros E. change (o_order_id (data o') = o_order_id o). by rewrite E. Qed.

Section ops.
Context `{Build}.
Implicit Types (h : heap) (b : OrderBook) (q : queues).

(** The index after an order has left the book: entries for its id are
    gone, the others still lead to resting orders. *)
Lemma index_removed h h' b q buy i l1 a l2 o :
  book_rep h b q -> qside q buy !! i = Some (l1 ++ a :: l2) -> h !! a = Some o ->
  (forall c, c <> a -> data <$> h' !! c = data <$> h !! c) ->
  forall id c, OrderIndex.erase (bk_order_index b) (o_order_id o) !! id = Some c ->
    c ∈ resting_addrs (qset buy (<[i := l1 ++ l2]> (qside q buy)) q) /\
    exists o', h' !! c = Some o' /\ o_order_id o' = id.
Proof.
  intros [Hb _ Hidx] Hq Ho Hd id c Hc. unfold OrderIndex.erase in Hc.
  apply lookup_delete_Some in Hc as [Hne Hc].
  destruct (Hidx _ _ Hc) as (Hin & oc & Hoc & Hid).
  assert (c <> a) as Hca by (intros ->; congruence).
  destruct (resting_addrs_perm q buy i _ Hq) as (rest & Hp & _ & _ & Hp').
  split.
  - rewrite Hp'. rewrite Hp in Hin. set_solver.
  - specialize (Hd c Hca). rewrite Hoc in Hd.
    destruct (fmap_data_Some _ _ Hd) as (o' & -> & E). exists o'. split; [done|].
    rewrite <- Hid. by apply order_id_data.
Qed.

(** The level arrays after [level_remove] has run on the level of a resting
    order: [o] is the order's object at that point (its quantity may already
    have been reduced) and [lvl] its level. *)
Lemma unlink_struct h0 b0 q buy i l1 a l2 lvl0 o0 o lvl :
  book_struct h0 b0 q ->
  levels_of b0 buy !! i = Some lvl0 -> qside q buy !! i = Some (l1 ++ a :: l2) ->
  h0 !! a = Some o0 -> links o = links o0 ->
  lv_head lvl = lv_head lvl0 -> lv_tail lvl = lv_tail lvl0 -> lv_price lvl = lv_price lvl0 ->
  (asserts_enabled = true -> level_agg (<[a := o]> h0) lvl (l1 ++ a :: l2)) ->
  exists h1 lvl1,
    level_remove (<[a := o]> h0) lvl (Some a) = Ok (h1, lvl1) /\
    h1 !! a = Some (data o) /\ (a ∉ l1 ++ l2) /\
    level_empty lvl1 = bool_decide (l1 ++ l2 = []) /\
    (forall c, c <> a -> data <$> h1 !! c = data <$> h0 !! c) /\
    (forall c, c ∉ l1 ++ a :: l2 -> h1 !! c = h0 !! c) /\
    (forall o', book_struct (<[a := o']> h1)
       (set_levels buy (<[i := lvl1]> (levels_of b0 buy)) b0)
       (qset buy (<[i := l1 ++ l2]> (qside q buy)) q)) /\
    (level_agg (<[a := o]> h0) lvl (l1 ++ a :: l2) -> level_agg h1 lvl1 (l1 ++ l2)).
Proof.
  intros Hst Hl Hq Ho0 Hlk Eh Et Ep Hasrt.
  destruct (book_lookup _ _ _ _ _ _ a Hst Hq ltac:(set_solver))
    as (o0' & lvl0' & Ho0' & Hl' & Hrep & Hres & Hi).
  assert (lvl0' = lvl0) as -> by congruence.
  set (h := <[a := o]> h0).
  assert (h !! a = Some o) as Ho by apply lookup_insert_eq.
  assert (level_rep h lvl (l1 ++ a :: l2)) as Hrep1
    by (by apply (level_rep_set _ lvl0 _ _ _ o0)).
  destruct (level_remove_rep h lvl l1 a l2 o Hrep1 Ho Hasrt)
    as (h1 & lvl1 & Erm & Hrep2 & Ep1 & Hsd & Ha1 & Hf1 & Hagg1).
  assert (a ∉ l1 ++ l2) as Hna.
  { destruct Hrep1 as [_ _ _ Hnd]. rewrite <- Permutation_middle in Hnd.
    by apply NoDup_cons in Hnd as [? _]. }
  assert (forall c, c <> a -> data <$> h1 !! c = data <$> h0 !! c) as Hd.
  { intros c Hc. rewrite <- Hsd. unfold h. by rewrite lookup_insert_ne. }
  assert (forall c, c ∉ l1 ++ a :: l2 -> h1 !! c = h0 !! c) as Hf.
  { intros c Hc. rewrite Hf1 by done. unfold h. rewrite lookup_insert_ne; set_solver. }
  exists h1, lvl1. split_and!; try done; [by eapply level_empty_rep|].
  intros o'. eapply book_struct_update; [done..| |congruence| | |].
  - eapply level_rep_frame; [|done]. intros c Hc. rewrite lookup_insert_ne; set_solver.
  - intros c Hc. assert (c <> a) by set_solver. rewrite lookup_insert_ne by done.
    destruct (book_lookup _ _ _ _ _ _ c Hst Hq ltac:(set_solver))
      as (oc & _ & Hoc & _ & _ & Hresc & _).
    specialize (Hd c ltac:(done)). rewrite Hoc in Hd.
    destruct (fmap_data_Some _ _ Hd) as (oc' & -> & E). exists oc'. split; [done|].
    by eapply resting_data.
  - intros c _ Hc. rewrite lookup_insert_ne by set_solver. by apply Hf.
  - set_solver.
Qed.

(** The cursor after a level has lost an order: [advance_best_cursor] runs
    exactly when the level has become empty. *)
Lemma unlink_cursor h b b1 q buy i l1 a l2 s e :
  book_struct h b1 (qset buy (<[i := l1 ++ l2]> (qside q buy)) q) ->
  best_ok buy (best_of b buy) (qside q buy) -> best_of b1 buy = best_of b buy ->
  qside q buy !! i = Some (l1 ++ a :: l2) -> bool_decide (s = Buy) = buy ->
  e = bool_decide (l1 ++ l2 = []) ->
  exists idx,
    (if e : bool then advance_best_cursor b1 s (Z.of_nat i) else Ok b1)
      = Ok (set_best buy idx b1) /\
    best_ok buy idx (<[i := l1 ++ l2]> (qside q buy)).
Proof.
  intros Hst Hbest Hb1 Hq Hs ->.
  destruct (bool_decide_reflect (l1 ++ l2 = [])) as [Hnil|Hnil].
  - rewrite Hnil in *. eapply advance_best_cursor_spec; [done| | | |done|by destruct l1].
    + pose proof (side_rep_empties _ _ _ _ _ _ (bs_side _ _ _ Hst buy)) as He.
      by rewrite qside_qset in He.
    + rewrite (bs_len _ _ _ Hst buy). apply nlevels_bound, Hst.
    + by rewrite Hb1.
  - exists (best_of b1 buy). rewrite set_best_id. split; [done|]. rewrite Hb1.
    eapply best_ok_keep; [done..|by destruct l1|done].
Qed.

(** The whole book after an order has been unlinked.  Whatever is written
    to the order's object afterwards, the book no longer depends on it. *)
Lemma unlink_spec h0 b0 q buy i l1 a l2 lvl0 o0 o lvl s :
  book_rep h0 b0 q ->
  levels_of b0 buy !! i = Some lvl0 -> qside q buy !! i = Some (l1 ++ a :: l2) ->
  h0 !! a = Some o0 -> bool_decide (s = Buy) = buy ->
  links o = links o0 -> o_order_id o = o_order_id o0 ->
  lv_head lvl = lv_head lvl0 -> lv_tail lvl = lv_tail lvl0 -> lv_price lvl = lv_price lvl0 ->
  (asserts_enabled = true -> level_agg (<[a := o]> h0) lvl (l1 ++ a :: l2)) ->
  let q' := qset buy (<[i := l1 ++ l2]> (qside q buy)) q in
  exists h1 lvl1 b',
    level_remove (<[a := o]> h0) lvl (Some a) = Ok (h1, lvl1) /\
    h1 !! a = Some (data o) /\
    (let b1 := set_order_index (OrderIndex.erase (bk_order_index b0) (o_order_id o))
                 (set_levels buy (<[i := lvl1]> (levels_of b0 buy)) b0) in
     (if level_empty lvl1 then advance_best_cursor b1 s (Z.of_nat i) else Ok b1) = Ok b') /\
    same_grid b0 b' /\
    bk_order_index b' = OrderIndex.erase (bk_order_index b0) (o_order_id o) /\
    (forall c, c <> a -> data <$> h1 !! c = data <$> h0 !! c) /\
    (forall c, c ∉ l1 ++ a :: l2 -> h1 !! c = h0 !! c) /\
    forall o', book_rep (<[a := o']> h1) b' q' /\
      (book_agg h0 b0 q -> level_agg (<[a := o]> h0) lvl (l1 ++ a :: l2) ->
       book_agg (<[a := o']> h1) b' q').
Proof.
  intros Hb Hl Hq Ho0 Hs Hlk Hid Eh Et Ep Hasrt q'.
  pose proof (br_struct _ _ _ Hb) as Hst. pose proof (br_best _ _ _ Hb) as Hbest.
  destruct (unlink_struct h0 b0 q buy i l1 a l2 lvl0 o0 o lvl)
    as (h1 & lvl1 & Erm & Ha1 & Hna & He & Hd & Hf & Hst1 & Hagg1); [done..|].
  set (m := OrderIndex.erase (bk_order_index b0) (o_order_id o)).
  set (b1 := set_order_index m (set_levels buy (<[i := lvl1]> (levels_of b0 buy)) b0)).
  destruct (unlink_cursor (<[a := o]> h1) b0 b1 q buy i l1 a l2 s (level_empty lvl1))
    as (idx & Eb' & Hidx); [by apply book_struct_set_index|done|by destruct buy|done..|].
  exists h1, lvl1, (set_best buy idx b1).
  split; [done|]. split; [done|]. split; [exact Eb'|].
  split; [apply same_grid_set|]. split; [by destruct buy|]. split; [done|]. split; [done|].
  intros o'. split; [split|].
  - apply book_struct_set_best, book_struct_set_index, Hst1.
  - intros s'. unfold q'. destruct (decide (s' = buy)) as [->|Hne].
    + rewrite qside_qset. by destruct buy.
    + rewrite qside_qset_ne by done. specialize (Hbest s'). by destruct buy, s'.
  - intros id c Hc.
    assert (m !! id = Some c) as Hc' by (by destruct buy).
    unfold m in Hc'. rewrite Hid in Hc'.
    eapply (index_removed h0 (<[a := o']> h1)); eauto.
    intros c' Hne. rewrite lookup_insert_ne by done. by apply Hd.
  - intros Hagg Hlagg. apply book_agg_set_best, book_agg_set_index.
    eapply book_agg_update; [done..| |].
    + eapply level_agg_frame; [|by apply Hagg1]. intros c Hc. rewrite lookup_insert_ne; set_solver.
    + intros c _ Hc. rewrite lookup_insert_ne by set_solver. by apply Hf.
Qed.

Lemma qset_id q buy i ps :
  qside q buy !! i = Some ps -> qset buy (<[i := ps]> (qside q buy)) q = q.
Proof. intros Hq. rewrite list_insert_id by done. by destruct q, buy. Qed.

(** Rewriting a resting order in place, its links and id unchanged. *)
Lemma inplace_spec h b q buy i ps a o o' lvl lvl' :
  book_rep h b q -> qside q buy !! i = Some ps -> a ∈ ps -> h !! a = Some o ->
  levels_of b buy !! i = Some lvl ->
  links o' = links o -> o_order_id o' = o_order_id o ->
  resting (bk_min_price b + Z.of_nat i * bk_tick_size b) buy o' ->
  lv_head lvl' = lv_head lvl -> lv_tail lvl' = lv_tail lvl -> lv_price lvl' = lv_price lvl ->
  let b' := set_levels buy (<[i := lvl']> (levels_of b buy)) b in
  book_rep (<[a := o']> h) b' q /\
  (book_agg h b q -> level_agg (<[a := o']> h) lvl' ps -> book_agg (<[a := o']> h) b' q).
Proof.
  intros [Hst Hbest Hidx] Hq Ha Ho Hl Hlk Hid Hres Eh Et Ep b'.
  destruct (book_lookup _ _ _ _ _ _ a Hst Hq Ha) as (_ & lvl0 & _ & Hl0 & Hrep & _ & Hi).
  assert (lvl0 = lvl) as -> by congruence.
  split; [split|].
  - rewrite <- (qset_id q buy i ps Hq).
    eapply book_struct_update; [done..|by eapply level_rep_set|done| | |set_solver].
    + intros c Hc. destruct (decide (c = a)) as [->|Hca].
      * exists o'. by rewrite lookup_insert_eq.
      * rewrite lookup_insert_ne by done.
        destruct (book_lookup _ _ _ _ _ _ c Hst Hq Hc) as (oc & _ & ? & _ & _ & ? & _). eauto.
    + intros c _ Hc. rewrite lookup_insert_ne; set_solver.
  - intros s. specialize (Hbest s). by destruct buy, s.
  - intros id c Hc.
    destruct (Hidx id c ltac:(by destruct buy)) as (Hin & oc & Hoc & Hidc). split; [done|].
    destruct (decide (c = a)) as [->|Hca].
    + exists o'. rewrite lookup_insert_eq. split; [done|]. congruence.
    + exists oc. by rewrite lookup_insert_ne.
  - intros Hagg Hlagg. rewrite <- (qset_id q buy i ps Hq).
    eapply book_agg_update; [done..|]. intros c _ Hc. rewrite lookup_insert_ne; set_solver.
Qed.

(** The arrays after [level_enqueue_tail] on level [i]. *)
Lemma enqueue_struct h b q buy i ps lvl a o :
  book_struct h b q -> levels_of b buy !! i = Some lvl -> qside q buy !! i = Some ps ->
  h !! a = Some o -> a ∉ resting_addrs q ->
  resting (bk_min_price b + Z.of_nat i * bk_tick_size b) buy o ->
  let q' := qset buy (<[i := ps ++ [a]]> (qside q buy)) q in
  exists h1 lvl1,
    level_enqueue_tail h lvl (Some a) = Ok (h1, lvl1) /\
    same_data h h1 /\ (forall c, c ∉ a :: ps -> h1 !! c = h !! c) /\
    book_struct h1 (set_levels buy (<[i := lvl1]> (levels_of b buy)) b) q' /\
    (book_agg h b q -> sum_qty h ps + o_quantity o < 2 ^ 32 ->
     Z.of_nat (length ps) + 1 < 2 ^ 32 ->
     book_agg h1 (set_levels buy (<[i := lvl1]> (levels_of b buy)) b) q').
Proof.
  intros Hst Hl Hq Ho Hna Hres q'.
  destruct (sr_level _ _ _ _ _ _ (bs_side _ _ _ Hst buy) _ _ _ Hl Hq) as (Hrep & Hlp & Hrs).
  assert (a ∉ ps) as Haps by (intros Ha; apply Hna, elem_of_resting_addrs; eauto).
  destruct (level_enqueue_tail_rep h lvl ps a o Hrep Haps Ho)
    as (h1 & lvl1 & Een & Hrep1 & Hp1 & Hsd & Hf & Hagg1).
  exists h1, lvl1. split_and!; try done.
  - eapply book_struct_update; [done..| | |].
    + intros c Hc.
      assert (exists oc, h !! c = Some oc /\
        resting (bk_min_price b + Z.of_nat i * bk_tick_size b) buy oc) as (oc & Hoc & Hresc).
      { apply elem_of_app in Hc as [Hc| ->%list_elem_of_singleton]; eauto. }
      destruct (fmap_data_Some (h1 !! c) oc) as (oc' & -> & Hdc);
        [by rewrite <- Hsd, Hoc|]. exists oc'. split; [done|]. by eapply resting_data.
    + intros c Hc Hcps. apply Hf. set_solver.
    + intros c Hc Hcps. set_solver.
  - intros Hagg Hsum Hlen. pose proof (rs_qty _ _ _ Hres).
    eapply book_agg_update; [done..| |].
    + apply Hagg1; [by eapply Hagg|lia..].
    + intros c Hc Hcps. apply Hf. set_solver.
Qed.

(** The index after [OrderIndex::insert] of the order just appended. *)
Lemma index_added h h1 b q buy i ps a o (m : OrderIndex) :
  book_rep h b q -> qside q buy !! i = Some ps -> h !! a = Some o -> same_data h h1 ->
  (forall id, m !! id = if decide (id = o_order_id o)
                        then Some (default a (bk_order_index b !! id))
                        else bk_order_index b !! id) ->
  forall id c, m !! id = Some c ->
    c ∈ resting_addrs (qset buy (<[i := ps ++ [a]]> (qside q buy)) q) /\
    exists oc, h1 !! c = Some oc /\ o_order_id oc = id.
Proof.
  intros Hb Hq Ho Hsd Hm id c Hc.
  destruct (resting_addrs_perm q buy i ps Hq) as (rest & Hperm & _ & _ & Hperm').
  assert (exists oc, h !! c = Some oc /\ o_order_id oc = id /\
            (c = a \/ c ∈ resting_addrs q)) as (oc & Hoc & Hid & Hin).
  { rewrite Hm in Hc. case_decide as Hid; [destruct (bk_order_index b !! id) eqn:Hold|].
    - simplify_eq/=. destruct (br_index _ _ _ Hb _ _ Hold) as (? & ? & ? & ?). eauto 10.
    - simplify_eq/=. eauto 10.
    - destruct (br_index _ _ _ Hb _ _ Hc) as (? & ? & ? & ?). eauto 10. }
  split.
  - rewrite Hperm'. rewrite Hperm in Hin. set_solver.
  - destruct (fmap_data_Some (h1 !! c) oc) as (oc' & -> & Hdc); [by rewrite <- Hsd, Hoc|].
    exists oc'. split; [done|]. rewrite <- Hid. by apply order_id_data.
Qed.

(** The cursor [add_order] leaves. *)
Definition cursor_after_add (buy : bool) (i : nat) (idx : Z) : Z :=
  if (idx =? kNoBest) || (if buy then Z.of_nat i >? idx else Z.of_nat i <? idx)
  then Z.of_nat i else idx.

(** [add_order] of an order that is not in the book, at a valid price:
    appended to the queue of its level, and indexed unless its id already
    is. *)
Lemma add_order_spec h b q a o :
  book_rep h b q -> h !! a = Some o -> a ∉ resting_addrs q ->
  is_active o = true -> 0 < o_quantity o < 2 ^ 32 -> is_valid_price b (o_price o) = true ->
  exists h' b' i ps,
    add_order h b (Some a) = Ok (h', b') /\
    o_price o = bk_min_price b + Z.of_nat i * bk_tick_size b /\
    qside q (is_buy o) !! i = Some ps /\
    book_rep h' b' (qset (is_buy o) (<[i := ps ++ [a]]> (qside q (is_buy o))) q) /\
    same_grid b b' /\ same_data h h' /\
    (forall c, c ∉ a :: ps -> h' !! c = h !! c) /\
    (forall id, bk_order_index b' !! id =
       if decide (id = o_order_id o) then Some (default a (bk_order_index b !! id))
       else bk_order_index b !! id) /\
    (book_agg h b q -> sum_qty h ps + o_quantity o < 2 ^ 32 ->
     Z.of_nat (length ps) + 1 < 2 ^ 32 ->
     book_agg h' b' (qset (is_buy o) (<[i := ps ++ [a]]> (qside q (is_buy o))) q)).
Proof.
  intros Hb Ho Hna Hact Hqty Hv. pose proof (br_struct _ _ _ Hb) as Hst.
  pose proof (bs_cfg _ _ _ Hst) as Hcfg.
  destruct (valid_price_grid b _ Hcfg Hv) as (i & Hi & Hp).
  destruct (grid_price_index b i Hcfg Hi) as [_ Htick]. rewrite <- Hp in Htick.
  set (buy := is_buy o). pose proof (sr_len _ _ _ _ _ _ (bs_side _ _ _ Hst buy)) as Hql.
  pose proof (bs_len _ _ _ Hst buy) as Hlen.
  destruct (lookup_lt_is_Some_2 (levels_of b buy) i ltac:(lia)) as [lvl Hl].
  destruct (lookup_lt_is_Some_2 (qside q buy) i ltac:(lia)) as [ps Hq].
  destruct (enqueue_struct h b q buy i ps lvl a o)
    as (h1 & lvl1 & Een & Hsd & Hf & Hst1 & Hagg); [done..|by split|].
  destruct (fmap_data_Some (h1 !! a) o) as (o1 & Ho1 & Hd1); [by rewrite <- Hsd, Ho|].
  destruct (insert_Ok h1 (bk_order_index b) a o1 Ho1) as (m & Em & Hm).
  rewrite (order_id_data _ _ Hd1) in Hm.
  set (b1 := set_levels buy (<[i := lvl1]> (levels_of b buy)) b) in *.
  set (b2 := set_order_index m b1). set (idx := cursor_after_add buy i (best_of b buy)).
  exists h1, (set_best buy idx b2), i, ps. split_and!; try done.
  - unfold add_order. rewrite assert_Ok by (intros; by apply bool_decide_eq_true).
    cbn [bind]. rewrite (load_Ok _ _ _ Ho). cbn [bind].
    rewrite !assert_Ok by done. cbn [bind]. rewrite Hv, Htick. cbn [bind negb].
    change (side_levels b (o_side o)) with (levels_of b buy).
    rewrite (vec_at_Ok _ _ _ Hl). cbn [bind]. rewrite Een. cbn [bind].
    rewrite write_level_Ok by (change (bool_decide (o_side o = Buy)) with buy; lia).
    cbn [bind]. change (bool_decide (o_side o = Buy)) with buy. fold b1.
    replace (bk_order_index b1) with (bk_order_index b) by (by destruct buy).
    rewrite Em. cbn [bind]. fold b2. unfold idx, cursor_after_add. fold buy.
    destruct buy; simpl;
      (match goal with |- (if ?c then _ else _) = _ => destruct c end); by destruct b.
  - split; [by apply book_struct_set_best, book_struct_set_index| |].
    + intros s. destruct (decide (s = buy)) as [->|Hne].
      * rewrite qside_qset. replace (best_of _ _) with idx by (by destruct buy).
        apply best_ok_add; [apply Hb|done|]. rewrite <- Hql, Hlen. by apply nlevels_bound.
      * rewrite qside_qset_ne by done. pose proof (br_best _ _ _ Hb s). by destruct buy, s.
    + intros id c Hc. eapply index_added; [done..|]. by destruct buy.
  - apply same_grid_set.
  - intros id. rewrite <- Hm. by destruct buy.
  - intros. apply book_agg_set_best, book_agg_set_index. by apply Hagg.
Qed.

(** In a Release build [add_order] at an invalid price does nothing. *)
Lemma add_order_invalid h b a o :
  asserts_enabled = false -> h !! a = Some o -> is_valid_price b (o_price o) = false ->
  add_order h b (Some a) = Ok (h, b).
Proof.
  intros Hr Ho Hv. unfold add_order. rewrite assert_Ok by congruence. cbn [bind].
  rewrite (load_Ok _ _ _ Ho). cbn [bind]. rewrite !assert_Ok by congruence. cbn [bind].
  by rewrite Hv.
Qed.

(** A resting order, with everything its handlers read of the book. *)
Lemma resting_facts h b q buy i l1 a l2 :
  book_rep h b q -> qside q buy !! i = Some (l1 ++ a :: l2) ->
  exists o lvl,
    h !! a = Some o /\ levels_of b buy !! i = Some lvl /\
    resting (bk_min_price b + Z.of_nat i * bk_tick_size b) buy o /\
    is_valid_price b (o_price o) = true /\ tick_to_index b (o_price o) = Ok (Z.of_nat i) /\
    bool_decide (o_side o = Buy) = buy /\
    vec_at (side_levels b (o_side o)) (Z.of_nat i) = Ok lvl /\
    (i < length (levels_of b buy))%nat /\ NoDup (l1 ++ a :: l2) /\
    (book_agg h b q -> level_agg h lvl (l1 ++ a :: l2)).
Proof.
  intros Hb Hq. pose proof (br_struct _ _ _ Hb) as Hst.
  destruct (book_lookup _ _ _ _ _ _ a Hst Hq ltac:(set_solver))
    as (o & lvl & Ho & Hl & Hrep & Hres & Hi).
  destruct (resting_location b buy i o (bs_cfg _ _ _ Hst) Hi Hres) as (Hv & Ht & Hs).
  exists o, lvl. split_and!; try done.
  - rewrite side_levels_of, Hs. by apply vec_at_Ok.
  - by eapply lookup_lt_Some.
  - apply Hrep.
  - intros Hagg. by eapply Hagg.
Qed.

(** [cancel_order(Order* o)] of a resting order takes it out of its queue
    and marks it cancelled. *)
Lemma cancel_order_ptr_spec h b q buy i l1 a l2 :
  book_rep h b q -> qside q buy !! i = Some (l1 ++ a :: l2) ->
  (asserts_enabled = true -> book_agg h b q) ->
  let q' := qset buy (<[i := l1 ++ l2]> (qside q buy)) q in
  exists o h' b',
    h !! a = Some o /\
    cancel_order_ptr h b (Some a) = Ok (h', b') /\
    book_rep h' b' q' /\ same_grid b b' /\
    bk_order_index b' = OrderIndex.erase (bk_order_index b) (o_order_id o) /\
    h' !! a = Some (set_status Cancelled (data o)) /\
    (forall c, c <> a -> data <$> h' !! c = data <$> h !! c) /\
    (forall c, c ∉ l1 ++ a :: l2 -> h' !! c = h !! c) /\
    (book_agg h b q -> book_agg h' b' q').
Proof.
  intros Hb Hq Hasrt q'.
  destruct (resting_facts _ _ _ _ _ _ _ _ Hb Hq)
    as (o & lvl & Ho & Hl & Hres & Hv & Ht & Hs & Hvec & Hlt & _ & Hlagg).
  assert (<[a := o]> h = h) as Eh by (by apply insert_id).
  destruct (unlink_spec h b q buy i l1 a l2 lvl o o lvl (o_side o))
    as (h1 & lvl1 & b' & Erm & Ha1 & Eadv & Hgrid & Hix & Hd & Hf & Hfin);
    [done..|by rewrite Eh; auto|]. rewrite Eh in *.
  destruct (Hfin (set_status Cancelled (data o))) as [Hrep Hagg].
  exists o, (<[a := set_status Cancelled (data o)]> h1), b'. split_and!; try done.
  - unfold cancel_order_ptr. rewrite assert_Ok by (intros; by apply bool_decide_eq_true).
    cbn [bind]. rewrite (load_Ok _ _ _ Ho). cbn [bind]. rewrite assert_Ok by done.
    cbn [bind]. rewrite Hv, Ht. cbn [bind negb]. rewrite Hvec. cbn [bind].
    rewrite Erm. cbn [bind]. rewrite write_level_Ok by (by rewrite Hs). rewrite Hs.
    cbn [bind]. rewrite (store_Ok _ _ _ _ Ha1). cbn [bind].
    replace (bk_order_index (set_levels buy (<[i:=lvl1]> (levels_of b buy)) b))
      with (bk_order_index b) by (by destruct buy).
    destruct (level_empty lvl1); [by rewrite Eadv|]. by simplify_eq/=.
  - apply lookup_insert_eq.
  - intros c Hc. rewrite lookup_insert_ne by done. by apply Hd.
  - intros c Hc. rewrite lookup_insert_ne by set_solver. by apply Hf.
  - auto.
Qed.

(** The total [fill_resting_order] leaves in the level, when aggregates are
    exact. *)
Lemma agg_total_sub h lvl l1 a l2 o f :
  level_agg h lvl (l1 ++ a :: l2) -> h !! a = Some o -> 0 <= f <= o_quantity o ->
  f <= lv_total_qty lvl /\ u32 (lv_total_qty lvl - f) = lv_total_qty lvl - f.
Proof.
  intros Hagg Ho Hf. destruct (level_agg_mid _ _ _ _ _ _ Hagg Ho) as (Hq & _ & _).
  pose proof (la_fits _ _ _ Hagg) as Hu. rewrite <- (la_total _ _ _ Hagg) in Hu.
  unfold in_u32 in *. split; [lia|]. apply u32_id. unfold in_u32. lia.
Qed.

(** [fill_resting_order] for the whole remaining quantity. *)
Lemma fill_resting_order_full h b q buy i l1 a l2 o :
  book_rep h b q -> qside q buy !! i = Some (l1 ++ a :: l2) -> h !! a = Some o ->
  (asserts_enabled = true -> book_agg h b q) ->
  let q' := qset buy (<[i := l1 ++ l2]> (qside q buy)) q in
  exists h' b',
    fill_resting_order h b (Some a) (o_quantity o) = Ok (h', b', true) /\
    book_rep h' b' q' /\ same_grid b b' /\
    bk_order_index b' = OrderIndex.erase (bk_order_index b) (o_order_id o) /\
    h' !! a = Some (set_status Filled (data (set_quantity 0 o))) /\
    (forall c, c <> a -> data <$> h' !! c = data <$> h !! c) /\
    (forall c, c ∉ l1 ++ a :: l2 -> h' !! c = h !! c) /\
    (book_agg h b q -> book_agg h' b' q').
Proof.
  intros Hb Hq Ho Hasrt q'.
  destruct (resting_facts _ _ _ _ _ _ _ _ Hb Hq)
    as (o' & lvl & Ho' & Hl & Hres & Hv & Ht & Hs & Hvec & Hlt & Hnd & Hlagg).
  assert (o' = o) as -> by congruence. clear Ho'.
  pose proof (rs_qty _ _ _ Hres) as Hqty.
  set (o1 := set_quantity 0 o). set (f := o_quantity o) in *.
  set (lvl1 := mkLevel (lv_head lvl) (lv_tail lvl) (lv_price lvl)
                 (u32 (lv_total_qty lvl - f)) (lv_order_count lvl)).
  assert (book_agg h b q -> level_agg (<[a := o1]> h) lvl1 (l1 ++ a :: l2)) as Hlagg1.
  { intros Hagg. specialize (Hlagg Hagg).
    destruct (agg_total_sub _ _ _ _ _ _ f Hlagg Ho) as [_ E]; [lia|].
    eapply level_agg_reduce; [done..| | |exact E|done]; fold f; simpl; lia. }
  destruct (unlink_spec h b q buy i l1 a l2 lvl o o1 lvl1 (o_side o))
    as (h1 & lvl2 & b' & Erm & Ha1 & Eadv & Hgrid & Hix & Hd & Hf & Hfin); [done..|by auto|].
  destruct (Hfin (set_status Filled (data o1))) as [Hrep Hagg].
  exists (<[a := set_status Filled (data o1)]> h1), b'. split_and!; try done.
  - unfold fill_resting_order.
    rewrite assert_Ok by (intros; by apply bool_decide_eq_true). cbn [bind].
    rewrite assert_Ok by (intros; apply Z.gtb_lt; lia). cbn [bind].
    rewrite (load_Ok _ _ _ Ho). cbn [bind].
    rewrite assert_Ok by (intros; apply Z.leb_le; lia). cbn [bind].
    rewrite Hv, Ht. cbn [bind negb]. rewrite Hvec. cbn [bind].
    rewrite assert_Ok by (intros He; apply Z.geb_le;
      destruct (agg_total_sub _ _ _ _ _ _ f (Hlagg (Hasrt He)) Ho); lia).
    cbn [bind]. fold lvl1. rewrite write_level_Ok by (by rewrite Hs). cbn [bind].
    rewrite (store_Ok _ _ _ _ Ho). cbn [bind]. fold f. rewrite Z.sub_diag.
    change (set_quantity (u32 0) o) with o1.
    rewrite (load_Ok _ _ o1) by apply lookup_insert_eq. cbn [bind].
    change (o_quantity o1 =? 0) with true. cbn iota. rewrite Erm. cbn [bind].
    rewrite Hs, write_level_Ok
      by (rewrite Hs, levels_of_set_levels, length_insert; done).
    rewrite Hs. cbn [bind]. rewrite (store_Ok _ _ _ _ Ha1). cbn [bind].
    rewrite levels_of_set_levels, list_insert_insert_eq, set_levels_set_levels.
    replace (bk_order_index (set_levels buy (<[i:=lvl2]> (levels_of b buy)) b))
      with (bk_order_index b) by (by destruct buy).
    change (o_side o1) with (o_side o).
    destruct (level_empty lvl2); [by rewrite Eadv|]. by simplify_eq/=.
  - apply lookup_insert_eq.
  - intros c Hc. rewrite lookup_insert_ne by done. by apply Hd.
  - intros c Hc. rewrite lookup_insert_ne by set_solver. by apply Hf.
  - auto.
Qed.

(** [fill_resting_order] for part of the remaining quantity. *)
Lemma fill_resting_order_partial h b q buy i l1 a l2 o f :
  book_rep h b q -> qside q buy !! i = Some (l1 ++ a :: l2) -> h !! a = Some o ->
  0 < f < o_quantity o ->
  (asserts_enabled = true -> book_agg h b q) ->
  let h' := <[a := set_status Partial (set_quantity (o_quantity o - f) o)]> h in
  exists b',
    fill_resting_order h b (Some a) f = Ok (h', b', false) /\
    book_rep h' b' q /\ same_grid b b' /\ bk_order_index b' = bk_order_index b /\
    (book_agg h b q -> book_agg h' b' q).
Proof.
  intros Hb Hq Ho Hf Hasrt h'.
  destruct (resting_facts _ _ _ _ _ _ _ _ Hb Hq)
    as (o0 & lvl & Ho0 & Hl & Hres & Hv & Ht & Hs & Hvec & Hlt & Hnd & Hlagg).
  assert (o0 = o) as -> by congruence. clear Ho0.
  pose proof (rs_qty _ _ _ Hres) as Hqty.
  set (o1 := set_quantity (o_quantity o - f) o). set (o2 := set_status Partial o1).
  set (lvl1 := mkLevel (lv_head lvl) (lv_tail lvl) (lv_price lvl)
                 (u32 (lv_total_qty lvl - f)) (lv_order_count lvl)).
  destruct (inplace_spec h b q buy i (l1 ++ a :: l2) a o o2 lvl lvl1)
    as [Hrep Hagg]; try done; [set_solver| |].
  { destruct Hres. split; try done. simpl. lia. }
  eexists. split_and!; [|done|apply same_grid_set_levels|by destruct buy|].
  - unfold fill_resting_order.
    rewrite assert_Ok by (intros; by apply bool_decide_eq_true). cbn [bind].
    rewrite assert_Ok by (intros; apply Z.gtb_lt; lia). cbn [bind].
    rewrite (load_Ok _ _ _ Ho). cbn [bind].
    rewrite assert_Ok by (intros; apply Z.leb_le; lia). cbn [bind].
    rewrite Hv, Ht. cbn [bind negb]. rewrite Hvec. cbn [bind].
    rewrite assert_Ok by (intros He; apply Z.geb_le;
      destruct (agg_total_sub _ _ _ _ _ _ f (Hlagg (Hasrt He)) Ho); lia).
    cbn [bind]. fold lvl1. rewrite write_level_Ok by (by rewrite Hs). cbn [bind].
    rewrite (store_Ok _ _ _ _ Ho). cbn [bind].
    rewrite u32_id by (unfold in_u32; lia). fold o1.
    rewrite (load_Ok _ _ o1) by apply lookup_insert_eq. cbn [bind].
    rewrite (proj2 (Z.eqb_neq (o_quantity o1) 0)) by (simpl; lia).
    rewrite (store_Ok _ _ o1) by apply lookup_insert_eq. cbn [bind].
    by rewrite insert_insert_eq, Hs.
  - intros Hbagg. apply Hagg; [done|]. specialize (Hlagg Hbagg).
    destruct (agg_total_sub _ _ _ _ _ _ f Hlagg Ho) as [_ E]; [lia|].
    eapply level_agg_reduce; [done..| |done|exact E|done]. lia.
Qed.

(** [reduce_order_qty] to a positive quantity rewrites the order in place. *)
Lemma reduce_order_qty_keep h b q buy i l1 a l2 o n :
  book_rep h b q -> qside q buy !! i = Some (l1 ++ a :: l2) -> h !! a = Some o ->
  0 < n <= o_quantity o ->
  (asserts_enabled = true -> book_agg h b q) ->
  let h' := <[a := set_quantity n o]> h in
  exists b',
    reduce_order_qty h b (Some a) n = Ok (h', b') /\
    book_rep h' b' q /\ same_grid b b' /\ (book_agg h b q -> book_agg h' b' q).
Proof.
  intros Hb Hq Ho Hn Hasrt h'.
  destruct (resting_facts _ _ _ _ _ _ _ _ Hb Hq)
    as (o0 & lvl & Ho0 & Hl & Hres & Hv & Ht & Hs & Hvec & Hlt & Hnd & Hlagg).
  assert (o0 = o) as -> by congruence. clear Ho0. pose proof (rs_qty _ _ _ Hres) as Hqty.
  destruct (sr_level _ _ _ _ _ _ (bs_side _ _ _ (br_struct _ _ _ Hb) buy) _ _ _ Hl Hq)
    as (Hlrep & _ & _).
  destruct (level_reduce_qty_rep h lvl l1 a l2 o (o_quantity o - n))
    as (lvl1 & Ered & Hlrep1 & Hp1 & Hagg1);
    [done..|lia|unfold in_u32; lia|by auto|].
  replace (o_quantity o - (o_quantity o - n)) with n in * by lia.
  destruct (inplace_spec h b q buy i (l1 ++ a :: l2) a o (set_quantity n o) lvl lvl1)
    as [Hrep Hagg]; try done; [set_solver| | | |].
  { destruct Hres. split; try done. simpl. lia. }
  { by rewrite (lr_head _ _ _ Hlrep), (lr_head _ _ _ Hlrep1). }
  { by rewrite (lr_tail _ _ _ Hlrep), (lr_tail _ _ _ Hlrep1). }
  eexists. split_and!; [|done|apply same_grid_set_levels|by auto].
  unfold reduce_order_qty. rewrite assert_Ok by (intros; by apply bool_decide_eq_true).
  cbn [bind]. rewrite (load_Ok _ _ _ Ho). cbn [bind].
  rewrite assert_Ok by (intros; apply Z.leb_le; lia). cbn [bind].
  rewrite Hv, Ht. cbn [bind negb]. rewrite Hvec. cbn [bind].
  rewrite u32_id by (unfold in_u32; lia). rewrite Ered. cbn [bind].
  rewrite write_level_Ok by (by rewrite Hs). cbn [bind].
  by rewrite (proj2 (Z.eqb_neq n 0)), Hs by lia.
Qed.

(** [reduce_order_qty] to zero is a cancellation. *)
Lemma reduce_order_qty_zero h b q buy i l1 a l2 o :
  book_rep h b q -> qside q buy !! i = Some (l1 ++ a :: l2) -> h !! a = Some o ->
  (asserts_enabled = true -> book_agg h b q) ->
  let q' := qset buy (<[i := l1 ++ l2]> (qside q buy)) q in
  exists h' b',
    reduce_order_qty h b (Some a) 0 = Ok (h', b') /\
    book_rep h' b' q' /\ same_grid b b' /\
    h' !! a = Some (set_status Cancelled (data (set_quantity 0 o))) /\
    (forall c, c <> a -> data <$> h' !! c = data <$> h !! c) /\
    (book_agg h b q -> book_agg h' b' q').
Proof.
  intros Hb Hq Ho Hasrt q'.
  destruct (resting_facts _ _ _ _ _ _ _ _ Hb Hq)
    as (o0 & lvl & Ho0 & Hl & Hres & Hv & Ht & Hs & Hvec & Hlt & Hnd & Hlagg).
  assert (o0 = o) as -> by congruence. clear Ho0. pose proof (rs_qty _ _ _ Hres) as Hqty.
  destruct (sr_level _ _ _ _ _ _ (bs_side _ _ _ (br_struct _ _ _ Hb) buy) _ _ _ Hl Hq)
    as (Hlrep & _ & _).
  destruct (level_reduce_qty_rep h lvl l1 a l2 o (o_quantity o))
    as (lvl1 & Ered & Hlrep1 & Hp1 & Hagg1); [done..|lia|unfold in_u32; lia|by auto|].
  rewrite Z.sub_diag in *. set (o1 := set_quantity 0 o) in *.
  destruct (unlink_spec h b q buy i l1 a l2 lvl o o1 lvl1 (o_side o))
    as (h1 & lvl2 & b' & Erm & Ha1 & Eadv & Hgrid & Hix & Hd & _ & Hfin); try done; try by auto.
  { by rewrite (lr_head _ _ _ Hlrep), (lr_head _ _ _ Hlrep1). }
  { by rewrite (lr_tail _ _ _ Hlrep), (lr_tail _ _ _ Hlrep1). }
  destruct (Hfin (set_status Cancelled (data o1))) as [Hrep Hagg].
  exists (<[a := set_status Cancelled (data o1)]> h1), b'. split_and!; try done.
  - unfold reduce_order_qty. rewrite assert_Ok by (intros; by apply bool_decide_eq_true).
    cbn [bind]. rewrite (load_Ok _ _ _ Ho). cbn [bind].
    rewrite assert_Ok by (intros; apply Z.leb_le; lia). cbn [bind].
    rewrite Hv, Ht. cbn [bind negb]. rewrite Hvec. cbn [bind].
    rewrite Z.sub_0_r, u32_id by (unfold in_u32; lia). rewrite Ered. cbn [bind].
    rewrite write_level_Ok by (by rewrite Hs). cbn [bind]. rewrite Z.eqb_refl.
    rewrite Erm. cbn [bind].
    rewrite Hs, write_level_Ok by (rewrite Hs, levels_of_set_levels, length_insert; done).
    rewrite Hs. cbn [bind]. rewrite (store_Ok _ _ _ _ Ha1). cbn [bind].
    rewrite levels_of_set_levels, list_insert_insert_eq, set_levels_set_levels.
    replace (bk_order_index (set_levels buy (<[i:=lvl2]> (levels_of b buy)) b))
      with (bk_order_index b) by (by destruct buy).
    change (o_order_id o1) with (o_order_id o) in Eadv.
    destruct (level_empty lvl2); [by rewrite Eadv|]. by simplify_eq/=.
  - apply lookup_insert_eq.
  - intros c Hc. rewrite lookup_insert_ne by done. by apply Hd.
  - auto.
Qed.

(** [pop_best_bid_head()] and [pop_best_ask_head()] as one function of the
    side. *)
Definition pop_best (buy : bool) : heap -> OrderBook -> res (heap * OrderBook * ptr) :=
  if buy then pop_best_bid_head else pop_best_ask_head.

(** Popping the head of the best level. *)
Lemma pop_best_spec h b q buy i a l :
  book_rep h b q -> best_of b buy = Z.of_nat i -> qside q buy !! i = Some (a :: l) ->
  (asserts_enabled = true -> book_agg h b q) ->
  let q' := qset buy (<[i := l]> (qside q buy)) q in
  exists o h' b',
    h !! a = Some o /\ pop_best buy h b = Ok (h', b', Some a) /\
    book_rep h' b' q' /\ same_grid b b' /\ h' !! a = Some (data o) /\
    (forall c, c <> a -> data <$> h' !! c = data <$> h !! c) /\
    (book_agg h b q -> book_agg h' b' q').
Proof.
  intros Hb Hbi Hq Hasrt q'.
  destruct (resting_facts h b q buy i [] a l Hb Hq)
    as (o & lvl & Ho & Hl & Hres & Hv & Ht & Hs & Hvec & Hlt & _ & Hlagg).
  pose proof (sr_level _ _ _ _ _ _ (bs_side _ _ _ (br_struct _ _ _ Hb) buy)
    _ _ _ Hl Hq) as (Hlrep & _ & _).
  assert (<[a := o]> h = h) as Eh by (by apply insert_id).
  destruct (unlink_spec h b q buy i [] a l lvl o o lvl (if buy then Buy else Sell))
    as (h1 & lvl1 & b' & Erm & Ha1 & Eadv & Hgrid & Hix & Hd & _ & Hfin);
    try done; [by destruct buy|rewrite Eh; by auto|]. rewrite Eh in *.
  destruct (Hfin (data o)) as [Hrep Hagg]. rewrite insert_id in Hrep, Hagg by done.
  assert (Z.of_nat i <> kNoBest) as Hnb.
  { pose proof (nlevels_bound _ (bs_cfg _ _ _ (br_struct _ _ _ Hb))).
    rewrite (bs_len _ _ _ (br_struct _ _ _ Hb)) in Hlt. lia. }
  exists o, h1, b'. split_and!; try done; [|by auto].
  assert (level_dequeue_head h lvl = Ok (h1, lvl1, Some a)) as Edq.
  { rewrite (level_dequeue_head_remove h lvl a l) by auto. by rewrite Erm. }
  destruct buy; simpl in *; unfold pop_best_bid_head, pop_best_ask_head;
    rewrite Hbi, (proj2 (Z.eqb_neq _ _)), (vec_at_Ok _ _ _ Hl) by done; cbn [bind];
    rewrite Edq; cbn [bind]; rewrite vec_set_Ok by done; cbn [bind];
    rewrite (load_Ok _ _ _ Ha1); cbn [bind]; simpl; rewrite ?Hbi;
    change (o_order_id (data o)) with (o_order_id o);
    (destruct (level_empty lvl1); [by rewrite Eadv|by simplify_eq/=]).
Qed.

Lemma pop_best_empty h b buy :
  best_of b buy = kNoBest -> pop_best buy h b = Ok (h, b, None).
Proof.
  intros Hb. destruct buy; simpl in *; unfold pop_best_bid_head, pop_best_ask_head;
    by rewrite Hb, Z.eqb_refl.
Qed.

End ops.
