(* ===== verification/OrderBookQueries.v ===== *)
(** * Construction, clearing, framing and the read-only queries of the book

    [prio] is the price-time priority order of a side: the queue the
    matching loop consumes from the front. *)

From stdpp Require Import base numbers list gmap fin_maps sorting.
From Stdlib Require Import ZArith Lia.
From S2P Require Import Prelude.
From S2P Require Import OrderTypes.
From S2P Require Import PriceLevel.
From S2P Require Import OrderIndex.
From S2P Require Import OrderBook.
From S2P Require Import OrderBookInv.
From S2P Require Import OrderBookOps.

(** Best price first, and within a price oldest first. *)
Definition prio (buy : bool) (qs : list (list nat)) : list nat :=
  concat (if buy then reverse qs else qs).

(** Whether an aggressor on side [buy] with limit [p] may trade at a level
    priced [lvl_price]: the lambdas the matching engine passes to its sweep. *)
Definition crosses (buy : bool) (p lvl_price : Z) : bool :=
  if buy then lvl_price <=? p else lvl_price >=? p.

Lemma concat_all_nil (qs : list (list nat)) :
  (forall i ps, qs !! i = Some ps -> ps = []) -> concat qs = [].
Proof.
  induction qs as [|ps qs IH]; intros Hn; simpl; [done|].
  rewrite (Hn 0%nat ps eq_refl), IH; [done|]. intros i ps' Hi. by apply (Hn (S i)).
Qed.

Lemma concat_reverse_all_nil (qs : list (list nat)) :
  (forall i ps, qs !! i = Some ps -> ps = []) -> concat (reverse qs) = [].
Proof.
  intros Hn. apply concat_all_nil. intros i ps Hi.
  apply list_elem_of_lookup_2 in Hi. rewrite elem_of_reverse in Hi.
  apply list_elem_of_lookup in Hi as [j Hj]. by eapply Hn.
Qed.

Lemma prio_perm buy qs : prio buy qs ≡ₚ concat qs.
Proof.
  unfold prio. destruct buy; [|done]. induction qs as [|ps qs IH]; simpl; [done|].
  rewrite reverse_cons, concat_app. simpl. rewrite app_nil_r, IH.
  apply Permutation_app_comm.
Qed.

Lemma prio_none buy qs : best_ok buy kNoBest qs -> Z.of_nat (length qs) < kNoBest ->
  prio buy qs = [].
Proof.
  intros [[_ Hn]|(i & ps & E & Hi & _)] Hl.
  - unfold prio. destruct buy; [by apply concat_reverse_all_nil|by apply concat_all_nil].
  - apply lookup_lt_Some in Hi. lia.
Qed.

(** The best level is at the front of the priority order, and replacing its
    queue replaces that front. *)
Lemma prio_best buy qs i ps :
  best_ok buy (Z.of_nat i) qs -> qs !! i = Some ps -> Z.of_nat (length qs) < kNoBest ->
  exists rest, prio buy qs = ps ++ rest /\
    forall ps', prio buy (<[i := ps']> qs) = ps' ++ rest.
Proof.
  intros Hb Hi Hlen. pose proof (lookup_lt_Some _ _ _ Hi) as Hlt.
  destruct Hb as [[E _]|(j & psj & E & _ & _ & Hbest)]; [lia|].
  assert (j = i) as -> by lia. clear E.
  assert (forall j ps1, qs !! j = Some ps1 -> (if buy then (i < j)%nat else (j < i)%nat) ->
            ps1 = []) as Hnil.
  { intros j ps1 Hj Hlt'. destruct ps1 as [|x ps1]; [done|].
    specialize (Hbest _ _ Hj ltac:(done)). destruct buy; lia. }
  exists (if buy then concat (reverse (take i qs)) else concat (drop (S i) qs)).
  assert (forall ps', prio buy (<[i := ps']> qs) =
    ps' ++ (if buy then concat (reverse (take i qs)) else concat (drop (S i) qs))) as Hins.
  { intros ps'. unfold prio. rewrite insert_take_drop by done. destruct buy.
    - rewrite reverse_app, reverse_cons, !concat_app, concat_reverse_all_nil.
      + simpl. by rewrite app_nil_r.
      + intros k ps1 Hk. rewrite lookup_drop in Hk. apply (Hnil _ _ Hk). lia.
    - rewrite concat_app, concat_all_nil; [done|].
      intros k ps1 Hk. apply lookup_take_Some in Hk as [Hk ?]. by apply (Hnil _ _ Hk). }
  split; [|done]. rewrite <- (list_insert_id qs i ps Hi) at 1. apply Hins.
Qed.

Section queries.
Context `{Build}.
Implicit Types (h : heap) (b : OrderBook) (q : queues).

Lemma qside_length h b q buy : book_struct h b q -> length (qside q buy) = nlevels b.
Proof.
  intros Hs. rewrite <- (sr_len _ _ _ _ _ _ (bs_side _ _ _ Hs buy)). apply Hs.
Qed.

Lemma qside_bound h b q buy : book_struct h b q -> Z.of_nat (length (qside q buy)) < kNoBest.
Proof. intros Hs. rewrite (qside_length _ _ _ _ Hs). apply nlevels_bound, Hs. Qed.

(** [best_bid()] / [best_ask()] by side. *)
Definition best_level (buy : bool) (b : OrderBook) : res (option PriceLevel) :=
  if buy then best_bid b else best_ask b.

(** The best-level pointer: null exactly on an empty side, and otherwise the
    level whose head is the first order in priority. *)
Lemma best_level_spec h b q buy :
  book_rep h b q ->
  (best_level buy b = Ok None /\ prio buy (qside q buy) = []) \/
  exists i a l lvl,
    best_level buy b = Ok (Some lvl) /\ best_of b buy = Z.of_nat i /\
    qside q buy !! i = Some (a :: l) /\ levels_of b buy !! i = Some lvl /\
    lv_head lvl = Some a /\ lv_price lvl = bk_min_price b + Z.of_nat i * bk_tick_size b.
Proof.
  intros Hb. pose proof (br_struct _ _ _ Hb) as Hst.
  pose proof (qside_bound _ _ _ buy Hst) as Hlen.
  assert (forall i ps, qside q buy !! i = Some ps -> exists lvl, levels_of b buy !! i = Some lvl)
    as Hlv.
  { intros i ps Hi. apply lookup_lt_is_Some_2. apply lookup_lt_Some in Hi.
    rewrite (qside_length _ _ _ _ Hst) in Hi. by rewrite (bs_len _ _ _ Hst). }
  destruct (br_best _ _ _ Hb buy) as [[E Hn]|(i & [|a l] & E & Hi & Hne & Hbest)]; [|done|].
  - left. split; [|by apply prio_none; [left|]].
    destruct buy; simpl in *; unfold best_bid, best_ask; by rewrite E, Z.eqb_refl.
  - right. destruct (Hlv _ _ Hi) as [lvl Hl]. exists i, a, l, lvl.
    destruct (sr_level _ _ _ _ _ _ (bs_side _ _ _ Hst buy) _ _ _ Hl Hi) as (Hrep & Hp & _).
    split_and!; try done; [|by rewrite (lr_head _ _ _ Hrep)].
    apply lookup_lt_Some in Hi.
    destruct buy; simpl in *; unfold best_bid, best_ask;
      rewrite E, (proj2 (Z.eqb_neq _ _)), (vec_at_Ok _ _ _ Hl) by lia; done.
Qed.

(** A store change away from the resting orders leaves the book alone. *)
Lemma book_rep_frame h h' b q :
  (forall a, a ∈ resting_addrs q -> h' !! a = h !! a) -> book_rep h b q -> book_rep h' b q.
Proof.
  intros E [[Hc Hl Hs Hd] Hb Hi]. split; [split|done|]; try done.
  - intros buy. eapply side_rep_frame; [|apply Hs]. intros a Ha. apply E.
    unfold resting_addrs. destruct buy; set_solver.
  - intros id a Ha. destruct (Hi _ _ Ha) as (Hin & o & Ho & Hid). split; [done|].
    exists o. by rewrite E.
Qed.

Lemma book_agg_frame h h' b q :
  (forall a, a ∈ resting_addrs q -> h' !! a = h !! a) -> book_agg h b q -> book_agg h' b q.
Proof.
  intros E Hagg buy i lvl ps Hl Hq. eapply level_agg_frame; [|by eapply Hagg].
  intros a Ha. apply E, elem_of_resting_addrs. eauto.
Qed.

(** ** Construction and [clear()] *)

Definition empty_queues (n : nat) : queues := mkQ (replicate n []) (replicate n []).

Lemma concat_replicate_nil n : concat (replicate n ([] : list nat)) = [].
Proof. by induction n. Qed.

Lemma empty_level_rep h lvl :
  lv_head lvl = None -> lv_tail lvl = None -> level_rep h lvl [].
Proof. intros Hh Ht. split; [done..|constructor]. Qed.

(** Level arrays of empty levels at the right prices make an empty book. *)
Lemma empty_book_rep h b :
  config_ok b ->
  (forall buy, length (levels_of b buy) = nlevels b) ->
  (forall buy i lvl, levels_of b buy !! i = Some lvl ->
     lv_head lvl = None /\ lv_tail lvl = None /\ lv_total_qty lvl = 0 /\
     lv_order_count lvl = 0 /\
     lv_price lvl = bk_min_price b + Z.of_nat i * bk_tick_size b) ->
  (forall buy, best_of b buy = kNoBest) -> bk_order_index b = ∅ ->
  book_rep h b (empty_queues (nlevels b)) /\ book_agg h b (empty_queues (nlevels b)).
Proof.
  intros Hc Hlen Hlv Hbest Hidx.
  assert (forall buy, qside (empty_queues (nlevels b)) buy = replicate (nlevels b) []) as Hq
    by (by intros []).
  split; [split; [split|..]|].
  - done.
  - done.
  - intros buy. rewrite Hq. split.
    + by rewrite Hlen, length_replicate.
    + intros i lvl ps Hl [-> _]%lookup_replicate.
      destruct (Hlv _ _ _ Hl) as (Hh & Ht & _ & _ & Hp).
      split; [by apply empty_level_rep|]. split; [done|]. set_solver.
    + rewrite concat_replicate_nil. constructor.
  - intros a. simpl. rewrite concat_replicate_nil. set_solver.
  - intros buy. rewrite Hq. left. split; [done|]. by intros i ps [-> _]%lookup_replicate.
  - intros id a. by rewrite Hidx, lookup_empty.
  - intros buy i lvl ps Hl. rewrite Hq. intros [-> _]%lookup_replicate.
    destruct (Hlv _ _ _ Hl) as (_ & _ & Ht & Hn & _).
    split; simpl; [done|unfold in_u32; lia|done|lia|set_solver].
Qed.

Lemma OrderBook_new_spec h id mn mx tick :
  0 < tick -> mn < mx -> in_i64 mn -> in_i64 mx -> mx - mn <= INT64_MAX ->
  (asserts_enabled = true -> Z.rem (mx - mn) tick = 0) ->
  exists b, OrderBook_new id mn mx tick = Ok b /\
    bk_instrument_id b = id /\ bk_min_price b = mn /\ bk_max_price b = mx /\
    bk_tick_size b = tick /\
    book_rep h b (empty_queues (nlevels b)) /\ book_agg h b (empty_queues (nlevels b)).
Proof.
  intros Ht Hr Hmn Hmx Hw Hrem. unfold OrderBook_new.
  rewrite !assert_Ok
    by (intros He; first [apply Z.ltb_lt; lia|apply Z.gtb_lt; lia|apply Z.eqb_eq; auto]).
  cbn [bind]. unfold num_levels_for, i64_sub.
  rewrite (proj2 (Z.leb_le INT64_MIN _)), (proj2 (Z.leb_le _ INT64_MAX))
    by (unfold INT64_MIN in *; lia).
  cbn [andb bind]. rewrite (proj2 (Z.eqb_neq tick 0)) by lia. cbn [bind].
  rewrite Z.quot_div_nonneg by lia.
  assert (0 <= (mx - mn) / tick <= mx - mn) as Hd.
  { split; [apply Z.div_pos; lia|apply Z.div_le_upper_bound; nia]. }
  rewrite !u64_id by (unfold in_u64, INT64_MAX in *; rewrite ?u64_id; unfold in_u64; lia).
  eexists. split; [done|]. do 4 (split; [done|]).
  apply empty_book_rep; simpl; [by split; simpl; try done; lia|..].
  - intros buy. unfold nlevels. simpl. destruct buy; simpl; rewrite length_map, length_seq; lia.
  - intros buy i lvl Hl.
    assert (map (empty_level mn tick) (seq 0 (Z.to_nat ((mx - mn) / tick + 1))) !! i = Some lvl)
      as Hl' by (by destruct buy). clear Hl.
    rewrite list_lookup_fmap in Hl'. apply fmap_Some in Hl' as (k & Hk & ->).
    apply lookup_seq in Hk as [-> _]. done.
  - by intros [].
  - done.
Qed.

Lemma clear_spec h h' b q :
  book_rep h b q ->
  book_rep h' (clear b) (empty_queues (nlevels b)) /\
  book_agg h' (clear b) (empty_queues (nlevels b)) /\ same_grid b (clear b).
Proof.
  intros [[Hc Hlen Hs _] _ _].
  destruct (empty_book_rep h' (clear b)) as [Hr Ha]; [| | | |done|by split_and!].
  - destruct Hc. by split.
  - intros buy. specialize (Hlen buy). destruct buy; simpl in *; by rewrite length_map.
  - intros buy i lvl Hl.
    assert (exists lvl0, levels_of b buy !! i = Some lvl0 /\ lvl = clear_level lvl0)
      as (lvl0 & Hl0 & ->).
    { destruct buy; simpl in *; apply list_lookup_fmap_Some in Hl as (x & -> & ?); eauto. }
    specialize (Hs buy). pose proof (lookup_lt_Some _ _ _ Hl0) as Hi.
    rewrite (sr_len _ _ _ _ _ _ Hs) in Hi.
    destruct (lookup_lt_is_Some_2 _ _ Hi) as [ps Hps].
    destruct (sr_level _ _ _ _ _ _ Hs _ _ _ Hl0 Hps) as (_ & Hp & _).
    simpl. by rewrite Hp.
  - by intros [].
Qed.

(** ** [available_quantity_at_or_better] *)

Definition price_at (h : heap) (a : nat) : Z := from_option o_price 0 (h !! a).

(** The addresses of [ps] an aggressor with limit [p] may trade with. *)
Definition crossing (h : heap) (buy : bool) (p : Z) (ps : list nat) : list nat :=
  filter (fun a => crosses buy p (price_at h a) = true) ps.

Lemma sum_qty_perm h ps ps' : ps ≡ₚ ps' -> sum_qty h ps = sum_qty h ps'.
Proof. induction 1; simpl; lia. Qed.

Lemma sum_levels_spec h lvs qs from k total :
  length lvs = length qs ->
  (forall i lvl ps, lvs !! i = Some lvl -> qs !! i = Some ps -> level_agg h lvl ps) ->
  (from + k <= length qs)%nat ->
  exists r, sum_levels lvs (Z.of_nat from) k total = Ok r /\
    u32 r = u32 (total + sum_qty h (concat (take k (drop from qs)))) /\
    (in_u32 total -> in_u32 r).
Proof.
  intros Hlen Hagg. revert from total. induction k as [|k IH]; intros from total Hk.
  { exists total. simpl. split; [done|]. by rewrite Z.add_0_r. }
  destruct (lookup_lt_is_Some_2 lvs from ltac:(lia)) as [lvl Hl].
  destruct (lookup_lt_is_Some_2 qs from ltac:(lia)) as [ps Hps].
  destruct (IH (S from) (u32 (total + lv_total_qty lvl))) as (r & Er & Hr & Hin); [lia|].
  exists r. cbn [sum_levels]. rewrite (vec_at_Ok _ _ _ Hl). cbn [bind].
  replace (Z.of_nat from + 1) with (Z.of_nat (S from)) by lia. split; [done|].
  split; [|intros; apply Hin; auto with nm].
  rewrite Hr, (drop_S _ _ _ Hps). simpl. rewrite sum_qty_app.
  rewrite (la_total _ _ _ (Hagg _ _ _ Hl Hps)). unfold u32.
  by rewrite Zplus_mod_idemp_l, Z.add_assoc.
Qed.

Lemma filter_concat_const (P : nat -> Prop) `{!forall a, Decision (P a)} qs (keep : bool) :
  (forall i ps, qs !! i = Some ps -> filter P ps = if keep then ps else []) ->
  filter P (concat qs) = if keep then concat qs else [].
Proof.
  induction qs as [|ps qs IH]; intros Hf; simpl; [by destruct keep|].
  rewrite filter_app, (Hf 0%nat ps eq_refl), IH by (intros i ps' Hi; by apply (Hf (S i))).
  by destruct keep.
Qed.

Lemma filter_concat_range (P : nat -> Prop) `{!forall a, Decision (P a)} qs from k :
  (forall i ps, qs !! i = Some ps ->
     filter P ps = if decide (from <= i < from + k)%nat then ps else []) ->
  filter P (concat qs) = concat (take k (drop from qs)).
Proof.
  intros Hf. rewrite <- (take_drop from qs) at 1. rewrite <- (take_drop k (drop from qs)) at 1.
  rewrite !concat_app, !filter_app.
  rewrite (filter_concat_const P (take from qs) false).
  - rewrite (filter_concat_const P (take k (drop from qs)) true).
    + rewrite (filter_concat_const P (drop k (drop from qs)) false); [by rewrite app_nil_r|].
      intros i ps Hi. rewrite !lookup_drop in Hi. rewrite (Hf _ _ Hi), decide_False; [done|lia].
    + intros i ps [Hi ?]%lookup_take_Some. rewrite lookup_drop in Hi.
      rewrite (Hf _ _ Hi), decide_True; [done|lia].
  - intros i ps [Hi ?]%lookup_take_Some. rewrite (Hf _ _ Hi), decide_False; [done|lia].
Qed.

(** The levels of a contiguous range are the crossing orders, when a
    non-empty level crosses exactly when it is in the range. *)
Lemma crossing_range h mn tick side buy lvs qs p from k :
  side_rep mn tick side h lvs qs ->
  (forall i ps, qs !! i = Some ps -> ps <> [] ->
     (crosses buy p (mn + Z.of_nat i * tick) = true <-> (from <= i < from + k)%nat)) ->
  crossing h buy p (concat qs) = concat (take k (drop from qs)).
Proof.
  intros Hs Hiff. unfold crossing.
  assert (forall i ps, qs !! i = Some ps ->
    filter (fun a => crosses buy p (price_at h a) = true) ps
    = if decide (from <= i < from + k)%nat then ps else []) as Hf.
  { intros i ps Hi. pose proof (lookup_lt_Some _ _ _ Hi) as Hlt.
    destruct (lookup_lt_is_Some_2 lvs i) as [lvl Hl]; [by rewrite (sr_len _ _ _ _ _ _ Hs)|].
    destruct (sr_level _ _ _ _ _ _ Hs _ _ _ Hl Hi) as (_ & _ & Ho).
    destruct (decide (ps = [])) as [->|Hne]; [by case_decide|].
    specialize (Hiff _ _ Hi Hne).
    assert (forall a, a ∈ ps -> (crosses buy p (price_at h a) = true <->
              (from <= i < from + k)%nat)) as Hp.
    { intros a Ha. destruct (Ho a Ha) as (o & E & Hr). unfold price_at. rewrite E. simpl.
      by rewrite (rs_price _ _ _ Hr). }
    clear - Hp. case_decide as Hd; (induction ps as [|a ps IH]; [done|]).
    - rewrite filter_cons_True by (apply Hp; [set_solver|done]).
      f_equal. apply IH. set_solver.
    - rewrite filter_cons_False by (rewrite Hp by set_solver; done).
      apply IH. set_solver. }
  by apply filter_concat_range.
Qed.

Lemma crossing_prio_sum h buy p side qs :
  sum_qty h (crossing h buy p (prio side qs)) = sum_qty h (crossing h buy p (concat qs)).
Proof. apply sum_qty_perm. unfold crossing. by rewrite prio_perm. Qed.

(** The limits for which the range computed by
    [available_quantity_at_or_better] is the range of crossing levels: for a
    buy those not below the grid, for a sell those on the grid or outside
    it. *)
Definition limit_ok (b : OrderBook) (buy : bool) (p : Z) : Prop :=
  if buy then bk_min_price b <= p
  else p <= bk_min_price b \/ bk_max_price b < p \/ is_valid_price b p = true.

(** A limit that the [assert] in [tick_to_index] lets through. *)
Definition limit_on_grid (b : OrderBook) (p : Z) : Prop :=
  p < bk_min_price b \/ bk_max_price b <= p \/ is_valid_price b p = true.

(** The range test on a side, for the [j]-th grid price. *)
Lemma grid_le b p (j : nat) :
  config_ok b -> bk_min_price b <= p ->
  bk_min_price b + Z.of_nat j * bk_tick_size b <= p <->
  Z.of_nat j <= (p - bk_min_price b) / bk_tick_size b.
Proof.
  intros [Ht _ _ _ _] Hp. split; intros Hj.
  - apply Z.div_le_lower_bound; [done|]. lia.
  - pose proof (Z.mul_div_le (p - bk_min_price b) _ Ht). nia.
Qed.

Lemma tick_to_index_in b p :
  config_ok b -> bk_min_price b <= p <= bk_max_price b ->
  (asserts_enabled = true -> is_valid_price b p = true) ->
  tick_to_index b p = Ok ((p - bk_min_price b) / bk_tick_size b) /\
  0 <= (p - bk_min_price b) / bk_tick_size b < Z.of_nat (nlevels b).
Proof.
  intros Hc Hp Ha. pose proof (nlevels_bound b Hc) as Hn. destruct Hc as [Ht Hr _ _ _].
  assert (0 <= (p - bk_min_price b) / bk_tick_size b < Z.of_nat (nlevels b)) as Hd.
  { unfold nlevels.
    assert (0 <= (p - bk_min_price b) / bk_tick_size b) by (apply Z.div_pos; lia).
    assert ((p - bk_min_price b) / bk_tick_size b
            <= (bk_max_price b - bk_min_price b) / bk_tick_size b)
      by (apply Z.div_le_mono; lia). lia. }
  split; [|done]. unfold tick_to_index. rewrite assert_Ok by done. cbn [bind].
  rewrite Z.quot_div_nonneg, u64_id; [done| |lia..].
  unfold in_u64, kNoBest, SIZE_MAX in *. lia.
Qed.

(** Summing levels [from .. to]: the total of a range that is exactly the
    crossing levels. *)
Lemma available_range h b q side buy p from k :
  book_rep h b q -> book_agg h b q ->
  (from + k <= nlevels b)%nat ->
  (forall i ps, qside q side !! i = Some ps -> ps <> [] ->
     (crosses buy p (bk_min_price b + Z.of_nat i * bk_tick_size b) = true <->
      (from <= i < from + k)%nat)) ->
  sum_levels (levels_of b side) (Z.of_nat from) k 0
  = Ok (u32 (sum_qty h (crossing h buy p (prio side (qside q side))))).
Proof.
  intros Hb Hagg Hk Hiff. pose proof (br_struct _ _ _ Hb) as Hst.
  pose proof (bs_side _ _ _ Hst side) as Hs.
  destruct (sum_levels_spec h (levels_of b side) (qside q side) from k 0)
    as (r & -> & Hr & Hin); [apply Hs|by apply Hagg|by rewrite (qside_length _ _ _ _ Hst)|].
  f_equal. rewrite <- (u32_id r) by (apply Hin; unfold in_u32; lia).
  rewrite Hr, Z.add_0_l, crossing_prio_sum. by erewrite crossing_range.
Qed.

Lemma available_none h b q side buy p :
  book_rep h b q ->
  (forall i ps, qside q side !! i = Some ps -> ps <> [] ->
     crosses buy p (bk_min_price b + Z.of_nat i * bk_tick_size b) = false) ->
  crossing h buy p (prio side (qside q side)) = [].
Proof.
  intros Hb Hno. pose proof (bs_side _ _ _ (br_struct _ _ _ Hb) side) as Hs.
  apply Permutation_nil. symmetry. unfold crossing. rewrite prio_perm.
  change (filter _ _) with (crossing h buy p (concat (qside q side))).
  rewrite (crossing_range h _ _ side buy _ _ p 0 0 Hs); [done|].
  intros i ps Hi Hne. rewrite (Hno _ _ Hi Hne). split; [done|lia].
Qed.

(** The last ask level a buy limit reaches. *)
Lemma to_idx_spec b p :
  config_ok b -> length (bk_ask_levels b) = nlevels b -> bk_min_price b <= p ->
  (asserts_enabled = true -> limit_on_grid b p) ->
  exists t : nat, (t < nlevels b)%nat /\
    (if p >=? bk_max_price b then Ok (u64 (Z.of_nat (length (bk_ask_levels b)) - 1))
     else if p <? bk_min_price b then Ok 0 else tick_to_index b p) = Ok (Z.of_nat t) /\
    forall i, (i < nlevels b)%nat ->
      (crosses true p (bk_min_price b + Z.of_nat i * bk_tick_size b) = true <-> (i <= t)%nat).
Proof.
  intros Hc Hll Hp Hgrid. pose proof (nlevels_bound b Hc) as Hn.
  assert (0 < nlevels b)%nat as Hpos by (unfold nlevels; lia).
  destruct (p >=? bk_max_price b) eqn:E.
  - exists (nlevels b - 1)%nat. split; [lia|]. split.
    { rewrite Hll, u64_id; [f_equal; lia|]. unfold in_u64, kNoBest, SIZE_MAX in *. lia. }
    intros i Hi. pose proof (grid_price_bounds b i Hc Hi). cbn [crosses].
    rewrite Z.leb_le. split; intros; lia.
  - rewrite (proj2 (Z.ltb_ge _ _)) by lia.
    destruct (tick_to_index_in b p Hc) as [Et Hd]; [lia| |].
    { intros He. destruct (Hgrid He) as [?|[?|?]]; [lia|lia|done]. }
    exists (Z.to_nat ((p - bk_min_price b) / bk_tick_size b)). split; [lia|].
    rewrite Et, Z2Nat.id by lia. split; [done|]. intros i Hi. cbn [crosses].
    rewrite Z.leb_le, grid_le by done. lia.
Qed.

(** The lowest bid level a sell limit reaches. *)
Lemma from_idx_spec b p :
  config_ok b -> length (bk_bid_levels b) = nlevels b -> limit_ok b false p ->
  exists t : nat,
    (if p <=? bk_min_price b then Ok 0
     else if p >? bk_max_price b then Ok (Z.of_nat (length (bk_bid_levels b)))
     else tick_to_index b p) = Ok (Z.of_nat t) /\
    forall i, (i < nlevels b)%nat ->
      (crosses false p (bk_min_price b + Z.of_nat i * bk_tick_size b) = true <-> (t <= i)%nat).
Proof.
  intros Hc Hll Hp.
  destruct (p <=? bk_min_price b) eqn:E1; [|destruct (p >? bk_max_price b) eqn:E2].
  - exists 0%nat. split; [done|]. intros i Hi.
    pose proof (grid_price_bounds b i Hc Hi). cbn [crosses].
    rewrite Z.geb_le. split; intros; lia.
  - exists (nlevels b). rewrite Hll. split; [done|]. intros i Hi.
    pose proof (grid_price_bounds b i Hc Hi). cbn [crosses].
    rewrite Z.geb_le. split; intros; lia.
  - destruct Hp as [?|[?|Hv]]; [lia..|].
    destruct (valid_price_grid b p Hc Hv) as (t & Ht & ->).
    exists t. split; [by apply grid_price_index|]. intros i Hi. cbn [crosses]. rewrite Z.geb_le.
    pose proof (cf_tick _ Hc). nia.
Qed.

(** The quantity [available_quantity_at_or_better] reports is the total of
    the crossing orders, reduced to [uint32_t]. *)
Lemma available_quantity_buy h b q p :
  book_rep h b q -> book_agg h b q -> bk_min_price b <= p ->
  (asserts_enabled = true -> limit_on_grid b p) ->
  available_quantity_at_or_better b Buy p
  = Ok (u32 (sum_qty h (crossing h true p (prio false (q_ask q))))).
Proof.
  intros Hb Hagg Hp Hgrid. pose proof (br_struct _ _ _ Hb) as Hst.
  pose proof (bs_cfg _ _ _ Hst) as Hc. pose proof (nlevels_bound b Hc) as Hn.
  pose proof (qside_length _ _ _ false Hst) as Hql. simpl in Hql.
  destruct (to_idx_spec b p Hc (bs_len _ _ _ Hst false) Hp Hgrid) as (t & Ht & Et & Hcr).
  unfold available_quantity_at_or_better. rewrite bool_decide_true by done.
  change (bk_best_ask_idx b) with (best_of b false).
  destruct (br_best _ _ _ Hb false) as [[E Hnil]|(j & ps & E & Hj & Hne & Hbest)]; rewrite E.
  - rewrite Z.eqb_refl. change (q_ask q) with (qside q false).
    rewrite (available_none h b); [done..|].
    intros i ps Hi Hne. destruct Hne. by eapply Hnil.
  - pose proof (lookup_lt_Some _ _ _ Hj) as Hjl. simpl in Hjl.
    rewrite (proj2 (Z.eqb_neq _ _)) by lia. rewrite Et. cbn [bind].
    assert (forall i ps, qside q false !! i = Some ps -> ps <> [] ->
      (i < nlevels b)%nat /\ (j <= i)%nat) as Hle.
    { intros i ps1 Hi Hne1. split; [|by eapply Hbest].
      apply lookup_lt_Some in Hi. simpl in Hi. lia. }
    destruct (Z.of_nat j >? Z.of_nat t) eqn:Ejt.
    + change (q_ask q) with (qside q false). rewrite (available_none h b); [done..|].
      intros i ps1 Hi Hne1. destruct (Hle _ _ Hi Hne1) as [? ?].
      apply not_true_is_false. rewrite Hcr by done. lia.
    + replace (Z.to_nat (Z.of_nat t - Z.of_nat j + 1)) with (t - j + 1)%nat by lia.
      apply (available_range h b q false true p); [done..|lia|].
      intros i ps1 Hi Hne1. destruct (Hle _ _ Hi Hne1) as [? ?]. rewrite Hcr by done. lia.
Qed.

Lemma available_quantity_sell h b q s p :
  book_rep h b q -> book_agg h b q -> bool_decide (s = Buy) = false ->
  limit_ok b false p ->
  available_quantity_at_or_better b s p
  = Ok (u32 (sum_qty h (crossing h false p (prio true (q_bid q))))).
Proof.
  intros Hb Hagg Hs Hp. pose proof (br_struct _ _ _ Hb) as Hst.
  pose proof (bs_cfg _ _ _ Hst) as Hc. pose proof (nlevels_bound b Hc) as Hn.
  pose proof (qside_length _ _ _ true Hst) as Hql. simpl in Hql.
  destruct (from_idx_spec b p Hc (bs_len _ _ _ Hst true) Hp) as (t & Et & Hcr).
  unfold available_quantity_at_or_better. rewrite Hs.
  change (bk_best_bid_idx b) with (best_of b true).
  destruct (br_best _ _ _ Hb true) as [[E Hnil]|(j & ps & E & Hj & Hne & Hbest)]; rewrite E.
  - rewrite Z.eqb_refl. change (q_bid q) with (qside q true).
    rewrite (available_none h b); [done..|].
    intros i ps Hi Hne. destruct Hne. by eapply Hnil.
  - pose proof (lookup_lt_Some _ _ _ Hj) as Hjl. simpl in Hjl.
    rewrite (proj2 (Z.eqb_neq _ _)) by lia. rewrite Et. cbn [bind].
    assert (forall i ps, qside q true !! i = Some ps -> ps <> [] ->
      (i < nlevels b)%nat /\ (i <= j)%nat) as Hle.
    { intros i ps1 Hi Hne1. split; [|by eapply Hbest].
      apply lookup_lt_Some in Hi. simpl in Hi. lia. }
    destruct (Z.of_nat t >? Z.of_nat j) eqn:Ejt.
    + change (q_bid q) with (qside q true). rewrite (available_none h b); [done..|].
      intros i ps1 Hi Hne1. destruct (Hle _ _ Hi Hne1) as [? ?].
      apply not_true_is_false. rewrite Hcr by done. lia.
    + replace (Z.to_nat (Z.of_nat j - Z.of_nat t + 1)) with (j - t + 1)%nat by lia.
      apply (available_range h b q true false p); [done..|lia|].
      intros i ps1 Hi Hne1. destruct (Hle _ _ Hi Hne1) as [? ?]. rewrite Hcr by done. lia.
Qed.

(** ** The priority order is sorted by price *)

Lemma StronglySorted_concat (R : nat -> nat -> Prop) (bs : list (list nat)) :
  (forall i j ps ps' x y, (i <= j)%nat -> bs !! i = Some ps -> bs !! j = Some ps' ->
     x ∈ ps -> y ∈ ps' -> R x y) ->
  StronglySorted R (concat bs).
Proof.
  induction bs as [|ps bs IH]; intros HR; simpl; [constructor|].
  assert (StronglySorted R (concat bs)) as Hs.
  { apply IH. intros i j ps1 ps2 x y Hij H1 H2. apply (HR (S i) (S j)); [lia|done..]. }
  assert (forall x y, x ∈ ps -> y ∈ ps ++ concat bs -> R x y) as Hp.
  { intros x y Hx [Hy|Hy]%elem_of_app; [by apply (HR 0%nat 0%nat ps ps)|].
    apply elem_of_concat_lookup in Hy as (j & ps' & Hj & Hy).
    apply (HR 0%nat (S j) ps ps'); [lia|done..]. }
  clear HR IH. induction ps as [|x ps IH]; simpl; [done|]. constructor.
  - apply IH. intros y z Hy Hz. apply Hp; set_solver.
  - apply Forall_forall. intros y Hy. apply Hp; set_solver.
Qed.

(** [p] is at least as good a price as [p'] on a side. *)
Definition better_eq (side : bool) (p p' : Z) : Prop := if side then p' <= p else p <= p'.

Lemma prio_sorted h b q side :
  book_struct h b q ->
  StronglySorted (fun a c => better_eq side (price_at h a) (price_at h c))
    (prio side (qside q side)).
Proof.
  intros Hst. pose proof (cf_tick _ (bs_cfg _ _ _ Hst)) as Ht.
  assert (forall i ps a, qside q side !! i = Some ps -> a ∈ ps ->
            price_at h a = bk_min_price b + Z.of_nat i * bk_tick_size b) as Hp.
  { intros i ps a Hq Ha. destruct (book_lookup _ _ _ _ _ _ _ Hst Hq Ha)
      as (o & _ & Ho & _ & _ & Hr & _). unfold price_at. rewrite Ho. apply Hr. }
  apply StronglySorted_concat. intros i j ps ps' x y Hij H1 H2 Hx Hy.
  destruct side; simpl in *.
  - apply reverse_lookup_Some in H1 as [H1 ?]. apply reverse_lookup_Some in H2 as [H2 ?].
    rewrite (Hp _ _ _ H1 Hx), (Hp _ _ _ H2 Hy). nia.
  - rewrite (Hp _ _ _ H1 Hx), (Hp _ _ _ H2 Hy). nia.
Qed.

(** A level's queue in the priority order: better levels come before it,
    worse ones after. *)
Lemma prio_split side qs i ps :
  qs !! i = Some ps ->
  exists X Y, (forall ps', prio side (<[i := ps']> qs) = X ++ ps' ++ Y) /\
    (forall c, c ∈ X -> exists j psj, qs !! j = Some psj /\ c ∈ psj /\
       if side then (i < j)%nat else (j < i)%nat) /\
    (forall c, c ∈ Y -> exists j psj, qs !! j = Some psj /\ c ∈ psj /\
       if side then (j < i)%nat else (i < j)%nat).
Proof.
  intros Hi. pose proof (lookup_lt_Some _ _ _ Hi) as Hlt.
  assert (forall c, c ∈ concat (take i qs) ->
    exists j psj, qs !! j = Some psj /\ c ∈ psj /\ (j < i)%nat) as Ht.
  { intros c (j & psj & [Hj ?]%lookup_take_Some & Hc)%elem_of_concat_lookup. eauto. }
  assert (forall c, c ∈ concat (drop (S i) qs) ->
    exists j psj, qs !! j = Some psj /\ c ∈ psj /\ (i < j)%nat) as Hd.
  { intros c (j & psj & Hj & Hc)%elem_of_concat_lookup. rewrite lookup_drop in Hj.
    eexists _, psj. split; [done|]. split; [done|]. lia. }
  exists (if side then concat (reverse (drop (S i) qs)) else concat (take i qs)),
    (if side then concat (reverse (take i qs)) else concat (drop (S i) qs)).
  split; [|split].
  - intros ps'. unfold prio. rewrite insert_take_drop by done. destruct side.
    + rewrite reverse_app, reverse_cons, !concat_app. simpl. by rewrite app_nil_r, <- app_assoc.
    + by rewrite concat_app.
  - intros c Hc. destruct side; [|by apply Ht]. apply Hd.
    by rewrite <- (prio_perm true (drop (S i) qs)).
  - intros c Hc. destruct side; [|by apply Hd]. apply Ht.
    by rewrite <- (prio_perm true (take i qs)).
Qed.

(** ** [available_quantity_at_or_better] never leaves the arrays *)

Lemma sum_levels_total lvs from k total :
  (from + k <= length lvs)%nat -> exists r, sum_levels lvs (Z.of_nat from) k total = Ok r.
Proof.
  revert from total. induction k as [|k IH]; intros from total Hk; [by eexists|].
  destruct (lookup_lt_is_Some_2 lvs from ltac:(lia)) as [lvl Hl].
  cbn [sum_levels]. rewrite (vec_at_Ok _ _ _ Hl). cbn [bind].
  replace (Z.of_nat from + 1) with (Z.of_nat (S from)) by lia. apply IH. lia.
Qed.

Lemma sum_levels_range lvs from to :
  0 <= from -> to < Z.of_nat (length lvs) ->
  exists r, sum_levels lvs from (Z.to_nat (to - from + 1)) 0 = Ok r.
Proof.
  intros Hf Ht. replace from with (Z.of_nat (Z.to_nat from)) by lia.
  destruct (decide (from <= to)); [apply sum_levels_total; lia|].
  rewrite Z2Nat.id by done.
  replace (Z.to_nat (to - from + 1)) with 0%nat by lia. by eexists.
Qed.

Lemma best_in_range h b q buy :
  book_rep h b q -> best_of b buy <> kNoBest -> 0 <= best_of b buy < Z.of_nat (nlevels b).
Proof.
  intros Hb Hne. destruct (br_best _ _ _ Hb buy) as [[? _]|(i & ps & -> & Hi & _)]; [done|].
  apply lookup_lt_Some in Hi. rewrite (qside_length _ _ _ _ (br_struct _ _ _ Hb)) in Hi. lia.
Qed.

(** In a Release build the check returns for every limit price. *)
(** A buy limit below the grid is given what rests at the lowest price. *)
Lemma available_below h b q p :
  book_rep h b q -> book_agg h b q -> p < bk_min_price b ->
  available_quantity_at_or_better b Buy p
  = Ok (sum_qty h (crossing h true (bk_min_price b) (prio false (q_ask q)))).
Proof.
  intros Hb Hagg Hp. pose proof (br_struct _ _ _ Hb) as Hst.
  pose proof (bs_cfg _ _ _ Hst) as Hc. pose proof Hc as [Ht Hlt _ _ _].
  assert (is_valid_price b (bk_min_price b) = true) as Hv.
  { unfold is_valid_price. rewrite Z.sub_diag, Z.rem_0_l by lia.
    rewrite Z.geb_leb, !(proj2 (Z.leb_le _ _)) by lia. done. }
  assert (available_quantity_at_or_better b Buy p
          = available_quantity_at_or_better b Buy (bk_min_price b)) as ->.
  { destruct (tick_to_index_in b (bk_min_price b) Hc) as [Et _]; [lia|done|].
    rewrite Z.sub_diag, Z.div_0_l in Et by lia. unfold available_quantity_at_or_better.
    rewrite !bool_decide_true by done. rewrite !Z.geb_leb, Et, Z.ltb_irrefl.
    rewrite (proj2 (Z.leb_gt _ p)), (proj2 (Z.ltb_lt p _)) by lia.
    destruct (Z.leb_spec (bk_max_price b) (bk_min_price b)); [|done].
    pose proof (bs_len _ _ _ Hst false) as Hll. simpl in Hll. rewrite Hll. unfold nlevels.
    replace (bk_max_price b - bk_min_price b) with 0 by lia. by rewrite Z.div_0_l by lia. }
  rewrite (available_quantity_buy h b q); [|done..|lia|by right; right]. rewrite u32_id; [done|].
  rewrite crossing_prio_sum, (crossing_range h _ _ false true _ _ _ 0 1 (bs_side _ _ _ Hst false)).
  - pose proof (qside_length _ _ _ false Hst) as Hql. simpl in Hql. unfold nlevels in Hql.
    pose proof (bs_len _ _ _ Hst false) as Hll. simpl in Hll. unfold nlevels in Hll.
    pose proof (Hagg false 0%nat) as Ha. simpl in Ha.
    change (qside q false) with (q_ask q). destruct (q_ask q) as [|ps qs]; [simpl in Hql; lia|].
    destruct (bk_ask_levels b) as [|lvl lvs]; [simpl in Hll; lia|].
    simpl. rewrite app_nil_r. by apply (Ha lvl ps).
  - intros i ps _ _. simpl. rewrite Z.leb_le. split; intros; nia.
Qed.

Lemma available_total h b q s p :
  book_rep h b q -> asserts_enabled = false ->
  exists r, available_quantity_at_or_better b s p = Ok r.
Proof.
  intros Hb Hrel. pose proof (br_struct _ _ _ Hb) as Hst. pose proof (bs_cfg _ _ _ Hst) as Hc.
  pose proof (bs_len _ _ _ Hst) as Hlen. pose proof (nlevels_bound b Hc) as Hn.
  assert (0 < nlevels b)%nat as Hpos by (unfold nlevels; lia).
  unfold available_quantity_at_or_better. case_bool_decide.
  - change (bk_best_ask_idx b) with (best_of b false).
    destruct (Z.eqb_spec (best_of b false) kNoBest) as [|Hne]; [by eexists|].
    pose proof (best_in_range _ _ _ _ Hb Hne).
    assert (exists t, (if p >=? bk_max_price b
              then Ok (u64 (Z.of_nat (length (bk_ask_levels b)) - 1))
              else if p <? bk_min_price b then Ok 0 else tick_to_index b p) = Ok t /\
              t < Z.of_nat (nlevels b)) as (t & -> & Ht).
    { specialize (Hlen false). simpl in Hlen. rewrite Hlen.
      destruct (p >=? bk_max_price b) eqn:E1; [|destruct (p <? bk_min_price b) eqn:E2].
      - rewrite u64_id by (unfold in_u64, kNoBest, SIZE_MAX in *; lia). eexists. split; [done|lia].
      - eexists. split; [done|lia].
      - destruct (tick_to_index_in b p Hc) as [-> ?]; [lia|congruence|]. eexists. split; [done|lia]. }
    cbn [bind]. destruct (best_of b false >? t); [by eexists|].
    apply sum_levels_range; [lia|]. specialize (Hlen false). simpl in Hlen. by rewrite Hlen.
  - change (bk_best_bid_idx b) with (best_of b true).
    destruct (Z.eqb_spec (best_of b true) kNoBest) as [|Hne]; [by eexists|].
    pose proof (best_in_range _ _ _ _ Hb Hne).
    assert (exists t, (if p <=? bk_min_price b then Ok 0
              else if p >? bk_max_price b then Ok (Z.of_nat (length (bk_bid_levels b)))
              else tick_to_index b p) = Ok t /\ 0 <= t) as (t & -> & Ht).
    { destruct (p <=? bk_min_price b) eqn:E1; [|destruct (p >? bk_max_price b) eqn:E2].
      - eexists. split; [done|lia].
      - eexists. split; [done|lia].
      - destruct (tick_to_index_in b p Hc) as [-> ?]; [lia|congruence|]. eexists. split; [done|lia]. }
    cbn [bind]. destruct (t >? best_of b true); [by eexists|].
    apply sum_levels_range; [lia|]. specialize (Hlen true). simpl in Hlen. rewrite Hlen. lia.
Qed.

End queries.
