(* ===== verification/BookFacets.v ===== *)
(** * What else holds of a book

    Three properties beyond [book_rep] that the operations preserve under
    conditions of their own: exact level aggregates (no [uint32_t] overflow),
    a complete index (no duplicate order ids), and an uncrossed book (no
    order added through the opposite side). *)

From stdpp Require Import base numbers list gmap fin_maps sorting.
From Stdlib Require Import ZArith Lia.
From S2P Require Import Prelude.
From S2P Require Import OrderTypes.
From S2P Require Import PriceLevel.
From S2P Require Import OrderIndex.
From S2P Require Import OrderBook.
From S2P Require Import OrderBookInv.
From S2P Require Import OrderBookOps.
From S2P Require Import OrderBookQueries.

Inductive facet : Type := Aggregates | Indexed | Uncrossed.

(** Every resting order is found under its id. *)
Definition indexed (h : heap) (b : OrderBook) (q : queues) : Prop :=
  forall a o, a ∈ resting_addrs q -> h !! a = Some o -> bk_order_index b !! o_order_id o = Some a.

(** Every bid level in use is below every ask level in use. *)
Definition uncrossed (q : queues) : Prop :=
  forall i j ps ps', q_bid q !! i = Some ps -> q_ask q !! j = Some ps' ->
    ps <> [] -> ps' <> [] -> (i < j)%nat.

Definition holds (f : facet) (h : heap) (b : OrderBook) (q : queues) : Prop :=
  match f with
  | Aggregates => book_agg h b q
  | Indexed => indexed h b q
  | Uncrossed => uncrossed q
  end.

Section facets.
Context `{Build}.
Implicit Types (h : heap) (b : OrderBook) (q : queues) (f : facet).

Lemma holds_frame f h h' b q :
  (forall a, a ∈ resting_addrs q -> h' !! a = h !! a) -> holds f h b q -> holds f h' b q.
Proof.
  intros E. destruct f; simpl.
  - by apply book_agg_frame.
  - intros Hi a o Ha Ho. rewrite E in Ho by done. by apply Hi.
  - done.
Qed.

(** ** Taking an order out *)

Lemma indexed_remove h h' b b' q buy i l1 a l2 o :
  book_struct h b q -> qside q buy !! i = Some (l1 ++ a :: l2) -> h !! a = Some o ->
  (forall c, c <> a -> data <$> h' !! c = data <$> h !! c) ->
  bk_order_index b' = OrderIndex.erase (bk_order_index b) (o_order_id o) ->
  indexed h b q -> indexed h' b' (qset buy (<[i := l1 ++ l2]> (qside q buy)) q).
Proof.
  intros Hst Hq Ho Hd Hix Hi c oc' Hc Hoc'.
  destruct (resting_addrs_perm q buy i _ Hq) as (rest & Hp & _ & _ & Hp').
  pose proof (book_struct_nodup _ _ _ Hst) as Hnd. rewrite Hp in Hnd. rewrite Hp' in Hc.
  assert (c <> a) as Hca.
  { intros ->. rewrite <- Permutation_middle in Hnd. simpl in Hnd.
    apply NoDup_cons in Hnd as [Hn _]. by apply Hn. }
  assert (c ∈ resting_addrs q) as Hcq by (rewrite Hp; set_solver).
  specialize (Hd c Hca). rewrite Hoc' in Hd. symmetry in Hd.
  destruct (fmap_data_Some _ _ Hd) as (oc & Hoc & E).
  rewrite <- (order_id_data oc' oc E). pose proof (Hi c oc Hcq Hoc) as Hci.
  pose proof (Hi a o ltac:(rewrite Hp; set_solver) Ho) as Hai.
  rewrite Hix. unfold OrderIndex.erase. rewrite lookup_delete_ne; [done|]. congruence.
Qed.

Lemma uncrossed_shrink q buy i ps ps' :
  qside q buy !! i = Some ps -> (ps' <> [] -> ps <> []) -> uncrossed q ->
  uncrossed (qset buy (<[i := ps']> (qside q buy)) q).
Proof.
  intros Hq Hne Hu j k psj psk Hj Hk Hpj Hpk. pose proof (lookup_lt_Some _ _ _ Hq) as Hlt.
  destruct buy; simpl in *.
  - destruct (decide (i = j)) as [<-|].
    + rewrite list_lookup_insert_eq in Hj by done. simplify_eq. by eapply Hu; eauto.
    + rewrite list_lookup_insert_ne in Hj by done. by eapply Hu.
  - destruct (decide (i = k)) as [<-|].
    + rewrite list_lookup_insert_eq in Hk by done. simplify_eq. by eapply Hu; eauto.
    + rewrite list_lookup_insert_ne in Hk by done. by eapply Hu.
Qed.

(** Taking an order out of its queue keeps all three. *)
Lemma holds_remove f h h' b b' q buy i l1 a l2 o :
  book_struct h b q -> qside q buy !! i = Some (l1 ++ a :: l2) -> h !! a = Some o ->
  (forall c, c <> a -> data <$> h' !! c = data <$> h !! c) ->
  bk_order_index b' = OrderIndex.erase (bk_order_index b) (o_order_id o) ->
  let q' := qset buy (<[i := l1 ++ l2]> (qside q buy)) q in
  (book_agg h b q -> book_agg h' b' q') -> holds f h b q -> holds f h' b' q'.
Proof.
  intros Hst Hq Ho Hd Hix q' Hagg. destruct f; simpl; [done|by eapply indexed_remove|].
  apply (uncrossed_shrink _ _ _ _ _ Hq). by destruct l1.
Qed.

(** Rewriting an order in place keeps all three, if its id stays. *)
Lemma holds_inplace f h b b' q a o o' :
  h !! a = Some o -> o_order_id o' = o_order_id o -> bk_order_index b' = bk_order_index b ->
  (book_agg h b q -> book_agg (<[a := o']> h) b' q) ->
  holds f h b q -> holds f (<[a := o']> h) b' q.
Proof.
  intros Ho Hid Hix Hagg. destruct f; simpl; [done| |done].
  intros Hi c oc Hc Hoc. rewrite Hix. destruct (decide (c = a)) as [->|].
  - rewrite lookup_insert_eq in Hoc. simplify_eq. rewrite Hid. by apply Hi.
  - rewrite lookup_insert_ne in Hoc by done. by apply Hi.
Qed.

(** ** Adding an order *)

(** When adding the order [o] to the queue [ps] of level [i] keeps a
    property. *)
Definition add_ok (f : facet) (h : heap) (b : OrderBook) (q : queues) (i : nat) (ps : list nat)
  (o : Order) : Prop :=
  match f with
  | Aggregates => sum_qty h ps + o_quantity o < 2 ^ 32 /\ Z.of_nat (length ps) + 1 < 2 ^ 32
  | Indexed => bk_order_index b !! o_order_id o = None
  | Uncrossed => forall j ps', qside q (negb (is_buy o)) !! j = Some ps' -> ps' <> [] ->
      if is_buy o then (i < j)%nat else (j < i)%nat
  end.

Lemma uncrossed_add q buy i ps a :
  qside q buy !! i = Some ps ->
  (forall j ps', qside q (negb buy) !! j = Some ps' -> ps' <> [] ->
     if buy then (i < j)%nat else (j < i)%nat) ->
  uncrossed q -> uncrossed (qset buy (<[i := ps ++ [a]]> (qside q buy)) q).
Proof.
  intros Hq Hok Hu j k psj psk Hj Hk Hpj Hpk. pose proof (lookup_lt_Some _ _ _ Hq) as Hlt.
  destruct buy; simpl in *.
  - destruct (decide (i = j)) as [<-|]; [by eapply Hok|].
    rewrite list_lookup_insert_ne in Hj by done. by eapply Hu.
  - destruct (decide (i = k)) as [<-|]; [by eapply Hok|].
    rewrite list_lookup_insert_ne in Hk by done. by eapply Hu.
Qed.

Lemma indexed_add h h' b b' q buy i ps a o :
  qside q buy !! i = Some ps -> h !! a = Some o -> same_data h h' ->
  bk_order_index b !! o_order_id o = None ->
  (forall id, bk_order_index b' !! id =
     if decide (id = o_order_id o) then Some (default a (bk_order_index b !! id))
     else bk_order_index b !! id) ->
  indexed h b q -> indexed h' b' (qset buy (<[i := ps ++ [a]]> (qside q buy)) q).
Proof.
  intros Hq Ho Hsd Hfresh Hix Hi c oc' Hc Hoc'.
  destruct (resting_addrs_perm q buy i _ Hq) as (rest & Hp & _ & _ & Hp'). rewrite Hp' in Hc.
  pose proof (Hsd c) as Hd. rewrite Hoc' in Hd.
  destruct (fmap_data_Some _ _ Hd) as (oc & Hoc & E). rewrite <- (order_id_data oc' oc E), Hix.
  destruct (decide (c = a)) as [->|Hca].
  - simplify_eq. rewrite decide_True by done. by rewrite Hfresh.
  - assert (c ∈ resting_addrs q) as Hcq by (rewrite Hp; set_solver).
    pose proof (Hi c oc Hcq Hoc) as Hci. rewrite decide_False by congruence. done.
Qed.

End facets.
