(* ===== verification/SPSCQueue.v ===== *)
(** * The single-producer single-consumer ring: [src/spsc/spsc_queue.hpp]

    [SPSCQueue<T, N>] with its free-running 64-bit indices, as operations on
    a record (each operation one atomic step; the two-thread execution is in
    [SPSCConc]), its refinement to a bounded FIFO list, and the message types
    of the pipeline. *)

From stdpp Require Import base numbers list gmap fin_maps.
From Stdlib Require Import ZArith Lia.
From S2P Require Import Prelude.

Record SPSCQueue (T : Type) : Type := mkRing {
  write_idx_ : Z;
  read_idx_ : Z;
  buffer_ : list T
}.
Arguments mkRing {T}.
Arguments write_idx_ {T}.
Arguments read_idx_ {T}.
Arguments buffer_ {T}.

(** [static_assert(std::has_single_bit(N))] *)
Definition has_single_bit (N : Z) : Prop := exists k, 0 <= k < 64 /\ N = 2 ^ k.

Section ring.
Context {T : Type} (N : Z).

Definition kCapacity : Z := N.
Definition kMask : Z := u64 (N - 1).

(** A fresh queue: both indices 0 and [N] value-initialised elements. *)
Definition SPSCQueue_new (zero : T) : SPSCQueue T :=
  mkRing 0 0 (replicate (Z.to_nat N) zero).

(** Both [try_push] overloads: moving from a trivially copyable [T] copies. *)
Definition try_push (q : SPSCQueue T) (item : T) : res (SPSCQueue T * bool) :=
  let w := write_idx_ q in
  if u64 (w - read_idx_ q) =? N then Ok (q, false)
  else
    let* buf := vec_set (buffer_ q) (Z.land w kMask) item in
    Ok (mkRing (u64 (w + 1)) (read_idx_ q) buf, true).

(** [None] is [false]; [Some x] is [true] with [out = x]. *)
Definition try_pop (q : SPSCQueue T) : res (SPSCQueue T * option T) :=
  let r := read_idx_ q in
  if r =? write_idx_ q then Ok (q, None)
  else
    let* out := vec_at (buffer_ q) (Z.land r kMask) in
    Ok (mkRing (write_idx_ q) (u64 (r + 1)) (buffer_ q), Some out).

(** [for (i; i < n; ++i) buffer_[(w + i) & kMask] = items[i];] with [k]
    iterations left. *)
Fixpoint push_loop (w : Z) (items : list T) (i : Z) (k : nat) (buf : list T)
  : res (list T) :=
  match k with
  | O => Ok buf
  | S k' =>
      let* x := vec_at items i in
      let* buf1 := vec_set buf (Z.land (u64 (w + i)) kMask) x in
      push_loop w items (i + 1) k' buf1
  end.

Definition try_push_batch (q : SPSCQueue T) (items : list T) (count : Z)
  : res (SPSCQueue T * Z) :=
  let w := write_idx_ q in
  let available := u64 (N - u64 (w - read_idx_ q)) in
  let n := if count <? available then count else available in
  let* buf := push_loop w items 0 (Z.to_nat n) (buffer_ q) in
  Ok (mkRing (if n >? 0 then u64 (w + n) else w) (read_idx_ q) buf, n).

Fixpoint pop_loop (r : Z) (buf : list T) (i : Z) (k : nat) : res (list T) :=
  match k with
  | O => Ok []
  | S k' =>
      let* x := vec_at buf (Z.land (u64 (r + i)) kMask) in
      let* xs := pop_loop r buf (i + 1) k' in
      Ok (x :: xs)
  end.

(** The [n] elements written to [out[0 .. n-1]] are returned as a list. *)
Definition try_pop_batch (q : SPSCQueue T) (max_count : Z)
  : res (SPSCQueue T * list T) :=
  let r := read_idx_ q in
  let available := u64 (write_idx_ q - r) in
  let n := if max_count <? available then max_count else available in
  let* out := pop_loop r (buffer_ q) 0 (Z.to_nat n) in
  Ok (mkRing (write_idx_ q) (if n >? 0 then u64 (r + n) else r) (buffer_ q), out).

(** The spinning wrappers.  The other thread runs between the attempts: [env]
    is its effect on the queue before the [t]-th attempt. *)
Fixpoint spin_push (env : nat -> SPSCQueue T -> res (SPSCQueue T)) (t fuel : nat)
  (q : SPSCQueue T) (item : T) : res (SPSCQueue T) :=
  match fuel with
  | O => Err NoProgress
  | S fuel' =>
      let* q1 := env t q in
      let* '(q2, ok) := try_push q1 item in
      if ok : bool then Ok q2 else spin_push env (S t) fuel' q2 item
  end.

Fixpoint spin_pop (env : nat -> SPSCQueue T -> res (SPSCQueue T)) (t fuel : nat)
  (q : SPSCQueue T) : res (SPSCQueue T * T) :=
  match fuel with
  | O => Err NoProgress
  | S fuel' =>
      let* q1 := env t q in
      let* '(q2, out) := try_pop q1 in
      match out with
      | Some x => Ok (q2, x)
      | None => spin_pop env (S t) fuel' q2
      end
  end.

Definition empty (q : SPSCQueue T) : bool := write_idx_ q =? read_idx_ q.
Definition full (q : SPSCQueue T) : bool := u64 (write_idx_ q - read_idx_ q) =? N.
Definition size_approx (q : SPSCQueue T) : Z := u64 (write_idx_ q - read_idx_ q).
Definition capacity : Z := N.

End ring.

(** ** Messages of the pipeline *)

(** [RawByteSpan]: the bytes [data .. data + len) of a receive buffer and the
    buffer's index. *)
Record RawByteSpan : Type := mkSpan {
  sp_data : option nat;
  sp_len : Z;
  sp_buf_id : Z
}.

Inductive InboundKind : Type := NewOrder | Cancel | Modify | InboundKindRaw (v : Z).

Record InboundOrderMsg : Type := mkInbound {
  im_kind : InboundKind;
  im_order_id : Z;
  im_price : Z;
  im_quantity : Z;
  im_instrument_id : Z;
  im_client_id : Z;
  im_side : Z;
  im_type : Z
}.

Inductive ExKind : Type := Fill | PartialFill | CancelAck | Reject | ExKindRaw (v : Z).

Record ExecutionReport : Type := mkReport {
  er_kind : ExKind;
  er_order_id : Z;
  er_counterpart_order_id : Z;
  er_exec_price : Z;
  er_exec_quantity : Z;
  er_leaves_quantity : Z;
  er_timestamp_ns : Z
}.

(** What the declared types of the members can hold. *)
Definition msg_ok (msg : InboundOrderMsg) : Prop :=
  in_u64 (im_order_id msg) /\ in_i64 (im_price msg) /\ in_u32 (im_quantity msg) /\
  in_u32 (im_instrument_id msg) /\ in_u64 (im_client_id msg) /\
  in_u8 (im_side msg) /\ in_u8 (im_type msg).

Definition report_ok (r : ExecutionReport) : Prop :=
  match er_kind r with ExKindRaw v => 4 <= v < 2 ^ 8 | _ => True end /\
  in_u64 (er_order_id r) /\ in_u64 (er_counterpart_order_id r) /\ in_i64 (er_exec_price r) /\
  in_u32 (er_exec_quantity r) /\ in_u32 (er_leaves_quantity r) /\ in_u64 (er_timestamp_ns r).

#[export] Instance InboundKind_eq_dec : EqDecision InboundKind.
Proof. solve_decision. Defined.
#[export] Instance ExKind_eq_dec : EqDecision ExKind.
Proof. solve_decision. Defined.

(** [RawByteQueue], [InboundQueue], [OutboundQueue] are
    [SPSCQueue<_, 65'536>]. *)
Definition kPipelineCapacity : Z := 65536.
Abbreviation RawByteQueue := (SPSCQueue RawByteSpan).
Abbreviation InboundQueue := (SPSCQueue InboundOrderMsg).
Abbreviation OutboundQueue := (SPSCQueue ExecutionReport).

(** * The ring as a bounded FIFO list *)

(** The slot of a (free-running) index. *)
Definition slot (N x : Z) : nat := Z.to_nat (x mod N).

Record ring_rep {T} (N : Z) (q : SPSCQueue T) (xs : list T) : Prop := {
  rr_pow : has_single_bit N;
  rr_buf : length (buffer_ q) = Z.to_nat N;
  rr_w : in_u64 (write_idx_ q);
  rr_r : in_u64 (read_idx_ q);
  rr_len : u64 (write_idx_ q - read_idx_ q) = Z.of_nat (length xs);
  rr_cap : Z.of_nat (length xs) <= N;
  rr_elem : forall i x, xs !! i = Some x ->
    buffer_ q !! slot N (read_idx_ q + Z.of_nat i) = Some x
}.

Section ring_lemmas.
Context {T : Type} (N : Z) (HN : has_single_bit N).
Implicit Types (q : SPSCQueue T) (xs : list T) (x : T).

Lemma N_pos : 0 < N.
Proof. destruct HN as (k & Hk & ->). apply Z.pow_pos_nonneg; lia. Qed.

Lemma N_div_2_64 : (N | 2 ^ 64).
Proof.
  destruct HN as (k & Hk & ->). exists (2 ^ (64 - k)).
  rewrite <- Z.pow_add_r by lia. f_equal. lia.
Qed.

Lemma N_lt : N < 2 ^ 64.
Proof. destruct HN as (k & Hk & ->). apply Z.pow_lt_mono_r; lia. Qed.

Lemma u64_mod_N z : u64 z mod N = z mod N.
Proof.
  unfold u64. apply Z.mod_mod_divide, N_div_2_64.
Qed.

(** The bitmask is the modulo the comment at the top of the file promises. *)
Lemma land_kMask z : Z.land z (kMask N) = z mod N.
Proof.
  pose proof N_lt. pose proof N_pos. unfold kMask. rewrite u64_id by (unfold in_u64; lia).
  destruct HN as (k & Hk & ->). rewrite <- Z.land_ones by lia.
  by rewrite Z.ones_equiv, Z.sub_1_r.
Qed.

Lemma land_slot z : Z.land z (kMask N) = Z.of_nat (slot N z).
Proof.
  rewrite land_kMask. unfold slot. rewrite Z2Nat.id; [done|].
  by apply Z.mod_pos_bound, N_pos.
Qed.

Lemma slot_u64 z : slot N (u64 z) = slot N z.
Proof. unfold slot. by rewrite u64_mod_N. Qed.

Lemma slot_u64_add z d : slot N (u64 z + d) = slot N (z + d).
Proof.
  unfold slot. pose proof N_pos. by rewrite Zplus_mod, u64_mod_N, <- Zplus_mod.
Qed.

Lemma slot_lt z : (slot N z < Z.to_nat N)%nat.
Proof. unfold slot. pose proof (Z.mod_pos_bound z N N_pos). lia. Qed.

(** Indices less than [N] apart have different slots. *)
Lemma slot_inj z i j :
  0 <= i < N -> 0 <= j < N -> slot N (z + i) = slot N (z + j) -> i = j.
Proof.
  intros Hi Hj E. pose proof N_pos as Hp. unfold slot in E.
  pose proof (Z.mod_pos_bound (z + i) N Hp). pose proof (Z.mod_pos_bound (z + j) N Hp).
  assert ((z + i) mod N = (z + j) mod N) as E' by lia.
  pose proof (Z.div_mod (z + i) N ltac:(lia)). pose proof (Z.div_mod (z + j) N ltac:(lia)).
  set (a := (z + i) / N) in *. set (b := (z + j) / N) in *.
  assert (N * (a - b) = i - j) as Hd by lia.
  assert (a - b = 0) as Hab by nia. rewrite Hab in Hd. lia.
Qed.

(** The write index is [length xs] past the read index. *)
Lemma ring_w q xs i :
  ring_rep N q xs -> slot N (write_idx_ q + i) = slot N (read_idx_ q + Z.of_nat (length xs) + i).
Proof.
  intros Hr. rewrite <- (rr_len _ _ _ Hr). pose proof N_pos.
  unfold slot. f_equal.
  replace (read_idx_ q + u64 (write_idx_ q - read_idx_ q) + i)
    with (u64 (write_idx_ q - read_idx_ q) + (read_idx_ q + i)) by lia.
  rewrite (Zplus_mod (u64 _)), u64_mod_N, <- Zplus_mod. f_equal. lia.
Qed.

Lemma SPSCQueue_new_rep (zero : T) : ring_rep N (SPSCQueue_new N zero) [].
Proof.
  pose proof N_pos. split; simpl; try done; unfold in_u64; try lia.
  by rewrite length_replicate.
Qed.

Lemma u64_sub_zero a b : in_u64 a -> in_u64 b -> u64 (a - b) = 0 -> a = b.
Proof.
  unfold u64, in_u64. intros Ha Hb E.
  destruct (decide (a < b)).
  - rewrite <- (Z.mod_unique (a - b) (2 ^ 64) (-1) (a - b + 2 ^ 64)) in E; lia.
  - rewrite Z.mod_small in E; lia.
Qed.

(** ** The operations on the list *)

(** Appending one element to the buffer of a ring that is not full. *)
Lemma ring_rep_push q xs x :
  ring_rep N q xs -> Z.of_nat (length xs) < N ->
  ring_rep N (mkRing (u64 (write_idx_ q + 1)) (read_idx_ q)
                (<[slot N (write_idx_ q) := x]> (buffer_ q))) (xs ++ [x]).
Proof.
  intros Hr Hl. pose proof N_lt as Hlt. pose proof (ring_w _ _ 0 Hr) as Hw.
  rewrite !Z.add_0_r in Hw. destruct Hr as [Hp Hb Hwr Hrd Hlen Hc He].
  split; simpl; try done.
  - by rewrite length_insert.
  - apply u64_range.
  - rewrite length_app. simpl.
    replace (u64 (u64 (write_idx_ q + 1) - read_idx_ q))
      with (u64 (u64 (write_idx_ q - read_idx_ q) + 1)).
    + rewrite Hlen, u64_id; unfold in_u64; lia.
    + unfold u64. rewrite Zplus_mod_idemp_l, Zminus_mod_idemp_l. f_equal. lia.
  - rewrite length_app. simpl. lia.
  - intros i y Hi. apply lookup_app_Some in Hi as [Hi|[Hge Hi]].
    + rewrite list_lookup_insert_ne; [by apply He|]. rewrite Hw. intros E.
      apply slot_inj in E; apply lookup_lt_Some in Hi; lia.
    + apply list_lookup_singleton_Some in Hi as [Hi ->].
      replace i with (length xs) by lia. rewrite <- Hw. apply list_lookup_insert_eq.
      rewrite Hb. apply slot_lt.
Qed.

Lemma ring_rep_pop q xs x :
  ring_rep N q (x :: xs) ->
  ring_rep N (mkRing (write_idx_ q) (u64 (read_idx_ q + 1)) (buffer_ q)) xs.
Proof.
  intros [Hp Hb Hwr Hrd Hlen Hc He]. pose proof N_lt. simpl in Hc.
  split; simpl; try done.
  - apply u64_range.
  - replace (u64 (write_idx_ q - u64 (read_idx_ q + 1)))
      with (u64 (u64 (write_idx_ q - read_idx_ q) - 1)).
    + rewrite Hlen. simpl length. rewrite u64_id; unfold in_u64; lia.
    + unfold u64. rewrite Zminus_mod_idemp_l, Zminus_mod_idemp_r. f_equal. lia.
  - lia.
  - intros i y Hi. rewrite slot_u64_add.
    replace (read_idx_ q + 1 + Z.of_nat i) with (read_idx_ q + Z.of_nat (S i)) by lia.
    by apply He.
Qed.

Lemma try_push_full q xs x :
  ring_rep N q xs -> Z.of_nat (length xs) = N -> try_push N q x = Ok (q, false).
Proof.
  intros Hr Hl. unfold try_push. rewrite (rr_len _ _ _ Hr), Hl, Z.eqb_refl. done.
Qed.

Lemma try_push_room q xs x :
  ring_rep N q xs -> Z.of_nat (length xs) < N ->
  try_push N q x
    = Ok (mkRing (u64 (write_idx_ q + 1)) (read_idx_ q)
            (<[slot N (write_idx_ q) := x]> (buffer_ q)), true).
Proof.
  intros Hr Hl. unfold try_push. rewrite (rr_len _ _ _ Hr).
  rewrite (proj2 (Z.eqb_neq _ _)) by lia. rewrite land_slot, vec_set_Ok; [done|].
  rewrite (rr_buf _ _ _ Hr). apply slot_lt.
Qed.

Lemma try_pop_empty q : ring_rep N q [] -> try_pop N q = Ok (q, None).
Proof.
  intros Hr. unfold try_pop.
  by rewrite (u64_sub_zero _ _ (rr_w _ _ _ Hr) (rr_r _ _ _ Hr) (rr_len _ _ _ Hr)), Z.eqb_refl.
Qed.

Lemma try_pop_cons q x xs :
  ring_rep N q (x :: xs) ->
  try_pop N q = Ok (mkRing (write_idx_ q) (u64 (read_idx_ q + 1)) (buffer_ q), Some x).
Proof.
  intros Hr. unfold try_pop. rewrite (proj2 (Z.eqb_neq _ _)).
  - pose proof (rr_elem _ _ _ Hr 0%nat x eq_refl) as He. rewrite Z.add_0_r in He.
    by rewrite land_slot, (vec_at_Ok _ _ _ He).
  - intros E. pose proof (rr_len _ _ _ Hr) as Hl. rewrite E, Z.sub_diag in Hl.
    simpl in Hl. unfold u64 in Hl. rewrite Z.mod_0_l in Hl; lia.
Qed.

(** ** Batches as iterated single operations *)

Fixpoint push_each (q : SPSCQueue T) (items : list T) : res (SPSCQueue T * Z) :=
  match items with
  | [] => Ok (q, 0)
  | x :: items' =>
      let* '(q1, ok) := try_push N q x in
      if ok : bool then let* '(q2, n) := push_each q1 items' in Ok (q2, n + 1)
      else Ok (q1, 0)
  end.

Fixpoint pop_each (q : SPSCQueue T) (k : nat) : res (SPSCQueue T * list T) :=
  match k with
  | O => Ok (q, [])
  | S k' =>
      let* '(q1, out) := try_pop N q in
      match out with
      | Some x => let* '(q2, xs) := pop_each q1 k' in Ok (q2, x :: xs)
      | None => Ok (q1, [])
      end
  end.

Lemma push_each_fit q xs l :
  ring_rep N q xs -> Z.of_nat (length xs) + Z.of_nat (length l) <= N ->
  exists q', push_each q l = Ok (q', Z.of_nat (length l)) /\ ring_rep N q' (xs ++ l) /\
    read_idx_ q' = read_idx_ q /\ write_idx_ q' = u64 (write_idx_ q + Z.of_nat (length l)) /\
    forall items i, drop i items = l ++ drop (i + length l) items ->
      forall w, write_idx_ q = u64 (w + Z.of_nat i) ->
      push_loop N w items (Z.of_nat i) (length l) (buffer_ q) = Ok (buffer_ q').
Proof.
  revert q xs. induction l as [|x l IH]; intros q xs Hr Hl; simpl in *.
  { exists q. rewrite app_nil_r, Z.add_0_r, u64_id by apply Hr. by split_and!. }
  pose proof (ring_rep_push q xs x Hr ltac:(lia)) as Hr1.
  rewrite (try_push_room q xs x Hr) by lia. cbn [bind].
  destruct (IH _ _ Hr1) as (q' & E & Hr' & Hrd & Hwr & Hloop); [rewrite length_app; simpl; lia|].
  rewrite E. cbn [bind]. exists q'. split; [do 2 f_equal; lia|].
  rewrite <- app_assoc in Hr'. split; [done|]. split; [done|]. split.
  { rewrite Hwr. simpl. unfold u64. rewrite Zplus_mod_idemp_l. f_equal. lia. }
  intros items i Hd w Hw.
  assert (items !! i = Some x) as Hx.
  { rewrite <- (Nat.add_0_r i), <- lookup_drop, Hd. done. }
  rewrite (vec_at_Ok _ _ _ Hx). cbn [bind]. rewrite <- Hw, land_slot.
  rewrite vec_set_Ok by (rewrite (rr_buf _ _ _ Hr); apply slot_lt). cbn [bind].
  replace (Z.of_nat i + 1) with (Z.of_nat (S i)) by lia. apply Hloop.
  - rewrite (drop_S _ _ _ Hx) in Hd. injection Hd as ->. by rewrite Nat.add_succ_r.
  - simpl. rewrite Hw. unfold u64. rewrite Zplus_mod_idemp_l. f_equal. lia.
Qed.

Lemma push_each_app q l1 l2 q1 n1 :
  push_each q l1 = Ok (q1, Z.of_nat (length l1)) -> push_each q1 l2 = Ok (q1, n1) ->
  push_each q (l1 ++ l2) = Ok (q1, Z.of_nat (length l1) + n1).
Proof.
  revert q. induction l1 as [|x l1 IH]; intros q E1 E2; simpl in *.
  { by simplify_eq. }
  destruct (try_push N q x) as [[q2 []]|] eqn:Ep; cbn [bind] in *; [|simplify_eq; lia|done].
  destruct (push_each q2 l1) as [[q3 n]|] eqn:E3; cbn [bind] in *; [|done].
  injection E1 as -> Hn.
  rewrite (IH q2); [cbn [bind]; do 2 f_equal; lia|rewrite E3; do 2 f_equal; lia|done].
Qed.

(** [try_push_batch] is repeated [try_push] up to the first refusal. *)
Lemma try_push_batch_each q xs items :
  ring_rep N q xs ->
  try_push_batch N q items (Z.of_nat (length items)) = push_each q items.
Proof.
  intros Hr. unfold try_push_batch. cbv zeta. pose proof N_lt. pose proof (rr_cap _ _ _ Hr).
  rewrite (rr_len _ _ _ Hr), (u64_id (N - _)) by (unfold in_u64; lia).
  set (n := Nat.min (length items) (Z.to_nat (N - Z.of_nat (length xs)))).
  replace (if _ <? _ then _ else _) with (Z.of_nat n)
    by (destruct (Z.ltb_spec (Z.of_nat (length items)) (N - Z.of_nat (length xs))); lia).
  rewrite Nat2Z.id.
  assert (length (take n items) = n) as Hn by (rewrite length_take; lia).
  destruct (push_each_fit q xs (take n items) Hr) as (q' & E & Hr' & Hrd & Hwr & Hloop); [lia|].
  rewrite Hn in *.
  pose proof (Hloop items 0%nat (eq_sym (take_drop n items)) (write_idx_ q)
             ltac:(rewrite Z.add_0_r, u64_id; [done|apply Hr])) as El.
  change (Z.of_nat 0) with 0 in El. rewrite El. cbn [bind].
  replace (mkRing _ _ _) with q'.
  2: { destruct q' as [w' r' b']. simpl in *. subst. f_equal.
       destruct (Z.gtb_spec (Z.of_nat n) 0); [done|].
       replace n with 0%nat by lia. rewrite Z.add_0_r. apply u64_id, Hr. }
  rewrite <- (take_drop n items) at 1.
  replace (Z.of_nat n) with (Z.of_nat (length (take n items)) + 0) at 1 by lia.
  symmetry. apply (push_each_app _ _ _ q' 0); [by rewrite Hn|].
  destruct (drop n items) as [|x rest] eqn:Hd; [done|]. simpl.
  rewrite (try_push_full q' _ x Hr'); [done|].
  rewrite length_app, Hn. apply (f_equal length) in Hd. rewrite length_drop in Hd.
  simpl in Hd. lia.
Qed.

Lemma pop_each_spec q xs k :
  ring_rep N q xs ->
  exists q', pop_each q k = Ok (q', take k xs) /\ ring_rep N q' (drop k xs).
Proof.
  revert q xs. induction k as [|k IH]; intros q xs Hr; simpl; [by eauto|].
  destruct xs as [|x xs].
  { rewrite (try_pop_empty q Hr). cbn [bind]. eauto. }
  rewrite (try_pop_cons q x xs Hr). cbn [bind].
  destruct (IH _ _ (ring_rep_pop q xs x Hr)) as (q' & -> & Hr'). cbn [bind]. eauto.
Qed.

Lemma pop_loop_each q xs k :
  ring_rep N q xs -> (k <= length xs)%nat ->
  exists q', pop_each q k = Ok (q', take k xs) /\ ring_rep N q' (drop k xs) /\
    q' = mkRing (write_idx_ q) (u64 (read_idx_ q + Z.of_nat k)) (buffer_ q) /\
    forall r i, read_idx_ q = u64 (r + i) ->
      pop_loop N r (buffer_ q) i k = Ok (take k xs).
Proof.
  revert q xs. induction k as [|k IH]; intros q xs Hr Hk; simpl in *.
  { exists q. rewrite Z.add_0_r, u64_id by apply Hr. destruct q. by split_and!. }
  destruct xs as [|x xs]; [simpl in *; lia|]. pose proof (ring_rep_pop q xs x Hr) as Hr1.
  rewrite (try_pop_cons q x xs Hr). cbn [bind].
  destruct (IH _ _ Hr1) as (q' & E & Hr' & -> & Hloop); [simpl in *; lia|].
  rewrite E. cbn [bind]. eexists. split; [done|]. split; [done|]. split.
  { simpl. f_equal. unfold u64. rewrite Zplus_mod_idemp_l. f_equal. lia. }
  intros r i Hri. rewrite <- Hri, land_slot.
  pose proof (rr_elem _ _ _ Hr 0%nat x eq_refl) as He. rewrite Z.add_0_r in He.
  rewrite (vec_at_Ok _ _ _ He). cbn [bind].
  simpl in Hloop. rewrite Hloop; [done|].
  rewrite Hri. unfold u64. rewrite Zplus_mod_idemp_l. f_equal. lia.
Qed.

Lemma pop_each_min q xs m :
  ring_rep N q xs -> pop_each q m = pop_each q (Nat.min m (length xs)).
Proof.
  revert q xs. induction m as [|m IH]; intros q xs Hr; [done|].
  destruct xs as [|x xs]; simpl.
  - by rewrite (try_pop_empty q Hr).
  - rewrite (try_pop_cons q x xs Hr). cbn [bind].
    by rewrite (IH _ _ (ring_rep_pop q xs x Hr)).
Qed.

(** [try_pop_batch] is repeated [try_pop] up to the first refusal. *)
Lemma try_pop_batch_each q xs m :
  ring_rep N q xs ->
  try_pop_batch N q (Z.of_nat m) = pop_each q m.
Proof.
  intros Hr. unfold try_pop_batch. cbv zeta. rewrite (rr_len _ _ _ Hr).
  set (n := Nat.min m (length xs)).
  replace (if _ <? _ then _ else _) with (Z.of_nat n)
    by (destruct (Z.ltb_spec (Z.of_nat m) (Z.of_nat (length xs))); lia).
  rewrite Nat2Z.id.
  destruct (pop_loop_each q xs n Hr ltac:(lia)) as (q' & E & Hr' & -> & Hloop).
  rewrite Hloop by (rewrite Z.add_0_r, u64_id; [done|apply Hr]). cbn [bind].
  rewrite (pop_each_min q xs m Hr). fold n. rewrite E. do 3 f_equal. destruct (Z.gtb_spec (Z.of_nat n) 0); [done|].
  replace n with 0%nat by lia. rewrite Z.add_0_r. symmetry. apply u64_id, Hr.
Qed.

(** The elements a ring holds, oldest first. *)
Definition ring_list (q : SPSCQueue T) : list T :=
  match pop_each q (Z.to_nat (size_approx q)) with Ok (_, xs) => xs | Err _ => [] end.

Lemma ring_list_rep q xs : ring_rep N q xs -> ring_list q = xs.
Proof.
  intros Hr. unfold ring_list, size_approx. rewrite (rr_len _ _ _ Hr), Nat2Z.id.
  destruct (pop_each_spec q xs (length xs) Hr) as (q' & -> & _). by rewrite take_ge.
Qed.

(** Both operations return whatever the ring holds. *)
Lemma try_push_total q xs x :
  ring_rep N q xs ->
  exists q' (ok : bool), try_push N q x = Ok (q', ok) /\ ring_rep N q' (if ok then xs ++ [x] else xs) /\
    (ok = false -> q' = q /\ Z.of_nat (length xs) = N).
Proof.
  intros Hr. pose proof (rr_cap _ _ _ Hr) as Hc.
  destruct (decide (Z.of_nat (length xs) = N)) as [Hf|Hf].
  - exists q, false. by rewrite (try_push_full q xs).
  - eexists _, true. rewrite (try_push_room q xs) by (done || lia). split; [done|].
    split; [|done]. apply ring_rep_push; [done|lia].
Qed.

Lemma try_pop_total q xs :
  ring_rep N q xs -> exists q', try_pop N q = Ok (q', head xs) /\ ring_rep N q' (tail xs).
Proof.
  destruct xs as [|x xs]; intros Hr.
  - exists q. by rewrite (try_pop_empty q Hr).
  - eexists. rewrite (try_pop_cons q x xs Hr). split; [done|]. by apply (ring_rep_pop q xs x).
Qed.

(** ** Spinning

    The consumer as the environment of a spinning producer: it pops
    [drains t] elements before the [t]-th attempt. *)
Definition consumer (drains : nat -> nat) (t : nat) (q : SPSCQueue T) : res (SPSCQueue T) :=
  let* '(q1, _) := pop_each q (drains t) in Ok q1.

(** [spin_push] returns as soon as the consumer has freed a slot: [fuel]
    attempts are enough when it pops before one of them. *)
Lemma spin_push_spec drains t d fuel q xs x :
  ring_rep N q xs -> (d < fuel)%nat -> (0 < drains (t + d))%nat ->
  exists q' k, spin_push N (consumer drains) t fuel q x = Ok q' /\
    ring_rep N q' (drop k xs ++ [x]).
Proof.
  revert t d q xs. induction fuel as [|fuel IH]; intros t d q xs Hr Hd Hdr; [lia|].
  cbn [spin_push]. unfold consumer at 1.
  destruct (pop_each_spec q xs (drains t) Hr) as (q1 & -> & Hr1). cbn [bind].
  destruct (decide (Z.of_nat (length (drop (drains t) xs)) < N)) as [Hroom|Hfull].
  - rewrite (try_push_room q1 _ x Hr1 Hroom). cbn [bind].
    eexists _, (drains t). split; [done|]. by apply ring_rep_push.
  - pose proof (rr_cap _ _ _ Hr1). rewrite (try_push_full q1 _ x Hr1) by lia. cbn [bind].
    destruct d as [|d].
    { rewrite Nat.add_0_r in Hdr. rewrite length_drop in Hfull.
      pose proof (rr_cap _ _ _ Hr). pose proof N_pos. lia. }
    destruct (IH (S t) d q1 _ Hr1) as (q' & k & E & Hr'); [lia| |].
    { by replace (S t + d)%nat with (t + S d)%nat by lia. }
    exists q', (drains t + k)%nat. split; [done|]. by rewrite drop_drop in Hr'.
Qed.

(** ** The diagnostics *)
Lemma diagnostics_rep q xs :
  ring_rep N q xs ->
  empty q = bool_decide (xs = []) /\
  full N q = bool_decide (Z.of_nat (length xs) = N) /\
  size_approx q = Z.of_nat (length xs).
Proof.
  intros Hr. unfold empty, full, size_approx. rewrite (rr_len _ _ _ Hr). split_and!; [|by case_bool_decide; lia|done].
  case_bool_decide as Hx.
  - subst. apply Z.eqb_eq.
    exact (u64_sub_zero _ _ (rr_w _ _ _ Hr) (rr_r _ _ _ Hr) (rr_len _ _ _ Hr)).
  - apply Z.eqb_neq. intros E. pose proof (rr_len _ _ _ Hr) as Hl. rewrite E, Z.sub_diag in Hl.
    destruct xs; [done|]. unfold u64 in Hl. rewrite Z.mod_0_l in Hl; simpl in *; lia.
Qed.

End ring_lemmas.
