(* ===== verification/Sink.v ===== *)
(** * The producer's end of a queue between two threads

    The matching engine ends every report with
    [while (!outbound_.try_push(r)) { ME_PAUSE(); }], and the decoder posts
    messages and returned buffers with the same loop.  [Sink T S] is what they
    rely on: the loop returns, and the elements come out in the order they
    were posted.  The ring of [SPSCQueue], drained by a consumer thread that
    never stops for good, provides it. *)

From stdpp Require Import base numbers list gmap fin_maps.
From Stdlib Require Import ZArith Lia.
From S2P Require Import Prelude.
From S2P Require Import SPSCQueue.

Class Sink (T S : Type) : Type := {
  (** the posting loop *)
  sink_push : T -> S -> res S;
  (** everything posted so far, in order *)
  sink_log : S -> list T;
  sink_ok : S -> Prop;
  sink_push_ok : forall r s, sink_ok s ->
    exists s', sink_push r s = Ok s' /\ sink_ok s' /\ sink_log s' = sink_log s ++ [r]
}.

(** ** A list

    Posting into a list never waits; the list is what was posted. *)
#[export] Program Instance Log_Sink (T : Type) : Sink T (list T) := {|
  sink_push := fun r s => Ok (s ++ [r]);
  sink_log := fun s => s;
  sink_ok := fun _ => True
|}.
Next Obligation. by eauto. Qed.

(** ** A ring and its consumer

    The elements the consumer thread has taken out, the ring, and the number
    of attempts made so far, which indexes the consumer's schedule. *)
Record Link (T : Type) : Type := mkLink {
  ol_delivered : list T;
  ol_queue : SPSCQueue T;
  ol_attempts : nat
}.
Arguments mkLink {T}.
Arguments ol_delivered {T}.
Arguments ol_queue {T}.
Arguments ol_attempts {T}.

(** The outbound queue of the engine. *)
Abbreviation OutLink := (Link ExecutionReport).

Section ring_sink.
Context {T : Type} (N : Z) (drains : nat -> nat) (patience : nat).

(** The posting loop: before the [t]-th attempt the consumer has popped
    [drains t] elements. *)
Fixpoint post_loop (fuel : nat) (r : T) (s : Link T) : res (Link T) :=
  match fuel with
  | O => Err NoProgress
  | S fuel' =>
      let* '(q1, out) := pop_each N (ol_queue s) (drains (ol_attempts s)) in
      let* '(q2, ok) := try_push N q1 r in
      let s1 := mkLink (ol_delivered s ++ out) q2 (S (ol_attempts s)) in
      if ok : bool then Ok s1 else post_loop fuel' r s1
  end.

Definition link_log (s : Link T) : list T :=
  ol_delivered s ++ ring_list N (ol_queue s).

(** The consumer comes back at least once in every [patience] attempts. *)
Definition fair : Prop := forall t, exists d, (d < patience)%nat /\ (0 < drains (t + d))%nat.

Definition link_ok (s : Link T) : Prop := fair /\ exists xs, ring_rep N (ol_queue s) xs.

Lemma post_loop_spec (HN : has_single_bit N) r s xs d fuel :
  ring_rep N (ol_queue s) xs -> (d < fuel)%nat -> (0 < drains (ol_attempts s + d))%nat ->
  exists s' xs', post_loop fuel r s = Ok s' /\ ring_rep N (ol_queue s') xs' /\
    ol_delivered s' ++ xs' = ol_delivered s ++ xs ++ [r].
Proof.
  revert s xs d. induction fuel as [|fuel IH]; intros s xs d Hr Hd Hdr; [lia|].
  cbn [post_loop]. set (k := drains (ol_attempts s)).
  destruct (pop_each_spec N HN _ xs k Hr) as (q1 & -> & Hr1). cbn [bind].
  destruct (decide (Z.of_nat (length (drop k xs)) < N)) as [Hroom|Hfull].
  - rewrite (try_push_room N HN q1 _ r Hr1 Hroom). cbn [bind].
    eexists _, _. split; [done|]. split; [by apply (ring_rep_push N HN q1 _ r Hr1)|].
    simpl. rewrite <- app_assoc, (app_assoc (take k xs)), take_drop. done.
  - pose proof (rr_cap _ _ _ Hr1). rewrite (try_push_full N q1 _ r Hr1) by lia. cbn [bind].
    destruct d as [|d].
    { rewrite Nat.add_0_r in Hdr. fold k in Hdr. rewrite length_drop in Hfull.
      pose proof (rr_cap _ _ _ Hr). pose proof (N_pos N HN). lia. }
    destruct (IH (mkLink (ol_delivered s ++ take k xs) q1 (S (ol_attempts s))) _ d Hr1)
      as (s' & xs' & E & Hr' & Hlog); [lia| |].
    { simpl. by replace (S (ol_attempts s + d)) with (ol_attempts s + S d)%nat by lia. }
    exists s', xs'. split; [done|]. split; [done|]. rewrite Hlog. simpl.
    by rewrite <- app_assoc, (app_assoc (take k xs)), take_drop.
Qed.

Lemma link_push_ok r s :
  link_ok s -> exists s', post_loop patience r s = Ok s' /\ link_ok s' /\
    link_log s' = link_log s ++ [r].
Proof.
  intros [Hf [xs Hr]]. pose proof (rr_pow _ _ _ Hr) as HN.
  destruct (Hf (ol_attempts s)) as (d & Hd & Hdr).
  destruct (post_loop_spec HN r s xs d patience Hr Hd Hdr) as (s' & xs' & E & Hr' & Hlog).
  exists s'. split; [done|]. split; [by split; eauto|]. unfold link_log.
  by rewrite (ring_list_rep N HN _ _ Hr'), (ring_list_rep N HN _ _ Hr), Hlog, app_assoc.
Qed.

#[export] Instance Link_Sink : Sink T (Link T) := {|
  sink_push := post_loop patience;
  sink_log := link_log;
  sink_ok := link_ok;
  sink_push_ok := link_push_ok
|}.

End ring_sink.

(** A consumer that pops one element before every attempt. *)
Lemma fair_always : fair (fun _ => 1%nat) 1.
Proof. intros t. exists 0%nat. lia. Qed.

(** A small link: a ring of eight elements whose consumer takes one before
    every attempt. *)
Definition small_sink (T : Type) : Sink T (Link T) := Link_Sink 8 (fun _ => 1%nat) 1.
Definition small_link {T} (zero : T) : Link T := mkLink [] (SPSCQueue_new 8 zero) 0.

Lemma single_bit_8 : has_single_bit 8.
Proof. exists 3. by split; [lia|]. Qed.

Lemma small_link_ok {T} (zero : T) : sink_ok (Sink := small_sink T) (small_link zero).
Proof. split; [apply fair_always|]. exists []. apply SPSCQueue_new_rep, single_bit_8. Qed.
