(* ===== verification/SPSCConc.v ===== *)
(** * The ring between two threads: [src/spsc/spsc_queue.hpp]

    [try_push], [try_pop] and the batch operations, one memory access at a
    time, under the C++ memory model for the accesses the code makes: each
    index is an atomic with the history of its release stores; an acquire
    load may return any store not older than the last one the thread has
    seen, and takes over the view of the thread that made it; the elements of
    [buffer_] are plain objects, on which unordered accesses are a data race.
    Order is tracked with vector clocks: the epoch of a thread is the number
    of its release stores plus one, and an access in epoch [e] is ordered
    before a thread whose clock has reached [e]. *)

From stdpp Require Import base numbers list gmap fin_maps.
From Stdlib Require Import ZArith Lia.
From S2P Require Import Prelude.
From S2P Require Import SPSCQueue.

(** What a thread knows: the epochs of the producer and of the consumer. *)
Record vclock : Type := mkVC { vp : nat; vc : nat }.

Definition vjoin (a b : vclock) : vclock :=
  mkVC (Nat.max (vp a) (vp b)) (Nat.max (vc a) (vc b)).

(** A release store: the value, and the storing thread's clock.  [m_cnt] is
    ghost state: the number of elements pushed (popped) up to it, of which
    the value is the low 64 bits. *)
Record message : Type := mkMsg { m_val : Z; m_clk : vclock; m_cnt : Z }.

(** An element of [buffer_] with the epochs of the last write and read. *)
Record cell (T : Type) : Type := mkCell { c_val : T; c_wr : nat; c_rd : nat }.
Arguments mkCell {T}.
Arguments c_val {T}.
Arguments c_wr {T}.
Arguments c_rd {T}.

Section conc.
Context {T : Type} (N : Z).

Inductive push_op : Type := PushOne (item : T) | PushBatch (items : list T).
Inductive pop_op : Type := PopOne | PopBatch (max_count : Z).

(** Where a thread is in an operation: not in one; own index loaded; other
    index loaded and [i] of [n] elements copied. *)
Inductive producer : Type :=
| PIdle
| PLoaded (w : Z) (op : push_op)
| PFilling (w : Z) (i n : Z) (items : list T).

Inductive consumer_pc : Type :=
| CIdle
| CLoaded (r : Z) (op : pop_op)
| CReading (r : Z) (i n : Z).

Record world : Type := mkWorld {
  wlog : list message;      (* write_idx_, oldest store first *)
  rlog : list message;      (* read_idx_ *)
  cells : list (cell T);    (* buffer_ *)
  p_pc : producer;
  p_clk : vclock;
  p_view : nat;             (* the newest store of read_idx_ the producer has seen *)
  c_pc : consumer_pc;
  c_clk : vclock;
  c_view : nat;             (* the newest store of write_idx_ the consumer has seen *)
  pushed : list T;          (* ghost: every element written *)
  popped : list T           (* ghost: every element read *)
}.

Definition init (zero : T) : world :=
  mkWorld [mkMsg 0 (mkVC 0 0) 0] [mkMsg 0 (mkVC 0 0) 0]
    (replicate (Z.to_nat N) (mkCell zero 0 0))
    PIdle (mkVC 1 0) 0 CIdle (mkVC 0 1) 0 [] [].

Definition set_producer (pc : producer) (clk : vclock) (view : nat) (x : world) : world :=
  mkWorld (wlog x) (rlog x) (cells x) pc clk view (c_pc x) (c_clk x) (c_view x)
    (pushed x) (popped x).
Definition set_consumer (pc : consumer_pc) (clk : vclock) (view : nat) (x : world) : world :=
  mkWorld (wlog x) (rlog x) (cells x) (p_pc x) (p_clk x) (p_view x) pc clk view
    (pushed x) (popped x).

(** Elements published by the producer, released by the consumer. *)
Definition count_of (l : list message) : Z := from_option m_cnt 0 (last l).

Inductive event : Type :=
| PStart (op : push_op) | PLoad (pos : nat) | PWrite | PStore
| CStart (op : pop_op) | CLoad (pos : nat) | CRead | CStore.

(** *** The producer *)

(** [w = write_idx_.load(relaxed)]: the producer's own last store. *)
Definition p_start (op : push_op) (x : world) : option world :=
  match p_pc x, last (wlog x) with
  | PIdle, Some m => Some (set_producer (PLoaded (m_val m) op) (p_clk x) (p_view x) x)
  | _, _ => None
  end.

(** [read_idx_.load(acquire)] returning the store at [pos], and the branch on
    it. *)
Definition p_load (pos : nat) (x : world) : option world :=
  match p_pc x, rlog x !! pos with
  | PLoaded w op, Some m =>
      if (p_view x <=? pos)%nat then
        let clk := vjoin (p_clk x) (m_clk m) in
        let pc :=
          match op with
          | PushOne item =>
              if u64 (w - m_val m) =? N then PIdle else PFilling w 0 1 [item]
          | PushBatch items =>
              let available := u64 (N - u64 (w - m_val m)) in
              let count := Z.of_nat (length items) in
              PFilling w 0 (if count <? available then count else available) items
          end in
        Some (set_producer pc clk pos x)
      else None
  | _, _ => None
  end.

(** The slot of the next copy. *)
Definition p_slot (w i : Z) : nat := Z.to_nat (Z.land (u64 (w + i)) (kMask N)).

(** [buffer_[(w + i) & kMask] = items[i]] *)
Definition p_write (x : world) : option world :=
  match p_pc x with
  | PFilling w i n items =>
      if i <? n then
        match items !! Z.to_nat i, cells x !! p_slot w i with
        | Some item, Some c =>
            Some (mkWorld (wlog x) (rlog x)
                    (<[p_slot w i := mkCell item (vp (p_clk x)) (c_rd c)]> (cells x))
                    (PFilling w (i + 1) n items) (p_clk x) (p_view x)
                    (c_pc x) (c_clk x) (c_view x) (pushed x ++ [item]) (popped x))
        | _, _ => None
        end
      else None
  | _ => None
  end.

(** [write_idx_.store(w + n, release)], which the batch skips for [n == 0]. *)
Definition p_store (x : world) : option world :=
  match p_pc x with
  | PFilling w i n items =>
      if i =? n then
        if n >? 0 then
          Some (mkWorld (wlog x ++ [mkMsg (u64 (w + n)) (p_clk x) (count_of (wlog x) + n)])
                  (rlog x) (cells x) PIdle (mkVC (S (vp (p_clk x))) (vc (p_clk x))) (p_view x)
                  (c_pc x) (c_clk x) (c_view x) (pushed x) (popped x))
        else Some (set_producer PIdle (p_clk x) (p_view x) x)
      else None
  | _ => None
  end.

(** *** The consumer *)

Definition c_start (op : pop_op) (x : world) : option world :=
  match c_pc x, last (rlog x) with
  | CIdle, Some m => Some (set_consumer (CLoaded (m_val m) op) (c_clk x) (c_view x) x)
  | _, _ => None
  end.

Definition c_load (pos : nat) (x : world) : option world :=
  match c_pc x, wlog x !! pos with
  | CLoaded r op, Some m =>
      if (c_view x <=? pos)%nat then
        let clk := vjoin (c_clk x) (m_clk m) in
        let pc :=
          match op with
          | PopOne => if r =? m_val m then CIdle else CReading r 0 1
          | PopBatch max_count =>
              let available := u64 (m_val m - r) in
              CReading r 0 (if max_count <? available then max_count else available)
          end in
        Some (set_consumer pc clk pos x)
      else None
  | _, _ => None
  end.

(** [out[i] = buffer_[(r + i) & kMask]] *)
Definition c_read (x : world) : option world :=
  match c_pc x with
  | CReading r i n =>
      if i <? n then
        match cells x !! p_slot r i with
        | Some c =>
            Some (mkWorld (wlog x) (rlog x)
                    (<[p_slot r i := mkCell (c_val c) (c_wr c) (vc (c_clk x))]> (cells x))
                    (p_pc x) (p_clk x) (p_view x)
                    (CReading r (i + 1) n) (c_clk x) (c_view x)
                    (pushed x) (popped x ++ [c_val c]))
        | None => None
        end
      else None
  | _ => None
  end.

Definition c_store (x : world) : option world :=
  match c_pc x with
  | CReading r i n =>
      if i =? n then
        if n >? 0 then
          Some (mkWorld (wlog x)
                  (rlog x ++ [mkMsg (u64 (r + n)) (c_clk x) (count_of (rlog x) + n)])
                  (cells x) (p_pc x) (p_clk x) (p_view x)
                  CIdle (mkVC (vp (c_clk x)) (S (vc (c_clk x)))) (c_view x)
                  (pushed x) (popped x))
        else Some (set_consumer CIdle (c_clk x) (c_view x) x)
      else None
  | _ => None
  end.

Definition step (e : event) (x : world) : option world :=
  match e with
  | PStart op => p_start op x
  | PLoad pos => p_load pos x
  | PWrite => p_write x
  | PStore => p_store x
  | CStart op => match op with
                 | PopBatch k => if k <? 0 then None else c_start op x
                 | PopOne => c_start op x
                 end
  | CLoad pos => c_load pos x
  | CRead => c_read x
  | CStore => c_store x
  end.

Inductive reach (zero : T) : world -> Prop :=
| reach_init : reach zero (init zero)
| reach_step e x x' : reach zero x -> step e x = Some x' -> reach zero x'.

(** The next access of the producer (consumer) to [buffer_] is not ordered
    after the last read (write) of that element by the other thread. *)
Definition racy (x : world) : Prop :=
  (exists w i n items c, p_pc x = PFilling w i n items /\ i < n /\
     cells x !! p_slot w i = Some c /\ (vc (p_clk x) < c_rd c)%nat) \/
  (exists r i n c, c_pc x = CReading r i n /\ i < n /\
     cells x !! p_slot r i = Some c /\ (vp (c_clk x) < c_wr c)%nat).

End conc.
Arguments PushOne {T}.
Arguments PushBatch {T}.
Arguments PIdle {T}.
Arguments PLoaded {T}.
Arguments PFilling {T}.
Arguments wlog {T}.
Arguments rlog {T}.
Arguments cells {T}.
Arguments p_pc {T}.
Arguments p_clk {T}.
Arguments p_view {T}.
Arguments c_pc {T}.
Arguments c_clk {T}.
Arguments c_view {T}.
Arguments pushed {T}.
Arguments popped {T}.
Arguments mkWorld {T}.
Arguments PStart {T}.
Arguments PLoad {T}.
Arguments PWrite {T}.
Arguments PStore {T}.
Arguments CStart {T}.
Arguments CLoad {T}.
Arguments CRead {T}.
Arguments CStore {T}.
