(* ===== verification/SPSCConcInv.v ===== *)
(** * The two-thread ring: its invariant

    Holds in every state of [SPSCConc] and gives race freedom and the FIFO
    order.  The two threads are mirror images: [log_ok] and [stamp_ok] state
    once what both index histories and both kinds of access satisfy. *)

From stdpp Require Import base numbers list gmap fin_maps.
From Stdlib Require Import ZArith Lia.
From S2P Require Import Prelude.
From S2P Require Import SPSCQueue.
From S2P Require Import SPSCConc.

(** The history of an index: values are the counts modulo 2^64, the store at
    position [j] was made in the owner's epoch [j], the owner had seen fewer
    than [olen] stores of the other index, and the counts grow. *)
Record log_ok (own other : vclock -> nat) (l : list message) (olen : nat) : Prop := {
  lo_some : l <> [];
  lo_val : forall j m, l !! j = Some m -> m_val m = u64 (m_cnt m);
  lo_own : forall j m, l !! j = Some m -> own (m_clk m) = j;
  lo_other : forall j m, l !! j = Some m -> (other (m_clk m) < olen)%nat;
  lo_pos : forall j m, l !! j = Some m -> 0 <= m_cnt m;
  lo_mono : forall j j' m m', (j <= j')%nat -> l !! j = Some m -> l !! j' = Some m' ->
    m_cnt m <= m_cnt m'
}.

(** The count of the store at a position. *)
Definition seen (l : list message) (v : nat) : Z := from_option m_cnt 0 (l !! v).

Section logs.
Context (own other : vclock -> nat).
Implicit Types (l : list message).

Lemma log_last l olen :
  log_ok own other l olen ->
  exists m, last l = Some m /\ m_cnt m = count_of l /\ m_val m = u64 (count_of l) /\ 0 <= count_of l.
Proof.
  intros Hl. destruct (last l) as [m|] eqn:E; [|by apply last_None, Hl in E].
  exists m. unfold count_of. rewrite E. simpl. rewrite last_lookup in E.
  split_and!; [done..|by eapply lo_val|by eapply lo_pos].
Qed.

Lemma log_le l olen j m : log_ok own other l olen -> l !! j = Some m -> m_cnt m <= count_of l.
Proof.
  intros Hl Hj. destruct (log_last l olen Hl) as (m' & Hm' & <- & _). rewrite last_lookup in Hm'.
  eapply lo_mono; [done| |done..]. apply lookup_lt_Some in Hj. lia.
Qed.

Lemma log_ok_grow l olen olen' : (olen <= olen')%nat -> log_ok own other l olen -> log_ok own other l olen'.
Proof. intros Hle []. split; try done. intros j m Hj. specialize (lo_other0 j m Hj). lia. Qed.

Lemma count_of_snoc l m : count_of (l ++ [m]) = m_cnt m.
Proof. unfold count_of. by rewrite last_snoc. Qed.

Lemma log_ok_snoc l olen n clk v :
  log_ok own other l olen -> 0 <= n -> own clk = length l -> (other clk < olen)%nat ->
  v = u64 (count_of l + n) ->
  log_ok own other (l ++ [mkMsg v clk (count_of l + n)]) olen.
Proof.
  intros Hl Hn Hown Hoth ->. destruct (log_last l olen Hl) as (_ & _ & _ & _ & Hpos).
  assert (forall j m, (l ++ [mkMsg (u64 (count_of l + n)) clk (count_of l + n)]) !! j = Some m ->
    l !! j = Some m \/ (j = length l /\ m = mkMsg (u64 (count_of l + n)) clk (count_of l + n))) as Hc.
  { intros j m [?|[Hj Hm]]%lookup_app_Some; [by left|right].
    apply list_lookup_singleton_Some in Hm as [? <-]. split; [lia|done]. }
  split; [by destruct l|intros j m [Hj|[-> ->]]%Hc; simpl; try done; try lia; by eapply Hl..|].
  intros j j' m m' Hle [Hj|[-> ->]]%Hc [Hj'|[-> ->]]%Hc; simpl; [|..|lia].
  - by apply (lo_mono _ _ _ _ Hl j j').
  - pose proof (log_le _ _ _ _ Hl Hj). lia.
  - apply lookup_lt_Some in Hj'. lia.
Qed.

Lemma seen_le l olen j j' :
  log_ok own other l olen -> (j <= j')%nat -> (j' < length l)%nat -> seen l j <= seen l j'.
Proof.
  intros Hl Hle Hlt. destruct (lookup_lt_is_Some_2 l j') as [m' Hm']; [done|].
  destruct (lookup_lt_is_Some_2 l j) as [m Hm]; [lia|]. unfold seen. rewrite Hm, Hm'. simpl.
  by apply (lo_mono _ _ _ _ Hl j j').
Qed.

Lemma seen_count l olen j : log_ok own other l olen -> (j < length l)%nat -> seen l j <= count_of l.
Proof.
  intros Hl Hlt. destruct (lookup_lt_is_Some_2 l j) as [m Hm]; [done|]. unfold seen. rewrite Hm. simpl.
  by apply (log_le _ _ _ _ Hl Hm).
Qed.

Lemma seen_snoc l m j : (j < length l)%nat -> seen (l ++ [m]) j = seen l j.
Proof. intros Hj. unfold seen. by rewrite lookup_app_l. Qed.

End logs.

(** The epoch [stamp] of the last access to slot [s] when the accesses so far
    were to elements [0 .. total-1]: a thread that knows a store whose count
    covers all of them that fell on [s] knows the epoch. *)
Definition stamp_ok (N : Z) (l : list message) (total : Z) (s stamp : nat) : Prop :=
  (stamp <= length l)%nat /\
  forall j m, l !! j = Some m ->
    (forall k, 0 <= k < total -> slot N k = s -> k < m_cnt m) -> (stamp <= j)%nat.

Section stamps.
Context (N : Z).

Lemma stamp_ok_more l total total' s st :
  total <= total' -> stamp_ok N l total s st -> stamp_ok N l total' s st.
Proof.
  intros Hle [Hb Hs]. split; [done|]. intros j m Hj Hk. apply (Hs j m Hj). intros k Hk' Es.
  apply Hk; [lia|done].
Qed.

Lemma stamp_ok_new own other l olen k :
  log_ok own other l olen -> 0 <= k -> count_of l <= k ->
  stamp_ok N l (k + 1) (slot N k) (length l).
Proof.
  intros Hl Hk Hc. split; [done|]. intros j m Hj Hall. specialize (Hall k ltac:(lia) eq_refl).
  pose proof (log_le _ _ _ _ _ _ Hl Hj). lia.
Qed.

Lemma stamp_ok_snoc l m total s st :
  stamp_ok N l total s st -> stamp_ok N (l ++ [m]) total s st.
Proof.
  intros [Hb Hs]. split; [rewrite length_app; lia|].
  intros j m' [Hj|[Hge _]]%lookup_app_Some Hall; [by eapply Hs|lia].
Qed.

End stamps.

Section inv.
Context {T : Type} (N : Z) (HN : has_single_bit N).
Implicit Types (x : world (T := T)).

(** Elements an operation in progress will copy, and has copied. *)
Definition p_all (pc : producer (T := T)) : Z := match pc with PFilling _ _ n _ => n | _ => 0 end.
Definition p_done (pc : producer (T := T)) : Z := match pc with PFilling _ i _ _ => i | _ => 0 end.
Definition c_all (pc : consumer_pc) : Z := match pc with CReading _ _ n => n | _ => 0 end.
Definition c_done (pc : consumer_pc) : Z := match pc with CReading _ i _ => i | _ => 0 end.

Definition p_pc_ok (pc : producer (T := T)) (cnt : Z) : Prop :=
  match pc with
  | PIdle => True
  | PLoaded w _ => w = u64 cnt
  | PFilling w i n items => w = u64 cnt /\ 0 <= i <= n /\ n <= Z.of_nat (length items)
  end.
Definition c_pc_ok (pc : consumer_pc) (cnt : Z) : Prop :=
  match pc with
  | CIdle => True
  | CLoaded r op => r = u64 cnt /\ match op with PopBatch k => 0 <= k | PopOne => True end
  | CReading r i n => r = u64 cnt /\ 0 <= i <= n
  end.

Record inv x : Prop := {
  iv_w : log_ok vp vc (wlog x) (length (rlog x));
  iv_r : log_ok vc vp (rlog x) (length (wlog x));
  iv_pclk : p_clk x = mkVC (length (wlog x)) (p_view x);
  iv_cclk : c_clk x = mkVC (c_view x) (length (rlog x));
  iv_pview : (p_view x < length (rlog x))%nat;
  iv_cview : (c_view x < length (wlog x))%nat;
  iv_ppc : p_pc_ok (p_pc x) (count_of (wlog x));
  iv_cpc : c_pc_ok (c_pc x) (count_of (rlog x));
  iv_room : count_of (wlog x) + p_all (p_pc x) <= seen (rlog x) (p_view x) + N;
  iv_avail : count_of (rlog x) + c_all (c_pc x) <= seen (wlog x) (c_view x);
  iv_pushed : Z.of_nat (length (pushed x)) = count_of (wlog x) + p_done (p_pc x);
  iv_popped : Z.of_nat (length (popped x)) = count_of (rlog x) + c_done (c_pc x);
  iv_fifo : popped x = take (length (popped x)) (pushed x);
  iv_len : length (cells x) = Z.to_nat N;
  iv_cells : forall k v, pushed x !! k = Some v ->
    Z.of_nat (length (pushed x)) <= Z.of_nat k + N ->
    c_val <$> cells x !! slot N (Z.of_nat k) = Some v;
  iv_wr : forall s c, cells x !! s = Some c ->
    stamp_ok N (wlog x) (Z.of_nat (length (pushed x))) s (c_wr c);
  iv_rd : forall s c, cells x !! s = Some c ->
    stamp_ok N (rlog x) (Z.of_nat (length (popped x))) s (c_rd c)
}.

Lemma init_inv zero : inv (init N zero).
Proof.
  pose proof (N_pos N HN).
  assert (forall own other : vclock -> nat, own (mkVC 0 0) = 0%nat -> other (mkVC 0 0) = 0%nat ->
    log_ok own other [mkMsg 0 (mkVC 0 0) 0] 1) as Hlog.
  { intros own other Ho Ht. split; [done|..].
    all: try (intros j m Hj; apply list_lookup_singleton_Some in Hj as [-> <-]; simpl; lia || done).
    intros j j' m m' _ Hj Hj'. apply list_lookup_singleton_Some in Hj as [_ <-].
    by apply list_lookup_singleton_Some in Hj' as [_ <-]. }
  split; simpl; try done; try lia.
  - by apply Hlog.
  - by apply Hlog.
  - unfold count_of, seen. simpl. lia.
  - by rewrite length_replicate.
  - intros s c [-> _]%lookup_replicate. split; simpl; lia.
  - intros s c [-> _]%lookup_replicate. split; simpl; lia.
Qed.

(** The slot an access goes to. *)
Lemma p_slot_count cnt i : p_slot N (u64 cnt) i = slot N (cnt + i).
Proof.
  unfold p_slot. rewrite land_slot by done. rewrite Nat2Z.id, slot_u64 by done.
  by apply slot_u64_add.
Qed.

(** The difference of two indices is the difference of the counts. *)
Lemma u64_diff a b : 0 <= a - b <= N -> u64 (u64 a - u64 b) = a - b.
Proof.
  intros Hd. pose proof (N_lt N HN). unfold u64. rewrite <- Zminus_mod. apply Z.mod_small. lia.
Qed.

(** The producer stays within [N] of the consumer, the consumer behind the
    producer. *)
Lemma inv_bounds x :
  inv x ->
  0 <= count_of (wlog x) /\ 0 <= count_of (rlog x) /\
  count_of (rlog x) <= count_of (wlog x) /\
  count_of (wlog x) + p_all (p_pc x) <= count_of (rlog x) + N /\
  count_of (rlog x) + c_all (c_pc x) <= count_of (wlog x) /\
  p_done (p_pc x) <= p_all (p_pc x) /\ c_done (c_pc x) <= c_all (c_pc x) /\
  0 <= p_done (p_pc x) /\ 0 <= c_done (c_pc x).
Proof.
  intros Hi. destruct (log_last _ _ _ _ (iv_w _ Hi)) as (_ & _ & _ & _ & Hw).
  destruct (log_last _ _ _ _ (iv_r _ Hi)) as (_ & _ & _ & _ & Hr).
  pose proof (seen_count _ _ _ _ _ (iv_r _ Hi) (iv_pview _ Hi)).
  pose proof (seen_count _ _ _ _ _ (iv_w _ Hi) (iv_cview _ Hi)).
  pose proof (iv_room _ Hi). pose proof (iv_avail _ Hi). pose proof (iv_ppc _ Hi) as Hp.
  pose proof (iv_cpc _ Hi) as Hc.
  destruct (p_pc x), (c_pc x); simpl in *; lia.
Qed.

(** ** The steps *)

Lemma p_start_inv op x x' : inv x -> p_start op x = Some x' -> inv x'.
Proof.
  intros Hi E. unfold p_start in E. destruct (p_pc x) eqn:Hpc; try done.
  destruct (log_last _ _ _ _ (iv_w _ Hi)) as (m & Hm & _ & Hv & _). rewrite Hm in E.
  injection E as <-. destruct Hi as []. rewrite Hpc in *. split; try done.
Qed.

Lemma c_start_inv op x x' :
  inv x -> match op with PopBatch k => 0 <= k | PopOne => True end ->
  c_start op x = Some x' -> inv x'.
Proof.
  intros Hi Hop E. unfold c_start in E. destruct (c_pc x) eqn:Hpc; try done.
  destruct (log_last _ _ _ _ (iv_r _ Hi)) as (m & Hm & _ & Hv & _). rewrite Hm in E.
  injection E as <-. destruct Hi as []. rewrite Hpc in *. split; try done.
Qed.

(** Moving the producer on to the store at [pos] of [read_idx_]. *)
Lemma p_move_inv x pc pos m :
  inv x -> rlog x !! pos = Some m -> (p_view x <= pos)%nat -> p_done (p_pc x) = 0 ->
  p_pc_ok pc (count_of (wlog x)) -> p_done pc = 0 ->
  count_of (wlog x) + p_all pc <= m_cnt m + N ->
  inv (set_producer pc (vjoin (p_clk x) (m_clk m)) pos x).
Proof.
  intros Hi Hm Hview H0 Hok H1 Hroom.
  pose proof (lo_own _ _ _ _ (iv_r _ Hi) _ _ Hm) as Ho.
  pose proof (lo_other _ _ _ _ (iv_r _ Hi) _ _ Hm) as Ht.
  apply lookup_lt_Some in Hm as Hlt. destruct Hi. split; try done; simpl.
  - rewrite iv_pclk0. unfold vjoin. simpl. f_equal; lia.
  - unfold seen. by rewrite Hm.
  - rewrite H1. lia.
Qed.

Lemma c_move_inv x pc pos m :
  inv x -> wlog x !! pos = Some m -> (c_view x <= pos)%nat -> c_done (c_pc x) = 0 ->
  c_pc_ok pc (count_of (rlog x)) -> c_done pc = 0 ->
  count_of (rlog x) + c_all pc <= m_cnt m ->
  inv (set_consumer pc (vjoin (c_clk x) (m_clk m)) pos x).
Proof.
  intros Hi Hm Hview H0 Hok H1 Hav.
  pose proof (lo_own _ _ _ _ (iv_w _ Hi) _ _ Hm) as Ho.
  pose proof (lo_other _ _ _ _ (iv_w _ Hi) _ _ Hm) as Ht.
  apply lookup_lt_Some in Hm as Hlt. destruct Hi. split; try done; simpl.
  - rewrite iv_cclk0. unfold vjoin. simpl. f_equal; lia.
  - unfold seen. by rewrite Hm.
  - rewrite H1. lia.
Qed.

Lemma p_load_inv pos x x' : inv x -> p_load N pos x = Some x' -> inv x'.
Proof.
  intros Hi E. unfold p_load in E. destruct (p_pc x) as [|w op|] eqn:Hpc; try done.
  destruct (rlog x !! pos) as [m|] eqn:Hm; [|done].
  destruct (Nat.leb_spec (p_view x) pos) as [Hle|]; [|done]. injection E as <-.
  pose proof (iv_ppc _ Hi) as Hw. rewrite Hpc in Hw. simpl in Hw. subst w.
  rewrite (lo_val _ _ _ _ (iv_r _ Hi) _ _ Hm).
  pose proof (inv_bounds x Hi) as Hb. pose proof (N_lt N HN). pose proof (N_pos N HN).
  pose proof (log_le _ _ _ _ _ _ (iv_r _ Hi) Hm) as Hmc.
  assert (seen (rlog x) (p_view x) <= m_cnt m) as Hseen.
  { pose proof (seen_le _ _ _ _ _ _ (iv_r _ Hi) Hle (lookup_lt_Some _ _ _ Hm)) as Hs.
    unfold seen in Hs at 2. by rewrite Hm in Hs. }
  pose proof (iv_room _ Hi) as Hroom. rewrite Hpc in Hroom, Hb. simpl in Hroom, Hb.
  rewrite u64_diff by lia.
  apply p_move_inv; try done; [by rewrite Hpc|..]; destruct op as [item|items]; simpl.
  - destruct (Z.eqb_spec (count_of (wlog x) - m_cnt m) N); simpl; [done|lia].
  - rewrite (u64_id (N - _)) by (unfold in_u64; lia). split; [done|]. case_match eqn:Hc; lia.
  - by case_match.
  - done.
  - destruct (Z.eqb_spec (count_of (wlog x) - m_cnt m) N); simpl; lia.
  - rewrite (u64_id (N - _)) by (unfold in_u64; lia). case_match eqn:Hc; lia.
Qed.

Lemma c_load_inv pos x x' : inv x -> c_load pos x = Some x' -> inv x'.
Proof.
  intros Hi E. unfold c_load in E. destruct (c_pc x) as [|r op|] eqn:Hpc; try done.
  destruct (wlog x !! pos) as [m|] eqn:Hm; [|done].
  destruct (Nat.leb_spec (c_view x) pos) as [Hle|]; [|done]. injection E as <-.
  pose proof (iv_cpc _ Hi) as Hr. rewrite Hpc in Hr. simpl in Hr. destruct Hr as [-> Hop].
  rewrite (lo_val _ _ _ _ (iv_w _ Hi) _ _ Hm).
  pose proof (inv_bounds x Hi) as Hb. pose proof (N_lt N HN). pose proof (N_pos N HN).
  pose proof (log_le _ _ _ _ _ _ (iv_w _ Hi) Hm) as Hmc.
  assert (seen (wlog x) (c_view x) <= m_cnt m) as Hseen.
  { pose proof (seen_le _ _ _ _ _ _ (iv_w _ Hi) Hle (lookup_lt_Some _ _ _ Hm)) as Hs.
    unfold seen in Hs at 2. by rewrite Hm in Hs. }
  pose proof (iv_avail _ Hi) as Hav. rewrite Hpc in Hav, Hb. simpl in Hav, Hb.
  rewrite u64_diff by (destruct (p_pc x); simpl in *; lia).
  assert (u64 (count_of (rlog x)) <> u64 (m_cnt m) -> count_of (rlog x) < m_cnt m) as Hlt.
  { intros Hne. destruct (decide (count_of (rlog x) = m_cnt m)) as [E|]; [by destruct Hne; f_equal|lia]. }
  apply c_move_inv; try done; [by rewrite Hpc|..]; destruct op as [|k]; simpl.
  - destruct (Z.eqb_spec (u64 (count_of (rlog x))) (u64 (m_cnt m))); simpl; [done|lia].
  - split; [done|]. case_match eqn:Hc; lia.
  - by case_match.
  - done.
  - destruct (Z.eqb_spec (u64 (count_of (rlog x))) (u64 (m_cnt m))); simpl; lia.
  - case_match eqn:Hc; lia.
Qed.

(** Elements less than [N] apart have different slots. *)
Lemma slot_ne k k' : 0 <= k < k' -> k' < k + N -> slot N k <> slot N k'.
Proof.
  intros Hk Hlt E. pose proof (slot_inj N HN k 0 (k' - k)) as Hinj.
  rewrite Z.add_0_r in Hinj. replace (k + (k' - k)) with k' in Hinj by lia.
  specialize (Hinj ltac:(lia) ltac:(lia) E). lia.
Qed.

Lemma p_write_inv x x' : inv x -> p_write N x = Some x' -> inv x'.
Proof.
  intros Hi E. unfold p_write in E. destruct (p_pc x) as [| |w i n items] eqn:Hpc; try done.
  destruct (Z.ltb_spec i n) as [Hin|]; [|done].
  destruct (items !! Z.to_nat i) as [item|] eqn:Hit; [|done].
  destruct (cells x !! p_slot N w i) as [c|] eqn:Hc; [|done]. injection E as <-.
  pose proof (inv_bounds x Hi) as Hb. rewrite Hpc in Hb. simpl in Hb.
  destruct Hi. rewrite Hpc in *. simpl in *. destruct iv_ppc0 as (-> & Hi0 & Hn).
  rewrite p_slot_count in *. rewrite <- iv_pushed0 in *.
  assert (slot N (Z.of_nat (length (pushed x))) < length (cells x))%nat as Hsl
    by (rewrite iv_len0; by apply slot_lt).
  split; simpl; try done; try lia.
  - rewrite length_app. simpl. lia.
  - rewrite take_app_le by lia. done.
  - by rewrite length_insert.
  - intros k v Hk. rewrite length_app. simpl. intros Hlast.
    apply lookup_app_Some in Hk as [Hk|[Hge Hk]].
    + apply lookup_lt_Some in Hk as Hlt.
      rewrite list_lookup_insert_ne by (apply not_eq_sym, slot_ne; lia). apply iv_cells0; [done|lia].
    + apply list_lookup_singleton_Some in Hk as [Hk <-].
      replace k with (length (pushed x)) by lia. by rewrite list_lookup_insert_eq.
  - intros s c' Hs. rewrite length_app, Nat2Z.inj_add. simpl.
    apply list_lookup_insert_Some in Hs as [(<- & <- & _)|[_ Hs]]; simpl.
    + rewrite iv_pclk0. simpl. apply (stamp_ok_new N vp vc _ (length (rlog x))); [done|lia..].
    + eapply stamp_ok_more; [|by apply iv_wr0]. lia.
  - intros s c' Hs. apply list_lookup_insert_Some in Hs as [(<- & <- & _)|[_ Hs]]; simpl; by apply iv_rd0.
Qed.

Lemma c_read_inv x x' : inv x -> c_read N x = Some x' -> inv x'.
Proof.
  intros Hi E. unfold c_read in E. destruct (c_pc x) as [| |r i n] eqn:Hpc; try done.
  destruct (Z.ltb_spec i n) as [Hin|]; [|done].
  destruct (cells x !! p_slot N r i) as [c|] eqn:Hc; [|done]. injection E as <-.
  pose proof (inv_bounds x Hi) as Hb. rewrite Hpc in Hb. simpl in Hb.
  destruct Hi. rewrite Hpc in *. simpl in *. destruct iv_cpc0 as (-> & Hi0).
  rewrite p_slot_count in *. rewrite <- iv_popped0 in *.
  destruct (lookup_lt_is_Some_2 (pushed x) (length (popped x))) as [v Hv]; [lia|].
  pose proof (iv_cells0 _ _ Hv) as Hval. rewrite Hc in Hval. simpl in Hval.
  specialize (Hval ltac:(lia)). injection Hval as Hval.
  assert (slot N (Z.of_nat (length (popped x))) < length (cells x))%nat as Hsl
    by (rewrite iv_len0; by apply slot_lt).
  split; simpl; try done; try lia.
  - rewrite length_app. simpl. lia.
  - rewrite length_app. simpl. rewrite Nat.add_1_r, (take_S_r _ _ v) by done. by rewrite <- iv_fifo0, Hval.
  - by rewrite length_insert.
  - intros k w Hk Hlast. specialize (iv_cells0 k w Hk Hlast).
    destruct (decide (slot N (Z.of_nat k) = slot N (Z.of_nat (length (popped x))))) as [Es|Es].
    + rewrite Es in *. rewrite Hc in iv_cells0. by rewrite list_lookup_insert_eq.
    + by rewrite list_lookup_insert_ne.
  - intros s c' Hs. apply list_lookup_insert_Some in Hs as [(<- & <- & _)|[_ Hs]]; simpl; by apply iv_wr0.
  - intros s c' Hs. rewrite length_app, Nat2Z.inj_add. simpl.
    apply list_lookup_insert_Some in Hs as [(<- & <- & _)|[_ Hs]]; simpl.
    + rewrite iv_cclk0. simpl. apply (stamp_ok_new N vc vp _ (length (wlog x))); [done|lia..].
    + eapply stamp_ok_more; [|by apply iv_rd0]. lia.
Qed.

Lemma u64_add_count cnt n : u64 (u64 cnt + n) = u64 (cnt + n).
Proof. unfold u64. by rewrite Zplus_mod_idemp_l. Qed.

Lemma p_store_inv x x' : inv x -> p_store x = Some x' -> inv x'.
Proof.
  intros Hi E. unfold p_store in E. destruct (p_pc x) as [| |w i n items] eqn:Hpc; try done.
  destruct (Z.eqb_spec i n) as [->|]; [|done].
  pose proof (inv_bounds x Hi) as Hb. rewrite Hpc in Hb. simpl in Hb.
  destruct (Z.gtb_spec n 0) as [Hn|Hn]; injection E as <-;
    destruct Hi; rewrite Hpc in *; simpl in *; destruct iv_ppc0 as (-> & Hi0 & Hlen).
  - split; simpl; rewrite ?count_of_snoc, ?length_app; simpl; try done; try lia.
    + apply log_ok_snoc; [done|lia|by rewrite iv_pclk0|by rewrite iv_pclk0|by rewrite u64_add_count].
    + eapply log_ok_grow; [|done]. lia.
    + rewrite iv_pclk0. simpl. f_equal. lia.
    + by rewrite seen_snoc.
    + intros s c Hs. by apply stamp_ok_snoc, iv_wr0.
  - split; simpl; try done; lia.
Qed.

Lemma c_store_inv x x' : inv x -> c_store x = Some x' -> inv x'.
Proof.
  intros Hi E. unfold c_store in E. destruct (c_pc x) as [| |r i n] eqn:Hpc; try done.
  destruct (Z.eqb_spec i n) as [->|]; [|done].
  pose proof (inv_bounds x Hi) as Hb. rewrite Hpc in Hb. simpl in Hb.
  destruct (Z.gtb_spec n 0) as [Hn|Hn]; injection E as <-;
    destruct Hi; rewrite Hpc in *; simpl in *; destruct iv_cpc0 as (-> & Hi0).
  - split; simpl; rewrite ?count_of_snoc, ?length_app; simpl; try done; try lia.
    + eapply log_ok_grow; [|done]. lia.
    + apply log_ok_snoc; [done|lia|by rewrite iv_cclk0|by rewrite iv_cclk0|by rewrite u64_add_count].
    + rewrite iv_cclk0. simpl. f_equal. lia.
    + by rewrite seen_snoc.
    + intros s c Hs. by apply stamp_ok_snoc, iv_rd0.
  - split; simpl; try done; lia.
Qed.

Lemma step_inv e x x' : inv x -> step N e x = Some x' -> inv x'.
Proof.
  intros Hi E. destruct e as [op|pos| | |op|pos| |]; simpl in E.
  - by eapply p_start_inv.
  - by eapply p_load_inv.
  - by eapply p_write_inv.
  - by eapply p_store_inv.
  - destruct op as [|k]; [by apply (c_start_inv PopOne x x' Hi I E)|].
    destruct (Z.ltb_spec k 0); [done|]. by eapply (c_start_inv (PopBatch k)).
  - by eapply c_load_inv.
  - by eapply c_read_inv.
  - by eapply c_store_inv.
Qed.

Lemma reach_inv zero x : reach N zero x -> inv x.
Proof. induction 1; [apply init_inv|by eapply step_inv]. Qed.

(** The element a thread is about to access: its slot and what the thread
    knows about the other one's accesses to it. *)
Lemma inv_not_racy x : inv x -> ~ racy N x.
Proof.
  intros Hi. pose proof (inv_bounds x Hi) as Hb.
  intros [(w & i & n & items & c & Hpc & Hin & Hc & Hlt)|(r & i & n & c & Hpc & Hin & Hc & Hlt)];
    rewrite Hpc in Hb; simpl in Hb; destruct Hi; rewrite Hpc in *; simpl in *.
  - destruct iv_ppc0 as (-> & Hi0 & _). rewrite p_slot_count in Hc.
    rewrite iv_pclk0 in Hlt. simpl in Hlt.
    destruct (iv_rd0 _ _ Hc) as [_ Hst]. unfold seen in iv_room0.
    destruct (lookup_lt_is_Some_2 (rlog x) (p_view x)) as [m Hm]; [done|].
    rewrite Hm in iv_room0. simpl in iv_room0. specialize (Hst _ _ Hm).
    enough (c_rd c <= p_view x)%nat by lia. apply Hst. intros k Hk Es.
    destruct (decide (k < m_cnt m)); [done|]. exfalso.
    apply (slot_ne k (count_of (wlog x) + i)); [lia..|done].
  - destruct iv_cpc0 as (-> & Hi0). rewrite p_slot_count in Hc.
    rewrite iv_cclk0 in Hlt. simpl in Hlt.
    destruct (iv_wr0 _ _ Hc) as [_ Hst]. unfold seen in iv_avail0.
    destruct (lookup_lt_is_Some_2 (wlog x) (c_view x)) as [m Hm]; [done|].
    rewrite Hm in iv_avail0. simpl in iv_avail0. specialize (Hst _ _ Hm).
    enough (c_wr c <= c_view x)%nat by lia. apply Hst. intros k Hk Es.
    destruct (decide (k < m_cnt m)); [done|]. exfalso.
    apply (slot_ne (count_of (rlog x) + i) k); [lia..|done].
Qed.

End inv.
