(* ===== verification/SPSCAtomic.v ===== *)
(** * The ring as an atomic queue

    Seen from outside, each operation of the two-thread ring happens at one
    moment: a push when the producer stores its index, a pop when the consumer
    does, one that fails when it loads the other thread's.  [atomic] is the
    queue whose operations are single steps, the one [Pipeline] uses; the code
    of the rings, access by access, does nothing else.

    A load that returns an old index makes an operation take or leave fewer
    elements than it could; one that returns the newest makes it take or leave
    as many as there is room for or there are. *)

From stdpp Require Import base numbers list gmap fin_maps.
From Stdlib Require Import ZArith Lia.
From S2P Require Import Prelude.
From S2P Require Import SPSCQueue.
From S2P Require Import SPSCConc.
From S2P Require Import SPSCConcInv.

(** A call that has returned: what was offered and how much of it the queue
    took, or what was taken from it. *)
Inductive call (T : Type) : Type :=
| Pushed (offered : list T) (accepted : nat)
| Taken (items : list T).
Arguments Pushed {T}.
Arguments Taken {T}.

Section atomic.
Context {T : Type} (N : Z).

Inductive atomic : list T -> call T -> list T -> Prop :=
| atomic_push xs items k :
    (k <= length items)%nat -> Z.of_nat (length xs + k) <= N ->
    atomic xs (Pushed items k) (xs ++ take k items)
| atomic_take items xs : atomic (items ++ xs) (Taken items) xs.

Inductive atomic_run (xs0 : list T) : list (call T) -> list T -> Prop :=
| atomic_nil : atomic_run xs0 [] xs0
| atomic_snoc cs c xs xs' : atomic_run xs0 cs xs -> atomic xs c xs' -> atomic_run xs0 (cs ++ [c]) xs'.

(** ** The calls of the two threads *)

(** The call an access of a thread completes. *)
Definition completes (e : event (T := T)) (x : world) : option (call T) :=
  match e, p_pc x, c_pc x with
  | PLoad pos, PLoaded w (PushOne item), _ =>
      match rlog x !! pos with
      | Some m => if u64 (w - m_val m) =? N then Some (Pushed [item] 0) else None
      | None => None
      end
  | PStore, PFilling _ _ n items, _ => Some (Pushed items (Z.to_nat n))
  | CLoad pos, _, CLoaded r PopOne =>
      match wlog x !! pos with
      | Some m => if r =? m_val m then Some (Taken []) else None
      | None => None
      end
  | CStore, _, CReading _ _ n => Some (Taken (drop (Z.to_nat (count_of (rlog x))) (popped x)))
  | _, _, _ => None
  end.

(** The calls completed on the way to a state, in order. *)
Inductive history (zero : T) : list (call T) -> world -> Prop :=
| history_init : history zero [] (init N zero)
| history_step cs e x x' :
    history zero cs x -> step N e x = Some x' ->
    history zero (cs ++ option_list (completes e x)) x'.

Lemma history_reach zero cs x : history zero cs x -> reach N zero x.
Proof. induction 1; [constructor|by eapply reach_step]. Qed.

(** What has been published and not yet released. *)
Definition contents (x : world (T := T)) : list T :=
  drop (Z.to_nat (count_of (rlog x))) (take (Z.to_nat (count_of (wlog x))) (pushed x)).

(** ** What the producer is writing *)

Definition written (pc : producer (T := T)) : list T :=
  match pc with PFilling _ i _ items => take (Z.to_nat i) items | _ => [] end.

(** The elements written since the last store are the first of those offered. *)
Definition writing (x : world (T := T)) : Prop :=
  drop (Z.to_nat (count_of (wlog x))) (pushed x) = written (p_pc x).

Context (HN : has_single_bit N).
#[local] Arguments count_of : simpl never.
Implicit Types (x : world (T := T)).

Lemma writing_step e x x' : inv N x -> writing x -> step N e x = Some x' -> writing x'.
Proof.
  intros Hi Hw E. pose proof (iv_pushed _ _ Hi) as Hp. pose proof (inv_bounds N x Hi) as Hb.
  unfold writing in *. destruct e as [op|pos| | |op|pos| |]; cbn [step] in E;
    unfold p_start, p_load, p_write, p_store, c_start, c_load, c_read, c_store in E.
  - repeat (case_match; try discriminate E); by injection E as <-.
  - repeat (case_match; try discriminate E); injection E as <-; cbn in *; by rewrite ?take_0.
  - destruct (p_pc x) as [| |w i n items] eqn:Epc; try discriminate E; cbn in Hp, Hb, Hw.
    repeat (case_match; try discriminate E); injection E as <-; cbn in *.
    rewrite drop_app_le, Hw by lia. replace (Z.to_nat (i + 1)) with (S (Z.to_nat i)) by lia.
    by erewrite take_S_r by done.
  - destruct (p_pc x) as [| |w i n items] eqn:Epc; try discriminate E; cbn in Hp, Hb, Hw. cbn in *.
    destruct (Z.eqb_spec i n) as [->|]; [|done]. destruct (Z.gtb_spec n 0); injection E as <-; cbn.
    + rewrite count_of_snoc. cbn. apply drop_ge. lia.
    + rewrite Hw. by replace (Z.to_nat n) with 0%nat by lia.
  - repeat (case_match; try discriminate E); by injection E as <-.
  - repeat (case_match; try discriminate E); by injection E as <-.
  - repeat (case_match; try discriminate E); by injection E as <-.
  - repeat (case_match; try discriminate E); by injection E as <-.
Qed.

Lemma reach_writing zero x : reach N zero x -> writing x.
Proof.
  induction 1 as [|e x x' Hr IH E]; [done|]. eapply writing_step; [|done|done].
  by eapply reach_inv.
Qed.

(** ** Each access is one step of the atomic queue, or none *)

Lemma drop_take_split {A} (l : list A) a b c :
  (a <= b <= c)%nat -> drop a (take c l) = drop a (take b l) ++ drop b (take c l).
Proof.
  intros Hle. replace b with (a + (b - a))%nat at 2 by lia.
  rewrite <- drop_drop, <- (take_drop (b - a) (drop a (take c l))) at 1. f_equal.
  rewrite take_drop_commute, take_take. do 2 f_equal. lia.
Qed.

Lemma contents_length x :
  inv N x -> Z.of_nat (length (contents x)) = count_of (wlog x) - count_of (rlog x).
Proof.
  intros Hi. pose proof (iv_pushed _ _ Hi) as Hp. pose proof (inv_bounds N x Hi) as Hb.
  unfold contents. rewrite length_drop, length_take. lia.
Qed.

Lemma atomic_refuse items x : inv N x -> atomic (contents x) (Pushed items 0) (contents x).
Proof.
  intros Hi. pose proof (contents_length x Hi). pose proof (inv_bounds N x Hi).
  pose proof (atomic_push (contents x) items 0) as Ha. rewrite take_0, app_nil_r in Ha.
  pose proof (iv_ppc _ _ Hi). apply Ha; [lia|]. destruct (p_pc x); cbn in *; lia.
Qed.

Lemma p_store_atomic x x' w i n items :
  inv N x -> writing x -> p_pc x = PFilling w i n items -> p_store x = Some x' ->
  atomic (contents x) (Pushed items (Z.to_nat n)) (contents x').
Proof.
  intros Hi Hw Epc E. pose proof (iv_pushed _ _ Hi) as Hp. pose proof (inv_bounds N x Hi) as Hb.
  pose proof (iv_ppc _ _ Hi) as Hok. unfold writing in Hw. unfold p_store in E. rewrite Epc in *.
  cbn in *. destruct Hok as (_ & _ & Hn). destruct (Z.eqb_spec i n) as [->|]; [|done].
  assert (contents x' = contents x ++ take (Z.to_nat n) items) as ->.
  { destruct (Z.gtb_spec n 0); injection E as <-; unfold contents; cbn.
    - rewrite count_of_snoc. cbn. rewrite <- Hw. rewrite (take_ge (pushed x)) by lia.
      rewrite <- (take_drop (Z.to_nat (count_of (wlog x))) (pushed x)) at 1.
      apply drop_app_le. rewrite length_take. lia.
    - replace (Z.to_nat n) with 0%nat by lia. by rewrite take_0, app_nil_r. }
  constructor; [lia|]. pose proof (contents_length x Hi). lia.
Qed.

Lemma c_store_atomic x x' r i n :
  inv N x -> c_pc x = CReading r i n -> c_store x = Some x' ->
  atomic (contents x) (Taken (drop (Z.to_nat (count_of (rlog x))) (popped x))) (contents x').
Proof.
  intros Hi Epc E. pose proof (iv_popped _ _ Hi) as Hp. pose proof (inv_bounds N x Hi) as Hb.
  pose proof (iv_fifo _ _ Hi) as Hf. unfold c_store in E. rewrite Epc in *. cbn in *.
  destruct (Z.eqb_spec i n) as [->|]; [|done].
  enough (contents x = drop (Z.to_nat (count_of (rlog x))) (popped x) ++ contents x') as -> by constructor.
  rewrite Hf. replace (length (popped x)) with (Z.to_nat (count_of (rlog x) + n)) by lia.
  unfold contents at 1. rewrite (drop_take_split _ _ (Z.to_nat (count_of (rlog x) + n))) by lia. f_equal.
  destruct (Z.gtb_spec n 0); injection E as <-; unfold contents; cbn; rewrite ?count_of_snoc; cbn; [done|].
  by replace n with 0 by lia; rewrite Z.add_0_r.
Qed.

Lemma step_atomic e x x' :
  inv N x -> writing x -> step N e x = Some x' ->
  match completes e x with
  | Some c => atomic (contents x) c (contents x')
  | None => contents x' = contents x
  end.
Proof.
  intros Hi Hw E. pose proof (iv_pushed _ _ Hi) as Hp. pose proof (inv_bounds N x Hi) as Hb.
  destruct e as [op|pos| | |op|pos| |]; cbn [step] in E.
  - unfold p_start in E. repeat (case_match; try discriminate E); by injection E as <-.
  - unfold p_load in E. unfold completes. repeat (case_match; try discriminate E); injection E as <-; try done.
    exact (atomic_refuse _ x Hi).
  - unfold p_write in E. cbn [completes]. repeat (case_match; try discriminate E). injection E as <-.
    unfold contents. cbn. rewrite take_app_le by (cbn in *; lia). done.
  - cbn [completes]. destruct (p_pc x) eqn:Epc; [by unfold p_store in E; rewrite Epc in E..|].
    by eapply p_store_atomic.
  - destruct op; unfold c_start in E; repeat (case_match; try discriminate E); by injection E as <-.
  - unfold c_load in E. unfold completes. repeat (case_match; try discriminate E); injection E as <-; try done.
    all: exact (atomic_take [] (contents x)).
  - unfold c_read in E. cbn [completes]. repeat (case_match; try discriminate E). by injection E as <-.
  - cbn [completes]. destruct (c_pc x) eqn:Epc; [by unfold c_store in E; rewrite Epc in E..|].
    destruct (p_pc x); by eapply c_store_atomic.
Qed.

Lemma history_atomic zero cs x : history zero cs x -> atomic_run [] cs (contents x).
Proof.
  induction 1 as [|cs e x x' Hh IH E]; [constructor|]. pose proof (history_reach _ _ _ Hh) as Hr.
  pose proof (step_atomic e x x' (reach_inv N HN zero x Hr) (reach_writing zero x Hr) E) as Ha.
  destruct (completes e x) as [c|]; cbn [option_list option_rect]; [by eapply atomic_snoc|].
  by rewrite app_nil_r, Ha.
Qed.

(** ** How much an operation takes *)

Definition offered (op : push_op (T := T)) : list T :=
  match op with PushOne item => [item] | PushBatch items => items end.
Definition asked (op : pop_op) : Z := match op with PopOne => 1 | PopBatch max_count => max_count end.

(** The count behind a load: that of the store it returns, which for the
    newest is the last. *)
Lemma log_newest own other l olen pos m :
  log_ok own other l olen -> l !! pos = Some m ->
  m_cnt m <= count_of l /\ (S pos = length l -> m_cnt m = count_of l).
Proof.
  intros Hl Hm. split; [by eapply log_le|]. intros Hlast. unfold count_of.
  rewrite last_lookup, <- Hlast. cbn. by rewrite Hm.
Qed.

Lemma p_load_room pos x x' w op :
  inv N x -> p_pc x = PLoaded w op -> p_load N pos x = Some x' ->
  let most := Z.min (Z.of_nat (length (offered op))) (N - Z.of_nat (length (contents x))) in
  p_all (p_pc x') <= most /\ (S pos = length (rlog x) -> p_all (p_pc x') = most).
Proof.
  intros Hi Epc E. rewrite (contents_length x Hi). unfold p_load in E. rewrite Epc in E.
  destruct (rlog x !! pos) as [m|] eqn:Hm; [|done].
  destruct (Nat.leb_spec (p_view x) pos) as [Hle|]; [|done]. injection E as <-.
  destruct (log_newest _ _ _ _ _ _ (iv_r _ _ Hi) Hm) as [Hmc Hnew].
  pose proof (iv_ppc _ _ Hi) as Hw. rewrite Epc in Hw. cbn in Hw. subst w.
  pose proof (inv_bounds N x Hi) as Hb. pose proof (N_lt N HN). pose proof (iv_room _ _ Hi) as Hroom.
  pose proof (seen_le _ _ _ _ _ _ (iv_r _ _ Hi) Hle (lookup_lt_Some _ _ _ Hm)) as Hs.
  unfold seen in Hs at 2. rewrite Hm in Hs. cbn in Hs.
  rewrite Epc in Hroom, Hb. cbn in Hroom, Hb.
  rewrite (lo_val _ _ _ _ (iv_r _ _ Hi) _ _ Hm), (u64_diff N HN) by lia.
  destruct op as [item|items]; cbn [p_pc set_producer offered length].
  - destruct (Z.eqb_spec (count_of (wlog x) - m_cnt m) N); cbn; split; intros; lia.
  - rewrite (u64_id (N - _)) by (unfold in_u64; lia). cbn [p_all]. case_match eqn:Hc; split; intros; lia.
Qed.

Lemma c_load_avail pos x x' r op :
  inv N x -> c_pc x = CLoaded r op -> c_load pos x = Some x' ->
  let most := Z.min (asked op) (Z.of_nat (length (contents x))) in
  c_all (c_pc x') <= most /\ (S pos = length (wlog x) -> c_all (c_pc x') = most).
Proof.
  intros Hi Epc E. rewrite (contents_length x Hi). unfold c_load in E. rewrite Epc in E.
  destruct (wlog x !! pos) as [m|] eqn:Hm; [|done].
  destruct (Nat.leb_spec (c_view x) pos) as [Hle|]; [|done]. injection E as <-.
  destruct (log_newest _ _ _ _ _ _ (iv_w _ _ Hi) Hm) as [Hmc Hnew].
  pose proof (iv_cpc _ _ Hi) as Hr. rewrite Epc in Hr. cbn in Hr. destruct Hr as [-> Hop].
  pose proof (inv_bounds N x Hi) as Hb. pose proof (N_lt N HN). pose proof (iv_avail _ _ Hi) as Hav.
  pose proof (seen_le _ _ _ _ _ _ (iv_w _ _ Hi) Hle (lookup_lt_Some _ _ _ Hm)) as Hs.
  unfold seen in Hs at 2. rewrite Hm in Hs. cbn in Hs.
  rewrite Epc in Hav, Hb. cbn in Hav, Hb.
  assert (0 <= m_cnt m - count_of (rlog x) <= N) as Hd by (destruct (p_pc x); cbn in *; lia).
  pose proof (u64_diff N HN _ _ Hd) as Hu. rewrite (lo_val _ _ _ _ (iv_w _ _ Hi) _ _ Hm).
  destruct op as [|k]; cbn [c_pc set_consumer asked].
  - destruct (Z.eqb_spec (u64 (count_of (rlog x))) (u64 (m_cnt m))) as [Eq|Hne]; cbn.
    + rewrite <- Eq, Z.sub_diag in Hu. change (u64 0) with 0 in Hu. split; intros; lia.
    + assert (count_of (rlog x) <> m_cnt m) by congruence. split; intros; lia.
  - rewrite Hu. cbn [c_all]. case_match eqn:Hc; split; intros; lia.
Qed.

End atomic.
