(* ===== verification/SPSCTheorems.v ===== *)
(** * The properties of the ring *)

From stdpp Require Import base numbers list gmap fin_maps.
From Stdlib Require Import ZArith Lia.
From S2P Require Import Prelude.
From S2P Require Import SPSCQueue.
From S2P Require Import Sink.
From S2P Require Import SPSCConc.
From S2P Require Import SPSCConcInv.
From S2P Require Import SPSCAtomic.

(** ** The specification: a bounded FIFO list *)

Inductive qop (T : Type) : Type :=
| OpPush (x : T)
| OpPop
| OpPushBatch (items : list T)
| OpPopBatch (max_count : nat).
Arguments OpPush {T}.
Arguments OpPop {T}.
Arguments OpPushBatch {T}.
Arguments OpPopBatch {T}.

(** What a caller sees. *)
Inductive reply (T : Type) : Type :=
| Accepted (ok : bool)
| Popped (x : option T)
| AcceptedN (n : Z)
| PoppedN (xs : list T).
Arguments Accepted {T}.
Arguments Popped {T}.
Arguments AcceptedN {T}.
Arguments PoppedN {T}.

Section ring_theorems.
Context {T : Type} (N : Z).

Definition spec_op (op : qop T) (xs : list T) : list T * reply T :=
  let room := Z.to_nat (N - Z.of_nat (length xs)) in
  match op with
  | OpPush x => if (1 <=? room)%nat then (xs ++ [x], Accepted true) else (xs, Accepted false)
  | OpPop => match xs with [] => ([], Popped None) | x :: xs' => (xs', Popped (Some x)) end
  | OpPushBatch items =>
      (xs ++ take room items, AcceptedN (Z.of_nat (length (take room items))))
  | OpPopBatch k => (drop k xs, PoppedN (take k xs))
  end.

Definition ring_op (op : qop T) (q : SPSCQueue T) : res (SPSCQueue T * reply T) :=
  match op with
  | OpPush x => let* '(q1, ok) := try_push N q x in Ok (q1, Accepted ok)
  | OpPop => let* '(q1, out) := try_pop N q in Ok (q1, Popped out)
  | OpPushBatch items =>
      let* '(q1, n) := try_push_batch N q items (Z.of_nat (length items)) in Ok (q1, AcceptedN n)
  | OpPopBatch k => let* '(q1, out) := try_pop_batch N q (Z.of_nat k) in Ok (q1, PoppedN out)
  end.

Fixpoint spec_run (ops : list (qop T)) (xs : list T) : list T * list (reply T) :=
  match ops with
  | [] => (xs, [])
  | op :: ops' =>
      let '(xs1, r) := spec_op op xs in
      let '(xs2, rs) := spec_run ops' xs1 in (xs2, r :: rs)
  end.

Fixpoint ring_run (ops : list (qop T)) (q : SPSCQueue T) : res (SPSCQueue T * list (reply T)) :=
  match ops with
  | [] => Ok (q, [])
  | op :: ops' =>
      let* '(q1, r) := ring_op op q in
      let* '(q2, rs) := ring_run ops' q1 in Ok (q2, r :: rs)
  end.

Lemma push_each_take (q : SPSCQueue T) (xs items : list T) :
  ring_rep N q xs ->
  let fit := take (Z.to_nat (N - Z.of_nat (length xs))) items in
  exists q', push_each N q items = Ok (q', Z.of_nat (length fit)) /\ ring_rep N q' (xs ++ fit).
Proof.
  revert q xs. induction items as [|x items IH]; intros q xs Hr; cbn [push_each].
  { exists q. rewrite take_nil, app_nil_r. done. }
  pose proof (rr_pow _ _ _ Hr) as HN. pose proof (rr_cap _ _ _ Hr).
  destruct (decide (Z.of_nat (length xs) < N)) as [Hroom|Hfull].
  - rewrite (try_push_room N HN q xs x Hr Hroom). cbn [bind].
    destruct (IH _ _ (ring_rep_push N HN q xs x Hr Hroom)) as (q' & -> & Hr'). cbn [bind].
    exists q'. rewrite length_app in *. cbn [length] in *.
    replace (Z.to_nat (N - Z.of_nat (length xs)))
      with (S (Z.to_nat (N - Z.of_nat (length xs + 1)))) by lia.
    cbn [take length]. rewrite <- app_assoc in Hr'. split; [do 2 f_equal; lia|done].
  - rewrite (try_push_full N q xs x Hr) by lia. cbn [bind]. exists q.
    replace (Z.to_nat (N - Z.of_nat (length xs))) with 0%nat by lia.
    cbn. by rewrite app_nil_r.
Qed.

Lemma ring_op_refines op q xs :
  ring_rep N q xs ->
  exists q', ring_op op q = Ok (q', (spec_op op xs).2) /\ ring_rep N q' (spec_op op xs).1.
Proof.
  intros Hr. pose proof (rr_pow _ _ _ Hr) as HN. pose proof (rr_cap _ _ _ Hr).
  destruct op as [x| |items|k]; cbn [ring_op spec_op].
  - destruct (Nat.leb_spec 1 (Z.to_nat (N - Z.of_nat (length xs)))) as [Hroom|Hfull].
    + rewrite (try_push_room N HN q xs x Hr) by lia. cbn [bind]. eexists. split; [done|].
      apply (ring_rep_push N HN q xs x Hr). lia.
    + rewrite (try_push_full N q xs x Hr) by lia. cbn [bind]. by exists q.
  - destruct xs as [|x xs].
    + rewrite (try_pop_empty N q Hr). cbn [bind]. by exists q.
    + rewrite (try_pop_cons N HN q x xs Hr). cbn [bind]. eexists. split; [done|].
      by apply (ring_rep_pop N HN q xs x).
  - rewrite (try_push_batch_each N HN q xs items Hr).
    destruct (push_each_take q xs items Hr) as (q' & -> & Hr'). by exists q'.
  - rewrite (try_pop_batch_each N HN q xs k Hr).
    destruct (pop_each_spec N HN q xs k Hr) as (q' & -> & Hr'). by exists q'.
Qed.

(** C25: the ring is a bounded FIFO queue: any sequence of single and batch
    pushes and pops on a ring that holds [xs], wherever its free-running
    indices stand, never indexes out of range, gives the replies of the
    specification on the list, and leaves the specified elements. *)
Theorem ring_refines_fifo (ops : list (qop T)) (q : SPSCQueue T) (xs : list T) :
  ring_rep N q xs ->
  exists q', ring_run ops q = Ok (q', (spec_run ops xs).2) /\ ring_rep N q' (spec_run ops xs).1.
Proof.
  revert q xs. induction ops as [|op ops IH]; intros q xs Hr; cbn [ring_run spec_run].
  { by exists q. }
  destruct (ring_op_refines op q xs Hr) as (q1 & -> & Hr1). cbn [bind].
  destruct (spec_op op xs) as [xs1 r]. cbn [fst snd] in *.
  destruct (IH q1 xs1 Hr1) as (q2 & -> & Hr2). cbn [bind].
  destruct (spec_run ops xs1) as [xs2 rs]. by exists q2.
Qed.

(** A batch is its elements one by one: [try_push_batch] does what
    pushing the items singly up to the first refusal does, and
    [try_pop_batch] what popping singly does, down to the indices and the
    buffer. *)
Theorem batch_is_singles (q : SPSCQueue T) (xs items : list T) (k : nat) :
  ring_rep N q xs ->
  try_push_batch N q items (Z.of_nat (length items)) = push_each N q items /\
  try_pop_batch N q (Z.of_nat k) = pop_each N q k.
Proof.
  intros Hr. pose proof (rr_pow _ _ _ Hr) as HN.
  split; [by eapply try_push_batch_each|by eapply try_pop_batch_each].
Qed.

(** [spin_push] returns when the consumer pops at all: if it takes an
    element before one of the next [fuel] attempts, the push succeeds within
    them, and the item is behind what the consumer left. *)
Theorem spin_push_returns (drains : nat -> nat) (t d fuel : nat) (q : SPSCQueue T) (xs : list T) x :
  ring_rep N q xs -> (d < fuel)%nat -> (0 < drains (t + d))%nat ->
  exists q' k, spin_push N (consumer N drains) t fuel q x = Ok q' /\
    ring_rep N q' (drop k xs ++ [x]).
Proof. intros Hr. apply spin_push_spec; [apply Hr|done]. Qed.

(** ** Two threads *)

(** C23: the queue has no data race: in every state two threads can reach,
    with every value the acquire loads may return, the producer's next write
    of an element is ordered after the consumer's last read of it, and the
    consumer's next read after the producer's last write. *)
Theorem spsc_race_free (zero : T) x : has_single_bit N -> reach N zero x -> ~ racy N x.
Proof. intros HN Hr. by apply inv_not_racy, (reach_inv N HN zero). Qed.

(** In every such state the elements the consumer has read are the first
    ones the producer wrote, in order, each exactly once; at most [N] of those
    written are not read yet. *)
Theorem spsc_fifo (zero : T) x :
  has_single_bit N -> reach N zero x ->
  popped x `prefix_of` pushed x /\
  Z.of_nat (length (pushed x)) - Z.of_nat (length (popped x)) <= N.
Proof.
  intros HN Hr. pose proof (reach_inv N HN zero x Hr) as Hi. pose proof (inv_bounds N x Hi) as Hb.
  pose proof (iv_pushed _ _ Hi). pose proof (iv_popped _ _ Hi). split; [|lia].
  rewrite (iv_fifo _ _ Hi). apply prefix_take.
Qed.

(** C24: the ring is a linearizable queue: the calls the two threads complete,
    in the order in which they complete them, are calls of the atomic queue
    [atomic], which holds what has been published and not released; and the
    number of elements a call takes or leaves, fixed when it loads the other
    thread's index, is at most what there is room for or what there is at that
    moment, and exactly that if the load returns the newest value. *)
Theorem spsc_linearizable (zero : T) cs x :
  has_single_bit N -> history N zero cs x ->
  atomic_run N [] cs (contents x) /\
  (forall pos x' w op, p_pc x = PLoaded w op -> step N (PLoad pos) x = Some x' ->
     let most := Z.min (Z.of_nat (length (offered op))) (N - Z.of_nat (length (contents x))) in
     p_all (p_pc x') <= most /\ (S pos = length (rlog x) -> p_all (p_pc x') = most)) /\
  (forall pos x' r op, c_pc x = CLoaded r op -> step N (CLoad pos) x = Some x' ->
     let most := Z.min (asked op) (Z.of_nat (length (contents x))) in
     c_all (c_pc x') <= most /\ (S pos = length (wlog x) -> c_all (c_pc x') = most)).
Proof.
  intros HN Hh. pose proof (reach_inv N HN zero x (history_reach _ _ _ _ Hh)) as Hi. split_and!.
  - by apply (history_atomic N HN zero).
  - intros pos x' w op. by apply (p_load_room N HN pos x x' w).
  - intros pos x' r op. by apply (c_load_avail N HN pos x x' r).
Qed.

(** Accesses a producer's operation still makes. *)
Definition p_left (pc : producer (T := T)) : nat :=
  match pc with
  | PIdle => 0
  | PLoaded _ _ => Z.to_nat N + 3
  | PFilling _ i n _ => Z.to_nat (n - i) + 1
  end.

Definition of_producer (e : event (T := T)) : bool :=
  match e with PStart _ | PLoad _ | PWrite | PStore => true | _ => false end.

(** An operation in progress can take its next step. *)
Lemma push_enabled x :
  has_single_bit N -> inv N x -> p_pc x <> PIdle ->
  exists e x', of_producer e = true /\ step N e x = Some x'.
Proof.
  intros HN Hi Hne. pose proof (iv_ppc _ _ Hi) as Hok.
  destruct (p_pc x) as [|w op|w i n items] eqn:Hpc; [done|..]; simpl in Hok.
  - destruct (lookup_lt_is_Some_2 _ _ (iv_pview _ _ Hi)) as [m Hm].
    exists (PLoad (p_view x)). simpl. unfold p_load. rewrite Hpc, Hm, Nat.leb_refl. eauto.
  - destruct Hok as (_ & Hin & Hlen). destruct (decide (i < n)) as [Hlt|Hge].
    + destruct (lookup_lt_is_Some_2 items (Z.to_nat i)) as [item Hit]; [lia|].
      destruct (lookup_lt_is_Some_2 (cells x) (p_slot N w i)) as [c Hc].
      { unfold p_slot. rewrite land_slot, Nat2Z.id, (iv_len _ _ Hi) by done. by apply slot_lt. }
      exists PWrite. simpl. unfold p_write. rewrite Hpc, (proj2 (Z.ltb_lt _ _)), Hit, Hc by done. eauto.
    + exists PStore. simpl. unfold p_store. rewrite Hpc, (proj2 (Z.eqb_eq _ _)) by lia.
      destruct (n >? 0); eauto.
Qed.

(** Each of its steps brings it closer to returning. *)
Lemma push_decreases x e x' :
  has_single_bit N -> inv N x -> p_pc x <> PIdle -> of_producer e = true -> step N e x = Some x' ->
  (p_left (p_pc x') < p_left (p_pc x))%nat.
Proof.
  intros HN Hi Hne He E. pose proof (step_inv N HN e x x' Hi E) as Hi'.
  pose proof (inv_bounds N x Hi) as Hb. pose proof (inv_bounds N x' Hi') as Hb'.
  destruct e as [op|pos| | | | | |]; try done; simpl in E; unfold p_start, p_load, p_write, p_store in E;
    destruct (p_pc x) as [|w op'|w i n items] eqn:Hpc; try done; simpl in Hb.
  - destruct (rlog x !! pos); [|done]. destruct (_ <=? _)%nat; [|done].
    destruct op'; injection E as <-; simpl in *; repeat case_match; simpl in *; lia.
  - destruct (Z.ltb_spec i n); [|done]. destruct (items !! _); [|done].
    destruct (cells x !! _); [|done]. injection E as <-. simpl. lia.
  - destruct (i =? n); [|done]. destruct (n >? 0); injection E as <-; simpl; lia.
Qed.

(** C37: [try_push] and [try_push_batch] are wait-free: whatever the consumer
    does, an operation in progress can take its next step, and each of its
    steps brings it closer to returning, within [N + 3] of them. *)
Theorem push_wait_free (zero : T) x :
  has_single_bit N -> reach N zero x -> p_pc x <> PIdle ->
  (exists e x', of_producer e = true /\ step N e x = Some x') /\
  (p_left (p_pc x) <= Z.to_nat N + 3)%nat /\
  forall e x', of_producer e = true -> step N e x = Some x' ->
    (p_left (p_pc x') < p_left (p_pc x))%nat.
Proof.
  intros HN Hr Hne. pose proof (reach_inv N HN zero x Hr) as Hi.
  split; [by apply push_enabled|]. split; [|intros e x'; by apply push_decreases].
  pose proof (inv_bounds N x Hi) as Hb. destruct (p_pc x); simpl in *; lia.
Qed.

End ring_theorems.

(** ** The theorems at work *)

(** A ring whose indices are about to wrap around. *)
Definition ring_at_wrap : SPSCQueue Z := mkRing (2 ^ 64 - 1) (2 ^ 64 - 1) (replicate 8 0).

Lemma ring_at_wrap_rep : ring_rep 8 ring_at_wrap [].
Proof. split; try done; [apply single_bit_8|split; simpl; lia..]. Qed.

Lemma ring_refines_fifo_witness :
  exists q', ring_run 8 [OpPushBatch [1; 2; 3]; OpPop; OpPush 4; OpPopBatch 9] ring_at_wrap
    = Ok (q', [AcceptedN 3; Popped (Some 1); Accepted true; PoppedN [2; 3; 4]]).
Proof.
  destruct (ring_refines_fifo 8 [OpPushBatch [1; 2; 3]; OpPop; OpPush 4; OpPopBatch 9]
    ring_at_wrap []) as (q' & E & _).
  - apply ring_at_wrap_rep.
  - exists q'. exact E.
Defined.

Lemma batch_is_singles_witness :
  try_push_batch 8 ring_at_wrap [1; 2; 3] 3 = push_each 8 ring_at_wrap [1; 2; 3].
Proof. apply (batch_is_singles 8 ring_at_wrap [] [1; 2; 3] 0), ring_at_wrap_rep. Defined.

Lemma spin_push_returns_witness :
  exists q', spin_push 8 (consumer 8 (fun t => if (t =? 2)%nat then 1%nat else 0%nat)) 0 3 ring_at_wrap 5
    = Ok q'.
Proof.
  destruct (spin_push_returns 8 (fun t => if (t =? 2)%nat then 1%nat else 0%nat) 0 2 3 ring_at_wrap [] 5)
    as (q' & k & E & _).
  - apply ring_at_wrap_rep.
  - lia.
  - simpl. lia.
  - exists q'. exact E.
Defined.

(** Running a schedule. *)
Fixpoint run_events {T} (N : Z) (es : list event) (x : world) : option (world (T := T)) :=
  match es with
  | [] => Some x
  | e :: es' => match step N e x with Some x' => run_events N es' x' | None => None end
  end.

Lemma run_events_reach {T} (N : Z) (zero : T) es x x' :
  reach N zero x -> run_events N es x = Some x' -> reach N zero x'.
Proof.
  revert x. induction es as [|e es IH]; intros x Hr E; cbn [run_events] in E; [by simplify_eq|].
  destruct (step N e x) as [x1|] eqn:E1; [|done]. by eapply IH; [eapply reach_step|].
Qed.

Lemma single_bit_2 : has_single_bit 2.
Proof. exists 1. by split; [lia|]. Qed.

(** Two elements pushed and one popped, the producer's second load returning
    a stale index; a batch is then under way while the consumer reads. *)
Definition schedule : list (event (T := Z)) :=
  [PStart (PushOne 7); PLoad 0; PWrite; PStore; CStart PopOne; CLoad 1; PStart (PushOne 8); CRead;
   CStore; PLoad 0; PWrite; PStore; PStart (PushBatch [9; 10]); CStart (PopBatch 4); CLoad 1;
   PLoad 1; CStore; PWrite].

Definition scheduled : world := default (init 2 0) (run_events 2 schedule (init 2 0)).

Lemma scheduled_reach : reach 2 0 scheduled.
Proof. apply (run_events_reach 2 0 schedule (init 2 0)); [constructor|]. vm_compute. reflexivity. Qed.

Lemma spsc_race_free_witness : ~ racy 2 scheduled.
Proof. apply (spsc_race_free 2 0 scheduled single_bit_2 scheduled_reach). Defined.

Lemma spsc_fifo_witness : pushed scheduled = [7; 8; 9] /\ popped scheduled = [7] /\
  popped scheduled `prefix_of` pushed scheduled.
Proof.
  split; [vm_compute; reflexivity|]. split; [vm_compute; reflexivity|].
  apply (spsc_fifo 2 0 scheduled single_bit_2 scheduled_reach).
Defined.

(** The calls of a schedule. *)
Fixpoint run_calls {T} (N : Z) (es : list event) (cs : list (call T)) (x : world)
  : option (list (call T) * world (T := T)) :=
  match es with
  | [] => Some (cs, x)
  | e :: es' =>
      match step N e x with
      | Some x' => run_calls N es' (cs ++ option_list (completes N e x)) x'
      | None => None
      end
  end.

Lemma run_calls_history {T} (N : Z) (zero : T) es : forall cs x cs' x',
  history N zero cs x -> run_calls N es cs x = Some (cs', x') -> history N zero cs' x'.
Proof.
  induction es as [|e es IH]; intros cs x cs' x' Hh E; cbn [run_calls] in E; [by simplify_eq|].
  destruct (step N e x) as [x1|] eqn:E1; [|done]. by eapply IH; [eapply history_step|].
Qed.

Lemma spsc_linearizable_witness :
  exists x : world, atomic_run 2 [] [Pushed [7] 1; Taken [7]; Pushed [8] 1; Taken []] (contents x) /\
    contents x = [8].
Proof.
  assert (history 2 0 [Pushed [7] 1; Taken [7]; Pushed [8] 1; Taken []] scheduled) as Hh.
  { apply (run_calls_history 2 0 schedule [] (init 2 0)); [constructor|]. vm_compute. reflexivity. }
  exists scheduled. split.
  - apply (spsc_linearizable 2 0 _ scheduled single_bit_2 Hh).
  - vm_compute. reflexivity.
Defined.

Lemma push_wait_free_witness :
  exists e x', of_producer e = true /\ step 2 e scheduled = Some x'.
Proof.
  apply (push_wait_free 2 0 scheduled single_bit_2 scheduled_reach). vm_compute. discriminate.
Defined.
