(* ===== verification/MatchingEngine.v ===== *)
(** * The matching engine: [src/matching/matching_engine.hpp]

    The engine's state is the object store its pool's slab lives in, the
    pool, the books, the two queues and the statistics; [Order&] and
    [OrderBook&] parameters are addresses and instrument ids into it.
    Handlers are functions [Engine -> res Engine]. *)

From stdpp Require Import base numbers list gmap fin_maps.
From Stdlib Require Import ZArith Lia.
From S2P Require Import Prelude.
From S2P Require Import OrderTypes.
From S2P Require Import OrderPool.
From S2P Require Import PriceLevel.
From S2P Require Import OrderIndex.
From S2P Require Import OrderBook.
From S2P Require Import OrderBookQueries.
From S2P Require Import SPSCQueue.
From S2P Require Import Sink.

Record Engine (S : Type) : Type := mkEngine {
  e_heap : heap;
  e_pool : OrderPool;
  e_books : gmap Z OrderBook;
  e_inbound : InboundQueue;
  e_outbound : S;
  e_orders_processed : Z;
  e_fills_executed : Z;
  e_orders_rejected : Z;
  e_clock_reads : nat
}.
Arguments mkEngine {S}.
Arguments e_heap {S}.
Arguments e_pool {S}.
Arguments e_books {S}.
Arguments e_inbound {S}.
Arguments e_outbound {S}.
Arguments e_orders_processed {S}.
Arguments e_fills_executed {S}.
Arguments e_orders_rejected {S}.
Arguments e_clock_reads {S}.

(** [price_ok] of a market order. *)
Definition any_price (lvl_price : Z) : bool := true.

Section engine.
Context `{Build} {S : Type} `{Sink ExecutionReport S} (Capacity : nat).

(** [clock_gettime(CLOCK_MONOTONIC_RAW, &ts)] is the operating system's: the
    [tv_sec] and [tv_nsec] of the [n]-th read. *)
Variable clock_gettime : nat -> Z * Z.

Implicit Types (e : Engine S).

(** Member assignment. *)
Definition set_heap (h : heap) e : Engine S :=
  mkEngine h (e_pool e) (e_books e) (e_inbound e) (e_outbound e) (e_orders_processed e)
    (e_fills_executed e) (e_orders_rejected e) (e_clock_reads e).
Definition set_mem (h : heap) (p : OrderPool) e : Engine S :=
  mkEngine h p (e_books e) (e_inbound e) (e_outbound e) (e_orders_processed e)
    (e_fills_executed e) (e_orders_rejected e) (e_clock_reads e).
Definition set_book (id : Z) (b : OrderBook) e : Engine S :=
  mkEngine (e_heap e) (e_pool e) (<[id := b]> (e_books e)) (e_inbound e) (e_outbound e)
    (e_orders_processed e) (e_fills_executed e) (e_orders_rejected e) (e_clock_reads e).
Definition set_outbound (s : S) e : Engine S :=
  mkEngine (e_heap e) (e_pool e) (e_books e) (e_inbound e) s (e_orders_processed e)
    (e_fills_executed e) (e_orders_rejected e) (e_clock_reads e).
Definition set_inbound (q : InboundQueue) e : Engine S :=
  mkEngine (e_heap e) (e_pool e) (e_books e) q (e_outbound e) (e_orders_processed e)
    (e_fills_executed e) (e_orders_rejected e) (e_clock_reads e).
Definition add_processed (n : Z) e : Engine S :=
  mkEngine (e_heap e) (e_pool e) (e_books e) (e_inbound e) (e_outbound e)
    (u64 (e_orders_processed e + n)) (e_fills_executed e) (e_orders_rejected e)
    (e_clock_reads e).
Definition add_fill e : Engine S :=
  mkEngine (e_heap e) (e_pool e) (e_books e) (e_inbound e) (e_outbound e)
    (e_orders_processed e) (u64 (e_fills_executed e + 1)) (e_orders_rejected e)
    (e_clock_reads e).
Definition add_rejected e : Engine S :=
  mkEngine (e_heap e) (e_pool e) (e_books e) (e_inbound e) (e_outbound e)
    (e_orders_processed e) (e_fills_executed e) (u64 (e_orders_rejected e + 1))
    (e_clock_reads e).
Definition tick_clock e : Engine S :=
  mkEngine (e_heap e) (e_pool e) (e_books e) (e_inbound e) (e_outbound e)
    (e_orders_processed e) (e_fills_executed e) (e_orders_rejected e)
    (Datatypes.S (e_clock_reads e)).

(** ** Utilities *)

Definition ns_at (n : nat) : Z :=
  let '(tv_sec, tv_nsec) := clock_gettime n in
  u64 (u64 (u64 tv_sec * 1000000000) + u64 tv_nsec).

Definition now_ns e : Engine S * Z := (tick_clock e, ns_at (e_clock_reads e)).

(** [book_for(id)]: the id when it is registered, [nullptr] otherwise. *)
Definition book_for e (id : Z) : option Z :=
  match e_books e !! id with Some _ => Some id | None => None end.

(** Reading through an [OrderBook&]. *)
Definition get_book e (id : Z) : res OrderBook :=
  match e_books e !! id with Some b => Ok b | None => Err BadAddress end.

(** ** Report helpers *)

Definition post e (mk : Z -> ExecutionReport) : res (Engine S) :=
  let '(e1, now) := now_ns e in
  let* s := sink_push (mk now) (e_outbound e1) in
  Ok (set_outbound s e1).

Definition post_report e (kind : ExKind) (order_id counterpart_id exec_price exec_qty leaves_qty : Z)
  : res (Engine S) :=
  post e (mkReport kind order_id counterpart_id exec_price exec_qty leaves_qty).

Definition post_reject e (order_id original_qty : Z) : res (Engine S) :=
  post e (mkReport Reject order_id 0 0 0 original_qty).

Definition post_cancel_ack e (order_id leaves_qty : Z) : res (Engine S) :=
  post e (mkReport CancelAck order_id 0 0 0 leaves_qty).

(** [pool_.release(o)] *)
Definition pool_release e (o : ptr) : res (Engine S) :=
  let* '(h, p) := release Capacity (e_heap e) (e_pool e) o in
  Ok (set_mem h p e).

(** ** The sweep *)

(** One pass through the body of the [while] of [do_sweep], entered with
    [agg.quantity > 0]: [None] is a [break]. *)
Definition sweep_body (price_ok : Z -> bool) (id : Z) (agg : nat) e : res (option (Engine S)) :=
  let* ao := load (e_heap e) (Some agg) in
  let* book := get_book e id in
  let* best := if is_buy ao then best_ask book else best_bid book in
  match best with
  | None => Ok None
  | Some lvl =>
      if negb (price_ok (lv_price lvl)) then Ok None
      else
        let rest := lv_head lvl in
        let* _ := assert_ (bool_decide (rest <> None)) in
        let* ro := load (e_heap e) rest in
        let fill_qty := Z.min (o_quantity ro) (o_quantity ao) in
        let exec_price := o_price ro in
        let* h1 := store (e_heap e) (Some agg)
                     (set_quantity (u32 (o_quantity ao - fill_qty))) in
        let* '(h2, book1, rest_done) := fill_resting_order h1 book rest fill_qty in
        let e1 := add_fill (set_book id book1 (set_heap h2 e)) in
        let* ro1 := load (e_heap e1) rest in
        let* ao1 := load (e_heap e1) (Some agg) in
        let* e2 := post_report e1 (if rest_done : bool then Fill else PartialFill)
                     (o_order_id ro1) (o_order_id ao1) exec_price fill_qty
                     (o_quantity ro1) in
        let* e3 := post_report e2 (if o_quantity ao1 =? 0 then Fill else PartialFill)
                     (o_order_id ao1) (o_order_id ro1) exec_price fill_qty
                     (o_quantity ao1) in
        let* e4 := if rest_done then pool_release e3 rest else Ok e3 in
        Ok (Some e4)
  end.

(** [do_sweep(agg, book, price_ok)] with at most [fuel] evaluations of the
    loop condition. *)
Fixpoint do_sweep (fuel : nat) (price_ok : Z -> bool) (id : Z) (agg : nat) e
  : res (Engine S) :=
  match fuel with
  | O => Err NoProgress
  | Datatypes.S fuel' =>
      let* ao := load (e_heap e) (Some agg) in
      if negb (o_quantity ao >? 0) then Ok e
      else
        let* r := sweep_body price_ok id agg e in
        match r with
        | None => Ok e
        | Some e1 => do_sweep fuel' price_ok id agg e1
        end
  end.

(** Every pass but the last removes an order from the book, and a book holds
    at most as many orders as there are objects. *)
Definition sweep_fuel e : nat := Datatypes.S (Datatypes.S (size (e_heap e))).

(** The sweep with the limit price captured by the two lambdas. *)
Definition sweep_limit (id : Z) (agg : nat) e : res (Engine S) :=
  let* ao := load (e_heap e) (Some agg) in
  do_sweep (sweep_fuel e) (crosses (is_buy ao) (o_price ao)) id agg e.

(** ** Order types *)

Definition match_limit (id : Z) (agg : nat) e : res (Engine S) :=
  let* e1 := sweep_limit id agg e in
  let* ao := load (e_heap e1) (Some agg) in
  if o_quantity ao >? 0 then
    let* book := get_book e1 id in
    let* '(h, book1) := add_order (e_heap e1) book (Some agg) in
    Ok (set_book id book1 (set_heap h e1))
  else pool_release e1 (Some agg).

Definition match_market (id : Z) (agg : nat) e : res (Engine S) :=
  let* e1 := do_sweep (sweep_fuel e) any_price id agg e in
  let* ao := load (e_heap e1) (Some agg) in
  let* e2 := if o_quantity ao >? 0
             then post_cancel_ack e1 (o_order_id ao) (o_quantity ao) else Ok e1 in
  pool_release e2 (Some agg).

Definition match_ioc (id : Z) (agg : nat) e : res (Engine S) :=
  let* e1 := sweep_limit id agg e in
  let* ao := load (e_heap e1) (Some agg) in
  let* e2 := if o_quantity ao >? 0
             then post_cancel_ack e1 (o_order_id ao) (o_quantity ao) else Ok e1 in
  pool_release e2 (Some agg).

Definition match_fok (id : Z) (agg : nat) e : res (Engine S) :=
  let* ao := load (e_heap e) (Some agg) in
  let* book := get_book e id in
  let* avail := available_quantity_at_or_better book (o_side ao) (o_price ao) in
  if avail <? o_quantity ao then
    let* e1 := post_reject e (o_order_id ao) (o_quantity ao) in
    let* e2 := pool_release e1 (Some agg) in
    Ok (add_rejected e2)
  else
    let* e1 := sweep_limit id agg e in
    let* ao1 := load (e_heap e1) (Some agg) in
    let* _ := assert_ (o_quantity ao1 =? 0) in
    pool_release e1 (Some agg).

(** ** Handlers *)

(** The assignments that populate the acquired slot. *)
Definition populate (msg : InboundOrderMsg) (now : Z) (o : Order) : Order := {|
  o_order_id := im_order_id msg;
  o_price := im_price msg;
  o_timestamp_ns := now;
  o_quantity := im_quantity msg;
  o_orig_quantity := im_quantity msg;
  o_instrument_id := im_instrument_id msg;
  o_side := Side_of_u8 (im_side msg);
  o_type := OrderType_of_u8 (im_type msg);
  o_status := New;
  o_pad0 := o_pad0 o;
  o_next := None;
  o_prev := None;
  o_client_id := im_client_id msg;
  o_reserved := o_reserved o
|}.

Definition handle_new_order (msg : InboundOrderMsg) e : res (Engine S) :=
  match book_for e (im_instrument_id msg) with
  | None =>
      let* e1 := post_reject e (im_order_id msg) (im_quantity msg) in
      Ok (add_rejected e1)
  | Some id =>
      let* '(h, p, o) := acquire (e_heap e) (e_pool e) in
      let e1 := set_mem h p e in
      match o with
      | None =>
          let* e2 := post_reject e1 (im_order_id msg) (im_quantity msg) in
          Ok (add_rejected e2)
      | Some a =>
          let '(e2, now) := now_ns e1 in
          let* h2 := store (e_heap e2) o (populate msg now) in
          let e3 := set_heap h2 e2 in
          let* ord := load (e_heap e3) o in
          match o_type ord with
          | Limit => match_limit id a e3
          | Market => match_market id a e3
          | IOC => match_ioc id a e3
          | FOK => match_fok id a e3
          | TypeRaw _ =>
              let* e4 := post_reject e3 (o_order_id ord) (o_quantity ord) in
              let* e5 := pool_release e4 o in
              Ok (add_rejected e5)
          end
      end
  end.

Definition handle_cancel (msg : InboundOrderMsg) e : res (Engine S) :=
  match book_for e (im_instrument_id msg) with
  | None => Ok e
  | Some id =>
      let* book := get_book e id in
      let o := find_order book (im_order_id msg) in
      match o with
      | None => Ok e
      | Some _ =>
          let* ord := load (e_heap e) o in
          let leaves := o_quantity ord in
          let* '(h, book1) := cancel_order_ptr (e_heap e) book o in
          let e1 := set_book id book1 (set_heap h e) in
          let* ord1 := load (e_heap e1) o in
          let* e2 := post_cancel_ack e1 (o_order_id ord1) leaves in
          pool_release e2 o
      end
  end.

Definition dispatch (msg : InboundOrderMsg) e : res (Engine S) :=
  match im_kind msg with
  | NewOrder => handle_new_order msg e
  | Cancel => handle_cancel msg e
  | Modify => handle_cancel msg e
  | InboundKindRaw _ => Ok e
  end.

(** [for (i = 0; i < n; ++i) dispatch(batch[i]);] *)
Fixpoint dispatch_all (batch : list InboundOrderMsg) e : res (Engine S) :=
  match batch with
  | [] => Ok e
  | msg :: batch' => let* e1 := dispatch msg e in dispatch_all batch' e1
  end.

(** [poll(max_batch)] over an inbound ring of capacity [N]. *)
Definition poll (N : Z) (max_batch : Z) e : res (Engine S * Z) :=
  let* '(q, batch) := try_pop_batch N (e_inbound e) (Z.min max_batch 64) in
  let n := Z.of_nat (length batch) in
  let* e1 := dispatch_all batch (set_inbound q e) in
  Ok (add_processed n e1, n).

Definition submit (msg : InboundOrderMsg) e : res (Engine S) :=
  let* e1 := dispatch msg e in Ok (add_processed 1 e1).

(** ** Set-up *)

(** [MatchingEngine(inbound, outbound)]: the pool's constructor may throw. *)
Definition MatchingEngine_new (mmap : bool -> Z -> option nat) (inbound : InboundQueue)
  (outbound : S) (h : heap) : res (Engine S + runtime_error) :=
  let* r := OrderPool_new Capacity mmap h in
  match r with
  | inl (h1, p) => Ok (inl (mkEngine h1 p ∅ inbound outbound 0 0 0 0))
  | inr err => Ok (inr err)
  end.

(** [add_instrument]: [emplace] builds the book and keeps an existing one. *)
Definition add_instrument (id min_price max_price tick_size : Z) e : res (Engine S) :=
  let* b := OrderBook_new id min_price max_price tick_size in
  match e_books e !! id with
  | Some _ => Ok e
  | None => Ok (set_book id b e)
  end.

Definition reset_state e : res (Engine S) :=
  let* '(h, p) := OrderPool.reset Capacity (e_heap e) (e_pool e) in
  let e1 := set_mem h p e in
  Ok (mkEngine (e_heap e1) (e_pool e1) (OrderBook.clear <$> e_books e1) (e_inbound e1)
        (e_outbound e1) (e_orders_processed e1) (e_fills_executed e1)
        (e_orders_rejected e1) (e_clock_reads e1)).

Definition pool e : OrderPool := e_pool e.
Definition orders_processed e : Z := e_orders_processed e.
Definition fills_executed e : Z := e_fills_executed e.
Definition orders_rejected e : Z := e_orders_rejected e.

End engine.
