(* ===== verification/EngineInv.v ===== *)
(** * The matching engine's invariant

    Every slot of the slab is in exactly one place: on the free list, in a
    queue of one book, or in flight (the order being matched, and slots no
    structure refers to any more).  [eng_inv L fs Q e] says so for in-flight
    slots [L], free list [fs] and book queues [Q], and that pool, books and
    queues are well formed.  The lemmas below are the moves between places. *)

From stdpp Require Import base numbers list gmap fin_maps.
From Stdlib Require Import ZArith Lia.
From S2P Require Import Prelude.
From S2P Require Import OrderTypes.
From S2P Require Import OrderPool.
From S2P Require Import PriceLevel.
From S2P Require Import OrderIndex.
From S2P Require Import OrderBook.
From S2P Require Import OrderBookInv.
From S2P Require Import OrderBookOps.
From S2P Require Import OrderBookQueries.
From S2P Require Import BookFacets.
From S2P Require Import SPSCQueue.
From S2P Require Import Sink.
From S2P Require Import MatchingEngine.

(** Every address resting in some book. *)
Definition all_resting (Q : gmap Z queues) : list nat :=
  concat ((fun kv => resting_addrs kv.2) <$> map_to_list Q).

Lemma concat_perm {A} (l l' : list (list A)) : l ≡ₚ l' -> concat l ≡ₚ concat l'.
Proof.
  induction 1; simpl; [done|by f_equiv| |by etrans].
  rewrite !app_assoc. f_equiv. apply Permutation_app_comm.
Qed.

Lemma all_resting_new Q id q :
  Q !! id = None -> all_resting (<[id := q]> Q) ≡ₚ resting_addrs q ++ all_resting Q.
Proof.
  intros Hid. unfold all_resting.
  change (resting_addrs q ++ _)
    with (concat ((fun kv => resting_addrs kv.2) <$> (id, q) :: map_to_list Q)).
  apply concat_perm. by rewrite map_to_list_insert.
Qed.

Lemma all_resting_lookup Q id q :
  Q !! id = Some q -> all_resting Q ≡ₚ resting_addrs q ++ all_resting (delete id Q).
Proof.
  intros Hid. rewrite <- (insert_delete_id Q id q Hid) at 1.
  apply all_resting_new, lookup_delete_eq.
Qed.

Lemma all_resting_insert Q id q q' :
  Q !! id = Some q ->
  all_resting (<[id := q']> Q) ≡ₚ resting_addrs q' ++ all_resting (delete id Q).
Proof.
  intros Hid. rewrite <- insert_delete_eq. apply all_resting_new, lookup_delete_eq.
Qed.

Section engine_inv.
Context `{Build} {S : Type} `{Sink ExecutionReport S} (Capacity : nat).
Implicit Types (e : Engine S) (Q : gmap Z queues) (fs L : list nat).

Record eng_inv (L fs : list nat) (Q : gmap Z queues) e : Prop := {
  ei_pool : pool_rep Capacity (e_heap e) (e_pool e) fs;
  ei_part : fs ++ L ++ all_resting Q ≡ₚ seq (storage_ (e_pool e)) Capacity;
  ei_dom : forall id, is_Some (e_books e !! id) <-> is_Some (Q !! id);
  ei_book : forall id b q, e_books e !! id = Some b -> Q !! id = Some q ->
    book_rep (e_heap e) b q;
  ei_sink : sink_ok (e_outbound e)
}.

(** A facet that holds of every book. *)
Definition eng_has (f : facet) Q e : Prop :=
  forall id b q, e_books e !! id = Some b -> Q !! id = Some q -> holds f (e_heap e) b q.

(** ** Ownership *)

Lemma eng_nodup L fs Q e : eng_inv L fs Q e -> NoDup (fs ++ L ++ all_resting Q).
Proof. intros He. rewrite (ei_part _ _ _ _ He). apply NoDup_seq. Qed.

Lemma eng_slab L fs Q e a :
  eng_inv L fs Q e -> a ∈ fs ++ L ++ all_resting Q -> in_slab Capacity (e_pool e) a.
Proof. intros He Ha. rewrite (ei_part _ _ _ _ He) in Ha. by apply in_slab_iff. Qed.

Lemma eng_alloc L fs Q e a :
  eng_inv L fs Q e -> a ∈ fs ++ L ++ all_resting Q -> exists o, e_heap e !! a = Some o.
Proof.
  intros He Ha. eapply pr_mem; [apply He|]. by eapply eng_slab.
Qed.

(** A resting address of one book is nowhere else. *)
Lemma eng_owner L fs Q e id q a :
  eng_inv L fs Q e -> Q !! id = Some q -> a ∈ resting_addrs q ->
  (a ∉ fs) /\ (a ∉ L) /\ forall id' q', id' <> id -> Q !! id' = Some q' -> a ∉ resting_addrs q'.
Proof.
  intros He Hq Ha. pose proof (eng_nodup _ _ _ _ He) as Hnd.
  rewrite (all_resting_lookup _ _ _ Hq) in Hnd.
  rewrite app_assoc in Hnd. apply NoDup_app in Hnd as (_ & H1 & Hnd).
  apply NoDup_app in Hnd as (_ & H2 & _).
  split; [|split].
  - intros Hf. apply (H1 a); set_solver.
  - intros Hf. apply (H1 a); set_solver.
  - intros id' q' Hne Hq' Ha'. apply (H2 a Ha).
    rewrite (all_resting_lookup _ id' q') by (by rewrite lookup_delete_ne).
    set_solver.
Qed.

Lemma eng_owner_L L fs Q e a :
  eng_inv L fs Q e -> a ∈ L ->
  (a ∉ fs) /\ forall id q, Q !! id = Some q -> a ∉ resting_addrs q.
Proof.
  intros He Ha. pose proof (eng_nodup _ _ _ _ He) as Hnd.
  apply NoDup_app in Hnd as (_ & H1 & Hnd). apply NoDup_app in Hnd as (_ & H2 & _).
  split; [intros Hf; apply (H1 a Hf); set_solver|].
  intros id q Hq Ha'. apply (H2 a Ha). rewrite (all_resting_lookup _ _ _ Hq). set_solver.
Qed.

Lemma eng_book_at L fs Q e id b :
  eng_inv L fs Q e -> e_books e !! id = Some b ->
  exists q, Q !! id = Some q /\ book_rep (e_heap e) b q.
Proof.
  intros He Hb. destruct (proj1 (ei_dom _ _ _ _ He id)) as [q Hq]; [by eauto|].
  exists q. split; [done|]. by eapply ei_book.
Qed.

(** ** One book changes

    An operation on book [id] that writes only to its resting orders and to
    in-flight slots, and moves slots between the two. *)
Lemma eng_book_update L L' fs Q e id b q h' b' q' :
  eng_inv L fs Q e -> e_books e !! id = Some b -> Q !! id = Some q ->
  book_rep h' b' q' ->
  L' ++ resting_addrs q' ≡ₚ L ++ resting_addrs q ->
  (forall c, c ∉ L -> c ∉ resting_addrs q -> h' !! c = e_heap e !! c) ->
  (forall c, is_Some (e_heap e !! c) -> is_Some (h' !! c)) ->
  eng_inv L' fs (<[id := q']> Q) (set_book id b' (set_heap h' e)).
Proof.
  intros He Hb Hq Hrep Hperm Hf Hdom. split; simpl.
  - eapply pool_rep_frame; [|done|apply He]. intros a Ha. symmetry. apply Hf.
    + intros HL. by destruct (eng_owner_L _ _ _ _ _ He HL).
    + intros Hr. by destruct (eng_owner _ _ _ _ _ _ _ He Hq Hr).
  - rewrite <- (ei_part _ _ _ _ He), (all_resting_insert _ _ _ q' Hq),
      (all_resting_lookup _ _ _ Hq), !(app_assoc _ (resting_addrs _)), Hperm. done.
  - intros id'. destruct (decide (id' = id)) as [->|Hne].
    + rewrite !lookup_insert_eq. split; eauto.
    + rewrite !lookup_insert_ne by done. apply He.
  - intros id' b1 q1. destruct (decide (id' = id)) as [->|Hne].
    + rewrite !lookup_insert_eq. by intros; simplify_eq.
    + rewrite !lookup_insert_ne by done. intros Hb1 Hq1.
      eapply book_rep_frame; [|by eapply ei_book]. intros a Ha.
      destruct (eng_owner _ _ _ _ _ _ _ He Hq1 Ha) as (_ & ? & Hoth). eauto.
  - apply He.
Qed.

Lemma eng_has_update f L fs Q e id b q h' b' q' :
  eng_inv L fs Q e -> eng_has f Q e -> e_books e !! id = Some b -> Q !! id = Some q ->
  holds f h' b' q' ->
  (forall c, c ∉ L -> c ∉ resting_addrs q -> h' !! c = e_heap e !! c) ->
  eng_has f (<[id := q']> Q) (set_book id b' (set_heap h' e)).
Proof.
  intros He Hagg Hb Hq Hagg' Hf id' b1 q1. simpl. destruct (decide (id' = id)) as [->|Hne].
  - rewrite !lookup_insert_eq. by intros; simplify_eq.
  - rewrite !lookup_insert_ne by done. intros Hb1 Hq1.
    eapply holds_frame; [|by eapply Hagg]. intros a Ha.
    destruct (eng_owner _ _ _ _ _ _ _ He Hq1 Ha) as (_ & ? & Hoth). eauto.
Qed.

(** Writing to an in-flight slot. *)
Lemma eng_store L fs Q e a o :
  eng_inv L fs Q e -> a ∈ L ->
  eng_inv L fs Q (set_heap (<[a := o]> (e_heap e)) e).
Proof.
  intros He Ha. destruct (eng_owner_L _ _ _ _ _ He Ha) as [Hfs Hoth].
  destruct He as [Hp Hpart Hd Hb Hs] eqn:E. split; simpl; try done.
  - eapply pool_rep_frame; [| |done].
    + intros c Hc. rewrite lookup_insert_ne; set_solver.
    + intros c Hc. apply lookup_insert_is_Some'. by right.
  - intros id b q Hb1 Hq1. eapply book_rep_frame; [|by eapply Hb].
    intros c Hc. rewrite lookup_insert_ne; [done|]. intros ->. by eapply Hoth.
Qed.

Lemma eng_has_store f L fs Q e a o :
  eng_inv L fs Q e -> a ∈ L -> eng_has f Q e ->
  eng_has f Q (set_heap (<[a := o]> (e_heap e)) e).
Proof.
  intros He Ha Hagg id b q Hb Hq. destruct (eng_owner_L _ _ _ _ _ He Ha) as [_ Hoth].
  eapply holds_frame; [|by eapply Hagg].
  intros c Hc. simpl. rewrite lookup_insert_ne; [done|]. intros ->. by eapply Hoth.
Qed.

(** ** Members the invariant does not mention *)

Definition same_state e e' : Prop :=
  e_heap e' = e_heap e /\ e_pool e' = e_pool e /\ e_books e' = e_books e.

Lemma eng_inv_same L fs Q e e' :
  same_state e e' -> sink_ok (e_outbound e') -> eng_inv L fs Q e -> eng_inv L fs Q e'.
Proof.
  intros (Eh & Ep & Eb) Hs [Hp Hpart Hd Hb _].
  split; rewrite ?Eh, ?Ep, ?Eb; done.
Qed.

Lemma eng_has_same f Q e e' : same_state e e' -> eng_has f Q e -> eng_has f Q e'.
Proof. intros (Eh & _ & Eb) Hagg id b q. rewrite Eh, Eb. apply Hagg. Qed.

(** ** Returning and taking pool slots *)

Lemma pool_release_spec L fs Q e a o :
  eng_inv (a :: L) fs Q e -> e_heap e !! a = Some o ->
  exists h p, pool_release Capacity e (Some a) = Ok (set_mem h p e) /\
    eng_inv L (a :: fs) Q (set_mem h p e) /\
    (forall c, c <> a -> h !! c = e_heap e !! c) /\
    storage_ p = storage_ (e_pool e) /\
    (forall f, eng_has f Q e -> eng_has f Q (set_mem h p e)).
Proof.
  intros He Ho. destruct (eng_owner_L _ _ _ _ a He ltac:(set_solver)) as [Hfs Hoth].
  pose proof (eng_slab _ _ _ _ a He ltac:(set_solver)) as Hslab.
  destruct (release_rep Capacity _ _ fs a o (ei_pool _ _ _ _ He) Hslab Hfs Ho)
    as (p & E & Hst & Hp).
  set (h := <[a := _]> _) in *. exists h, p. unfold pool_release. rewrite E. cbn [bind].
  assert (forall c, c <> a -> h !! c = e_heap e !! c) as Hf
    by (intros c Hc; apply lookup_insert_ne; done).
  split; [done|]. split; [|split; [done|split; [done|]]].
  - destruct He as [Hp0 Hpart Hd Hb Hs]. split; simpl; try done.
    + rewrite Hst, <- Hpart. simpl. apply Permutation_middle.
    + intros id b q Hb1 Hq1. eapply book_rep_frame; [|by eapply Hb].
      intros c Hc. apply Hf. intros ->. by eapply Hoth.
  - intros f Hagg id b q Hb1 Hq1. eapply holds_frame; [|by eapply Hagg].
    intros c Hc. apply Hf. intros ->. by eapply Hoth.
Qed.

Lemma acquire_spec L a fs Q e :
  eng_inv L (a :: fs) Q e ->
  exists h p o, acquire (e_heap e) (e_pool e) = Ok (h, p, Some a) /\
    eng_inv (a :: L) fs Q (set_mem h p e) /\
    h !! a = Some (Order_reset o) /\ (forall c, c <> a -> h !! c = e_heap e !! c) /\
    (forall f, eng_has f Q e -> eng_has f Q (set_mem h p e)).
Proof.
  intros He. destruct (acquire_cons Capacity _ _ a fs (ei_pool _ _ _ _ He))
    as (o & p & Ho & E & Hst & Hp).
  exists (<[a := Order_reset o]> (e_heap e)), p, o.
  assert (forall id q c, Q !! id = Some q -> c ∈ resting_addrs q -> c <> a) as Hoth.
  { intros id q c Hq Hc ->. destruct (eng_owner _ _ _ _ _ _ _ He Hq Hc) as [? _]. set_solver. }
  split; [done|]. split; [|split; [apply lookup_insert_eq|split]].
  - destruct He as [Hp0 Hpart Hd Hb Hs]. split; simpl; try done.
    + rewrite Hst, <- Hpart. simpl. symmetry. apply Permutation_middle.
    + intros id b q Hb1 Hq1. eapply book_rep_frame; [|by eapply Hb].
      intros c Hc. apply lookup_insert_ne. intros <-. by eapply Hoth.
  - intros c Hc. by apply lookup_insert_ne.
  - intros f Hagg id b q Hb1 Hq1. eapply holds_frame; [|by eapply Hagg].
    intros c Hc. apply lookup_insert_ne. intros <-. by eapply Hoth.
Qed.

Lemma acquire_none L Q e :
  eng_inv L [] Q e -> acquire (e_heap e) (e_pool e) = Ok (e_heap e, e_pool e, None).
Proof. intros He. eapply acquire_empty, He. Qed.

(** ** Posting a report *)

Variable clock_gettime : nat -> Z * Z.

Lemma post_spec e mk :
  sink_ok (e_outbound e) ->
  exists s, post clock_gettime e mk = Ok (set_outbound s (tick_clock e)) /\
    sink_ok s /\
    sink_log s = sink_log (e_outbound e) ++ [mk (ns_at clock_gettime (e_clock_reads e))].
Proof.
  intros Hs. unfold post. simpl.
  destruct (sink_push_ok (mk (ns_at clock_gettime (e_clock_reads e))) _ Hs)
    as (s & -> & Hs' & Hlog). cbn [bind]. eauto.
Qed.

End engine_inv.
