(* ===== verification/SweepSpec.v ===== *)
(** * Matching as a function on the priority list

    What price-time priority matching means, without pointers: an incoming
    quantity walks the opposite side's resting orders in priority order,
    trades with each one it crosses at that order's price, and stops at the
    first one it does not cross or when it is used up.  [EngineSweep] proves
    that [MatchingEngine::do_sweep] computes this function. *)

From stdpp Require Import base numbers list gmap fin_maps sorting.
From Stdlib Require Import ZArith Lia.
From S2P Require Import Prelude.
From S2P Require Import OrderTypes.
From S2P Require Import OrderBookQueries.
From S2P Require Import SPSCQueue.

Record trade : Type := mkTrade {
  tr_rest : Z;       (* the resting order's id *)
  tr_price : Z;
  tr_qty : Z;
  tr_rest_left : Z;  (* what is left of the resting order *)
  tr_agg_left : Z    (* what is left of the incoming order *)
}.

(** The trades, the resting orders afterwards, and the unfilled quantity. *)
Fixpoint sweep_spec (price_ok : Z -> bool) (rem : Z) (os : list Order)
  : list trade * list Order * Z :=
  match os with
  | [] => ([], [], rem)
  | o :: os' =>
      if (rem >? 0) && price_ok (o_price o) then
        let f := Z.min (o_quantity o) rem in
        let t := mkTrade (o_order_id o) (o_price o) f (o_quantity o - f) (rem - f) in
        if o_quantity o =? f then
          let '(ts, os1, rem1) := sweep_spec price_ok (rem - f) os' in (t :: ts, os1, rem1)
        else ([t], set_status Partial (set_quantity (o_quantity o - f) o) :: os', rem - f)
      else ([], os, rem)
  end.

(** Resting an order behind every order with a price as good as its own:
    time priority within a price. *)
Fixpoint enqueue (buy : bool) (o : Order) (os : list Order) : list Order :=
  match os with
  | [] => [o]
  | o' :: os' =>
      if crosses (negb buy) (o_price o) (o_price o') then o' :: enqueue buy o os' else o :: os
  end.

Definition sp_trades (r : list trade * list Order * Z) : list trade := r.1.1.
Definition sp_rest (r : list trade * list Order * Z) : list Order := r.1.2.
Definition sp_rem (r : list trade * list Order * Z) : Z := r.2.

(** The two execution reports of a trade, and of a list of trades, the
    timestamps taken from consecutive clock reads. *)
Definition kind_of (left : Z) : ExKind := if left =? 0 then Fill else PartialFill.

Definition reports_of (ns : nat -> Z) (agg_id : Z) (n : nat) (t : trade)
  : list ExecutionReport :=
  [mkReport (kind_of (tr_rest_left t)) (tr_rest t) agg_id (tr_price t) (tr_qty t)
     (tr_rest_left t) (ns n);
   mkReport (kind_of (tr_agg_left t)) agg_id (tr_rest t) (tr_price t) (tr_qty t)
     (tr_agg_left t) (ns (S n))].

Fixpoint trade_reports (ns : nat -> Z) (agg_id : Z) (n : nat) (ts : list trade)
  : list ExecutionReport :=
  match ts with
  | [] => []
  | t :: ts' => reports_of ns agg_id n t ++ trade_reports ns agg_id (S (S n)) ts'
  end.

Definition total_traded (ts : list trade) : Z := foldr (fun t s => tr_qty t + s) 0 ts.
Definition total_qty (os : list Order) : Z := foldr (fun o s => o_quantity o + s) 0 os.

Lemma total_traded_cons t ts : total_traded (t :: ts) = tr_qty t + total_traded ts.
Proof. done. Qed.
Lemma total_qty_cons o os : total_qty (o :: os) = o_quantity o + total_qty os.
Proof. done. Qed.

Lemma enqueue_app buy o X Y :
  (forall x, x ∈ X -> crosses (negb buy) (o_price o) (o_price x) = true) ->
  (forall y, y ∈ Y -> crosses (negb buy) (o_price o) (o_price y) = false) ->
  enqueue buy o (X ++ Y) = X ++ o :: Y.
Proof.
  induction X as [|x X IH]; intros HX HY; simpl.
  - destruct Y as [|y Y]; simpl; [done|]. by rewrite (HY y) by set_solver.
  - rewrite (HX x) by set_solver. f_equal. apply IH; set_solver.
Qed.

(** * Properties of the specification *)

Section sweep.
Context (price_ok : Z -> bool).
Implicit Types (os : list Order) (rem : Z).

Definition all_pos os : Prop := Forall (fun o => 0 < o_quantity o) os.

(** One unfolding, in the two cases that trade. *)
Lemma sweep_full rem o os :
  0 < o_quantity o <= rem -> price_ok (o_price o) = true ->
  sweep_spec price_ok rem (o :: os) =
    (mkTrade (o_order_id o) (o_price o) (o_quantity o) 0 (rem - o_quantity o)
       :: sp_trades (sweep_spec price_ok (rem - o_quantity o) os),
     sp_rest (sweep_spec price_ok (rem - o_quantity o) os),
     sp_rem (sweep_spec price_ok (rem - o_quantity o) os)).
Proof.
  intros Hq Hok. cbn [sweep_spec]. rewrite Hok, (proj2 (Z.gtb_lt rem 0)) by lia. cbn [andb].
  rewrite Z.min_l, Z.eqb_refl, Z.sub_diag by lia.
  by destruct (sweep_spec price_ok (rem - o_quantity o) os) as [[ts os1] rem1].
Qed.

Lemma sweep_part rem o os :
  0 < rem < o_quantity o -> price_ok (o_price o) = true ->
  sweep_spec price_ok rem (o :: os) =
    ([mkTrade (o_order_id o) (o_price o) rem (o_quantity o - rem) 0],
     set_status Partial (set_quantity (o_quantity o - rem) o) :: os, 0).
Proof.
  intros Hq Hok. cbn [sweep_spec]. rewrite Hok, (proj2 (Z.gtb_lt rem 0)) by lia. cbn [andb].
  rewrite Z.min_r, Z.sub_diag by lia. by rewrite (proj2 (Z.eqb_neq _ _)) by lia.
Qed.

Lemma sweep_stop rem o os :
  rem <= 0 \/ price_ok (o_price o) = false ->
  sweep_spec price_ok rem (o :: os) = ([], o :: os, rem).
Proof.
  intros Hs. cbn [sweep_spec]. destruct (Z.gtb_spec rem 0); [|done].
  destruct Hs as [?| ->]; [lia|done].
Qed.

Lemma sweep_zero os : sweep_spec price_ok 0 os = ([], os, 0).
Proof. by destruct os. Qed.

(** The case analysis the properties below go through. *)
Lemma sweep_cases rem o os :
  0 < o_quantity o -> 0 <= rem ->
  (0 < o_quantity o <= rem /\ price_ok (o_price o) = true) \/
  (0 < rem < o_quantity o /\ price_ok (o_price o) = true) \/
  (rem <= 0 \/ price_ok (o_price o) = false).
Proof. intros Hq Hr. destruct (price_ok (o_price o)); [|tauto]. lia. Qed.

Ltac sweep_induction os :=
  induction os as [|o os IH]; intros rem Hr Hpos;
  [|apply Forall_cons in Hpos as [Hq Hpos];
    destruct (sweep_cases rem o os Hq Hr) as [[Hc Hok]|[[Hc Hok]|Hc]];
    [rewrite (sweep_full rem o os Hc Hok); specialize (IH (rem - o_quantity o) ltac:(lia) Hpos)
    |rewrite (sweep_part rem o os Hc Hok)
    |rewrite (sweep_stop rem o os Hc)]].

(** Quantity is conserved: what the incoming order loses is what is traded,
    and what the book loses. *)
Lemma sweep_conserves os rem :
  0 <= rem -> all_pos os ->
  let r := sweep_spec price_ok rem os in
  0 <= sp_rem r <= rem /\
  total_traded (sp_trades r) = rem - sp_rem r /\
  total_qty (sp_rest r) = total_qty os - (rem - sp_rem r).
Proof.
  revert rem. sweep_induction os; unfold sp_rem, sp_trades, sp_rest in *;
    cbn [fst snd tr_qty o_quantity set_status set_quantity] in *;
    rewrite ?total_traded_cons, ?total_qty_cons; cbn; lia.
Qed.

Lemma sweep_rest_pos os rem :
  0 <= rem -> all_pos os -> all_pos (sp_rest (sweep_spec price_ok rem os)).
Proof.
  revert rem. sweep_induction os; simpl; try done; constructor; simpl; try done; lia.
Qed.

(** Every trade is at a crossing price and of a positive quantity. *)
Lemma sweep_trades_ok os rem :
  0 <= rem -> all_pos os ->
  Forall (fun t => price_ok (tr_price t) = true /\ 0 < tr_qty t)
    (sp_trades (sweep_spec price_ok rem os)).
Proof.
  revert rem. sweep_induction os; simpl; try done; constructor; simpl; try done; try lia.
  split; [done|lia].
Qed.

(** The incoming order is left with quantity only if nothing it crosses is
    at the front of the book. *)
Lemma sweep_exhausts os rem :
  0 <= rem -> all_pos os ->
  let r := sweep_spec price_ok rem os in
  0 < sp_rem r -> forall o os', sp_rest r = o :: os' -> price_ok (o_price o) = false.
Proof.
  revert rem. sweep_induction os; unfold sp_rem, sp_rest in *; cbn [fst snd] in *;
    intros Hrem o' os' E; [done|by eauto|lia|].
  simplify_eq. destruct Hc; [lia|done].
Qed.

(** On a list sorted by priority the traded quantity is as much as the
    crossing orders allow. *)
Lemma sweep_amount os rem :
  0 <= rem -> all_pos os ->
  StronglySorted (fun o1 o2 => price_ok (o_price o2) = true -> price_ok (o_price o1) = true) os ->
  sp_rem (sweep_spec price_ok rem os)
  = rem - Z.min rem (total_qty (filter (fun o => price_ok (o_price o) = true) os)).
Proof.
  revert rem. induction os as [|o os IH]; intros rem Hr Hpos Hs.
  { unfold sp_rem. simpl. lia. }
  apply Forall_cons in Hpos as [Hq Hpos]. apply StronglySorted_inv in Hs as [Hs Hle].
  assert (forall l, all_pos l -> 0 <= total_qty l) as Hnn.
  { induction 1; simpl; lia. }
  assert (all_pos (filter (fun o => price_ok (o_price o) = true) os)) as Hpos'.
  { apply Forall_forall. intros x [_ Hx]%list_elem_of_filter. by eapply Forall_forall in Hpos. }
  specialize (Hnn _ Hpos').
  destruct (sweep_cases rem o os Hq Hr) as [[Hc Hok]|[[Hc Hok]|Hc]].
  - rewrite (sweep_full rem o os Hc Hok), filter_cons_True by done. cbn [sp_rem snd].
    specialize (IH (rem - o_quantity o) ltac:(lia) Hpos Hs). unfold sp_rem in IH.
    rewrite total_qty_cons. unfold sp_rem. lia.
  - rewrite (sweep_part rem o os Hc Hok), filter_cons_True by done. cbn [sp_rem snd].
    rewrite total_qty_cons.
    lia.
  - rewrite (sweep_stop rem o os Hc). unfold sp_rem. simpl.
    destruct (decide (rem <= 0)); [|destruct Hc as [?|Hno]; [lia|]].
    + rewrite Z.min_l; [lia|]. rewrite filter_cons. case_decide; simpl; lia.
    + rewrite filter_cons_False by (by rewrite Hno).
      replace (filter _ os) with (@nil Order); [simpl; lia|].
      symmetry. clear - Hle Hno. induction os as [|o' os IH]; [done|].
      apply Forall_cons in Hle as [Ho' Hle]. rewrite filter_cons_False; [by apply IH|].
      intros Hok. specialize (Ho' Hok). congruence.
Qed.

(** The orders left are those that were there. *)
Lemma sweep_rest_ids os rem :
  0 <= rem -> all_pos os -> forall o, o ∈ sp_rest (sweep_spec price_ok rem os) ->
  exists o', o' ∈ os /\ o_order_id o' = o_order_id o.
Proof.
  revert rem. sweep_induction os; unfold sp_rest in *; cbn [fst snd] in *; intros o' Ho'.
  - set_solver.
  - destruct (IH _ Ho') as (o1 & ? & ?). exists o1. set_solver.
  - apply elem_of_cons in Ho' as [->|Ho']; [exists o|exists o']; set_solver.
  - exists o'. set_solver.
Qed.

(** The trades hit the front of the list, each at the resting order's own
    price. *)
Lemma sweep_prefix os rem :
  0 <= rem -> all_pos os ->
  let ts := sp_trades (sweep_spec price_ok rem os) in
  (tr_rest <$> ts) = o_order_id <$> take (length ts) os /\
  (tr_price <$> ts) = o_price <$> take (length ts) os.
Proof.
  revert rem. sweep_induction os; unfold sp_trades in *; cbn [fst snd] in *; [done| |done|done].
  destruct IH as [IH1 IH2]. cbn [length take]. rewrite !fmap_cons, IH1, IH2. done.
Qed.

End sweep.
