(* ===== verification/EngineSweep.v ===== *)
(** * [do_sweep] computes [sweep_spec]

    One pass of the loop is one step of the specification; the loop as a
    whole returns after at most one pass per resting order. *)

From stdpp Require Import base numbers list gmap fin_maps sorting.
From Stdlib Require Import ZArith Lia.
From S2P Require Import Prelude.
From S2P Require Import OrderTypes.
From S2P Require Import OrderPool.
From S2P Require Import PriceLevel.
From S2P Require Import OrderIndex.
From S2P Require Import OrderBook.
From S2P Require Import OrderBookInv.
From S2P Require Import OrderBookOps.
From S2P Require Import OrderBookQueries.
From S2P Require Import BookFacets.
From S2P Require Import SPSCQueue.
From S2P Require Import Sink.
From S2P Require Import MatchingEngine.
From S2P Require Import EngineInv.
From S2P Require Import SweepSpec.

(** ** The orders at a list of addresses *)

Definition view (h : heap) (ps : list nat) : list Order :=
  omap (fun a => data <$> h !! a) ps.

Lemma view_cons h a o ps : h !! a = Some o -> view h (a :: ps) = data o :: view h ps.
Proof. intros Ha. unfold view. simpl. by rewrite Ha. Qed.

Lemma view_app h ps ps' : view h (ps ++ ps') = view h ps ++ view h ps'.
Proof. apply omap_app. Qed.

Lemma view_agree h h' ps :
  (forall a, a ∈ ps -> data <$> h' !! a = data <$> h !! a) -> view h' ps = view h ps.
Proof.
  induction ps as [|a ps IH]; intros E; [done|].
  assert (forall h, view h (a :: ps) = match data <$> h !! a with
    Some o => o :: view h ps | None => view h ps end) as Hv by done.
  rewrite !Hv, E, IH by set_solver. done.
Qed.

Lemma elem_of_view h ps o : o ∈ view h ps -> exists a o', a ∈ ps /\ h !! a = Some o' /\ o = data o'.
Proof.
  intros (a & Ha & E)%list_elem_of_omap. destruct (h !! a) as [o'|] eqn:Ho; [|done].
  exists a, o'. by simplify_eq/=.
Qed.

Lemma view_sorted h ps (R : Z -> Z -> Prop) :
  StronglySorted (fun a c => R (price_at h a) (price_at h c)) ps ->
  StronglySorted (fun o1 o2 => R (o_price o1) (o_price o2)) (view h ps).
Proof.
  induction 1 as [|a ps Hs IH Hf]; [constructor|].
  destruct (h !! a) as [o|] eqn:Ho.
  - rewrite (view_cons _ _ _ _ Ho). constructor; [done|]. apply Forall_forall.
    intros x (c & o' & Hc & Ho' & ->)%elem_of_view. rewrite Forall_forall in Hf.
    specialize (Hf c Hc). unfold price_at in Hf. by rewrite Ho, Ho' in Hf.
  - unfold view in *. simpl. by rewrite Ho.
Qed.

(** The orders of a side in priority order. *)
Definition side_view (h : heap) (q : queues) (buy : bool) : list Order :=
  view h (prio buy (qside q buy)).

Section sweep.
Context `{Build} {S : Type} `{Sink ExecutionReport S} (Capacity : nat) (clock_gettime : nat -> Z * Z).
Implicit Types (e : Engine S) (Q : gmap Z queues) (fs L : list nat).

#[local] Abbreviation ns := (ns_at clock_gettime).

(** What a sweep of book [id] by the order [ao] at [agg] has done between
    [e] and [e'], with the trades [ts] and [rem] left. *)
Record swept (L : list nat) (Q : gmap Z queues) (id : Z) (agg : nat) (ao : Order)
  (q : queues) e (fs' : list nat) (q' : queues) e' (ts : list trade) (rem : Z) : Prop := {
  sw_inv : eng_inv Capacity (agg :: L) fs' (<[id := q']> Q) e';
  sw_book : exists b b', e_books e !! id = Some b /\ e_books e' !! id = Some b' /\ same_grid b b';
  sw_books : forall id', id' <> id -> e_books e' !! id' = e_books e !! id';
  sw_agg : e_heap e' !! agg = Some (set_quantity rem ao);
  sw_frame : forall c, c ∉ resting_addrs q -> c <> agg -> e_heap e' !! c = e_heap e !! c;
  sw_sub : forall c, c ∈ resting_addrs q' -> c ∈ resting_addrs q;
  sw_own : qside q' (is_buy ao) = qside q (is_buy ao);
  sw_own_data : forall c, c ∈ concat (qside q (is_buy ao)) ->
    data <$> e_heap e' !! c = data <$> e_heap e !! c;
  sw_log : sink_log (e_outbound e') =
    sink_log (e_outbound e) ++ trade_reports ns (o_order_id ao) (e_clock_reads e) ts;
  sw_clock : e_clock_reads e' = (e_clock_reads e + 2 * length ts)%nat;
  sw_fills : e_fills_executed e' =
    Nat.iter (length ts) (fun n => u64 (n + 1)) (e_fills_executed e);
  sw_inbound : e_inbound e' = e_inbound e;
  sw_processed : e_orders_processed e' = e_orders_processed e;
  sw_rejected : e_orders_rejected e' = e_orders_rejected e;
  sw_exact : forall f, eng_has f Q e -> eng_has f (<[id := q']> Q) e'
}.

Lemma trade_reports_app agg_id n ts1 ts2 :
  trade_reports ns agg_id n (ts1 ++ ts2) =
  trade_reports ns agg_id n ts1 ++ trade_reports ns agg_id (n + 2 * length ts1) ts2.
Proof.
  revert n. induction ts1 as [|t ts1 IH]; intros n; simpl; [by rewrite Nat.add_0_r|].
  rewrite IH. do 4 f_equal. lia.
Qed.

Lemma swept_refl L fs Q id agg ao q e b :
  eng_inv Capacity (agg :: L) fs Q e -> Q !! id = Some q -> e_books e !! id = Some b ->
  e_heap e !! agg = Some ao ->
  swept L Q id agg ao q e fs q e [] (o_quantity ao).
Proof.
  intros He Hq Hb Ha. split; try done.
  - by rewrite insert_id.
  - by exists b, b.
  - rewrite Ha. by destruct ao.
  - by rewrite app_nil_r.
  - by rewrite insert_id.
Qed.

Lemma swept_trans L Q id agg ao q e fs1 q1 e1 ts1 rem1 fs2 q2 e2 ts2 rem2 :
  swept L Q id agg ao q e fs1 q1 e1 ts1 rem1 ->
  swept L (<[id := q1]> Q) id agg (set_quantity rem1 ao) q1 e1 fs2 q2 e2 ts2 rem2 ->
  swept L Q id agg ao q e fs2 q2 e2 (ts1 ++ ts2) rem2.
Proof.
  intros [] []. change (is_buy (set_quantity rem1 ao)) with (is_buy ao) in *.
  split; try congruence.
  - by rewrite insert_insert_eq in *.
  - destruct sw_book0 as (b & b1 & ? & ? & ?), sw_book1 as (b1' & b2 & ? & ? & ?).
    exists b, b2. split; [done|]. split; [done|]. simplify_eq. by transitivity b1.
  - intros id' Hne. rewrite sw_books1, sw_books0; done.
  - by rewrite sw_agg1.
  - intros c Hc Ha. rewrite sw_frame1, sw_frame0; try done. intros Hc'. by apply Hc, sw_sub0.
  - eauto.
  - intros c Hc. rewrite sw_own_data1, sw_own_data0; try done. by rewrite sw_own0.
  - rewrite sw_log1, sw_log0, sw_clock0, trade_reports_app, app_assoc. done.
  - rewrite sw_clock1, sw_clock0, length_app. lia.
  - rewrite sw_fills1, sw_fills0, length_app, <- Nat.iter_add. f_equal. lia.
  - rewrite insert_insert_eq in *. auto.
Qed.

(** Two reports in a row. *)
Lemma post2_spec e (mk1 mk2 : Z -> ExecutionReport) {B} (k : Engine S -> res B) :
  sink_ok (e_outbound e) ->
  exists s, sink_ok s /\
    (let* e1 := post clock_gettime e mk1 in
     let* e2 := post clock_gettime e1 mk2 in k e2)
    = k (set_outbound s (tick_clock (tick_clock e))) /\
    sink_log s = sink_log (e_outbound e)
      ++ [mk1 (ns (e_clock_reads e)); mk2 (ns (Datatypes.S (e_clock_reads e)))].
Proof.
  intros Hs. destruct (post_spec clock_gettime e mk1 Hs) as (s1 & -> & Hs1 & Hl1).
  cbn [bind]. destruct (post_spec clock_gettime (set_outbound s1 (tick_clock e)) mk2 Hs1)
    as (s2 & -> & Hs2 & Hl2). cbn [bind].
  exists s2. split; [done|]. split; [done|]. rewrite Hl2. simpl. by rewrite Hl1, <- app_assoc.
Qed.

(** The situation at the head of the loop. *)
Record at_head (L fs : list nat) (Q : gmap Z queues) (id : Z) (agg : nat) (ao : Order)
  (b : OrderBook) (q : queues) e : Prop := {
  ah_inv : eng_inv Capacity (agg :: L) fs Q e;
  ah_book : e_books e !! id = Some b;
  ah_q : Q !! id = Some q;
  ah_agg : e_heap e !! agg = Some ao;
  ah_qty : 0 < o_quantity ao < 2 ^ 32;
  ah_exact : asserts_enabled = true -> eng_has Aggregates Q e
}.

Lemma at_head_rep L fs Q id agg ao b q e :
  at_head L fs Q id agg ao b q e -> book_rep (e_heap e) b q.
Proof. intros []. by eapply ei_book. Qed.

(** The incoming order does not rest. *)
Lemma at_head_agg L fs Q id agg ao b q e :
  at_head L fs Q id agg ao b q e -> agg ∉ resting_addrs q.
Proof.
  intros []. destruct (eng_owner_L _ _ _ _ _ agg ah_inv0) as [_ Ho]; [set_solver|]. by eapply Ho.
Qed.

(** The first two statements of the body, in terms of the opposite side. *)
Lemma best_opposite b ao :
  (if is_buy ao then best_ask b else best_bid b) = best_level (negb (is_buy ao)) b.
Proof. by destruct (is_buy ao). Qed.

Lemma sweep_body_stop L fs Q id agg ao b q e price_ok :
  at_head L fs Q id agg ao b q e ->
  (forall o os, side_view (e_heap e) q (negb (is_buy ao)) = o :: os ->
     price_ok (o_price o) = false) ->
  sweep_body Capacity clock_gettime price_ok id agg e = Ok None.
Proof.
  intros Hh Hno. pose proof (at_head_rep _ _ _ _ _ _ _ _ _ Hh) as Hb. destruct Hh.
  unfold sweep_body. rewrite (load_Ok _ _ _ ah_agg0). cbn [bind].
  unfold get_book. rewrite ah_book0. cbn [bind]. rewrite best_opposite.
  set (opp := negb (is_buy ao)) in *.
  destruct (best_level_spec _ _ _ opp Hb)
    as [[-> _]|(i & a & l & lvl & -> & Hbi & Hq & Hl & _ & Hp)]; [done|]. cbn [bind].
  destruct (prio_best opp (qside q opp) i (a :: l)) as (rest & Hprio & _);
    [rewrite <- Hbi; apply Hb|done|apply (qside_bound _ _ _ _ (br_struct _ _ _ Hb))|].
  destruct (book_lookup _ _ _ _ _ _ a (br_struct _ _ _ Hb) Hq ltac:(set_solver))
    as (ro & _ & Hro & _ & _ & Hres & _).
  rewrite Hp, <- (rs_price _ _ _ Hres).
  change (o_price ro) with (o_price (data ro)). rewrite (Hno (data ro) (view (e_heap e) (l ++ rest))); [done|].
  unfold side_view. rewrite Hprio. cbn [app]. by apply view_cons.
Qed.

(** The head order [a] of the best opposite level, and where it sits. *)
Record front (b : OrderBook) (q : queues) (opp : bool) (h : heap) (i a : nat)
  (l rest : list nat) (lvl : PriceLevel) (ro : Order) : Prop := {
  fr_level : best_level opp b = Ok (Some lvl);
  fr_head : lv_head lvl = Some a;
  fr_q : qside q opp !! i = Some (a :: l);
  fr_prio : prio opp (qside q opp) = a :: l ++ rest;
  fr_prio' : forall ps, prio opp (<[i := ps]> (qside q opp)) = ps ++ rest;
  fr_order : h !! a = Some ro;
  fr_price : lv_price lvl = o_price ro;
  fr_qty : 0 < o_quantity ro < 2 ^ 32
}.

Lemma front_exists h b q opp o os :
  book_rep h b q -> side_view h q opp = o :: os ->
  exists i a l rest lvl ro, front b q opp h i a l rest lvl ro /\ o = data ro /\
    os = view h (l ++ rest).
Proof.
  intros Hb Hv. pose proof (br_struct _ _ _ Hb) as Hst. unfold side_view in Hv.
  destruct (best_level_spec _ _ _ opp Hb)
    as [[_ Hnil]|(i & a & l & lvl & Hlv & Hbi & Hq & Hl & Hhd & Hp)].
  { by rewrite Hnil in Hv. }
  destruct (prio_best opp (qside q opp) i (a :: l)) as (rest & Hprio & Hprio');
    [rewrite <- Hbi; apply Hb|done|apply (qside_bound _ _ _ _ Hst)|].
  destruct (book_lookup _ _ _ _ _ _ a Hst Hq ltac:(set_solver))
    as (ro & _ & Hro & _ & _ & Hres & _).
  rewrite Hprio in Hv. cbn [app] in Hv. rewrite (view_cons _ _ _ _ Hro) in Hv. simplify_eq.
  exists i, a, l, rest, lvl, ro. split; [|done]. split; try done; [|apply Hres].
  by rewrite Hp, (rs_price _ _ _ Hres).
Qed.

Lemma front_resting b q opp h i a l rest lvl ro :
  front b q opp h i a l rest lvl ro -> a ∈ resting_addrs q /\ forall c, c ∈ a :: l -> c ∈ resting_addrs q.
Proof.
  intros []. split; [|intros c Hc]; apply elem_of_resting_addrs; eexists opp, i, _; (split; [done|]).
  - set_solver.
  - done.
Qed.

(** Reading the front of the book at the head of the loop. *)
Lemma sweep_body_front L fs Q id agg ao b q e i a l rest lvl ro price_ok :
  at_head L fs Q id agg ao b q e ->
  front b q (negb (is_buy ao)) (e_heap e) i a l rest lvl ro ->
  price_ok (o_price ro) = true ->
  let f := Z.min (o_quantity ro) (o_quantity ao) in
  let h1 := <[agg := set_quantity (o_quantity ao - f) ao]> (e_heap e) in
  a <> agg /\ h1 !! a = Some ro /\ book_rep h1 b q /\
  (asserts_enabled = true -> book_agg h1 b q) /\
  (forall f, holds f (e_heap e) b q -> holds f h1 b q) /\
  sweep_body Capacity clock_gettime price_ok id agg e =
    (let* '(h2, book1, rest_done) := fill_resting_order h1 b (Some a) f in
     let e1 := add_fill (set_book id book1 (set_heap h2 e)) in
     let* ro1 := load (e_heap e1) (Some a) in
     let* ao1 := load (e_heap e1) (Some agg) in
     let* e2 := post_report clock_gettime e1 (if rest_done : bool then Fill else PartialFill)
                  (o_order_id ro1) (o_order_id ao1) (o_price ro) f (o_quantity ro1) in
     let* e3 := post_report clock_gettime e2 (if o_quantity ao1 =? 0 then Fill else PartialFill)
                  (o_order_id ao1) (o_order_id ro1) (o_price ro) f (o_quantity ao1) in
     let* e4 := if rest_done then pool_release Capacity e3 (Some a) else Ok e3 in
     Ok (Some e4)).
Proof.
  intros Hh Hfr Hok f h1. pose proof (at_head_rep _ _ _ _ _ _ _ _ _ Hh) as Hb.
  destruct (front_resting _ _ _ _ _ _ _ _ _ _ Hfr) as [Har _].
  pose proof (at_head_agg _ _ _ _ _ _ _ _ _ Hh) as Hnr. destruct Hh, Hfr.
  assert (a <> agg) as Hne by congruence.
  assert (forall c, c ∈ resting_addrs q -> h1 !! c = e_heap e !! c) as Hf.
  { intros c Hc. unfold h1. apply lookup_insert_ne. congruence. }
  assert (forall f, holds f (e_heap e) b q -> holds f h1 b q) as Hagg
    by (intros k; by apply holds_frame).
  split; [done|]. split; [by rewrite Hf|]. split; [by eapply book_rep_frame|].
  split; [intros He; apply (Hagg Aggregates); by eapply ah_exact0|]. split; [done|].
  unfold sweep_body. rewrite (load_Ok _ _ _ ah_agg0). cbn [bind]. unfold get_book.
  rewrite ah_book0. cbn [bind]. rewrite best_opposite, fr_level0. cbn [bind].
  rewrite fr_price0, Hok, fr_head0. cbn [negb].
  rewrite assert_Ok by (intros; by apply bool_decide_eq_true). cbn [bind].
  rewrite (load_Ok _ _ _ fr_order0). cbn [bind]. rewrite (store_Ok _ _ _ _ ah_agg0).
  cbn [bind]. fold f. rewrite u32_id by (unfold in_u32; lia). fold h1.
  done.
Qed.

Lemma kind_of_zero n (b : bool) :
  b = (n =? 0) -> (if b then Fill else PartialFill) = kind_of n.
Proof. by intros ->. Qed.

(** The store and the counters after a pass are those of [swept] as soon as
    book, aggressor and log are: what is common to the two kinds of pass. *)
Lemma swept_one L Q id agg ao b q e fs' b' q' h' p' s t rem :
  e_books e !! id = Some b -> same_grid b b' ->
  let e' := set_mem h' p' (set_outbound s (tick_clock (tick_clock
              (add_fill (set_book id b' (set_heap h' e)))))) in
  eng_inv Capacity (agg :: L) fs' (<[id := q']> Q) e' ->
  h' !! agg = Some (set_quantity rem ao) ->
  (forall c, c ∉ resting_addrs q -> c <> agg -> h' !! c = e_heap e !! c) ->
  (forall c, c ∈ resting_addrs q' -> c ∈ resting_addrs q) ->
  qside q' (is_buy ao) = qside q (is_buy ao) ->
  (forall c, c ∈ concat (qside q (is_buy ao)) -> data <$> h' !! c = data <$> e_heap e !! c) ->
  sink_log s = sink_log (e_outbound e) ++ reports_of ns (o_order_id ao) (e_clock_reads e) t ->
  (forall f, eng_has f Q e -> eng_has f (<[id := q']> Q) e') ->
  swept L Q id agg ao q e fs' q' e' [t] rem.
Proof.
  intros Hb Hg e' Hinv Ha Hf Hsub Hown Hdata Hlog Hagg. split; try done.
  - exists b, b'. split; [done|]. split; [|done]. simpl. by rewrite lookup_insert_eq.
  - intros id' Hne. simpl. by rewrite lookup_insert_ne.
  - simpl. lia.
Qed.

Lemma resting_remove q opp i a l :
  qside q opp !! i = Some (a :: l) ->
  a :: resting_addrs (qset opp (<[i := l]> (qside q opp)) q) ≡ₚ resting_addrs q.
Proof.
  intros Hq. destruct (resting_addrs_perm q opp i _ Hq) as (rest & -> & _ & _ & Hp).
  by rewrite Hp.
Qed.

Lemma own_side_other h b q opp i ps c :
  book_struct h b q -> qside q opp !! i = Some ps -> c ∈ concat (qside q (negb opp)) -> c ∉ ps.
Proof.
  intros Hst Hq Hc Hc'. assert (c ∈ concat (qside q opp)) as Ho.
  { apply elem_of_concat_lookup. eauto. }
  destruct opp; simpl in *; by eapply bs_disj.
Qed.

(** The orders of the incoming order's own side are neither those of the level
    it trades with nor itself. *)
Lemma own_side_apart L fs Q id agg ao b q e i ps c :
  at_head L fs Q id agg ao b q e -> qside q (negb (is_buy ao)) !! i = Some ps ->
  c ∈ concat (qside q (is_buy ao)) -> (c ∉ ps) /\ c <> agg.
Proof.
  intros Hh Hq Hc. split.
  - eapply (own_side_other _ _ _ (negb (is_buy ao))); [|done|by rewrite negb_involutive].
    by eapply br_struct, at_head_rep.
  - intros ->. eapply at_head_agg, elem_of_resting_addrs; [done|].
    apply elem_of_concat_lookup in Hc as (j & ps' & ? & ?). eauto.
Qed.

(** From the fill to the two reports: the state [e2] a pass has reached when
    it decides whether to recycle the resting order. *)
Lemma sweep_body_reports L L' fs Q id agg ao b q e a ro ro2 h2 b' q' f rem (fin : bool) :
  at_head L fs Q id agg ao b q e ->
  book_rep h2 b' q' -> L' ++ resting_addrs q' ≡ₚ (agg :: L) ++ resting_addrs q ->
  h2 !! a = Some ro2 -> h2 !! agg = Some (set_quantity rem ao) ->
  o_order_id ro2 = o_order_id ro -> fin = (o_quantity ro2 =? 0) ->
  (forall c, c ∉ resting_addrs q -> c <> agg -> h2 !! c = e_heap e !! c) ->
  (forall c, is_Some (e_heap e !! c) -> is_Some (h2 !! c)) ->
  exists s,
    let e1 := add_fill (set_book id b' (set_heap h2 e)) in
    let e2 := set_outbound s (tick_clock (tick_clock e1)) in
    eng_inv Capacity L' fs (<[id := q']> Q) e2 /\
    (forall f, eng_has f Q e -> holds f h2 b' q' -> eng_has f (<[id := q']> Q) e2) /\
    sink_log s = sink_log (e_outbound e) ++
      reports_of ns (o_order_id ao) (e_clock_reads e)
        (mkTrade (o_order_id ro) (o_price ro) f (o_quantity ro2) rem) /\
    (let* ro1 := load (e_heap e1) (Some a) in
     let* ao1 := load (e_heap e1) (Some agg) in
     let* e2 := post_report clock_gettime e1 (if fin then Fill else PartialFill)
                  (o_order_id ro1) (o_order_id ao1) (o_price ro) f (o_quantity ro1) in
     let* e3 := post_report clock_gettime e2 (if o_quantity ao1 =? 0 then Fill else PartialFill)
                  (o_order_id ao1) (o_order_id ro1) (o_price ro) f (o_quantity ao1) in
     let* e4 := if fin then pool_release Capacity e3 (Some a) else Ok e3 in
     Ok (Some e4))
    = (let* e4 := if fin then pool_release Capacity e2 (Some a) else Ok e2 in Ok (Some e4)).
Proof.
  intros [Hinv Hbk HQ Hagg Hqty Hx] Hb2 Hperm Ha2 Hagg2 Hid -> Hfr Hdom.
  set (e0 := set_book id b' (set_heap h2 e)). set (e1 := add_fill e0).
  assert (forall c, c ∉ agg :: L -> c ∉ resting_addrs q -> h2 !! c = e_heap e !! c) as Hfr'.
  { intros c HcL Hcr. apply Hfr; set_solver. }
  assert (eng_inv Capacity L' fs (<[id := q']> Q) e0) as Hinv0 by (by eapply eng_book_update).
  destruct (post2_spec e1
    (mkReport (kind_of (o_quantity ro2)) (o_order_id ro) (o_order_id ao) (o_price ro) f
       (o_quantity ro2))
    (mkReport (kind_of rem) (o_order_id ao) (o_order_id ro) (o_price ro) f rem)
    (fun e3 => let* e4 := if o_quantity ro2 =? 0 then pool_release Capacity e3 (Some a)
                          else Ok e3 in Ok (Some e4))
    (ei_sink _ _ _ _ _ Hinv0)) as (s & Hs & Epost & Hlog).
  exists s. cbv zeta. fold e0. fold e1. split_and!; [| |done|].
  - by eapply eng_inv_same; [|done|exact Hinv0].
  - intros k Hagg0 Hb. eapply (eng_has_same _ _ e0); [done|]. by eapply eng_has_update.
  - cbn [e_heap e1 e0 add_fill set_book set_heap].
    rewrite (load_Ok _ _ _ Ha2), (load_Ok _ _ _ Hagg2). cbn [bind].
    rewrite <- Epost, Hid. done.
Qed.

Lemma heap_dom_data (h h' : heap) a :
  is_Some (h' !! a) -> (forall c, c <> a -> data <$> h' !! c = data <$> h !! c) ->
  forall c, is_Some (h !! c) -> is_Some (h' !! c).
Proof.
  intros Ha Hd c [o Hc]. destruct (decide (c = a)) as [->|Hne]; [done|].
  specialize (Hd c Hne). rewrite Hc in Hd. destruct (h' !! c); [by eauto|done].
Qed.

(** A pass that fills the resting order completely. *)
Lemma sweep_body_full L fs Q id agg ao b q e i a l rest lvl ro price_ok :
  at_head L fs Q id agg ao b q e ->
  front b q (negb (is_buy ao)) (e_heap e) i a l rest lvl ro ->
  price_ok (o_price ro) = true -> o_quantity ro <= o_quantity ao ->
  let opp := negb (is_buy ao) in
  let rem := o_quantity ao - o_quantity ro in
  let q' := qset opp (<[i := l]> (qside q opp)) q in
  exists e',
    sweep_body Capacity clock_gettime price_ok id agg e = Ok (Some e') /\
    swept L Q id agg ao q e (a :: fs) q' e'
      [mkTrade (o_order_id ro) (o_price ro) (o_quantity ro) 0 rem] rem /\
    forall c, c <> a -> c <> agg -> data <$> e_heap e' !! c = data <$> e_heap e !! c.
Proof.
  intros Hh Hfr Hok Hle opp rem q'.
  destruct (sweep_body_front L fs Q id agg ao b q e i a l rest lvl ro price_ok Hh Hfr Hok)
    as (Hne & Ha1 & Hb1 & Hx1 & Hx1' & ->).
  pose proof (front_resting _ _ _ _ _ _ _ _ _ _ Hfr) as [Har Hlr].
  pose proof (ah_inv _ _ _ _ _ _ _ _ _ Hh) as Hinv. pose proof (ah_book _ _ _ _ _ _ _ _ _ Hh) as Hbk.
  pose proof (at_head_rep _ _ _ _ _ _ _ _ _ Hh) as Hb.
  pose proof (ah_q _ _ _ _ _ _ _ _ _ Hh) as HQ.
  destruct Hfr as [_ _ Hq _ _ Hro _ Hrq].
  fold opp in Hq. rewrite Z.min_l in * by lia. fold rem in Ha1, Hb1, Hx1, Hx1' |- *.
  set (h1 := <[agg := set_quantity rem ao]> (e_heap e)) in *.
  destruct (fill_resting_order_full h1 b q opp i [] a l ro)
    as (h2 & b' & -> & Hb2 & Hg & Hix & Ha2 & Hd2 & Hf2 & Hx2); [done..|].
  simpl app in *. fold q' in Hb2, Hx2. cbn [bind].
  pose proof (at_head_agg _ _ _ _ _ _ _ _ _ Hh) as Hnr.
  assert (h2 !! agg = Some (set_quantity rem ao)) as Hagg2.
  { rewrite Hf2; [apply lookup_insert_eq|]. intros Hc. by apply Hnr, Hlr. }
  assert (forall c, c ∉ resting_addrs q -> c <> agg -> h2 !! c = e_heap e !! c) as Hfr.
  { intros c Hcr Hc. rewrite Hf2 by (intros Hc'; by apply Hcr, Hlr). by apply lookup_insert_ne. }
  assert (forall c, c <> a -> c <> agg -> data <$> h2 !! c = data <$> e_heap e !! c) as Hdd.
  { intros c Hc Hca. rewrite Hd2 by done. unfold h1. by rewrite lookup_insert_ne. }
  destruct (sweep_body_reports L (a :: agg :: L) fs Q id agg ao b q e a ro
              (set_status Filled (data (set_quantity 0 ro))) h2 b' q'
              (o_quantity ro) rem true Hh Hb2) as (s & Hinv2 & Hx2' & Hlog & ->); try done.
  { simpl. rewrite <- (resting_remove q opp i a l Hq). fold q'.
    rewrite <- Permutation_middle. apply perm_swap. }
  { intros c Hc. apply (heap_dom_data h1 h2 a); [by eauto|done|].
    apply lookup_insert_is_Some'. by right. }
  destruct (pool_release_spec Capacity _ _ _ _ a _ Hinv2 Ha2)
    as (h3 & p & -> & Hinv3 & Hf3 & _ & Hx3). cbn [bind].
  eexists. split; [done|].
  assert (forall c, c <> a -> c <> agg -> data <$> h3 !! c = data <$> e_heap e !! c) as Hd3.
  { intros c Hc Hca. rewrite Hf3 by done. by apply Hdd. }
  split; [|done].
  apply (swept_one L Q id agg ao b q e (a :: fs) b' q' h3 p s); try done.
  - rewrite Hf3 by done. done.
  - intros c Hcr Hc. rewrite Hf3 by (by intros ->). by apply Hfr.
  - intros c Hc. rewrite <- (resting_remove q opp i a l Hq). fold q'. set_solver.
  - apply qside_qset_ne. unfold opp. by destruct (is_buy ao).
  - intros c Hc. destruct (own_side_apart _ _ _ _ _ _ _ _ _ _ _ _ Hh Hq Hc). apply Hd3; set_solver.
  - intros f Hagg. apply Hx3, Hx2'; [done|].
    eapply (holds_remove f h1 h2 b b' q opp i [] a l ro); try done; [apply Hb1|].
    apply Hx1'. by eapply Hagg.
Qed.

(** A pass that uses the incoming order up and leaves part of the resting
    order. *)
Lemma sweep_body_part L fs Q id agg ao b q e i a l rest lvl ro price_ok :
  at_head L fs Q id agg ao b q e ->
  front b q (negb (is_buy ao)) (e_heap e) i a l rest lvl ro ->
  price_ok (o_price ro) = true -> o_quantity ao < o_quantity ro ->
  let left := o_quantity ro - o_quantity ao in
  exists e',
    sweep_body Capacity clock_gettime price_ok id agg e = Ok (Some e') /\
    swept L Q id agg ao q e fs q e'
      [mkTrade (o_order_id ro) (o_price ro) (o_quantity ao) left 0] 0 /\
    e_heap e' !! a = Some (set_status Partial (set_quantity left ro)) /\
    forall c, c <> a -> c <> agg -> e_heap e' !! c = e_heap e !! c.
Proof.
  intros Hh Hfr Hok Hlt left.
  destruct (sweep_body_front L fs Q id agg ao b q e i a l rest lvl ro price_ok Hh Hfr Hok)
    as (Hne & Ha1 & Hb1 & Hx1 & Hx1' & ->).
  pose proof (front_resting _ _ _ _ _ _ _ _ _ _ Hfr) as [Har _].
  pose proof (ah_inv _ _ _ _ _ _ _ _ _ Hh) as Hinv. pose proof (ah_book _ _ _ _ _ _ _ _ _ Hh) as Hbk.
  pose proof (at_head_rep _ _ _ _ _ _ _ _ _ Hh) as Hb.
  pose proof (ah_q _ _ _ _ _ _ _ _ _ Hh) as HQ. pose proof (ah_qty _ _ _ _ _ _ _ _ _ Hh) as Hqty.
  destruct Hfr as [_ _ Hq _ _ Hro _ Hrq]. set (opp := negb (is_buy ao)) in *.
  rewrite Z.min_r, Z.sub_diag in * by lia.
  set (h1 := <[agg := set_quantity 0 ao]> (e_heap e)) in *.
  destruct (fill_resting_order_partial h1 b q opp i [] a l ro (o_quantity ao))
    as (b' & -> & Hb2 & Hg & Hix & Hx2); [done|done|done|lia|done|]. fold left in Hb2, Hx2 |- *. cbn [bind].
  set (ro2 := set_status Partial (set_quantity left ro)) in *. set (h2 := <[a := ro2]> h1) in *.
  assert (h2 !! a = Some ro2) as Ha2 by apply lookup_insert_eq.
  assert (h2 !! agg = Some (set_quantity 0 ao)) as Hagg2.
  { unfold h2, h1. rewrite lookup_insert_ne by done. apply lookup_insert_eq. }
  assert (forall c, c <> a -> c <> agg -> h2 !! c = e_heap e !! c) as Hfr.
  { intros c Hc Hca. unfold h2, h1. by rewrite !lookup_insert_ne. }
  destruct (sweep_body_reports L (agg :: L) fs Q id agg ao b q e a ro ro2 h2 b' q
              (o_quantity ao) 0 false Hh Hb2) as (s & Hinv2 & Hx2' & Hlog & Ebody); try done.
  { symmetry. apply Z.eqb_neq. simpl. lia. }
  { intros c Hcr Hc. apply Hfr; [by intros ->|done]. }
  { intros c Hc. apply lookup_insert_is_Some'. right. apply lookup_insert_is_Some'. by right. }
  cbn [bind] in Ebody. rewrite Ebody. eexists. split; [done|]. split; [|done].
  apply (swept_one L Q id agg ao b q e fs b' q h2 (e_pool e) s); try done.
  - intros c Hcr Hc. apply Hfr; [by intros ->|done].
  - intros c Hc. destruct (own_side_apart _ _ _ _ _ _ _ _ _ _ _ _ Hh Hq Hc). rewrite Hfr; set_solver.
  - intros f Hagg. apply Hx2'; [done|]. eapply holds_inplace; try done.
    apply Hx1'. by eapply Hagg.
Qed.

(** ** The loop *)

Lemma at_head_next L fs Q id agg ao b q e fs' q' e' ts rem :
  at_head L fs Q id agg ao b q e -> swept L Q id agg ao q e fs' q' e' ts rem ->
  0 < rem < 2 ^ 32 ->
  exists b', at_head L fs' (<[id := q']> Q) id agg (set_quantity rem ao) b' q' e'.
Proof.
  intros [Hinv Hbk HQ Hagg Hqty Hx] [] Hrem. destruct sw_book0 as (b0 & b' & _ & Hb' & _).
  exists b'. split; try done.
  - apply lookup_insert_eq.
  - auto.
Qed.

(** The rest of the priority list is not touched by a pass. *)
Lemma front_rest L fs Q id agg ao b q e i a l rest lvl ro c :
  at_head L fs Q id agg ao b q e ->
  front b q (negb (is_buy ao)) (e_heap e) i a l rest lvl ro ->
  c ∈ l ++ rest -> c <> a /\ c <> agg.
Proof.
  intros Hh Hfr Hc. pose proof (at_head_rep _ _ _ _ _ _ _ _ _ Hh) as Hb.
  pose proof (at_head_agg _ _ _ _ _ _ _ _ _ Hh) as Hnr. set (opp := negb (is_buy ao)) in *.
  pose proof (fr_prio _ _ _ _ _ _ _ _ _ _ Hfr) as Hprio.
  assert (c ∈ prio opp (qside q opp)) as Hcp by (rewrite Hprio; set_solver).
  rewrite prio_perm in Hcp. split; intros ->.
  - pose proof (sr_nodup _ _ _ _ _ _ (bs_side _ _ _ (br_struct _ _ _ Hb) opp)) as Hnd.
    rewrite <- (prio_perm opp), Hprio in Hnd. by apply NoDup_cons in Hnd as [? _].
  - apply Hnr, elem_of_resting_addrs. apply elem_of_concat_lookup in Hcp as (j & ps & ? & ?). eauto.
Qed.

Lemma do_sweep_done fuel price_ok id agg e ao :
  e_heap e !! agg = Some ao -> o_quantity ao = 0 ->
  do_sweep Capacity clock_gettime (Datatypes.S fuel) price_ok id agg e = Ok e.
Proof. intros Ha Hq. cbn [do_sweep]. rewrite (load_Ok _ _ _ Ha). cbn [bind]. by rewrite Hq. Qed.

(** After a full fill the side holds what was behind the filled order. *)
Lemma full_fill_view L fs Q id agg ao b q e i a l rest lvl ro e1 :
  let opp := negb (is_buy ao) in
  let q1 := qset opp (<[i := l]> (qside q opp)) q in
  at_head L fs Q id agg ao b q e -> front b q opp (e_heap e) i a l rest lvl ro ->
  (forall c, c <> a -> c <> agg -> data <$> e_heap e1 !! c = data <$> e_heap e !! c) ->
  prio opp (qside q1 opp) = l ++ rest /\
  side_view (e_heap e1) q1 opp = view (e_heap e) (l ++ rest).
Proof.
  intros opp q1 Hh Hfr Hd.
  assert (prio opp (qside q1 opp) = l ++ rest) as Hp1.
  { unfold q1. rewrite qside_qset. apply (fr_prio' _ _ _ _ _ _ _ _ _ _ Hfr). }
  split; [done|]. unfold side_view. rewrite Hp1. apply view_agree. intros c Hc.
  destruct (front_rest _ _ _ _ _ _ _ _ _ _ _ _ _ _ _ _ Hh Hfr Hc). by apply Hd.
Qed.

(** After a partial fill the reduced order keeps its place at the front. *)
Lemma part_fill_view L fs Q id agg ao b q e i a l rest lvl ro ro' e1 :
  let opp := negb (is_buy ao) in
  at_head L fs Q id agg ao b q e -> front b q opp (e_heap e) i a l rest lvl ro ->
  e_heap e1 !! a = Some ro' ->
  (forall c, c <> a -> c <> agg -> e_heap e1 !! c = e_heap e !! c) ->
  side_view (e_heap e1) q opp = data ro' :: view (e_heap e) (l ++ rest).
Proof.
  intros opp Hh Hfr Ha1 Hd. unfold side_view.
  rewrite (fr_prio _ _ _ _ _ _ _ _ _ _ Hfr), (view_cons _ _ _ _ Ha1). f_equal.
  apply view_agree. intros c Hc.
  destruct (front_rest _ _ _ _ _ _ _ _ _ _ _ _ _ _ _ _ Hh Hfr Hc). by rewrite Hd.
Qed.

(** With more fuel than there are orders on the opposite side, [do_sweep]
    returns, and has done what [sweep_spec] says. *)
Lemma do_sweep_refines L fs Q id agg ao b q e price_ok fuel :
  at_head L fs Q id agg ao b q e ->
  (length (prio (negb (is_buy ao)) (qside q (negb (is_buy ao)))) < fuel)%nat ->
  let opp := negb (is_buy ao) in
  let r := sweep_spec price_ok (o_quantity ao) (side_view (e_heap e) q opp) in
  exists e' fs' q',
    do_sweep Capacity clock_gettime fuel price_ok id agg e = Ok e' /\
    swept L Q id agg ao q e fs' q' e' (sp_trades r) (sp_rem r) /\
    side_view (e_heap e') q' opp = sp_rest r.
Proof.
  revert fs Q ao b q e. induction fuel as [|fuel IH]; intros fs Q ao b q e Hh Hfuel opp; [lia|].
  pose proof Hh as [Hinv Hbk HQ Hagg Hqty Hx]. pose proof (at_head_rep _ _ _ _ _ _ _ _ _ Hh) as Hb.
  cbn [do_sweep]. rewrite (load_Ok _ _ _ Hagg). cbn [bind].
  rewrite (proj2 (Z.gtb_lt _ _)) by lia. cbn [negb].
  destruct (side_view (e_heap e) q opp) as [|o os] eqn:Hv.
  { rewrite (sweep_body_stop _ _ _ _ _ _ _ _ _ price_ok Hh) by (intros o os; fold opp; by rewrite Hv).
    cbn [bind]. exists e, fs, q. split; [done|]. split; [by eapply swept_refl|done]. }
  destruct (front_exists _ _ _ _ _ _ Hb Hv) as (i & a & l & rest & lvl & ro & Hfr & -> & ->).
  pose proof (fr_prio _ _ _ _ _ _ _ _ _ _ Hfr) as Hprio. fold opp in Hfuel. rewrite Hprio in Hfuel.
  pose proof (fr_qty _ _ _ _ _ _ _ _ _ _ Hfr) as Hrq.
  destruct (price_ok (o_price ro)) eqn:Hok.
  2: { rewrite (sweep_body_stop _ _ _ _ _ _ _ _ _ price_ok Hh)
         by (intros o os; fold opp; rewrite Hv; intros; by simplify_eq).
       rewrite sweep_stop by (by right). cbn [bind]. exists e, fs, q.
       split; [done|]. split; [by eapply swept_refl|done]. }
  destruct (decide (o_quantity ro <= o_quantity ao)) as [Hle|Hgt].
  - destruct (sweep_body_full _ _ _ _ _ _ _ _ _ _ _ _ _ _ _ _ Hh Hfr Hok Hle)
      as (e1 & -> & Hsw & Hd). cbn [bind]. fold opp in Hsw.
    set (rem := o_quantity ao - o_quantity ro) in *.
    set (q1 := qset opp (<[i := l]> (qside q opp)) q) in *.
    destruct (full_fill_view _ _ _ _ _ _ _ _ _ _ _ _ _ _ _ e1 Hh Hfr Hd) as [Hp1 Hv1].
    fold opp q1 in Hp1, Hv1.
    rewrite sweep_full by (try done; simpl; lia). change (o_quantity (data ro)) with (o_quantity ro). fold rem.
    simpl in Hfuel. destruct (decide (rem = 0)) as [Hr0|Hr0].
    + rewrite Hr0 in *. rewrite sweep_zero. destruct fuel as [|fuel]; [lia|].
      rewrite (do_sweep_done _ _ _ _ _ _ (sw_agg _ _ _ _ _ _ _ _ _ _ _ _ Hsw)) by done.
      exists e1, (a :: fs), q1. by split_and!.
    + destruct (at_head_next _ _ _ _ _ _ _ _ _ _ _ _ _ _ Hh Hsw) as (b1 & Hh1); [lia|].
      destruct (IH _ _ _ _ _ _ Hh1) as (e2 & fs2 & q2 & E & Hsw2 & Hv2).
      { change (is_buy (set_quantity rem ao)) with (is_buy ao). fold opp. rewrite Hp1. lia. }
      change (is_buy (set_quantity rem ao)) with (is_buy ao) in *. fold opp in Hsw2, Hv2.
      change (o_quantity (set_quantity rem ao)) with rem in *. rewrite Hv1 in *.
      exists e2, fs2, q2. split; [done|]. split; [|done].
      exact (swept_trans _ _ _ _ _ _ _ _ _ _ _ _ _ _ _ _ _ Hsw Hsw2).
  - destruct (sweep_body_part _ _ _ _ _ _ _ _ _ _ _ _ _ _ _ _ Hh Hfr Hok ltac:(lia))
      as (e1 & -> & Hsw & Ha1 & Hd). cbn [bind].
    rewrite sweep_part by (try done; simpl; lia). destruct fuel as [|fuel]; [simpl in *; lia|].
    rewrite (do_sweep_done _ _ _ _ _ _ (sw_agg _ _ _ _ _ _ _ _ _ _ _ _ Hsw)) by done.
    exists e1, fs, q. split; [done|]. split; [done|].
    exact (part_fill_view _ _ _ _ _ _ _ _ _ _ _ _ _ _ _ _ e1 Hh Hfr Ha1 Hd).
Qed.

End sweep.
