(* ===== verification/EngineMatch.v ===== *)
(** * The four order types

    What [match_limit], [match_market], [match_ioc] and [match_fok] do to an
    engine that satisfies [eng_inv], in terms of [sweep_spec] on the opposite
    side's priority list. *)

From stdpp Require Import base numbers list gmap fin_maps sorting.
From Stdlib Require Import ZArith Lia.
From S2P Require Import Prelude.
From S2P Require Import OrderTypes.
From S2P Require Import OrderPool.
From S2P Require Import PriceLevel.
From S2P Require Import OrderIndex.
From S2P Require Import OrderBook.
From S2P Require Import OrderBookInv.
From S2P Require Import OrderBookOps.
From S2P Require Import OrderBookQueries.
From S2P Require Import BookFacets.
From S2P Require Import SPSCQueue.
From S2P Require Import Sink.
From S2P Require Import MatchingEngine.
From S2P Require Import EngineInv.
From S2P Require Import SweepSpec.
From S2P Require Import EngineSweep.

Section views.
Context `{Build} {S : Type} `{Sink ExecutionReport S} (Capacity : nat).
Implicit Types (e : Engine S) (Q : gmap Z queues) (fs L : list nat).

(** An order at [agg] about to be matched against book [id]. *)
Record incoming (L fs : list nat) (Q : gmap Z queues) (id : Z) (agg : nat) (ao : Order)
  (b : OrderBook) (q : queues) e : Prop := {
  in_inv : eng_inv Capacity (agg :: L) fs Q e;
  in_book : e_books e !! id = Some b;
  in_q : Q !! id = Some q;
  in_agg : e_heap e !! agg = Some ao;
  in_qty : 0 <= o_quantity ao < 2 ^ 32;
  in_exact : asserts_enabled = true -> eng_has Aggregates Q e
}.

Lemma prio_length L fs Q id agg ao b q e buy :
  incoming L fs Q id agg ao b q e ->
  (length (prio buy (qside q buy)) < sweep_fuel e)%nat.
Proof.
  intros [Hinv Hb HQ _ _ _]. pose proof (ei_book _ _ _ _ _ Hinv _ _ _ Hb HQ) as Hr.
  pose proof (sr_nodup _ _ _ _ _ _ (bs_side _ _ _ (br_struct _ _ _ Hr) buy)) as Hnd.
  rewrite prio_perm. unfold sweep_fuel. rewrite <- size_dom.
  rewrite <- (size_list_to_set (C := gset nat)) by done.
  assert (size (list_to_set (concat (qside q buy)) : gset nat) <= size (dom (e_heap e)))%nat;
    [|lia].
  apply subseteq_size. intros c Hc%elem_of_list_to_set. apply elem_of_dom.
  destruct (eng_alloc _ _ _ _ _ c Hinv) as [o ->]; [|by eauto].
  rewrite (all_resting_lookup _ _ _ HQ). unfold resting_addrs. destruct buy; set_solver.
Qed.

(** What processing a message for instrument [id] has done between [e] and
    [e'] to everything but the two sides of that instrument's book. *)
Record handled (Q : gmap Z queues) (id : Z) e (L' fs' : list nat) (q' : queues) e'
  (reports : list ExecutionReport) (reads fills rejected : nat) : Prop := {
  hd_inv : eng_inv Capacity L' fs' (<[id := q']> Q) e';
  hd_book : exists b b', e_books e !! id = Some b /\ e_books e' !! id = Some b' /\ same_grid b b';
  hd_books : forall id', id' <> id -> e_books e' !! id' = e_books e !! id';
  hd_frame : forall id' q1 c, id' <> id -> Q !! id' = Some q1 -> c ∈ resting_addrs q1 ->
    e_heap e' !! c = e_heap e !! c;
  hd_log : sink_log (e_outbound e') = sink_log (e_outbound e) ++ reports;
  hd_clock : e_clock_reads e' = (e_clock_reads e + reads)%nat;
  hd_fills : e_fills_executed e' = Nat.iter fills (fun n => u64 (n + 1)) (e_fills_executed e);
  hd_rejected : e_orders_rejected e' =
    Nat.iter rejected (fun n => u64 (n + 1)) (e_orders_rejected e);
  hd_inbound : e_inbound e' = e_inbound e;
  hd_processed : e_orders_processed e' = e_orders_processed e
}.

(** Then releasing the incoming order's slot, which no book holds. *)
Lemma handled_release Q id e agg L fs q e' reports reads fills rejected o :
  handled Q id e (agg :: L) fs q e' reports reads fills rejected ->
  e_heap e' !! agg = Some o ->
  (forall id' q, id' <> id -> Q !! id' = Some q -> agg ∉ resting_addrs q) ->
  exists e'', pool_release Capacity e' (Some agg) = Ok e'' /\
    handled Q id e L (agg :: fs) q e'' reports reads fills rejected /\
    (forall c, c <> agg -> e_heap e'' !! c = e_heap e' !! c) /\
    (forall f, eng_has f (<[id := q]> Q) e' -> eng_has f (<[id := q]> Q) e'') /\
    e_books e'' = e_books e'.
Proof.
  intros [] Ho Hno.
  destruct (pool_release_spec Capacity _ _ _ _ _ _ hd_inv0 Ho)
    as (h & p & -> & Hinv & Hf & _ & Hx).
  eexists. split; [done|]. split; [|done]. split; try done.
  intros id' q1 c Hne HQ1 Hc. simpl. rewrite Hf; [by eapply hd_frame0|].
  intros ->. by eapply Hno.
Qed.

Lemma handled_add_rejected Q id e L fs q e' reports reads fills rejected :
  handled Q id e L fs q e' reports reads fills rejected ->
  handled Q id e L fs q (add_rejected e') reports reads fills (Datatypes.S rejected).
Proof.
  intros []. split; try done.
  - by eapply eng_inv_same; [|apply hd_inv0|exact hd_inv0].
  - simpl. by rewrite hd_rejected0.
Qed.

(** ** The two sides of the book afterwards *)

Lemma incoming_not_resting L fs Q id agg ao b q e :
  incoming L fs Q id agg ao b q e -> forall id q, Q !! id = Some q -> agg ∉ resting_addrs q.
Proof.
  intros [Hinv _ _ _ _ _] id' q' HQ.
  destruct (eng_owner_L _ _ _ _ _ agg Hinv) as [_ Ho]; [set_solver|]. by eapply Ho.
Qed.

Lemma prio_resting q buy c : c ∈ prio buy (qside q buy) -> c ∈ resting_addrs q.
Proof. rewrite prio_perm. unfold resting_addrs. destruct buy; set_solver. Qed.

Lemma side_view_frame h h' q buy :
  (forall c, c ∈ resting_addrs q -> h' !! c = h !! c) -> side_view h' q buy = side_view h q buy.
Proof.
  intros E. apply view_agree. intros c Hc. rewrite E; [done|]. by eapply prio_resting.
Qed.

(** The cancel acknowledgement for a remainder [rem]. *)
Definition cancel_reports (order_id rem : Z) (now : Z) : list ExecutionReport :=
  if rem >? 0 then [mkReport CancelAck order_id 0 0 0 rem now] else [].

(** ** FOK *)

(** The sorted priority list: a crossing order is preceded by crossing
    orders only. *)
Lemma side_view_sorted h b q side p :
  book_struct h b q ->
  StronglySorted (fun o1 o2 => crosses (negb side) p (o_price o2) = true ->
                               crosses (negb side) p (o_price o1) = true) (side_view h q side).
Proof.
  intros Hst. pose proof (view_sorted h _ (better_eq side) (prio_sorted h b q side Hst)) as Hs.
  fold (side_view h q side) in Hs. induction Hs as [|o os Hs IH Hf]; constructor; [done|].
  eapply Forall_impl; [exact Hf|]. intros o' Hb. unfold better_eq, crosses in *.
  destruct side; simpl in *; lia.
Qed.

(** The quantity an order may trade against a priority list. *)
Definition liquidity (ao : Order) (os : list Order) : Z :=
  total_qty (filter (fun o => crosses (is_buy ao) (o_price ao) (o_price o) = true) os).

Lemma liquidity_crossing ao h ps :
  (forall a, a ∈ ps -> is_Some (h !! a)) ->
  liquidity ao (view h ps) = sum_qty h (crossing h (is_buy ao) (o_price ao) ps).
Proof.
  intros Hall. unfold liquidity, crossing. induction ps as [|a ps IH]; [done|].
  destruct (Hall a ltac:(set_solver)) as [o Ho]. rewrite (view_cons _ _ _ _ Ho).
  specialize (IH ltac:(set_solver)).
  assert (price_at h a = o_price (data o)) as Hp by (unfold price_at; by rewrite Ho).
  destruct (crosses (is_buy ao) (o_price ao) (o_price (data o))) eqn:E.
  - rewrite !filter_cons_True by congruence. rewrite total_qty_cons, IH. simpl.
    unfold qty_at. by rewrite Ho.
  - rewrite !filter_cons_False by congruence. done.
Qed.

(** Where an order of a side's priority list rests. *)
Lemma view_order_placed h b q side o :
  book_struct h b q -> o ∈ side_view h q side ->
  exists i, o_price o = bk_min_price b + Z.of_nat i * bk_tick_size b /\ (i < nlevels b)%nat /\
    is_buy o = side /\ is_active o = true /\ 0 < o_quantity o < 2 ^ 32.
Proof.
  intros Hst (a & o' & Ha & Ho & ->)%elem_of_view.
  rewrite prio_perm in Ha. apply elem_of_concat_lookup in Ha as (i & ps & Hq & Ha).
  destruct (book_lookup _ _ _ _ _ _ _ Hst Hq Ha) as (o1 & _ & Ho1 & _ & _ & Hr & Hi).
  simplify_eq. exists i. split_and!; try done; apply Hr.
Qed.

Lemma side_view_pos h b q side : book_struct h b q -> all_pos (side_view h q side).
Proof.
  intros Hst. apply Forall_forall. intros o Ho.
  by destruct (view_order_placed _ _ _ _ _ Hst Ho) as (i & _ & _ & _ & _ & ? & _).
Qed.

Lemma available_spec h b q ao :
  book_rep h b q -> book_agg h b q -> limit_ok b (is_buy ao) (o_price ao) ->
  (asserts_enabled = true -> limit_on_grid b (o_price ao)) ->
  available_quantity_at_or_better b (o_side ao) (o_price ao)
  = Ok (u32 (liquidity ao (side_view h q (negb (is_buy ao))))).
Proof.
  intros Hb Hagg Hl Hg. unfold side_view. rewrite liquidity_crossing.
  - destruct (is_buy ao) eqn:Hs.
    + apply bool_decide_eq_true in Hs. rewrite Hs. by apply (available_quantity_buy h b q).
    + by apply (available_quantity_sell h b q).
  - intros a Ha. rewrite prio_perm in Ha. apply elem_of_concat_lookup in Ha as (i & ps & Hq & Ha).
    destruct (book_lookup _ _ _ _ _ _ _ (br_struct _ _ _ Hb) Hq Ha) as (o & _ & Ho & _). eauto.
Qed.

(** A buy limit below the grid is given the asks at the lowest price. *)
Lemma available_below_spec h b q p :
  book_rep h b q -> book_agg h b q -> p < bk_min_price b ->
  available_quantity_at_or_better b Buy p
  = Ok (total_qty (filter (fun o => o_price o = bk_min_price b) (side_view h q false))).
Proof.
  intros Hb Hagg Hp. rewrite (available_below h b q) by done. do 2 f_equal.
  set (ao := populate (mkInbound NewOrder 0 (bk_min_price b) 0 0 0 0 0) 0 zero_Order).
  pose proof (br_struct _ _ _ Hb) as Hst.
  change (crossing h true (bk_min_price b)) with (crossing h (is_buy ao) (o_price ao)).
  rewrite <- (liquidity_crossing ao).
  - change (view h (prio false (q_ask q))) with (side_view h q false). unfold liquidity. f_equal.
    assert (Forall (fun o => bk_min_price b <= o_price o) (side_view h q false)) as Hmin.
    { apply Forall_forall. intros o Ho. destruct (view_order_placed _ _ _ _ _ Hst Ho) as (i & -> & _).
      pose proof (cf_tick _ (bs_cfg _ _ _ Hst)). nia. }
    induction Hmin as [|o os Ho _ IH]; [done|]. rewrite !filter_cons, IH.
    change (crosses (is_buy ao) (o_price ao) (o_price o)) with (o_price o <=? bk_min_price b).
    repeat case_decide; rewrite ?Z.leb_le in *; first [done|lia].
  - intros a Ha. rewrite prio_perm in Ha. apply elem_of_concat_lookup in Ha as (i & ps & Hq & Ha).
    destruct (book_lookup _ _ _ false _ _ _ Hst Hq Ha) as (o & _ & Ho & _). eauto.
Qed.

(** No resting ask crosses a buy limit below the grid. *)
Lemma unswept_below h b q ao rem :
  book_struct h b q -> o_price ao < bk_min_price b ->
  sweep_spec (crosses true (o_price ao)) rem (side_view h q false) = ([], side_view h q false, rem).
Proof.
  intros Hst Hlow. destruct (side_view h q false) as [|o os] eqn:E; [done|].
  destruct (view_order_placed h b q false o Hst) as (i & Hp & _); [rewrite E; set_solver|].
  pose proof (cf_tick _ (bs_cfg _ _ _ Hst)). simpl.
  rewrite (proj2 (Z.leb_gt _ _)) by nia. by rewrite andb_false_r.
Qed.

(** How much a sweep up to the order's limit leaves. *)
Lemma sweep_limit_amount h b q ao rem :
  book_struct h b q -> 0 <= rem ->
  let os := side_view h q (negb (is_buy ao)) in
  sp_rem (sweep_spec (crosses (is_buy ao) (o_price ao)) rem os)
  = rem - Z.min rem (liquidity ao os).
Proof.
  intros Hst Hr os. apply sweep_amount; [done|by eapply side_view_pos|].
  pose proof (side_view_sorted h b q (negb (is_buy ao)) (o_price ao) Hst) as Hs.
  by rewrite negb_involutive in Hs.
Qed.

Lemma incoming_handled L fs Q id agg ao b q e :
  incoming L fs Q id agg ao b q e -> handled Q id e (agg :: L) fs q e [] 0 0 0.
Proof.
  intros []. split; try done.
  - by rewrite insert_id.
  - by exists b, b.
  - by rewrite app_nil_r.
Qed.

(** ** Limit *)

(** The side an order is added to. *)
Lemma add_order_view h h' b q i ps a o :
  book_struct h b q -> h !! a = Some o -> same_data h h' ->
  qside q (is_buy o) !! i = Some ps ->
  o_price o = bk_min_price b + Z.of_nat i * bk_tick_size b ->
  let buy := is_buy o in
  let q' := qset buy (<[i := ps ++ [a]]> (qside q buy)) q in
  side_view h' q' buy = enqueue buy (data o) (side_view h q buy) /\
  side_view h' q' (negb buy) = side_view h q (negb buy).
Proof.
  intros Hst Ho Hsd Hq Hp buy q'. pose proof (cf_tick _ (bs_cfg _ _ _ Hst)) as Ht.
  assert (forall ps1, view h' ps1 = view h ps1) as Hv.
  { intros ps1. apply view_agree. intros c _. by rewrite <- Hsd. }
  unfold side_view. rewrite !Hv. split.
  2: { unfold q'. by rewrite qside_qset_ne by (by destruct buy). }
  destruct (prio_split buy _ i ps Hq) as (X & Y & Hsp & HX & HY).
  unfold q'. rewrite qside_qset, Hsp. fold buy in Hq.
  rewrite <- (list_insert_id (qside q buy) i ps Hq) at 1. rewrite Hsp.
  assert (forall c x, h !! c = Some x -> forall j psj, qside q buy !! j = Some psj -> c ∈ psj ->
            o_price x = bk_min_price b + Z.of_nat j * bk_tick_size b) as Hpr.
  { intros c x Hx j psj Hj Hc. destruct (book_lookup _ _ _ _ _ _ _ Hst Hj Hc)
      as (x' & _ & Hx' & _ & _ & Hr & _). simplify_eq. apply Hr. }
  rewrite !view_app, (view_cons _ _ _ _ Ho), !app_assoc, <- (app_assoc _ [data o]).
  cbn [app]. symmetry. rewrite <- view_app. apply enqueue_app.
  - intros x (c & x' & Hc & Hx & ->)%elem_of_view.
    apply elem_of_app in Hc as [Hc|Hc].
    + destruct (HX c Hc) as (j & psj & Hj & Hcj & Hlt). simpl.
      rewrite (Hpr _ _ Hx _ _ Hj Hcj), Hp. destruct buy; simpl; nia.
    + simpl. rewrite (Hpr _ _ Hx _ _ Hq Hc), Hp. destruct buy; simpl; lia.
  - intros y (c & y' & Hc & Hy & ->)%elem_of_view.
    destruct (HY c Hc) as (j & psj & Hj & Hcj & Hlt). simpl.
    rewrite (Hpr _ _ Hy _ _ Hj Hcj), Hp. destruct buy; simpl; nia.
Qed.

Lemma is_valid_price_grid b b' p :
  same_grid b b' -> is_valid_price b' p = is_valid_price b p.
Proof. intros (_ & E1 & E2 & E3). unfold is_valid_price. by rewrite E1, E2, E3. Qed.

Lemma set_book_id id b e : e_books e !! id = Some b -> set_book id b (set_heap (e_heap e) e) = e.
Proof. intros Hb. destruct e. unfold set_book, set_heap. simpl in *. by rewrite insert_id. Qed.

(** [add_order] of the in-flight order, as a move from flight to a queue. *)
Lemma eng_add_order L fs Q id agg o b q e :
  eng_inv Capacity (agg :: L) fs Q e -> e_books e !! id = Some b -> Q !! id = Some q ->
  e_heap e !! agg = Some o -> is_active o = true -> 0 < o_quantity o < 2 ^ 32 ->
  is_valid_price b (o_price o) = true ->
  exists h' b' i ps,
    let q' := qset (is_buy o) (<[i := ps ++ [agg]]> (qside q (is_buy o))) q in
    let e' := set_book id b' (set_heap h' e) in
    add_order (e_heap e) b (Some agg) = Ok (h', b') /\
    eng_inv Capacity L fs (<[id := q']> Q) e' /\ same_grid b b' /\
    qside q (is_buy o) !! i = Some ps /\
    o_price o = bk_min_price b + Z.of_nat i * bk_tick_size b /\
    (forall c, c <> agg -> c ∉ resting_addrs q -> h' !! c = e_heap e !! c) /\
    side_view h' q' (is_buy o) = enqueue (is_buy o) (data o) (side_view (e_heap e) q (is_buy o)) /\
    side_view h' q' (negb (is_buy o)) = side_view (e_heap e) q (negb (is_buy o)) /\
    (forall f, eng_has f Q e -> add_ok f (e_heap e) b q i ps o -> eng_has f (<[id := q']> Q) e').
Proof.
  intros Hinv Hb HQ Ho Hact Hqty Hv. pose proof (ei_book _ _ _ _ _ Hinv _ _ _ Hb HQ) as Hr.
  destruct (eng_owner_L _ _ _ _ _ agg Hinv) as [_ Hno]; [set_solver|].
  specialize (Hno _ _ HQ). set (buy := is_buy o).
  destruct (add_order_spec _ _ _ _ _ Hr Ho Hno Hact Hqty Hv)
    as (h' & b' & i & ps & E & Hp & Hq & Hr' & Hg & Hsd & Hf & Hix & Hagg). fold buy in Hq, Hr', Hagg.
  assert (forall c, c ∈ ps -> c ∈ resting_addrs q) as Hps.
  { intros c Hc. apply elem_of_resting_addrs. eauto. }
  assert (forall c, c <> agg -> c ∉ resting_addrs q -> h' !! c = e_heap e !! c) as Hfr.
  { intros c Hc Hcr. apply Hf. intros [->|Hc']%elem_of_cons; [done|]. by apply Hcr, Hps. }
  assert (forall c, c ∉ agg :: L -> c ∉ resting_addrs q -> h' !! c = e_heap e !! c) as Hfr'.
  { intros c Hc Hcr. apply Hfr; [set_solver|done]. }
  exists h', b', i, ps. split; [done|]. split; [|split; [done|split; [done|split; [done|split; [done|]]]]].
  - eapply eng_book_update; [done..| |done|].
    + destruct (resting_addrs_perm q buy i ps Hq) as (rest & -> & _ & _ & ->).
      rewrite <- app_assoc. simpl. rewrite (app_assoc L ps), <- Permutation_middle.
      by rewrite <- app_assoc.
    + intros c [oc Hc]. specialize (Hsd c). rewrite Hc in Hsd.
      destruct (h' !! c); [by eauto|done].
  - destruct (add_order_view (e_heap e) h' b q i ps agg o) as [Hv1 Hv2]; [apply Hr|done..|].
    split; [done|]. split; [done|]. intros f Hall Hok.
    apply (eng_has_update Capacity f (agg :: L) fs Q e id b q); try done. specialize (Hall _ _ _ Hb HQ).
    destruct f; simpl in *; [by apply Hagg; destruct Hok|by eapply indexed_add|].
    by apply uncrossed_add.
Qed.

(** When resting the order keeps a facet: room in its level's 32-bit
    aggregates, and an id no resting order of the book has. *)
Definition rest_ok (f : facet) (h : heap) (b : OrderBook) (q : queues) (ao : Order) : Prop :=
  match f with
  | Aggregates => forall i ps, qside q (is_buy ao) !! i = Some ps ->
      o_price ao = bk_min_price b + Z.of_nat i * bk_tick_size b ->
      sum_qty h ps + o_quantity ao < 2 ^ 32 /\ Z.of_nat (length ps) + 1 < 2 ^ 32
  | Indexed => forall buy o, o ∈ side_view h q buy -> o_order_id o <> o_order_id ao
  | Uncrossed => True
  end.

Lemma elem_of_side_view h b q a :
  book_struct h b q -> a ∈ resting_addrs q ->
  exists buy o, h !! a = Some o /\ data o ∈ side_view h q buy.
Proof.
  intros Hst (buy & i & ps & Hq & Ha)%elem_of_resting_addrs.
  destruct (book_lookup _ _ _ _ _ _ _ Hst Hq Ha) as (o & _ & Ho & _).
  exists buy, o. split; [done|]. unfold side_view, view. apply list_elem_of_omap.
  exists a. rewrite Ho. split; [|done]. rewrite prio_perm. apply elem_of_concat_lookup. eauto.
Qed.

(** The order that keeps crossing nothing may rest: every level in use on
    the opposite side is beyond its price. *)
Lemma swept_uncrossed h b q buy p i :
  book_struct h b q -> p = bk_min_price b + Z.of_nat i * bk_tick_size b ->
  (forall o os, side_view h q (negb buy) = o :: os -> crosses buy p (o_price o) = false) ->
  forall j ps, qside q (negb buy) !! j = Some ps -> ps <> [] ->
    if buy then (i < j)%nat else (j < i)%nat.
Proof.
  intros Hst -> Hno j [|a ps] Hq Hne; [done|]. pose proof (cf_tick _ (bs_cfg _ _ _ Hst)) as Ht.
  destruct (book_lookup _ _ _ _ _ _ a Hst Hq ltac:(set_solver))
    as (o & _ & Ho & _ & _ & Hr & _).
  assert (data o ∈ side_view h q (negb buy)) as Hin.
  { unfold side_view, view. apply list_elem_of_omap. exists a. rewrite Ho. split; [|done].
    rewrite prio_perm. apply elem_of_concat_lookup. eexists j, _. split; [done|]. set_solver. }
  set (p := bk_min_price b + Z.of_nat i * bk_tick_size b) in *.
  pose proof (side_view_sorted h b q (negb buy) p Hst) as Hs. rewrite negb_involutive in Hs.
  assert (crosses buy p (o_price o) = false) as Hc.
  { destruct (side_view h q (negb buy)) as [|o1 os] eqn:Hv; [set_solver|].
    specialize (Hno _ _ eq_refl). apply StronglySorted_inv in Hs as [_ Hf].
    apply elem_of_cons in Hin as [<-|Hin]; [done|]. rewrite Forall_forall in Hf.
    apply not_true_is_false. intros Hc. specialize (Hf _ Hin Hc). congruence. }
  rewrite (rs_price _ _ _ Hr) in Hc. unfold p, crosses in Hc. destruct buy; nia.
Qed.

End views.

Section matching.
Context `{Build} {S : Type} `{Sink ExecutionReport S} (Capacity : nat) (clock_gettime : nat -> Z * Z).
Implicit Types (e : Engine S) (Q : gmap Z queues) (fs L : list nat).

#[local] Abbreviation ns := (ns_at clock_gettime).
#[local] Abbreviation incoming := (incoming Capacity).
#[local] Abbreviation handled := (handled Capacity).

(** [do_sweep] from any quantity, zero included. *)
Lemma sweep_run L fs Q id agg ao b q e price_ok :
  incoming L fs Q id agg ao b q e ->
  let opp := negb (is_buy ao) in
  let r := sweep_spec price_ok (o_quantity ao) (side_view (e_heap e) q opp) in
  exists e' fs' q',
    do_sweep Capacity clock_gettime (sweep_fuel e) price_ok id agg e = Ok e' /\
    swept Capacity clock_gettime L Q id agg ao q e fs' q' e' (sp_trades r) (sp_rem r) /\
    side_view (e_heap e') q' opp = sp_rest r.
Proof.
  intros Hin opp r. pose proof Hin as [Hinv Hb HQ Ha Hqty Hx].
  destruct (decide (o_quantity ao = 0)) as [Hz|Hz].
  - unfold r. rewrite Hz, sweep_zero. exists e, fs, q.
    split; [by eapply do_sweep_done|]. split; [|done].
    pose proof (swept_refl Capacity clock_gettime L fs Q id agg ao q e b) as Hr.
    rewrite Hz in Hr. by apply Hr.
  - apply (do_sweep_refines _ _ L fs Q id agg ao b q e); [split; try done; lia|].
    by eapply prio_length.
Qed.

(** A sweep has [handled] its message so far. *)
Lemma swept_handled L fs Q id agg ao b q e fs' q' e' ts rem :
  incoming L fs Q id agg ao b q e ->
  swept Capacity clock_gettime L Q id agg ao q e fs' q' e' ts rem ->
  handled Q id e (agg :: L) fs' q' e'
    (trade_reports ns (o_order_id ao) (e_clock_reads e) ts) (2 * length ts) (length ts) 0.
Proof.
  intros [Hinv Hb HQ Ha Hqty Hx] []. split; try done.
  intros id' q1 c Hne HQ1 Hc. apply sw_frame.
  - destruct (eng_owner _ _ _ _ _ _ _ _ Hinv HQ1 Hc) as (_ & _ & Ho). by eapply (Ho id).
  - intros ->. destruct (eng_owner_L _ _ _ _ _ agg Hinv) as [_ Ho]; [set_solver|].
    by eapply Ho.
Qed.

(** Then posting one report. *)
Lemma handled_post Q id e L fs q e' reports reads fills rejected mk :
  handled Q id e L fs q e' reports reads fills rejected ->
  exists e'', post clock_gettime e' mk = Ok e'' /\
    handled Q id e L fs q e'' (reports ++ [mk (ns (e_clock_reads e + reads)%nat)])
      (Datatypes.S reads) fills rejected /\
    e_heap e'' = e_heap e' /\ e_books e'' = e_books e' /\
    (forall f, eng_has f (<[id := q]> Q) e' -> eng_has f (<[id := q]> Q) e'').
Proof.
  intros []. destruct (post_spec clock_gettime e' mk (ei_sink _ _ _ _ _ hd_inv0))
    as (s & -> & Hs & Hl).
  eexists. split; [done|]. split; [|done]. split; try done.
  - by eapply eng_inv_same; [|done|exact hd_inv0].
  - simpl. by rewrite Hl, hd_log0, hd_clock0, app_assoc.
  - simpl. rewrite hd_clock0. lia.
Qed.

Lemma swept_own_side L Q id agg ao q e fs' q' e' ts rem :
  swept Capacity clock_gettime L Q id agg ao q e fs' q' e' ts rem ->
  side_view (e_heap e') q' (is_buy ao) = side_view (e_heap e) q (is_buy ao).
Proof.
  intros Hsw. unfold side_view. rewrite (sw_own _ _ _ _ _ _ _ _ _ _ _ _ _ _ Hsw).
  apply view_agree. intros c Hc. rewrite prio_perm in Hc.
  by apply (sw_own_data _ _ _ _ _ _ _ _ _ _ _ _ _ _ Hsw).
Qed.

(** The slot of the incoming order is not in its book after the sweep. *)
Lemma swept_not_resting L fs Q id agg ao b q e fs' q' e' ts rem c :
  incoming L fs Q id agg ao b q e ->
  swept Capacity clock_gettime L Q id agg ao q e fs' q' e' ts rem ->
  c ∈ resting_addrs q' -> c <> agg.
Proof.
  intros Hin Hsw Hc ->. apply (incoming_not_resting _ _ _ _ _ _ _ _ _ _ Hin id q); [apply Hin|].
  by apply (sw_sub _ _ _ _ _ _ _ _ _ _ _ _ _ _ Hsw).
Qed.

(** Releasing the incoming order's slot after the sweep. *)
Lemma swept_release L fs Q id agg ao b q e fs1 q1 e1 ts rem :
  incoming L fs Q id agg ao b q e ->
  swept Capacity clock_gettime L Q id agg ao q e fs1 q1 e1 ts rem ->
  exists e', pool_release Capacity e1 (Some agg) = Ok e' /\
    handled Q id e L (agg :: fs1) q1 e'
      (trade_reports ns (o_order_id ao) (e_clock_reads e) ts) (2 * length ts) (length ts) 0 /\
    (forall buy, side_view (e_heap e') q1 buy = side_view (e_heap e1) q1 buy) /\
    (forall f, eng_has f Q e -> eng_has f (<[id := q1]> Q) e').
Proof.
  intros Hin Hsw.
  destruct (handled_release _ _ _ _ _ _ _ _ _ _ _ _ _ _
    (swept_handled _ _ _ _ _ _ _ _ _ _ _ _ _ _ Hin Hsw)
    (sw_agg _ _ _ _ _ _ _ _ _ _ _ _ _ _ Hsw)
    (fun id' q' _ => incoming_not_resting _ _ _ _ _ _ _ _ _ _ Hin id' q')) as (e2 & -> & Hh2 & Hf & Hx2 & _).
  exists e2. split; [done|]. split; [done|]. split.
  - intros buy. apply side_view_frame. intros c Hc. apply Hf. by eapply swept_not_resting.
  - intros f Hagg. by apply Hx2, (sw_exact _ _ _ _ _ _ _ _ _ _ _ _ _ _ Hsw).
Qed.

(** ** Market and IOC: sweep, cancel the remainder, release *)

(** The common tail of [match_market] and [match_ioc]. *)
Definition discard_rest (agg : nat) e : res (Engine S) :=
  let* ao := load (e_heap e) (Some agg) in
  let* e2 := if o_quantity ao >? 0
             then post_cancel_ack clock_gettime e (o_order_id ao) (o_quantity ao) else Ok e in
  pool_release Capacity e2 (Some agg).

Lemma discard_rest_spec L fs Q id agg ao b q e fs1 q1 e1 ts rem :
  incoming L fs Q id agg ao b q e ->
  swept Capacity clock_gettime L Q id agg ao q e fs1 q1 e1 ts rem ->
  let k := length (cancel_reports (o_order_id ao) rem 0) in
  exists e',
    discard_rest agg e1 = Ok e' /\
    handled Q id e L (agg :: fs1) q1 e'
      (trade_reports ns (o_order_id ao) (e_clock_reads e) ts
       ++ cancel_reports (o_order_id ao) rem (ns (e_clock_reads e + 2 * length ts)%nat))
      (2 * length ts + k) (length ts) 0 /\
    (forall buy, side_view (e_heap e') q1 buy = side_view (e_heap e1) q1 buy) /\
    (forall f, eng_has f Q e -> eng_has f (<[id := q1]> Q) e').
Proof.
  intros Hin Hsw k. pose proof (swept_handled _ _ _ _ _ _ _ _ _ _ _ _ _ _ Hin Hsw) as Hh.
  pose proof (sw_agg _ _ _ _ _ _ _ _ _ _ _ _ _ _ Hsw) as Ha.
  pose proof (sw_exact _ _ _ _ _ _ _ _ _ _ _ _ _ _ Hsw) as Hx.
  unfold discard_rest. rewrite (load_Ok _ _ _ Ha). cbn [bind].
  change (o_quantity (set_quantity rem ao)) with rem.
  change (o_order_id (set_quantity rem ao)) with (o_order_id ao). unfold cancel_reports in *.
  assert (exists e2,
    (if rem >? 0 then post_cancel_ack clock_gettime e1 (o_order_id ao) rem else Ok e1) = Ok e2 /\
    handled Q id e (agg :: L) fs1 q1 e2
      (trade_reports ns (o_order_id ao) (e_clock_reads e) ts
       ++ cancel_reports (o_order_id ao) rem (ns (e_clock_reads e + 2 * length ts)%nat))
      (2 * length ts + k) (length ts) 0 /\
    e_heap e2 = e_heap e1 /\ (forall f, eng_has f Q e -> eng_has f (<[id := q1]> Q) e2))
    as (e2 & -> & Hh2 & Eh2 & Hx2).
  { unfold cancel_reports. destruct (rem >? 0).
    - destruct (handled_post _ _ _ _ _ _ _ _ _ _ _
        (mkReport CancelAck (o_order_id ao) 0 0 0 rem) Hh) as (e2 & E & Hh2 & Eh & _ & Hx').
      exists e2. split; [done|]. replace (2 * length ts + k)%nat with (Datatypes.S (2 * length ts))
        by (unfold k; simpl; lia). auto.
    - exists e1. rewrite app_nil_r. unfold k. simpl length. by rewrite Nat.add_0_r. }
  cbn [bind]. rewrite <- Eh2 in Ha.
  destruct (handled_release _ _ _ _ _ _ _ _ _ _ _ _ _ _ Hh2 Ha
              (fun id' q' _ => incoming_not_resting _ _ _ _ _ _ _ _ _ _ Hin id' q')) as (e' & -> & Hh' & Hf & Hx' & _).
  exists e'. split; [done|]. split; [done|]. split; [|by auto].
  intros buy. rewrite <- Eh2. apply side_view_frame. intros c Hc. apply Hf.
  by eapply swept_not_resting.
Qed.

(** Sweeping with [price_ok] and discarding what is left. *)
Lemma sweep_discard_spec L fs Q id agg ao b q e price_ok :
  incoming L fs Q id agg ao b q e ->
  let opp := negb (is_buy ao) in
  let r := sweep_spec price_ok (o_quantity ao) (side_view (e_heap e) q opp) in
  let n := length (sp_trades r) in
  exists e' fs' q',
    (let* e1 := do_sweep Capacity clock_gettime (sweep_fuel e) price_ok id agg e in
     discard_rest agg e1) = Ok e' /\
    handled Q id e L fs' q' e'
      (trade_reports ns (o_order_id ao) (e_clock_reads e) (sp_trades r)
       ++ cancel_reports (o_order_id ao) (sp_rem r) (ns (e_clock_reads e + 2 * n)%nat))
      (2 * n + length (cancel_reports (o_order_id ao) (sp_rem r) 0)) n 0 /\
    side_view (e_heap e') q' opp = sp_rest r /\
    side_view (e_heap e') q' (is_buy ao) = side_view (e_heap e) q (is_buy ao) /\
    (forall f, eng_has f Q e -> eng_has f (<[id := q']> Q) e').
Proof.
  intros Hin opp r n. destruct (sweep_run _ _ _ _ _ _ _ _ _ price_ok Hin)
    as (e1 & fs1 & q1 & -> & Hsw & Hv). fold opp r in Hsw, Hv. cbn [bind].
  destruct (discard_rest_spec _ _ _ _ _ _ _ _ _ _ _ _ _ _ Hin Hsw) as (e' & -> & Hh & Hs & Hx).
  exists e', (agg :: fs1), q1. split; [done|]. split; [done|]. rewrite !Hs.
  split; [done|]. split; [|done]. by eapply swept_own_side.
Qed.

Lemma match_market_discard id agg e :
  match_market Capacity clock_gettime id agg e =
  (let* e1 := do_sweep Capacity clock_gettime (sweep_fuel e) any_price id agg e in
   discard_rest agg e1).
Proof. done. Qed.

Lemma match_ioc_discard id agg e ao :
  e_heap e !! agg = Some ao ->
  match_ioc Capacity clock_gettime id agg e =
  (let* e1 := do_sweep Capacity clock_gettime (sweep_fuel e)
                (crosses (is_buy ao) (o_price ao)) id agg e in
   discard_rest agg e1).
Proof.
  intros Ha. unfold match_ioc, sweep_limit. rewrite (load_Ok _ _ _ Ha). cbn [bind]. done.
Qed.

Lemma sweep_limit_run L fs Q id agg ao b q e :
  incoming L fs Q id agg ao b q e ->
  sweep_limit Capacity clock_gettime id agg e =
  do_sweep Capacity clock_gettime (sweep_fuel e) (crosses (is_buy ao) (o_price ao)) id agg e.
Proof. intros []. unfold sweep_limit. by rewrite (load_Ok _ _ _ in_agg0). Qed.

(** A FOK order the check accepts: swept and released. *)
Lemma match_fok_fill L fs Q id agg ao b q e avail :
  incoming L fs Q id agg ao b q e ->
  available_quantity_at_or_better b (o_side ao) (o_price ao) = Ok avail ->
  o_quantity ao <= avail ->
  let opp := negb (is_buy ao) in
  let r := sweep_spec (crosses (is_buy ao) (o_price ao)) (o_quantity ao)
             (side_view (e_heap e) q opp) in
  let n := length (sp_trades r) in
  (asserts_enabled = true -> sp_rem r = 0) ->
  exists e' fs' q',
    match_fok Capacity clock_gettime id agg e = Ok e' /\
    handled Q id e L fs' q' e'
      (trade_reports ns (o_order_id ao) (e_clock_reads e) (sp_trades r)) (2 * n) n 0 /\
    side_view (e_heap e') q' opp = sp_rest r /\
    side_view (e_heap e') q' (is_buy ao) = side_view (e_heap e) q (is_buy ao) /\
    (forall f, eng_has f Q e -> eng_has f (<[id := q']> Q) e').
Proof.
  intros Hin Hav Hle opp r n Hrem. pose proof Hin as [Hinv Hb HQ Ha Hqty Hx].
  unfold match_fok. rewrite (load_Ok _ _ _ Ha). cbn [bind]. unfold get_book. rewrite Hb.
  cbn [bind]. rewrite Hav. cbn [bind]. rewrite (proj2 (Z.ltb_ge _ _)) by done.
  rewrite (sweep_limit_run _ _ _ _ _ _ _ _ _ Hin).
  destruct (sweep_run _ _ _ _ _ _ _ _ _ (crosses (is_buy ao) (o_price ao)) Hin)
    as (e1 & fs1 & q1 & -> & Hsw & Hv). fold opp r in Hsw, Hv. cbn [bind].
  pose proof (sw_agg _ _ _ _ _ _ _ _ _ _ _ _ _ _ Hsw) as Ha1.
  rewrite (load_Ok _ _ _ Ha1). cbn [bind].
  rewrite assert_Ok by (intros; apply Z.eqb_eq; by apply Hrem). cbn [bind].
  destruct (swept_release _ _ _ _ _ _ _ _ _ _ _ _ _ _ Hin Hsw) as (e2 & -> & Hh2 & Hs & Hx2).
  exists e2, (agg :: fs1), q1. rewrite !Hs.
  split_and!; try done. by eapply swept_own_side.
Qed.

(** In a Debug build the assertion behind the sweep stops an order the sweep
    did not fill. *)
Lemma match_fok_asserts L fs Q id agg ao b q e avail :
  incoming L fs Q id agg ao b q e ->
  available_quantity_at_or_better b (o_side ao) (o_price ao) = Ok avail ->
  o_quantity ao <= avail -> asserts_enabled = true ->
  sp_rem (sweep_spec (crosses (is_buy ao) (o_price ao)) (o_quantity ao)
            (side_view (e_heap e) q (negb (is_buy ao)))) <> 0 ->
  match_fok Capacity clock_gettime id agg e = Err AssertFailed.
Proof.
  intros Hin Hav Hle Hd Hrem. pose proof Hin as [Hinv Hb HQ Ha Hqty Hx].
  unfold match_fok. rewrite (load_Ok _ _ _ Ha). cbn [bind]. unfold get_book. rewrite Hb.
  cbn [bind]. rewrite Hav. cbn [bind]. rewrite (proj2 (Z.ltb_ge _ _)) by done.
  rewrite (sweep_limit_run _ _ _ _ _ _ _ _ _ Hin).
  destruct (sweep_run _ _ _ _ _ _ _ _ _ (crosses (is_buy ao) (o_price ao)) Hin)
    as (e1 & fs1 & q1 & -> & Hsw & Hv). cbn [bind].
  rewrite (load_Ok _ _ _ (sw_agg _ _ _ _ _ _ _ _ _ _ _ _ _ _ Hsw)). cbn [bind].
  unfold assert_. rewrite Hd. by rewrite (proj2 (Z.eqb_neq _ _)).
Qed.

(** What the sweep of a limit order leaves: the state in which [match_limit]
    decides whether to rest the residual. *)
Lemma match_limit_run L fs Q id agg ao b q e :
  incoming L fs Q id agg ao b q e ->
  let r := sweep_spec (crosses (is_buy ao) (o_price ao)) (o_quantity ao)
             (side_view (e_heap e) q (negb (is_buy ao))) in
  exists e1 fs1 q1,
    swept Capacity clock_gettime L Q id agg ao q e fs1 q1 e1 (sp_trades r) (sp_rem r) /\
    side_view (e_heap e1) q1 (negb (is_buy ao)) = sp_rest r /\
    side_view (e_heap e1) q1 (is_buy ao) = side_view (e_heap e) q (is_buy ao) /\
    match_limit Capacity clock_gettime id agg e =
      if sp_rem r >? 0 then
        let* book := get_book e1 id in
        let* '(h, book1) := add_order (e_heap e1) book (Some agg) in
        Ok (set_book id book1 (set_heap h e1))
      else pool_release Capacity e1 (Some agg).
Proof.
  intros Hin r. destruct (sweep_run _ _ _ _ _ _ _ _ _ (crosses (is_buy ao) (o_price ao)) Hin)
    as (e1 & fs1 & q1 & E & Hsw & Hv). fold r in Hsw, Hv.
  exists e1, fs1, q1. split; [done|]. split; [done|]. split; [by eapply swept_own_side|].
  unfold match_limit. rewrite (sweep_limit_run _ _ _ _ _ _ _ _ _ Hin), E. cbn [bind].
  by rewrite (load_Ok _ _ _ (sw_agg _ _ _ _ _ _ _ _ _ _ _ _ _ _ Hsw)).
Qed.

(** Fully matched: the slot goes back to the pool. *)
Lemma match_limit_filled L fs Q id agg ao b q e :
  incoming L fs Q id agg ao b q e ->
  let opp := negb (is_buy ao) in
  let r := sweep_spec (crosses (is_buy ao) (o_price ao)) (o_quantity ao)
             (side_view (e_heap e) q opp) in
  let n := length (sp_trades r) in
  sp_rem r <= 0 ->
  exists e' fs' q',
    match_limit Capacity clock_gettime id agg e = Ok e' /\
    handled Q id e L fs' q' e'
      (trade_reports ns (o_order_id ao) (e_clock_reads e) (sp_trades r)) (2 * n) n 0 /\
    side_view (e_heap e') q' opp = sp_rest r /\
    side_view (e_heap e') q' (is_buy ao) = side_view (e_heap e) q (is_buy ao) /\
    (forall f, eng_has f Q e -> eng_has f (<[id := q']> Q) e').
Proof.
  intros Hin opp r n Hrem. destruct (match_limit_run _ _ _ _ _ _ _ _ _ Hin)
    as (e1 & fs1 & q1 & Hsw & Hv & Hown & ->). fold opp r in Hsw, Hv |- *.
  rewrite Z.gtb_ltb, (proj2 (Z.ltb_ge _ _)) by lia.
  destruct (swept_release _ _ _ _ _ _ _ _ _ _ _ _ _ _ Hin Hsw) as (e2 & -> & Hh2 & Hs & Hx2).
  exists e2, (agg :: fs1), q1. rewrite !Hs. by split_and!.
Qed.

(** A residual at a price outside the grid: [add_order] ignores it, and the
    slot stays in flight. *)
Lemma match_limit_dropped L fs Q id agg ao b q e :
  incoming L fs Q id agg ao b q e -> asserts_enabled = false ->
  is_valid_price b (o_price ao) = false ->
  let opp := negb (is_buy ao) in
  let r := sweep_spec (crosses (is_buy ao) (o_price ao)) (o_quantity ao)
             (side_view (e_heap e) q opp) in
  let n := length (sp_trades r) in
  0 < sp_rem r ->
  exists e' fs' q',
    match_limit Capacity clock_gettime id agg e = Ok e' /\
    handled Q id e (agg :: L) fs' q' e'
      (trade_reports ns (o_order_id ao) (e_clock_reads e) (sp_trades r)) (2 * n) n 0 /\
    side_view (e_heap e') q' opp = sp_rest r /\
    side_view (e_heap e') q' (is_buy ao) = side_view (e_heap e) q (is_buy ao) /\
    (forall f, eng_has f Q e -> eng_has f (<[id := q']> Q) e').
Proof.
  intros Hin Hrel Hv opp r n Hrem. destruct (match_limit_run _ _ _ _ _ _ _ _ _ Hin)
    as (e1 & fs1 & q1 & Hsw & Hview & Hown & ->). fold opp r in Hsw, Hview |- *.
  rewrite (proj2 (Z.gtb_lt _ _)) by done.
  destruct (sw_book _ _ _ _ _ _ _ _ _ _ _ _ _ _ Hsw) as (b0 & b1 & Hb0 & Hb1 & Hg).
  assert (b0 = b) as -> by (destruct Hin; congruence).
  unfold get_book. rewrite Hb1. cbn [bind].
  rewrite (add_order_invalid _ _ _ _ Hrel (sw_agg _ _ _ _ _ _ _ _ _ _ _ _ _ _ Hsw));
    [|by rewrite (is_valid_price_grid b)]. cbn [bind].
  rewrite (set_book_id _ _ _ Hb1). exists e1, fs1, q1. split; [done|].
  split; [by eapply swept_handled|]. split; [done|]. split; [done|].
  apply (sw_exact _ _ _ _ _ _ _ _ _ _ _ _ _ _ Hsw).
Qed.

Lemma swept_add_ok f L fs Q id agg ao b q e fs1 q1 e1 b1 i ps :
  incoming L fs Q id agg ao b q e ->
  let opp := negb (is_buy ao) in
  let r := sweep_spec (crosses (is_buy ao) (o_price ao)) (o_quantity ao)
             (side_view (e_heap e) q opp) in
  swept Capacity clock_gettime L Q id agg ao q e fs1 q1 e1 (sp_trades r) (sp_rem r) ->
  side_view (e_heap e1) q1 opp = sp_rest r ->
  e_books e1 !! id = Some b1 -> same_grid b b1 -> 0 < sp_rem r ->
  qside q1 (is_buy ao) !! i = Some ps ->
  o_price ao = bk_min_price b1 + Z.of_nat i * bk_tick_size b1 ->
  rest_ok f (e_heap e) b q ao ->
  add_ok f (e_heap e1) b1 q1 i ps (set_quantity (sp_rem r) ao).
Proof.
  intros Hin opp r Hsw Hv Hb1 Hg Hrem Hq Hp Hok.
  pose proof (ei_book _ _ _ _ _ (in_inv _ _ _ _ _ _ _ _ _ _ Hin) _ _ _
    (in_book _ _ _ _ _ _ _ _ _ _ Hin) (in_q _ _ _ _ _ _ _ _ _ _ Hin)) as Hr0.
  pose proof (in_qty _ _ _ _ _ _ _ _ _ _ Hin) as Hqty.
  pose proof (side_view_pos _ _ _ opp (br_struct _ _ _ Hr0)) as Hpos.
  pose proof (ei_book _ _ _ _ _ (sw_inv _ _ _ _ _ _ _ _ _ _ _ _ _ _ Hsw) _ _ q1 Hb1
    (lookup_insert_eq _ _ _)) as Hr1.
  destruct f; simpl in *.
  - destruct Hg as (_ & E1 & _ & E3). rewrite E1, E3 in Hp.
    rewrite (sw_own _ _ _ _ _ _ _ _ _ _ _ _ _ _ Hsw) in Hq.
    destruct (Hok i ps Hq Hp) as [Hs Hl].
    destruct (sweep_conserves (crosses (is_buy ao) (o_price ao)) _ _ (proj1 Hqty) Hpos) as [Hle _].
    fold r in Hle. split; [|done]. replace (sum_qty (e_heap e1) ps) with (sum_qty (e_heap e) ps); [lia|].
    clear - Hsw Hq. assert (forall c, c ∈ ps -> qty_at (e_heap e1) c = qty_at (e_heap e) c) as E.
    { intros c Hc. rewrite !qty_at_data. f_equal.
      apply (sw_own_data _ _ _ _ _ _ _ _ _ _ _ _ _ _ Hsw), elem_of_concat_lookup. eauto. }
    clear Hq. induction ps as [|c ps IH]; simpl; [done|]. rewrite E, IH; set_solver.
  - destruct (bk_order_index b1 !! o_order_id ao) as [c|] eqn:Hc; [exfalso|done].
    destruct (br_index _ _ _ Hr1 _ _ Hc) as (Hcr & oc & Hoc & Hid).
    destruct (elem_of_side_view _ _ _ _ (br_struct _ _ _ Hr1) Hcr) as (s & oc' & Hoc' & Hin').
    assert (oc' = oc) as -> by congruence.
    destruct (decide (s = is_buy ao)) as [->|Hs].
    + rewrite (swept_own_side _ _ _ _ _ _ _ _ _ _ _ _ Hsw) in Hin'. by apply (Hok _ _ Hin').
    + assert (s = opp) as -> by (unfold opp; by destruct s, (is_buy ao)). rewrite Hv in Hin'.
      destruct (sweep_rest_ids _ _ _ (proj1 Hqty) Hpos _ Hin') as (o0 & Ho0 & Hid0).
      apply (Hok _ _ Ho0). by rewrite Hid0.
  - eapply swept_uncrossed; [apply Hr1|done|].
    change (negb (is_buy (set_quantity (sp_rem r) ao))) with opp. rewrite Hv.
    exact (sweep_exhausts _ _ _ (proj1 Hqty) Hpos Hrem).
Qed.

(** A residual at a valid price rests behind the orders at its price. *)
Lemma match_limit_rests L fs Q id agg ao b q e :
  incoming L fs Q id agg ao b q e -> is_active ao = true ->
  is_valid_price b (o_price ao) = true ->
  let buy := is_buy ao in
  let r := sweep_spec (crosses buy (o_price ao)) (o_quantity ao)
             (side_view (e_heap e) q (negb buy)) in
  let n := length (sp_trades r) in
  0 < sp_rem r ->
  exists e' fs' q',
    match_limit Capacity clock_gettime id agg e = Ok e' /\
    handled Q id e L fs' q' e'
      (trade_reports ns (o_order_id ao) (e_clock_reads e) (sp_trades r)) (2 * n) n 0 /\
    side_view (e_heap e') q' (negb buy) = sp_rest r /\
    side_view (e_heap e') q' buy =
      enqueue buy (data (set_quantity (sp_rem r) ao)) (side_view (e_heap e) q buy) /\
    (forall f, eng_has f Q e -> rest_ok f (e_heap e) b q ao ->
       eng_has f (<[id := q']> Q) e').
Proof.
  intros Hin Hact Hv buy r n Hrem. destruct (match_limit_run _ _ _ _ _ _ _ _ _ Hin)
    as (e1 & fs1 & q1 & Hsw & Hview & Hown & ->). fold buy r in Hsw, Hview, Hown |- *.
  rewrite (proj2 (Z.gtb_lt _ _)) by done.
  destruct (sw_book _ _ _ _ _ _ _ _ _ _ _ _ _ _ Hsw) as (b0 & b1 & Hb0 & Hb1 & Hg).
  pose proof Hin as [Hinv Hb HQ _ Hqty _]. assert (b0 = b) as -> by congruence.
  pose proof (ei_book _ _ _ _ _ Hinv _ _ _ Hb HQ) as Hr0.
  destruct (sweep_conserves (crosses buy (o_price ao)) _ _ (proj1 Hqty)
    (side_view_pos _ _ _ (negb buy) (br_struct _ _ _ Hr0))) as [Hle _]. fold r in Hle.
  destruct (eng_add_order Capacity L fs1 (<[id := q1]> Q) id agg (set_quantity (sp_rem r) ao) b1 q1 e1)
    as (h' & b' & i & ps & Eadd & Hinv' & Hg' & Hq & Hp & Hf & Hv1 & Hv2 & Hx);
    [apply Hsw|done|apply lookup_insert_eq|apply Hsw|done|simpl; lia
    |by rewrite (is_valid_price_grid b)|].
  change (is_buy (set_quantity (sp_rem r) ao)) with buy in *.
  unfold get_book. rewrite Hb1. cbn [bind]. rewrite Eadd. cbn [bind].
  rewrite insert_insert_eq in *.
  eexists _, fs1, _. split; [done|]. split; [|split; [|split]].
  - destruct (swept_handled _ _ _ _ _ _ _ _ _ _ _ _ _ _ Hin Hsw). split; try done.
    + exists b, b'. split; [done|]. split; [simpl; apply lookup_insert_eq|by transitivity b1].
    + intros id' Hne. simpl. rewrite lookup_insert_ne by done. by apply hd_books0.
    + intros id' q2 c Hne HQ2 Hc. simpl. rewrite Hf; [by eapply hd_frame0| |].
      * intros ->. by eapply (incoming_not_resting _ _ _ _ _ _ _ _ _ _ Hin).
      * intros Hc'. apply (sw_sub _ _ _ _ _ _ _ _ _ _ _ _ _ _ Hsw) in Hc'.
        destruct (eng_owner _ _ _ _ _ _ _ _ Hinv HQ Hc') as (_ & _ & Ho). by eapply (Ho id').
  - simpl. by rewrite Hv2.
  - simpl. rewrite Hv1. by rewrite Hown.
  - intros f Hall Hok.
    apply Hx; [by apply (sw_exact _ _ _ _ _ _ _ _ _ _ _ _ _ _ Hsw)|].
    by eapply swept_add_ok.
Qed.

End matching.
