(* ===== verification/EngineHandlers.v ===== *)
(** * The handlers

    [match_outcome] is the abstract specification of a new order: what
    happens to the two sides of the book, which reports go out, and how the
    counters move, as a function of the two priority lists.  The handlers of
    [MatchingEngine] refine it. *)

From stdpp Require Import base numbers list gmap fin_maps sorting.
From Stdlib Require Import ZArith Lia.
From S2P Require Import Prelude.
From S2P Require Import OrderTypes.
From S2P Require Import OrderPool.
From S2P Require Import PriceLevel.
From S2P Require Import OrderIndex.
From S2P Require Import OrderBook.
From S2P Require Import OrderBookInv.
From S2P Require Import OrderBookOps.
From S2P Require Import OrderBookQueries.
From S2P Require Import BookFacets.
From S2P Require Import SPSCQueue.
From S2P Require Import Sink.
From S2P Require Import MatchingEngine.
From S2P Require Import EngineInv.
From S2P Require Import SweepSpec.
From S2P Require Import EngineSweep.
From S2P Require Import EngineMatch.

(** ** The specification of a new order *)

Record outcome : Type := mkOutcome {
  oc_own : list Order;       (* the order's side afterwards, by priority *)
  oc_opp : list Order;       (* the opposite side afterwards *)
  oc_reports : list ExecutionReport;
  oc_reads : nat;            (* clock reads *)
  oc_fills : nat;
  oc_rejects : nat;
  oc_lost : bool             (* the slot is neither queued nor returned *)
}.

Section spec.
Variable (ns : nat -> Z).

Definition reject_outcome (clk : nat) (o : Order) (own opp : list Order) : outcome :=
  mkOutcome own opp [mkReport Reject (o_order_id o) 0 0 0 (o_quantity o) (ns clk)] 1 0 1 false.

Definition swept_outcome (clk : nat) (o : Order) (own : list Order)
  (r : list trade * list Order * Z) : outcome :=
  let n := length (sp_trades r) in
  mkOutcome own (sp_rest r) (trade_reports ns (o_order_id o) clk (sp_trades r)) (2 * n) n 0 false.

Definition discard_outcome (clk : nat) (o : Order) (own : list Order)
  (r : list trade * list Order * Z) : outcome :=
  let n := length (sp_trades r) in
  mkOutcome own (sp_rest r)
    (trade_reports ns (o_order_id o) clk (sp_trades r)
     ++ cancel_reports (o_order_id o) (sp_rem r) (ns (clk + 2 * n)%nat))
    (2 * n + length (cancel_reports (o_order_id o) (sp_rem r) 0)) n 0 false.

(** [clk] clock reads have been made, [valid] says whether the order's price
    is on the grid, [avail] is the quantity the FOK check reports. *)
Definition match_outcome (clk : nat) (valid : bool) (avail : Z) (o : Order)
  (own opp : list Order) : outcome :=
  let buy := is_buy o in
  let lim := sweep_spec (crosses buy (o_price o)) (o_quantity o) opp in
  match o_type o with
  | Limit =>
      let oc := swept_outcome clk o own lim in
      if sp_rem lim >? 0 then
        if valid then
          mkOutcome (enqueue buy (data (set_quantity (sp_rem lim) o)) own) (oc_opp oc)
            (oc_reports oc) (oc_reads oc) (oc_fills oc) 0 false
        else mkOutcome own (oc_opp oc) (oc_reports oc) (oc_reads oc) (oc_fills oc) 0 true
      else oc
  | Market => discard_outcome clk o own (sweep_spec any_price (o_quantity o) opp)
  | IOC => discard_outcome clk o own lim
  | FOK => if avail <? o_quantity o then reject_outcome clk o own opp
           else swept_outcome clk o own lim
  | TypeRaw _ => reject_outcome clk o own opp
  end.

End spec.

(** ** Reports and counters *)

Definition is_trade (r : ExecutionReport) : bool :=
  match er_kind r with Fill | PartialFill => true | _ => false end.
Definition is_reject (r : ExecutionReport) : bool :=
  match er_kind r with Reject => true | _ => false end.
Definition trade_count (R : list ExecutionReport) : nat := length (filter is_trade R).
Definition reject_count (R : list ExecutionReport) : nat := length (filter is_reject R).

(** The counters advance with the reports [R]: by one for the two of a trade
    and by one for each reject. *)
Definition tallied (fills rejected : Z) (R : list ExecutionReport) (fills' rejected' : Z) : Prop :=
  exists n, trade_count R = (2 * n)%nat /\
    fills' = Nat.iter n (fun k => u64 (k + 1)) fills /\
    rejected' = Nat.iter (reject_count R) (fun k => u64 (k + 1)) rejected.

Lemma tallied_nil f r : tallied f r [] f r.
Proof. by exists 0%nat. Qed.

Lemma trade_count_app R1 R2 : trade_count (R1 ++ R2) = (trade_count R1 + trade_count R2)%nat.
Proof. unfold trade_count. by rewrite filter_app, length_app. Qed.
Lemma reject_count_app R1 R2 : reject_count (R1 ++ R2) = (reject_count R1 + reject_count R2)%nat.
Proof. unfold reject_count. by rewrite filter_app, length_app. Qed.

Lemma tallied_app f r R1 f1 r1 R2 f2 r2 :
  tallied f r R1 f1 r1 -> tallied f1 r1 R2 f2 r2 -> tallied f r (R1 ++ R2) f2 r2.
Proof.
  intros (n1 & E1 & -> & ->) (n2 & E2 & -> & ->). exists (n2 + n1)%nat.
  rewrite trade_count_app, reject_count_app, (Nat.add_comm (reject_count R1)), !Nat.iter_add.
  split; [lia|done].
Qed.

(** From zero the counters are the counts. *)
Lemma iter_count n : Nat.iter n (fun k => u64 (k + 1)) 0 = u64 (Z.of_nat n).
Proof. induction n as [|n IH]; [done|]. rewrite Nat.iter_succ, IH, u64_add_l. f_equal. lia. Qed.

Lemma trade_reports_counts ns id clk ts :
  trade_count (trade_reports ns id clk ts) = (2 * length ts)%nat /\
  reject_count (trade_reports ns id clk ts) = 0%nat.
Proof.
  revert clk. induction ts as [|t ts IH]; intros clk; [done|].
  cbn [trade_reports length]. rewrite trade_count_app, reject_count_app. destruct (IH (S (S clk))) as [-> ->].
  assert (trade_count (reports_of ns id clk t) = 2%nat /\ reject_count (reports_of ns id clk t) = 0%nat)
    as [-> ->]; [|lia].
  unfold reports_of, trade_count, reject_count, kind_of, is_trade, is_reject.
  by destruct (tr_rest_left t =? 0), (tr_agg_left t =? 0).
Qed.

Lemma cancel_reports_counts id rem now :
  trade_count (cancel_reports id rem now) = 0%nat /\ reject_count (cancel_reports id rem now) = 0%nat.
Proof. unfold cancel_reports. by destruct (rem >? 0). Qed.

Lemma outcome_counts ns clk valid avail o own opp :
  let oc := match_outcome ns clk valid avail o own opp in
  trade_count (oc_reports oc) = (2 * oc_fills oc)%nat /\ reject_count (oc_reports oc) = oc_rejects oc.
Proof.
  assert (forall id clk r rem now, let R := trade_reports ns id clk (sp_trades r) ++ cancel_reports id rem now in
    trade_count R = (2 * length (sp_trades r))%nat /\ reject_count R = 0%nat) as Hd.
  { intros id clk' r rem now R. unfold R. rewrite trade_count_app, reject_count_app.
    destruct (trade_reports_counts ns id clk' (sp_trades r)) as [-> ->],
      (cancel_reports_counts id rem now) as [-> ->]. lia. }
  unfold match_outcome. destruct (o_type o); cbn; [|apply Hd..| |done].
  - destruct (_ >? 0), valid; apply trade_reports_counts.
  - destruct (_ <? _); [done|]. apply trade_reports_counts.
Qed.

Section handlers.
Context `{Build} {S : Type} `{Sink ExecutionReport S} (Capacity : nat) (clock_gettime : nat -> Z * Z).
Implicit Types (e : Engine S) (Q : gmap Z queues) (fs L : list nat).

#[local] Abbreviation ns := (ns_at clock_gettime).

(** The [switch] of [handle_new_order]. *)
Definition match_order (id : Z) (agg : nat) (ord : Order) e : res (Engine S) :=
  match o_type ord with
  | Limit => match_limit Capacity clock_gettime id agg e
  | Market => match_market Capacity clock_gettime id agg e
  | IOC => match_ioc Capacity clock_gettime id agg e
  | FOK => match_fok Capacity clock_gettime id agg e
  | TypeRaw _ =>
      let* e4 := post_reject clock_gettime e (o_order_id ord) (o_quantity ord) in
      let* e5 := pool_release Capacity e4 (Some agg) in
      Ok (add_rejected e5)
  end.

(** What the assertions of a Debug build demand of the order's price. *)
Definition debug_price_ok (b : OrderBook) (o : Order) : Prop :=
  match o_type o with
  | Limit => is_valid_price b (o_price o) = true
  | FOK => limit_ok b (is_buy o) (o_price o) /\ limit_on_grid b (o_price o)
  | _ => True
  end.

(** Engine [e'] is what the outcome [oc] makes of [e]. *)
Record refines (L : list nat) (Q : gmap Z queues) (id : Z) (agg : nat) (o : Order) e
  (oc : outcome) (fs' : list nat) (q' : queues) e' : Prop := {
  rf_handled : handled Capacity Q id e (if oc_lost oc then agg :: L else L) fs' q' e'
    (oc_reports oc) (oc_reads oc) (oc_fills oc) (oc_rejects oc);
  rf_own : side_view (e_heap e') q' (is_buy o) = oc_own oc;
  rf_opp : side_view (e_heap e') q' (negb (is_buy o)) = oc_opp oc
}.

Lemma release_reject L fs Q id agg ao b q e :
  incoming Capacity L fs Q id agg ao b q e ->
  exists e',
    (let* e4 := post_reject clock_gettime e (o_order_id ao) (o_quantity ao) in
     let* e5 := pool_release Capacity e4 (Some agg) in Ok (add_rejected e5)) = Ok e' /\
    refines L Q id agg ao e
      (reject_outcome ns (e_clock_reads e) ao (side_view (e_heap e) q (is_buy ao))
         (side_view (e_heap e) q (negb (is_buy ao)))) (agg :: fs) q e' /\
    (forall f, eng_has f Q e -> eng_has f (<[id := q]> Q) e').
Proof.
  intros Hin. pose proof (in_agg _ _ _ _ _ _ _ _ _ _ Hin) as Ha. unfold post_reject.
  destruct (handled_post _ clock_gettime _ _ _ _ _ _ _ _ _ _ _
    (mkReport Reject (o_order_id ao) 0 0 0 (o_quantity ao))
    (incoming_handled _ _ _ _ _ _ _ _ _ _ Hin)) as (e1 & -> & Hh1 & Eh1 & Eb1 & Hx1). cbn [bind].
  rewrite <- Eh1 in Ha.
  destruct (handled_release _ _ _ _ _ _ _ _ _ _ _ _ _ _ Hh1 Ha
              (fun id' q' _ => incoming_not_resting _ _ _ _ _ _ _ _ _ _ Hin id' q')) as (e2 & -> & Hh2 & Hf & Hx2 & Eb2).
  cbn [bind]. rewrite Nat.add_0_r in Hh2. eexists. split; [done|].
  assert (forall buy, side_view (e_heap e2) q buy = side_view (e_heap e) q buy) as Hs.
  { intros buy. apply side_view_frame. intros c Hc. rewrite Hf, Eh1; [done|].
    intros ->. eapply (incoming_not_resting _ _ _ _ _ _ _ _ _ _ Hin); [|done]. apply Hin. }
  split; [split; [|by apply Hs..]|].
  - exact (handled_add_rejected _ _ _ _ _ _ _ _ _ _ _ _ Hh2).
  - intros f Hf0. apply (eng_has_same f _ e2); [done|]. apply Hx2, Hx1.
    rewrite insert_id by apply Hin. done.
Qed.

(** [match_order] refines [match_outcome]. *)
Definition refines_order (L : list nat) (Q : gmap Z queues) (id : Z) (agg : nat) (ao : Order)
  (b : OrderBook) (q : queues) e (avail : Z) (m : res (Engine S)) : Prop :=
  exists e' fs' q',
    m = Ok e' /\
    refines L Q id agg ao e
      (match_outcome ns (e_clock_reads e) (is_valid_price b (o_price ao)) avail ao
         (side_view (e_heap e) q (is_buy ao)) (side_view (e_heap e) q (negb (is_buy ao))))
      fs' q' e' /\
    (forall f, eng_has f Q e -> rest_ok f (e_heap e) b q ao -> eng_has f (<[id := q']> Q) e').

Lemma match_limit_refines L fs Q id agg ao b q e avail :
  incoming Capacity L fs Q id agg ao b q e -> is_active ao = true -> o_type ao = Limit ->
  (asserts_enabled = true -> is_valid_price b (o_price ao) = true) ->
  refines_order L Q id agg ao b q e avail (match_limit Capacity clock_gettime id agg e).
Proof.
  intros Hin Hact Hty Hdbg. unfold refines_order, match_outcome. rewrite Hty.
  set (r := sweep_spec _ _ _).
  destruct (Z.gtb_spec (sp_rem r) 0) as [Hr|Hr]; [destruct (is_valid_price b (o_price ao)) eqn:Hv|].
  - destruct (match_limit_rests _ clock_gettime _ _ _ _ _ _ _ _ _ Hin Hact Hv Hr)
      as (e' & fs' & q' & -> & Hh & Ho & Hw & Hx).
    exists e', fs', q'. split; [done|]. split; [by split|done].
  - destruct (match_limit_dropped _ clock_gettime _ _ _ _ _ _ _ _ _ Hin
      ltac:(destruct asserts_enabled; [by discriminate Hdbg|done]) Hv Hr)
      as (e' & fs' & q' & -> & Hh & Ho & Hw & Hx).
    exists e', fs', q'. split; [done|]. split; [by split|by auto].
  - destruct (match_limit_filled _ clock_gettime _ _ _ _ _ _ _ _ _ Hin Hr)
      as (e' & fs' & q' & -> & Hh & Ho & Hw & Hx).
    exists e', fs', q'. split; [done|]. split; [by split|by auto].
Qed.

Lemma match_discard_refines L fs Q id agg ao b q e avail :
  incoming Capacity L fs Q id agg ao b q e ->
  (o_type ao = Market ->
   refines_order L Q id agg ao b q e avail (match_market Capacity clock_gettime id agg e)) /\
  (o_type ao = IOC ->
   refines_order L Q id agg ao b q e avail (match_ioc Capacity clock_gettime id agg e)).
Proof.
  intros Hin. unfold refines_order, match_outcome. split; intros Hty; rewrite Hty.
  - rewrite match_market_discard.
    destruct (sweep_discard_spec _ clock_gettime _ _ _ _ _ _ _ _ _ any_price Hin)
      as (e' & fs' & q' & -> & Hh & Ho & Hw & Hx).
    exists e', fs', q'. split; [done|]. split; [by split|by auto].
  - rewrite (match_ioc_discard _ _ _ _ _ _ (in_agg _ _ _ _ _ _ _ _ _ _ Hin)).
    destruct (sweep_discard_spec _ clock_gettime _ _ _ _ _ _ _ _ _
                (crosses (is_buy ao) (o_price ao)) Hin)
      as (e' & fs' & q' & -> & Hh & Ho & Hw & Hx).
    exists e', fs', q'. split; [done|]. split; [by split|by auto].
Qed.

(** The book an incoming order meets. *)
Lemma incoming_rep L fs Q id agg ao b q e :
  incoming Capacity L fs Q id agg ao b q e -> book_rep (e_heap e) b q.
Proof. intros []. by eapply ei_book. Qed.

(** When the FOK check passes on an exact book, the sweep fills everything. *)
Lemma fok_fills h b q ao avail :
  book_rep h b q -> book_agg h b q -> 0 <= o_quantity ao ->
  limit_ok b (is_buy ao) (o_price ao) ->
  (asserts_enabled = true -> limit_on_grid b (o_price ao)) ->
  available_quantity_at_or_better b (o_side ao) (o_price ao) = Ok avail ->
  let os := side_view h q (negb (is_buy ao)) in
  avail = u32 (liquidity ao os) /\
  (o_quantity ao <= avail ->
   sp_rem (sweep_spec (crosses (is_buy ao) (o_price ao)) (o_quantity ao) os) = 0).
Proof.
  intros Hr Hagg Hqty Hl Hg Hav os.
  rewrite (available_spec _ _ _ _ Hr Hagg Hl Hg) in Hav. injection Hav as <-.
  split; [done|]. intros Hle.
  rewrite (sweep_limit_amount _ _ _ ao _ (br_struct _ _ _ Hr)) by lia.
  fold os in Hle |- *. pose proof (u32_range (liquidity ao os)) as Hu.
  assert (all_pos (filter (fun o => crosses (is_buy ao) (o_price ao) (o_price o) = true) os)) as Hp.
  { apply Forall_forall. intros x [_ Hx]%list_elem_of_filter.
    pose proof (side_view_pos _ _ _ (negb (is_buy ao)) (br_struct _ _ _ Hr)) as Hpos.
    by eapply Forall_forall in Hpos. }
  assert (0 <= liquidity ao os) as Hnn.
  { unfold liquidity. clear - Hp. induction Hp; simpl in *; lia. }
  pose proof (u32_le _ Hnn). lia.
Qed.

Lemma match_fok_refines L fs Q id agg ao b q e :
  incoming Capacity L fs Q id agg ao b q e -> o_type ao = FOK ->
  (asserts_enabled = true ->
   limit_ok b (is_buy ao) (o_price ao) /\ limit_on_grid b (o_price ao)) ->
  exists avail,
    available_quantity_at_or_better b (o_side ao) (o_price ao) = Ok avail /\
    refines_order L Q id agg ao b q e avail (match_fok Capacity clock_gettime id agg e).
Proof.
  intros Hin Hty Hdbg. pose proof (incoming_rep _ _ _ _ _ _ _ _ _ Hin) as Hr.
  pose proof Hin as [Hinv Hb HQ Ha Hqty Hx].
  assert (exists avail, available_quantity_at_or_better b (o_side ao) (o_price ao) = Ok avail)
    as [avail Hav].
  { destruct asserts_enabled eqn:Hd; [|by eapply available_total].
    destruct (Hdbg eq_refl) as [Hl Hg].
    rewrite (available_spec _ _ _ _ Hr (Hx eq_refl _ _ _ Hb HQ) Hl ltac:(auto)). by eexists. }
  exists avail. split; [done|]. unfold refines_order, match_outcome. rewrite Hty.
  destruct (Z.ltb_spec avail (o_quantity ao)) as [Hlt|Hle].
  - destruct (release_reject _ _ _ _ _ _ _ _ _ Hin) as (e' & E & Hrf & Hx').
    exists e', (agg :: fs), q. split; [|by auto]. rewrite <- E.
    unfold match_fok. rewrite (load_Ok _ _ _ Ha). cbn [bind]. unfold get_book. rewrite Hb.
    cbn [bind]. rewrite Hav. cbn [bind]. by rewrite (proj2 (Z.ltb_lt _ _)).
  - destruct (match_fok_fill _ clock_gettime _ _ _ _ _ _ _ _ _ _ Hin Hav Hle)
      as (e' & fs' & q' & -> & Hh & Ho & Hw & Hx').
    { intros Hd. destruct (Hdbg Hd) as [Hl Hg].
      destruct (fok_fills _ _ _ _ _ Hr (Hx Hd _ _ _ Hb HQ) (proj1 Hqty) Hl ltac:(auto) Hav)
        as [_ Hz]. auto. }
    exists e', fs', q'. split; [done|]. split; [by split|by auto].
Qed.

(** ** [handle_new_order] *)

(** The order a message stands for. *)
Definition order_of (msg : InboundOrderMsg) (now : Z) : Order := populate msg now zero_Order.

Lemma match_order_refines L fs Q id agg ao b q e :
  incoming Capacity L fs Q id agg ao b q e -> is_active ao = true ->
  (asserts_enabled = true -> debug_price_ok b ao) ->
  exists avail,
    (o_type ao = FOK -> available_quantity_at_or_better b (o_side ao) (o_price ao) = Ok avail) /\
    refines_order L Q id agg ao b q e avail (match_order id agg ao e).
Proof.
  intros Hin Hact Hdbg. unfold match_order, debug_price_ok in *.
  destruct (o_type ao) eqn:Hty.
  - exists 0. split; [done|]. by eapply match_limit_refines.
  - exists 0. split; [done|]. by eapply match_discard_refines.
  - exists 0. split; [done|]. by eapply match_discard_refines.
  - destruct (match_fok_refines _ _ _ _ _ _ _ _ _ Hin Hty Hdbg) as (avail & ? & ?). eauto.
  - exists 0. split; [done|].
    destruct (release_reject _ _ _ _ _ _ _ _ _ Hin) as (e' & -> & Hrf & Hx).
    unfold refines_order, match_outcome. rewrite Hty. eauto 10.
Qed.

Lemma new_order_incoming L a fs Q e msg b q :
  eng_inv Capacity L (a :: fs) Q e ->
  let id := im_instrument_id msg in
  e_books e !! id = Some b -> Q !! id = Some q -> in_u32 (im_quantity msg) ->
  (asserts_enabled = true -> eng_has Aggregates Q e) ->
  let ao := order_of msg (ns (e_clock_reads e)) in
  exists e3,
    incoming Capacity L fs Q id a ao b q e3 /\
    handle_new_order Capacity clock_gettime msg e = match_order id a ao e3 /\
    e_books e3 = e_books e /\ (forall c, c <> a -> e_heap e3 !! c = e_heap e !! c) /\
    e_outbound e3 = e_outbound e /\ e_clock_reads e3 = Datatypes.S (e_clock_reads e) /\
    e_fills_executed e3 = e_fills_executed e /\ e_orders_rejected e3 = e_orders_rejected e /\
    e_inbound e3 = e_inbound e /\ e_orders_processed e3 = e_orders_processed e /\
    (forall f, eng_has f Q e -> eng_has f Q e3).
Proof.
  intros Hinv id Hb HQ Hqty Hx ao.
  destruct (acquire_spec Capacity _ _ _ _ _ Hinv) as (h & p & o & E & Hinv1 & Ha & Hf & Hx1).
  set (e1 := tick_clock (set_mem h p e)).
  assert (eng_inv Capacity (a :: L) fs Q e1) as Hinv2
    by (by eapply eng_inv_same; [|apply Hinv1|exact Hinv1]).
  exists (set_heap (<[a := ao]> h) e1). split_and!; try done.
  - split; try done.
    + by apply (eng_store _ _ _ _ e1); [|set_solver].
    + simpl. apply lookup_insert_eq.
    + intros Hd. apply (eng_has_store _ _ _ _ _ e1 _ _ Hinv2); [set_solver|].
      by apply (eng_has_same _ _ (set_mem h p e)), Hx1, Hx.
  - unfold handle_new_order, book_for. fold id. rewrite Hb, E. cbn [bind].
    cbn [now_ns]. unfold now_ns. fold e1.
    change (e_heap e1) with h. rewrite (store_Ok _ _ _ _ Ha). cbn [bind e_heap set_heap].
    by rewrite (load_Ok _ _ _ (lookup_insert_eq _ _ _)).
  - intros c Hc. simpl. rewrite lookup_insert_ne by done. by apply Hf.
  - intros f Hf0. apply (eng_has_store _ _ _ _ _ e1 _ _ Hinv2); [set_solver|].
    by apply (eng_has_same _ _ (set_mem h p e)), Hx1.
Qed.

Lemma rest_ok_frame f h h' b q ao :
  (forall c, c ∈ resting_addrs q -> h' !! c = h !! c) ->
  rest_ok f h b q ao -> rest_ok f h' b q ao.
Proof.
  intros E. destruct f; simpl; [| |done].
  - intros Hok i ps Hq Hp. destruct (Hok i ps Hq Hp) as [Hs Hl]. split; [|done].
    rewrite (sum_qty_agree h' h); [done|]. intros a Ha. apply E, elem_of_resting_addrs. eauto.
  - intros Hok buy o. rewrite (side_view_frame h h' q buy E). apply Hok.
Qed.

(** The outcome of a new order message for a registered instrument, when the
    pool has a slot. *)
Definition new_order_outcome (msg : InboundOrderMsg) (b : OrderBook) (q : queues) (avail : Z) e
  : outcome :=
  let ao := order_of msg (ns (e_clock_reads e)) in
  match_outcome ns (Datatypes.S (e_clock_reads e)) (is_valid_price b (o_price ao)) avail ao
    (side_view (e_heap e) q (is_buy ao)) (side_view (e_heap e) q (negb (is_buy ao))).

Lemma new_order_refines L a fs Q e msg b q :
  eng_inv Capacity L (a :: fs) Q e ->
  let id := im_instrument_id msg in
  e_books e !! id = Some b -> Q !! id = Some q -> in_u32 (im_quantity msg) ->
  let ao := order_of msg (ns (e_clock_reads e)) in
  (asserts_enabled = true -> eng_has Aggregates Q e /\ debug_price_ok b ao) ->
  exists avail e' fs' q',
    let oc := new_order_outcome msg b q avail e in
    (o_type ao = FOK -> available_quantity_at_or_better b (o_side ao) (o_price ao) = Ok avail) /\
    handle_new_order Capacity clock_gettime msg e = Ok e' /\
    handled Capacity Q id e (if oc_lost oc then a :: L else L) fs' q' e'
      (oc_reports oc) (Datatypes.S (oc_reads oc)) (oc_fills oc) (oc_rejects oc) /\
    side_view (e_heap e') q' (is_buy ao) = oc_own oc /\
    side_view (e_heap e') q' (negb (is_buy ao)) = oc_opp oc /\
    (forall f, eng_has f Q e -> rest_ok f (e_heap e) b q ao -> eng_has f (<[id := q']> Q) e').
Proof.
  intros Hinv id Hb HQ Hqty ao Hdbg.
  destruct (new_order_incoming L a fs Q e msg b q Hinv Hb HQ Hqty)
    as (e3 & Hin & -> & Eb & Hf & Eo & Ec & Ef & Er & Ei & Ep & Hx); [by intros; apply Hdbg|].
  fold ao in Hin |- *. fold id in Hin |- *.
  destruct (match_order_refines _ _ _ _ _ _ _ _ _ Hin) as (avail & Hav & e' & fs' & q' & -> & Hrf & Hx');
    [done|by intros; apply Hdbg|].
  assert (forall id' q1 c, Q !! id' = Some q1 -> c ∈ resting_addrs q1 ->
            e_heap e3 !! c = e_heap e !! c) as Hfr.
  { intros id' q1 c HQ1 Hc. apply Hf. intros ->.
    by eapply (incoming_not_resting _ _ _ _ _ _ _ _ _ _ Hin). }
  assert (forall buy, side_view (e_heap e3) q buy = side_view (e_heap e) q buy) as Hs.
  { intros buy. apply side_view_frame. intros c Hc. by eapply (Hfr id q). }
  rewrite !Hs, Ec in Hrf. exists avail, e', fs', q'.
  set (oc := match_outcome _ _ _ _ _ _ _) in Hrf.
  change (new_order_outcome msg b q avail e) with oc.
  destruct Hrf as [Hh Hw Ho]. split; [done|]. split; [done|]. split; [|split; [done|split; [done|]]].
  - destruct Hh. split; rewrite ?Eb, ?Eo, ?Ec, ?Ef, ?Er, ?Ei, ?Ep in *; try done.
    + intros id' q1 c Hne HQ1 Hc. rewrite (hd_frame id' q1) by done. by eapply Hfr.
    + rewrite hd_clock. lia.
  - intros f Hf0 Hok. apply Hx'; [by apply Hx|]. eapply rest_ok_frame; [|done].
    intros c Hc. by eapply (Hfr id q).
Qed.

(** ** Rejections before matching *)

(** An unknown instrument or an exhausted pool: one reject report. *)
Lemma new_order_rejected L fs Q e msg :
  eng_inv Capacity L fs Q e ->
  e_books e !! im_instrument_id msg = None \/ fs = [] ->
  exists e',
    handle_new_order Capacity clock_gettime msg e = Ok e' /\
    eng_inv Capacity L fs Q e' /\ same_state e e' /\
    sink_log (e_outbound e') = sink_log (e_outbound e) ++
      [mkReport Reject (im_order_id msg) 0 0 0 (im_quantity msg) (ns (e_clock_reads e))] /\
    e_orders_rejected e' = u64 (e_orders_rejected e + 1) /\
    e_fills_executed e' = e_fills_executed e /\
    e_clock_reads e' = Datatypes.S (e_clock_reads e) /\
    e_inbound e' = e_inbound e /\ e_orders_processed e' = e_orders_processed e.
Proof.
  intros Hinv Hcase.
  assert (handle_new_order Capacity clock_gettime msg e =
    (let* e1 := post_reject clock_gettime e (im_order_id msg) (im_quantity msg) in
     Ok (add_rejected e1))) as ->.
  { unfold handle_new_order, book_for.
    destruct (e_books e !! im_instrument_id msg) as [b|] eqn:Hb; [|done].
    destruct Hcase as [?| ->]; [done|]. rewrite (acquire_none _ _ _ _ Hinv). cbn [bind].
    by destruct e. }
  unfold post_reject.
  destruct (post_spec clock_gettime e (mkReport Reject (im_order_id msg) 0 0 0 (im_quantity msg))
    (ei_sink _ _ _ _ _ Hinv)) as (s & -> & Hs & Hl). cbn [bind].
  eexists. split; [done|]. split; [by eapply eng_inv_same; [|done|exact Hinv]|].
  by split_and!.
Qed.

(** ** [handle_cancel] *)

(** An order the index does not know: nothing happens. *)
Lemma cancel_unknown e msg :
  (forall b, e_books e !! im_instrument_id msg = Some b ->
     bk_order_index b !! im_order_id msg = None) ->
  handle_cancel Capacity clock_gettime msg e = Ok e.
Proof.
  intros Hno. unfold handle_cancel, book_for, get_book.
  destruct (e_books e !! im_instrument_id msg) as [b|] eqn:Hb; [|done]. rewrite Hb. cbn [bind].
  unfold find_order, OrderIndex.find. by rewrite (Hno b eq_refl).
Qed.

(** The two sides once the order at [a] has left its queue. *)
Lemma remove_view h h' b q buy i l1 a l2 o :
  book_struct h b q -> qside q buy !! i = Some (l1 ++ a :: l2) -> h !! a = Some o ->
  (forall c, c <> a -> data <$> h' !! c = data <$> h !! c) ->
  let q' := qset buy (<[i := l1 ++ l2]> (qside q buy)) q in
  (exists V1 V2, side_view h q buy = V1 ++ data o :: V2 /\ side_view h' q' buy = V1 ++ V2) /\
  side_view h' q' (negb buy) = side_view h q (negb buy).
Proof.
  intros Hst Hq Ho Hd q'. pose proof (book_struct_nodup _ _ _ Hst) as Hnd.
  destruct (resting_addrs_perm q buy i _ Hq) as (rest & Hp & _ & Hneg & Hp').
  rewrite Hp, <- Permutation_middle in Hnd. simpl in Hnd. apply NoDup_cons in Hnd as [Hna _].
  split.
  - destruct (prio_split buy _ i _ Hq) as (X & Y & Hsp & _ & _).
    assert (a ∉ X ++ (l1 ++ l2) ++ Y) as Hn.
    { intros Ha. apply Hna. rewrite <- (Hp' (l1 ++ l2)), elem_of_resting_addrs.
      rewrite <- (Hsp (l1 ++ l2)), prio_perm in Ha.
      apply elem_of_concat_lookup in Ha as (j & psj & Hj & Ha).
      exists buy, j, psj. by rewrite qside_qset. }
    assert (forall ps, (forall c, c ∈ ps -> c ∈ X ++ (l1 ++ l2) ++ Y) -> view h' ps = view h ps) as Hv.
    { intros ps Hps. apply view_agree. intros c Hc. apply Hd. intros ->. by apply Hn, Hps. }
    exists (view h (X ++ l1)), (view h (l2 ++ Y)). unfold side_view, q'. rewrite qside_qset, Hsp.
    rewrite <- (list_insert_id (qside q buy) i _ Hq) at 1. rewrite Hsp. split.
    + rewrite <- (view_cons _ _ _ _ Ho), <- view_app. f_equal. by rewrite <- !app_assoc.
    + rewrite Hv by done. rewrite <- view_app. f_equal. by rewrite <- !app_assoc.
  - unfold side_view, q'. rewrite qside_qset_ne by (by destruct buy). apply view_agree.
    intros c Hc. rewrite prio_perm in Hc. apply Hd. intros ->. apply Hna.
    apply elem_of_app. right. by apply Hneg.
Qed.

(** Unlinking a resting order takes its slot out of the book and puts it among
    the slots held outside; nothing is reported yet. *)
Lemma unlinked_handled L fs Q e id b b' q buy i l1 a l2 h' o o' :
  eng_inv Capacity L fs Q e -> e_books e !! id = Some b -> Q !! id = Some q ->
  qside q buy !! i = Some (l1 ++ a :: l2) -> e_heap e !! a = Some o -> h' !! a = Some o' ->
  let q' := qset buy (<[i := l1 ++ l2]> (qside q buy)) q in
  book_rep h' b' q' -> same_grid b b' ->
  (forall c, c <> a -> data <$> h' !! c = data <$> e_heap e !! c) ->
  (forall c, c ∉ resting_addrs q -> h' !! c = e_heap e !! c) ->
  handled Capacity Q id e (a :: L) fs q' (set_book id b' (set_heap h' e)) [] 0 0 0.
Proof.
  intros Hinv Hb HQ Hq Ho Ha' q' Hr' Hg Hd Hfr. split; try done.
  - eapply eng_book_update; [done..| |by auto|by eapply heap_dom_data; eauto].
    destruct (resting_addrs_perm q buy i _ Hq) as (rest & -> & _ & _ & Hp'). unfold q'.
    rewrite Hp', <- Permutation_middle. simpl. by rewrite Permutation_middle.
  - exists b, b'. simpl. by rewrite lookup_insert_eq.
  - intros id' Hne. simpl. by rewrite lookup_insert_ne.
  - intros id' q1 c Hne HQ1 Hc. simpl. apply Hfr. intros Hc'.
    destruct (eng_owner _ _ _ _ _ _ _ _ Hinv HQ Hc') as (_ & _ & Hn). by eapply (Hn id').
  - simpl. by rewrite app_nil_r.
Qed.

(** Cancelling an indexed order: it leaves its queue, its remaining quantity
    is acknowledged and its slot returns to the pool. *)
Lemma cancel_known L fs Q e msg b q a :
  eng_inv Capacity L fs Q e ->
  let id := im_instrument_id msg in
  e_books e !! id = Some b -> Q !! id = Some q ->
  bk_order_index b !! im_order_id msg = Some a ->
  (asserts_enabled = true -> eng_has Aggregates Q e) ->
  exists e' q' o buy V1 V2,
    handle_cancel Capacity clock_gettime msg e = Ok e' /\
    e_heap e !! a = Some o /\ o_order_id o = im_order_id msg /\
    handled Capacity Q id e L (a :: fs) q' e'
      [mkReport CancelAck (im_order_id msg) 0 0 0 (o_quantity o) (ns (e_clock_reads e))] 1 0 0 /\
    side_view (e_heap e) q buy = V1 ++ data o :: V2 /\ side_view (e_heap e') q' buy = V1 ++ V2 /\
    side_view (e_heap e') q' (negb buy) = side_view (e_heap e) q (negb buy) /\
    (exists b', e_books e' !! id = Some b' /\
       bk_order_index b' = OrderIndex.erase (bk_order_index b) (im_order_id msg)) /\
    (forall f, eng_has f Q e -> eng_has f (<[id := q']> Q) e').
Proof.
  intros Hinv id Hb HQ Hix Hx. pose proof (ei_book _ _ _ _ _ Hinv _ _ _ Hb HQ) as Hr.
  destruct (br_index _ _ _ Hr _ _ Hix) as (Har & o & Ho & Hid).
  apply elem_of_resting_addrs in Har as Hloc. destruct Hloc as (buy & i & ps & Hq & Hin).
  apply list_elem_of_split in Hin as (l1 & l2 & ->).
  destruct (cancel_order_ptr_spec _ _ _ _ _ _ _ _ Hr Hq) as
    (o0 & h' & b' & Ho0 & Ec & Hr' & Hg & Hix' & Ha' & Hd & Hf & Hagg); [by intros Hd; eapply (Hx Hd)|].
  assert (o0 = o) as -> by congruence. clear Ho0.
  set (q' := qset buy (<[i := l1 ++ l2]> (qside q buy)) q) in *.
  set (e1 := set_book id b' (set_heap h' e)).
  assert (forall c, c ∈ l1 ++ a :: l2 -> c ∈ resting_addrs q) as Hlr.
  { intros c Hc. apply elem_of_resting_addrs. eauto. }
  assert (forall c, c ∉ resting_addrs q -> h' !! c = e_heap e !! c) as Hfr.
  { intros c Hc. apply Hf. intros Hc'. by apply Hc, Hlr. }
  assert (handled Capacity Q id e (a :: L) fs q' e1 [] 0 0 0) as Hh1
    by (by eapply unlinked_handled).
  assert (forall f, eng_has f Q e -> eng_has f (<[id := q']> Q) e1) as Hx1.
  { intros f Hall. apply (eng_has_update Capacity f L fs Q e id b q); try done; [|by auto].
    eapply holds_remove; [apply Hr|done..|]. by eapply Hall. }
  destruct (handled_post _ clock_gettime _ _ _ _ _ _ _ _ _ _ _
    (mkReport CancelAck (im_order_id msg) 0 0 0 (o_quantity o)) Hh1)
    as (e2 & Ep & Hh2 & Eh2 & Eb2 & Hx2).
  rewrite Nat.add_0_r in Hh2. change (e_heap e1) with h' in Eh2. rewrite <- Eh2 in Ha'.
  destruct (handled_release _ _ _ _ _ _ _ _ _ _ _ _ _ _ Hh2 Ha') as (e3 & Erel & Hh3 & Hf3 & Hx3 & Eb3).
  { intros id' q1 Hne HQ1. destruct (eng_owner _ _ _ _ _ _ _ _ Hinv HQ Har) as (_ & _ & Hn). eauto. }
  assert (forall c, c <> a -> data <$> e_heap e3 !! c = data <$> e_heap e !! c) as Hd3.
  { intros c Hc. rewrite Hf3, Eh2 by done. by apply Hd. }
  destruct (remove_view _ (e_heap e3) _ _ _ _ _ _ _ _ (br_struct _ _ _ Hr) Hq Ho Hd3)
    as [(V1 & V2 & HV & HV') Hopp].
  exists e3, q', o, buy, V1, V2. split_and!; try done; [| |by auto]; last first.
  { exists b'. rewrite Eb3, Eb2, <- Hid. unfold e1. cbn. by rewrite lookup_insert_eq. }
  unfold handle_cancel, book_for, get_book. fold id. rewrite Hb. cbn iota beta. rewrite Hb.
  cbn [bind]. unfold find_order, OrderIndex.find. rewrite Hix, (load_Ok _ _ _ Ho). cbn [bind].
  rewrite Ec. cbn [bind]. fold e1. change (e_heap e1) with h'. rewrite <- Eh2.
  rewrite (load_Ok _ _ _ Ha'). cbn [bind]. unfold post_cancel_ack.
  change (o_order_id (set_status Cancelled (data o))) with (o_order_id o).
  rewrite Hid, Ep. cbn [bind]. done.
Qed.

End handlers.
