(* ===== verification/EngineRun.v ===== *)
(** * The engine over time

    [dispatch] on an arbitrary message, set-up and reset, [poll] and
    [submit], and the states the engine can reach. *)

From stdpp Require Import base numbers list gmap fin_maps sorting.
From Stdlib Require Import ZArith Lia.
From S2P Require Import Prelude.
From S2P Require Import OrderTypes.
From S2P Require Import OrderPool.
From S2P Require Import PriceLevel.
From S2P Require Import OrderIndex.
From S2P Require Import OrderBook.
From S2P Require Import OrderBookInv.
From S2P Require Import OrderBookOps.
From S2P Require Import OrderBookQueries.
From S2P Require Import BookFacets.
From S2P Require Import SPSCQueue.
From S2P Require Import Sink.
From S2P Require Import MatchingEngine.
From S2P Require Import EngineInv.
From S2P Require Import SweepSpec.
From S2P Require Import EngineSweep.
From S2P Require Import EngineMatch.
From S2P Require Import EngineHandlers.

Section run.
Context `{Build} {S : Type} `{Sink ExecutionReport S} (Capacity : nat) (clock_gettime : nat -> Z * Z).
Implicit Types (e : Engine S) (Q : gmap Z queues) (fs L : list nat) (msg : InboundOrderMsg).

#[local] Abbreviation ns := (ns_at clock_gettime).
#[local] Abbreviation eng_inv := (eng_inv Capacity).

(** The order a new-order message would become now. *)
Definition order_now msg e : Order := order_of msg (ns (e_clock_reads e)).

(** What the assertions of a Debug build demand of the engine and the
    message. *)
Definition debug_ok Q msg e : Prop :=
  eng_has Aggregates Q e /\
  forall b, im_kind msg = NewOrder -> e_books e !! im_instrument_id msg = Some b ->
    debug_price_ok b (order_now msg e).

(** When a message keeps a facet of every book. *)
Definition msg_keeps (f : facet) Q msg e : Prop :=
  im_kind msg = NewOrder -> forall b q, e_books e !! im_instrument_id msg = Some b ->
    Q !! im_instrument_id msg = Some q -> rest_ok f (e_heap e) b q (order_now msg e).

(** What is left of a new limit order once it has traded with the opposite
    side [opp]. *)
Definition residual msg e (opp : list Order) : Z :=
  let o := order_now msg e in
  sp_rem (sweep_spec (crosses (is_buy o) (o_price o)) (o_quantity o) opp).

(** The new orders whose slot is lost: limit orders priced off the grid with
    something left. *)
Definition off_grid Q msg e : Prop :=
  let o := order_now msg e in
  im_kind msg = NewOrder /\ o_type o = Limit /\
  exists b q, e_books e !! im_instrument_id msg = Some b /\ Q !! im_instrument_id msg = Some q /\
    is_valid_price b (im_price msg) = false /\
    0 < residual msg e (side_view (e_heap e) q (negb (is_buy o))).

(** What every message does to the engine as a whole. *)
Record stepped (L fs : list nat) (Q : gmap Z queues) e msg (L' fs' : list nat)
  (Q' : gmap Z queues) e' : Prop := {
  st_inv : eng_inv L' fs' Q' e';
  st_log : exists R, sink_log (e_outbound e') = sink_log (e_outbound e) ++ R /\
    tallied (e_fills_executed e) (e_orders_rejected e) R (e_fills_executed e') (e_orders_rejected e');
  st_lost : L' = L \/ (off_grid Q msg e /\ exists a, L' = a :: L);
  st_facet : forall f, eng_has f Q e -> msg_keeps f Q msg e -> eng_has f Q' e';
  st_inbound : e_inbound e' = e_inbound e;
  st_processed : e_orders_processed e' = e_orders_processed e;
  st_grid : forall id b, e_books e !! id = Some b ->
    exists b', e_books e' !! id = Some b' /\ same_grid b b'
}.

Lemma stepped_refl L fs Q e msg : eng_inv L fs Q e -> stepped L fs Q e msg L fs Q e.
Proof.
  intros Hinv. split; try done.
  - exists []. rewrite app_nil_r. split; [done|]. apply tallied_nil.
  - by left.
  - intros id b Hb. by exists b.
Qed.

Lemma handled_grid Q id e L fs q e' R reads fills rejected :
  handled Capacity Q id e L fs q e' R reads fills rejected ->
  forall id' b, e_books e !! id' = Some b -> exists b', e_books e' !! id' = Some b' /\ same_grid b b'.
Proof.
  intros Hh id' b Hb. destruct (decide (id' = id)) as [->|Hne].
  - destruct (hd_book _ _ _ _ _ _ _ _ _ _ _ _ Hh) as (b0 & b' & ? & ? & ?).
    exists b'. split; [done|]. by simplify_eq.
  - exists b. split; [|done]. by rewrite (hd_books _ _ _ _ _ _ _ _ _ _ _ _ Hh).
Qed.

Lemma outcome_lost clk valid avail o own opp :
  oc_lost (match_outcome ns clk valid avail o own opp) = true ->
  o_type o = Limit /\ valid = false /\
  0 < sp_rem (sweep_spec (crosses (is_buy o) (o_price o)) (o_quantity o) opp).
Proof.
  unfold match_outcome. destruct (o_type o); simpl; try done.
  - destruct (Z.gtb_spec (sp_rem (sweep_spec (crosses (is_buy o) (o_price o)) (o_quantity o) opp)) 0),
      valid; done.
  - by destruct (_ <? _).
Qed.

Lemma new_order_step L fs Q e msg :
  eng_inv L fs Q e -> im_kind msg = NewOrder -> in_u32 (im_quantity msg) ->
  (asserts_enabled = true -> debug_ok Q msg e) ->
  exists e' L' fs' Q', handle_new_order Capacity clock_gettime msg e = Ok e' /\
    stepped L fs Q e msg L' fs' Q' e'.
Proof.
  intros Hinv Hk Hqty Hdbg.
  destruct (e_books e !! im_instrument_id msg) as [b|] eqn:Hb.
  - destruct fs as [|a fs].
    { destruct (new_order_rejected Capacity clock_gettime L [] Q e msg Hinv) as
        (e' & E & Hinv' & Hs & Hl & Erj & Ef & _ & Ei & Ep); [by right|].
      exists e', L, [], Q. split; [done|]. destruct Hs as (? & ? & Eb). split; try done.
      - eexists. split; [done|]. by exists 0%nat; rewrite Ef, Erj.
      - by left.
      - intros f Hf _. by apply (eng_has_same f Q e).
      - intros id b0 Hb0. exists b0. by rewrite Eb. }
    destruct (eng_book_at _ _ _ _ _ _ _ Hinv Hb) as (q & HQ & _).
    destruct (new_order_refines Capacity clock_gettime L a fs Q e msg b q Hinv Hb HQ Hqty)
      as (avail & e' & fs' & q' & _ & E & Hh & _ & _ & Hx).
    { intros Hd. destruct (Hdbg Hd). split; [done|]. by eauto. }
    eexists e', _, fs', _. split; [done|]. split; try apply Hh.
    + eexists. split; [apply Hh|]. destruct (outcome_counts ns (Datatypes.S (e_clock_reads e))
        (is_valid_price b (o_price (order_now msg e))) avail (order_now msg e)
        (side_view (e_heap e) q (is_buy (order_now msg e)))
        (side_view (e_heap e) q (negb (is_buy (order_now msg e))))) as [Et Er].
      eexists. split; [exact Et|]. split; [apply Hh|].
      refine (eq_trans (hd_rejected _ _ _ _ _ _ _ _ _ _ _ _ Hh) _). apply (f_equal (fun n => Nat.iter n (fun k => u64 (k + 1)) _)). by symmetry.
    + destruct (oc_lost _) eqn:Hl; [right|by left]. split; [|by eauto].
      apply outcome_lost in Hl as (Hl & Hv & Hres). split_and!; try done. by exists b, q.
    + intros f Hf Hkeep. apply Hx; [done|]. by apply Hkeep.
    + by eapply handled_grid.
  - destruct (new_order_rejected Capacity clock_gettime L fs Q e msg Hinv) as
      (e' & E & Hinv' & Hs & Hl & Erj & Ef & _ & Ei & Ep); [by left|].
    exists e', L, fs, Q. split; [done|]. destruct Hs as (? & ? & Eb). split; try done.
    + eexists. split; [done|]. by exists 0%nat; rewrite Ef, Erj.
    + by left.
    + intros f Hf _. by apply (eng_has_same f Q e).
    + intros id b0 Hb0. exists b0. by rewrite Eb.
Qed.

Lemma cancel_step L fs Q e msg :
  eng_inv L fs Q e -> (asserts_enabled = true -> eng_has Aggregates Q e) ->
  exists e' fs' Q', handle_cancel Capacity clock_gettime msg e = Ok e' /\
    stepped L fs Q e msg L fs' Q' e'.
Proof.
  intros Hinv Hdbg. destruct (e_books e !! im_instrument_id msg) as [b|] eqn:Hb.
  - destruct (bk_order_index b !! im_order_id msg) as [a|] eqn:Ha.
    + destruct (eng_book_at _ _ _ _ _ _ _ Hinv Hb) as (q & HQ & _).
      destruct (cancel_known Capacity clock_gettime L fs Q e msg b q a Hinv Hb HQ Ha Hdbg)
        as (e' & q' & o & buy & V1 & V2 & E & _ & _ & Hh & _ & _ & _ & _ & Hx).
      eexists e', _, _. split; [done|]. split; try apply Hh.
      * eexists. split; [apply Hh|]. exists 0%nat. split; [done|]. split; apply Hh.
      * by left.
      * intros f Hf _. by apply Hx.
      * by eapply handled_grid.
    + exists e, fs, Q. rewrite cancel_unknown by congruence. split; [done|]. by apply stepped_refl.
  - exists e, fs, Q. rewrite cancel_unknown by congruence. split; [done|]. by apply stepped_refl.
Qed.

Lemma dispatch_step L fs Q e msg :
  eng_inv L fs Q e -> in_u32 (im_quantity msg) ->
  (asserts_enabled = true -> debug_ok Q msg e) ->
  exists e' L' fs' Q', dispatch Capacity clock_gettime msg e = Ok e' /\
    stepped L fs Q e msg L' fs' Q' e'.
Proof.
  intros Hinv Hqty Hdbg. unfold dispatch. destruct (im_kind msg) eqn:Hk.
  - by apply new_order_step.
  - destruct (cancel_step L fs Q e msg Hinv) as (e' & fs' & Q' & ? & ?); [by intros; apply Hdbg|].
    eauto 10.
  - destruct (cancel_step L fs Q e msg Hinv) as (e' & fs' & Q' & ? & ?); [by intros; apply Hdbg|].
    eauto 10.
  - exists e, L, fs, Q. split; [done|]. by apply stepped_refl.
Qed.

(** ** Batches *)

(** In a Release build any batch of messages is processed. *)
Lemma dispatch_all_step (batch : list InboundOrderMsg) L fs Q e :
  asserts_enabled = false -> eng_inv L fs Q e ->
  Forall (fun msg => in_u32 (im_quantity msg)) batch ->
  exists e' L' fs' Q', dispatch_all Capacity clock_gettime batch e = Ok e' /\
    eng_inv L' fs' Q' e' /\ e_inbound e' = e_inbound e /\
    e_orders_processed e' = e_orders_processed e /\
    (exists R, sink_log (e_outbound e') = sink_log (e_outbound e) ++ R /\
      tallied (e_fills_executed e) (e_orders_rejected e) R
        (e_fills_executed e') (e_orders_rejected e')) /\
    (eng_has Uncrossed Q e -> eng_has Uncrossed Q' e').
Proof.
  intros Hrel. revert L fs Q e. induction batch as [|msg batch IH]; intros L fs Q e Hinv Hb.
  { exists e, L, fs, Q. split_and!; try done. exists []. rewrite app_nil_r. split; [done|apply tallied_nil]. }
  apply Forall_cons in Hb as [Hm Hb].
  destruct (dispatch_step L fs Q e msg Hinv Hm) as (e1 & L1 & fs1 & Q1 & E1 & Hst); [congruence|].
  destruct (IH _ _ _ _ (st_inv _ _ _ _ _ _ _ _ _ Hst) Hb)
    as (e' & L' & fs' & Q' & E2 & Hinv' & Hi & Hp & (R2 & Hlog & Ht2) & Hu).
  exists e', L', fs', Q'. simpl. rewrite E1. cbn [bind]. split_and!; try done.
  - rewrite Hi. apply Hst.
  - rewrite Hp. apply Hst.
  - destruct (st_log _ _ _ _ _ _ _ _ _ Hst) as (R1 & HR & Ht1). exists (R1 ++ R2).
    rewrite Hlog, HR, app_assoc. split; [done|]. by eapply tallied_app.
  - intros Hunc. apply Hu. by apply (st_facet _ _ _ _ _ _ _ _ _ Hst).
Qed.

(** [poll] pops a prefix of the inbound queue and dispatches it in order. *)
Lemma poll_dispatch N e xs m :
  ring_rep N (e_inbound e) xs -> 0 <= m ->
  let k := Z.to_nat (Z.min m 64) in
  exists q', ring_rep N q' (drop k xs) /\
    poll Capacity clock_gettime N m e =
      (let* e1 := dispatch_all Capacity clock_gettime (take k xs) (set_inbound q' e) in
       Ok (add_processed (Z.of_nat (length (take k xs))) e1, Z.of_nat (length (take k xs)))).
Proof.
  intros Hr Hm k. pose proof (rr_pow _ _ _ Hr) as HN. unfold poll.
  replace (Z.min m 64) with (Z.of_nat k) by lia.
  rewrite (try_pop_batch_each N HN _ _ _ Hr).
  destruct (pop_each_spec N HN _ xs k Hr) as (q' & -> & Hr'). cbn [bind]. eauto.
Qed.

(** ** Set-up *)

Lemma MatchingEngine_new_spec mmap inbound outbound h :
  Z.of_nat Capacity * sizeof_Order < 2 ^ 64 -> sink_ok outbound ->
  MatchingEngine_new Capacity mmap inbound outbound h = Ok (inr MmapFailed) \/
  exists e base, MatchingEngine_new Capacity mmap inbound outbound h = Ok (inl e) /\
    eng_inv [] (seq base Capacity) ∅ e /\ e_inbound e = inbound /\ e_outbound e = outbound /\
    e_orders_processed e = 0 /\ e_fills_executed e = 0 /\ e_orders_rejected e = 0.
Proof.
  intros Hcap Hs. pose proof (OrderPool_new_rep Capacity mmap h Hcap) as Hp. cbv zeta in Hp.
  unfold MatchingEngine_new.
  assert (forall base, (exists h' p, OrderPool_new Capacity mmap h = Ok (inl (h', p)) /\
    storage_ p = base /\ pool_rep Capacity h' p (seq base Capacity)) ->
    exists e base, (let* r := OrderPool_new Capacity mmap h in
      match r with
      | inl (h1, p) => Ok (inl (mkEngine h1 p ∅ inbound outbound 0 0 0 0))
      | inr err => Ok (inr err)
      end) = Ok (inl e) /\
    eng_inv [] (seq base Capacity) ∅ e /\ e_inbound e = inbound /\ e_outbound e = outbound /\
    e_orders_processed e = 0 /\ e_fills_executed e = 0 /\ e_orders_rejected e = 0) as Hok.
  { intros base (h1 & p1 & -> & Hst & Hrep). cbn [bind]. eexists _, base. split; [done|].
    split; [|done]. split; simpl; try done.
    - rewrite Hst. unfold all_resting. rewrite map_to_list_empty. simpl. by rewrite !app_nil_r.
    - intros id. rewrite !lookup_empty. split; by intros [? ?]. }
  destruct (mmap true _) as [base|]; [right; by apply (Hok base)|].
  destruct (mmap false _) as [base|]; [right; by apply (Hok base)|]. left. by rewrite Hp.
Qed.

(** A valid configuration for [add_instrument]. *)
Definition grid_ok (mn mx tick : Z) : Prop :=
  0 < tick /\ mn < mx /\ in_i64 mn /\ in_i64 mx /\ mx - mn <= INT64_MAX /\
  Z.rem (mx - mn) tick = 0.

Lemma resting_empty n : resting_addrs (empty_queues n) = [].
Proof. unfold resting_addrs. simpl. by rewrite !concat_replicate_nil. Qed.

Lemma uncrossed_empty n : uncrossed (empty_queues n).
Proof. by intros i j ps ps' [-> _]%lookup_replicate. Qed.

Lemma holds_empty f h b n :
  book_agg h b (empty_queues n) -> holds f h b (empty_queues n).
Proof.
  destruct f; simpl; [done| |intros; apply uncrossed_empty].
  intros _ a o. rewrite resting_empty. set_solver.
Qed.

Lemma add_instrument_spec L fs Q e id mn mx tick :
  eng_inv L fs Q e -> grid_ok mn mx tick ->
  exists e' Q', add_instrument id mn mx tick e = Ok e' /\ eng_inv L fs Q' e' /\
    (forall f, eng_has f Q e -> eng_has f Q' e') /\
    e_outbound e' = e_outbound e /\ e_inbound e' = e_inbound e /\ is_Some (e_books e' !! id) /\
    (forall id', id' <> id \/ is_Some (e_books e !! id') -> e_books e' !! id' = e_books e !! id') /\
    e_orders_processed e' = e_orders_processed e /\
    e_fills_executed e' = e_fills_executed e /\ e_orders_rejected e' = e_orders_rejected e.
Proof.
  intros Hinv (Ht & Hr & Hmn & Hmx & Hw & Hrem).
  destruct (OrderBook_new_spec (e_heap e) id mn mx tick) as (b & E & _ & _ & _ & _ & Hb & Hagg);
    [done..|]. unfold add_instrument. rewrite E. cbn [bind].
  destruct (e_books e !! id) as [b0|] eqn:Hid.
  { exists e, Q. split_and!; try done. }
  assert (Q !! id = None) as HQ.
  { apply eq_None_not_Some. rewrite <- (ei_dom _ _ _ _ _ Hinv). by rewrite Hid. }
  exists (set_book id b e), (<[id := empty_queues (nlevels b)]> Q). split; [done|].
  split; [|split; [|split; [done|split; [done|split; [|split; [|done]]]]]].
  - destruct Hinv as [Hp Hpart Hd Hbk Hs]. split; simpl; try done.
    + rewrite <- Hpart, (all_resting_new _ _ _ HQ), resting_empty. done.
    + intros id'. destruct (decide (id' = id)) as [->|]; [by rewrite !lookup_insert_eq|].
      by rewrite !lookup_insert_ne.
    + intros id' b1 q1. destruct (decide (id' = id)) as [->|].
      * rewrite !lookup_insert_eq. by intros; simplify_eq.
      * rewrite !lookup_insert_ne by done. apply Hbk.
  - intros f Hf id' b1 q1. simpl. destruct (decide (id' = id)) as [->|].
    + rewrite !lookup_insert_eq. intros; simplify_eq. by apply holds_empty.
    + rewrite !lookup_insert_ne by done. apply Hf.
  - simpl. by rewrite lookup_insert_eq.
  - intros id' Hid'. simpl. apply lookup_insert_ne. intros <-. destruct Hid' as [?|[? ?]]; congruence.
Qed.

(** [reset_state()]: every slot is free again and every book empty. *)
Lemma reset_state_spec L fs Q e :
  eng_inv L fs Q e ->
  exists e' Q', reset_state Capacity e = Ok e' /\
    eng_inv [] (seq (storage_ (e_pool e)) Capacity) Q' e' /\ all_resting Q' = [] /\
    (forall f, eng_has f Q' e') /\ e_outbound e' = e_outbound e /\ e_inbound e' = e_inbound e.
Proof.
  intros Hinv. pose proof (ei_pool _ _ _ _ _ Hinv) as Hp.
  destruct (build_freelist_rep Capacity (e_heap e) (e_pool e)) as (h' & p' & E & Hst & Hp' & _);
    [apply Hp|apply Hp|]. unfold reset_state, OrderPool.reset. rewrite E. cbn [bind].
  set (Q' := (fun b => empty_queues (nlevels b)) <$> e_books e).
  assert (all_resting Q' = []) as Hnone.
  { apply concat_all_nil. intros i ps Hi. unfold Q' in Hi. rewrite map_to_list_fmap in Hi.
    apply list_lookup_fmap_Some in Hi as (kv & -> & Hi).
    apply list_lookup_fmap_Some in Hi as (kb & -> & _). apply resting_empty. }
  assert (forall id b q, (OrderBook.clear <$> e_books e) !! id = Some b -> Q' !! id = Some q ->
    book_rep h' b q /\ forall f, holds f h' b q) as Hbooks.
  { intros id b q. unfold Q'. rewrite !lookup_fmap. destruct (e_books e !! id) as [b0|] eqn:Hb; [|done].
    intros; simplify_eq/=. destruct (eng_book_at _ _ _ _ _ _ _ Hinv Hb) as (q0 & _ & Hr).
    destruct (clear_spec _ h' _ _ Hr) as (Hr' & Ha & _). split; [done|]. intros f. by apply holds_empty. }
  eexists _, Q'. split; [done|]. split; [|split; [done|split; [|done]]].
  - split; simpl; try done.
    + rewrite Hnone, Hst, !app_nil_r. done.
    + intros id. unfold Q'. rewrite !lookup_fmap. by rewrite !fmap_is_Some.
    + intros id b q Hb Hq. by eapply Hbooks.
    + apply Hinv.
  - intros f id b q Hb Hq. simpl in *. by eapply Hbooks.
Qed.

(** ** Reachable states

    The engine thread's calls, interleaved with the decoder thread's pushes
    into the inbound ring (capacity [N]) and with the outbound thread taking
    reports out. *)
Inductive reachable (N : Z) : Engine S -> Prop :=
| reach_new mmap h zero outbound e :
    has_single_bit N -> Z.of_nat Capacity * sizeof_Order < 2 ^ 64 -> sink_ok outbound ->
    MatchingEngine_new Capacity mmap (SPSCQueue_new N zero) outbound h = Ok (inl e) ->
    reachable N e
| reach_instrument e id mn mx tick e' :
    reachable N e -> grid_ok mn mx tick -> add_instrument id mn mx tick e = Ok e' ->
    reachable N e'
| reach_submit e msg e' :
    reachable N e -> in_u32 (im_quantity msg) ->
    submit Capacity clock_gettime msg e = Ok e' -> reachable N e'
| reach_poll e m e' n :
    reachable N e -> 0 <= m -> poll Capacity clock_gettime N m e = Ok (e', n) -> reachable N e'
| reach_reset e e' :
    reachable N e -> reset_state Capacity e = Ok e' -> reachable N e'
| reach_inbound e msg q ok :
    reachable N e -> in_u32 (im_quantity msg) -> try_push N (e_inbound e) msg = Ok (q, ok) ->
    reachable N (set_inbound q e)
| reach_outbound e s :
    reachable N e -> sink_ok s -> sink_log s = sink_log (e_outbound e) ->
    reachable N (set_outbound s e).

(** The invariant of reachable states. *)
Definition good (N : Z) e : Prop :=
  exists L fs Q xs, eng_inv L fs Q e /\ eng_has Uncrossed Q e /\
    ring_rep N (e_inbound e) xs /\ Forall (fun msg => in_u32 (im_quantity msg)) xs.

Lemma good_step_submit N e msg :
  asserts_enabled = false -> good N e -> in_u32 (im_quantity msg) ->
  exists e', submit Capacity clock_gettime msg e = Ok e' /\ good N e'.
Proof.
  intros Hrel (L & fs & Q & xs & Hinv & Hu & Hr & Hx) Hm.
  destruct (dispatch_step L fs Q e msg Hinv Hm) as (e1 & L1 & fs1 & Q1 & E1 & Hst); [congruence|].
  unfold submit. rewrite E1. cbn [bind]. eexists. split; [done|].
  pose proof (st_inv _ _ _ _ _ _ _ _ _ Hst) as Hinv1.
  exists L1, fs1, Q1, xs. split_and!; try done.
  - by eapply eng_inv_same; [|apply Hinv1|exact Hinv1].
  - apply (eng_has_same _ _ e1); [done|]. by apply (st_facet _ _ _ _ _ _ _ _ _ Hst).
  - simpl. by rewrite (st_inbound _ _ _ _ _ _ _ _ _ Hst).
Qed.

Lemma good_step_poll N e m :
  asserts_enabled = false -> good N e -> 0 <= m ->
  exists e' n, poll Capacity clock_gettime N m e = Ok (e', n) /\ good N e'.
Proof.
  intros Hrel (L & fs & Q & xs & Hinv & Hu & Hr & Hx) Hm.
  destruct (poll_dispatch N e xs m Hr Hm) as (q' & Hr' & ->).
  set (k := Z.to_nat (Z.min m 64)) in *.
  assert (eng_inv L fs Q (set_inbound q' e)) as Hinv0
    by (by eapply eng_inv_same; [|apply Hinv|exact Hinv]).
  destruct (dispatch_all_step (take k xs) L fs Q (set_inbound q' e) Hrel Hinv0)
    as (e1 & L1 & fs1 & Q1 & -> & Hinv1 & Hi & _ & _ & Hu1); [by apply Forall_take|].
  cbn [bind]. eexists _, _. split; [done|]. exists L1, fs1, Q1, (drop k xs). split_and!; try done.
  - by eapply eng_inv_same; [|apply Hinv1|exact Hinv1].
  - apply (eng_has_same _ _ e1); [done|]. apply Hu1. by apply (eng_has_same _ _ e).
  - simpl. by rewrite Hi.
  - by apply Forall_drop.
Qed.

Lemma good_new N mmap h zero outbound e :
  has_single_bit N -> Z.of_nat Capacity * sizeof_Order < 2 ^ 64 -> sink_ok outbound ->
  MatchingEngine_new Capacity mmap (SPSCQueue_new N zero) outbound h = Ok (inl e) -> good N e.
Proof.
  intros HN Hcap Hs E.
  destruct (MatchingEngine_new_spec mmap (SPSCQueue_new N zero) outbound h Hcap Hs)
    as [E'|(e' & base & E' & Hinv & Hi & _)]; rewrite E' in E; simplify_eq.
  exists [], (seq base Capacity), ∅, []. split_and!; try done. rewrite Hi. by apply SPSCQueue_new_rep.
Qed.

Lemma reachable_good N e : asserts_enabled = false -> reachable N e -> good N e.
Proof.
  intros Hrel. induction 1 as [mmap h zero outbound e HN Hcap Hs E
    |e id mn mx tick e' _ IH Hg E|e msg e' _ IH Hm E|e m e' n _ IH Hm E|e e' _ IH E
    |e msg q ok _ IH Hm E|e s _ IH Hs Hl].
  - by eapply good_new.
  - destruct IH as (L & fs & Q & xs & Hinv & Hu & Hr & Hx).
    destruct (add_instrument_spec L fs Q e id mn mx tick Hinv Hg)
      as (e1 & Q1 & E1 & Hinv1 & Hf & _ & Hi & _). assert (e1 = e') as -> by congruence.
    exists L, fs, Q1, xs. rewrite Hi. by split_and!; auto.
  - destruct (good_step_submit N e msg Hrel IH Hm) as (e1 & E1 & Hgd). by replace e' with e1 by congruence.
  - destruct (good_step_poll N e m Hrel IH Hm) as (e1 & n1 & E1 & Hgd). by replace e' with e1 by congruence.
  - destruct IH as (L & fs & Q & xs & Hinv & Hu & Hr & Hx).
    destruct (reset_state_spec L fs Q e Hinv) as (e1 & Q1 & E1 & Hinv1 & _ & Hf & _ & Hi).
    assert (e1 = e') as -> by congruence. eexists [], _, Q1, xs. rewrite Hi. by split_and!; auto.
  - destruct IH as (L & fs & Q & xs & Hinv & Hu & Hr & Hx).
    destruct (try_push_total N (rr_pow _ _ _ Hr) (e_inbound e) xs msg Hr) as (q1 & ok1 & E1 & Hr1 & _).
    rewrite E1 in E. injection E as <- <-.
    exists L, fs, Q, (if ok1 then xs ++ [msg] else xs). split_and!; try done.
    + by eapply eng_inv_same; [|apply Hinv|exact Hinv].
    + destruct ok1; [|done]. apply Forall_app. split; [done|]. by constructor.
  - destruct IH as (L & fs & Q & xs & Hinv & Hu & Hr & Hx). exists L, fs, Q, xs.
    split_and!; try done. by eapply eng_inv_same; [| |exact Hinv].
Qed.

End run.
