(* ===== verification/EngineView.v ===== *)
(** * Reading the engine's state

    The queues of a book, the free list and the in-flight slots are
    determined by the engine: [queues_of], [free_slots] and [lost_slots]
    compute them by following the links, so statements about the engine need
    no auxiliary parameters. *)

From stdpp Require Import base numbers list gmap fin_maps sorting.
From Stdlib Require Import ZArith Lia.
From S2P Require Import Prelude.
From S2P Require Import OrderTypes.
From S2P Require Import OrderPool.
From S2P Require Import PriceLevel.
From S2P Require Import OrderIndex.
From S2P Require Import OrderBook.
From S2P Require Import OrderBookInv.
From S2P Require Import OrderBookOps.
From S2P Require Import OrderBookQueries.
From S2P Require Import BookFacets.
From S2P Require Import SPSCQueue.
From S2P Require Import Sink.
From S2P Require Import MatchingEngine.
From S2P Require Import EngineInv.
From S2P Require Import SweepSpec.
From S2P Require Import EngineSweep.
From S2P Require Import EngineMatch.
From S2P Require Import EngineHandlers.
From S2P Require Import EngineRun.

(** The addresses reached from [p] through [next], at most [fuel] of them. *)
Fixpoint chain (h : heap) (fuel : nat) (p : ptr) : list nat :=
  match fuel, p with
  | S fuel', Some a =>
      a :: match h !! a with Some o => chain h fuel' (o_next o) | None => [] end
  | _, _ => []
  end.

Definition level_queue (h : heap) (lvl : PriceLevel) : list nat := chain h (size h) (lv_head lvl).

Definition queues_of (h : heap) (b : OrderBook) : queues :=
  mkQ (level_queue h <$> bk_bid_levels b) (level_queue h <$> bk_ask_levels b).

Lemma NoDup_size (h : heap) ps :
  NoDup ps -> (forall a, a ∈ ps -> is_Some (h !! a)) -> (length ps <= size h)%nat.
Proof.
  intros Hnd Hall. rewrite <- size_dom. rewrite <- (size_list_to_set (C := gset nat)) by done.
  apply subseteq_size. intros c Hc%elem_of_list_to_set. by apply elem_of_dom, Hall.
Qed.

Lemma dseg_chain h pv ps fuel :
  dseg h pv ps None -> (length ps <= fuel)%nat -> chain h fuel (first_of ps None) = ps.
Proof.
  revert pv fuel. induction ps as [|p ps IH]; intros pv fuel Hseg Hle; [by destruct fuel|].
  destruct fuel as [|fuel]; [simpl in *; lia|].
  destruct Hseg as [(o & Ho & _ & Hn) Hseg]. simpl. rewrite Ho, Hn. f_equal.
  eapply IH; [done|]. simpl in *; lia.
Qed.

Lemma dseg_alloc h pv ps nx a : dseg h pv ps nx -> a ∈ ps -> is_Some (h !! a).
Proof.
  revert pv. induction ps as [|p ps IH]; intros pv Hseg Ha; [set_solver|].
  destruct Hseg as [(o & Ho & _) Hseg]. apply elem_of_cons in Ha as [->|Ha]; eauto.
Qed.

Lemma level_queue_rep h lvl ps : level_rep h lvl ps -> level_queue h lvl = ps.
Proof.
  intros [Hh _ Hseg Hnd]. unfold level_queue. rewrite Hh. eapply dseg_chain; [done|].
  apply NoDup_size; [done|]. intros a Ha. by eapply dseg_alloc.
Qed.

Lemma side_queue_rep mn tick buy h lvs qs :
  side_rep mn tick buy h lvs qs -> level_queue h <$> lvs = qs.
Proof.
  intros [Hlen Hlv _]. apply list_eq. intros i. rewrite list_lookup_fmap.
  destruct (lvs !! i) as [lvl|] eqn:Hl.
  - destruct (lookup_lt_is_Some_2 qs i) as [ps Hps].
    { rewrite <- Hlen. by eapply lookup_lt_Some. }
    rewrite Hps. simpl. f_equal. by apply level_queue_rep, (Hlv _ _ _ Hl Hps).
  - symmetry. apply lookup_ge_None. rewrite <- Hlen. by apply lookup_ge_None.
Qed.

Lemma queues_of_rep h b q : book_struct h b q -> queues_of h b = q.
Proof.
  intros Hst. unfold queues_of. destruct q as [qb qa]. f_equal.
  - exact (side_queue_rep _ _ _ _ _ _ (bs_side _ _ _ Hst true)).
  - exact (side_queue_rep _ _ _ _ _ _ (bs_side _ _ _ Hst false)).
Qed.

(** The resting orders of an instrument's side, by priority. *)
Definition orders {S} (e : Engine S) (id : Z) (buy : bool) : list Order :=
  match e_books e !! id with
  | Some b => side_view (e_heap e) (queues_of (e_heap e) b) buy
  | None => []
  end.

(** The slots of the pool that are free, resting in a book, or neither. *)
Definition free_slots {S} (e : Engine S) : list nat :=
  chain (e_heap e) (size (e_heap e)) (freelist_head_ (e_pool e)).
Definition resting_slots {S} (e : Engine S) : list nat :=
  all_resting (queues_of (e_heap e) <$> e_books e).

Lemma freelist_chain h hd fs fuel :
  freelist h hd fs -> (length fs <= fuel)%nat -> chain h fuel hd = fs.
Proof.
  revert hd fuel. induction fs as [|a fs IH]; intros hd fuel Hl Hle; simpl in *.
  { subst. by destruct fuel. }
  destruct Hl as (-> & o & Ho & Hl). destruct fuel as [|fuel]; [lia|].
  simpl. rewrite Ho. f_equal. apply IH; [done|lia].
Qed.

Section view.
Context `{Build} {S : Type} `{Sink ExecutionReport S} (Capacity : nat).
Implicit Types (e : Engine S) (Q : gmap Z queues) (fs L : list nat).

#[local] Abbreviation eng_inv := (eng_inv Capacity).

Lemma eng_inv_queues L fs Q e : eng_inv L fs Q e -> Q = queues_of (e_heap e) <$> e_books e.
Proof.
  intros Hinv. apply map_eq. intros id. rewrite lookup_fmap.
  destruct (e_books e !! id) as [b|] eqn:Hb.
  - destruct (eng_book_at _ _ _ _ _ _ _ Hinv Hb) as (q & -> & Hr). simpl.
    by rewrite (queues_of_rep _ _ _ (br_struct _ _ _ Hr)).
  - apply eq_None_not_Some. rewrite <- (ei_dom _ _ _ _ _ Hinv), Hb. by intros [? ?].
Qed.

Lemma eng_inv_resting L fs Q e : eng_inv L fs Q e -> resting_slots e = all_resting Q.
Proof. intros Hinv. unfold resting_slots. by rewrite <- (eng_inv_queues _ _ _ _ Hinv). Qed.

Lemma eng_inv_free L fs Q e : eng_inv L fs Q e -> free_slots e = fs.
Proof.
  intros Hinv. pose proof (ei_pool _ _ _ _ _ Hinv) as Hp.
  eapply freelist_chain; [apply Hp|]. apply NoDup_size; [apply Hp|].
  intros a Ha. destruct (eng_alloc _ _ _ _ _ a Hinv) as [o ->]; [set_solver|by eexists].
Qed.

(** Every slot of the slab is free, resting or lost. *)
Lemma eng_inv_slots L fs Q e :
  eng_inv L fs Q e ->
  (length (free_slots e) + length (resting_slots e) + length L = Capacity)%nat.
Proof.
  intros Hinv. rewrite (eng_inv_free _ _ _ _ Hinv), (eng_inv_resting _ _ _ _ Hinv).
  pose proof (Permutation_length (ei_part _ _ _ _ _ Hinv)) as Hp.
  rewrite !length_app, length_seq in Hp. lia.
Qed.

Lemma eng_inv_orders L fs Q e id b q buy :
  eng_inv L fs Q e -> e_books e !! id = Some b -> Q !! id = Some q ->
  orders e id buy = side_view (e_heap e) q buy.
Proof.
  intros Hinv Hb HQ. unfold orders. rewrite Hb.
  by rewrite (queues_of_rep _ _ _ (br_struct _ _ _ (ei_book _ _ _ _ _ Hinv _ _ _ Hb HQ))).
Qed.

(** ** Reachable states *)

(** A facet of every book, in terms of the engine alone. *)
Definition books_have (f : facet) e : Prop :=
  forall id b, e_books e !! id = Some b -> holds f (e_heap e) b (queues_of (e_heap e) b).

Lemma books_have_inv f L fs Q e : eng_inv L fs Q e -> books_have f e <-> eng_has f Q e.
Proof.
  intros Hinv. rewrite (eng_inv_queues _ _ _ _ Hinv). split.
  - intros Hh id b q Hb Hq. rewrite lookup_fmap, Hb in Hq. simplify_eq/=. exact (Hh id b Hb).
  - intros Hh id b Hb. apply (Hh id); [done|]. by rewrite lookup_fmap, Hb.
Qed.

End view.
