(* ===== verification/EngineSink.v ===== *)
(** * The engine does not depend on its queues

    The same handler run on two engines that differ in the kind of outbound
    queue, in what the queues hold and in the message counter does the same to
    the rest of the state, fails in the same way, and posts the same reports
    in the same order.  So an engine that posts into a ring shared with
    another thread can be studied through one that posts into a list. *)

From stdpp Require Import base numbers list gmap fin_maps.
From Stdlib Require Import ZArith Lia.
From S2P Require Import Prelude.
From S2P Require Import OrderTypes.
From S2P Require Import OrderPool.
From S2P Require Import OrderBook.
From S2P Require Import OrderBookQueries.
From S2P Require Import SPSCQueue.
From S2P Require Import Sink.
From S2P Require Import MatchingEngine.

(** Two runs that end alike: the same fault, or related values. *)
Definition alike {A B} (R : A -> B -> Prop) (x : res A) (y : res B) : Prop :=
  match x, y with
  | Ok a, Ok b => R a b
  | Err f, Err g => f = g
  | _, _ => False
  end.

Lemma alike_bind {A B C D} (R : A -> B -> Prop) (T : C -> D -> Prop) x y f g :
  alike R x y -> (forall a b, R a b -> alike T (f a) (g b)) -> alike T (bind x f) (bind y g).
Proof. destruct x, y; simpl; auto; try done. Qed.

(** A step that both runs make on the same data. *)
Lemma alike_step {A C D} (T : C -> D -> Prop) (x : res A) f g :
  (forall a, x = Ok a -> alike T (f a) (g a)) -> alike T (bind x f) (bind x g).
Proof. destruct x; simpl; auto. Qed.

Section sinks.
Context `{Build} {S1 S2 : Type} `{Sink ExecutionReport S1} `{Sink ExecutionReport S2}.
Context (Capacity : nat) (clock_gettime : nat -> Z * Z).

(** Where the two engines started: their reports, inbound queues and message
    counters. *)
Context (l1 l2 : list ExecutionReport) (q1 q2 : InboundQueue) (p1 p2 : Z).

Record same (e1 : Engine S1) (e2 : Engine S2) : Prop := {
  sa_heap : e_heap e2 = e_heap e1;
  sa_pool : e_pool e2 = e_pool e1;
  sa_books : e_books e2 = e_books e1;
  sa_fills : e_fills_executed e2 = e_fills_executed e1;
  sa_rejected : e_orders_rejected e2 = e_orders_rejected e1;
  sa_clock : e_clock_reads e2 = e_clock_reads e1;
  sa_in1 : e_inbound e1 = q1;
  sa_in2 : e_inbound e2 = q2;
  sa_proc1 : e_orders_processed e1 = p1;
  sa_proc2 : e_orders_processed e2 = p2;
  sa_ok1 : sink_ok (e_outbound e1);
  sa_ok2 : sink_ok (e_outbound e2);
  sa_log : exists R, sink_log (e_outbound e1) = l1 ++ R /\ sink_log (e_outbound e2) = l2 ++ R
}.

(** Reads of the second engine's shared fields become reads of the first's. *)
Ltac share Hs :=
  unfold get_book, book_for; cbn [e_heap e_books e_pool set_heap set_mem set_book];
  rewrite ?(sa_heap _ _ Hs), ?(sa_books _ _ Hs), ?(sa_pool _ _ Hs).

(** Engines that make the same assignment stay alike. *)
Ltac same_set Hs := destruct Hs; split; simpl; try done; try congruence.

Lemma same_heap h e1 e2 : same e1 e2 -> same (set_heap h e1) (set_heap h e2).
Proof. intros Hs. same_set Hs. Qed.
Lemma same_mem h p e1 e2 : same e1 e2 -> same (set_mem h p e1) (set_mem h p e2).
Proof. intros Hs. same_set Hs. Qed.
Lemma same_book id b e1 e2 : same e1 e2 -> same (set_book id b e1) (set_book id b e2).
Proof. intros Hs. same_set Hs. Qed.
Lemma same_fill e1 e2 : same e1 e2 -> same (add_fill e1) (add_fill e2).
Proof. intros Hs. same_set Hs. Qed.
Lemma same_rejected e1 e2 : same e1 e2 -> same (add_rejected e1) (add_rejected e2).
Proof. intros Hs. same_set Hs. Qed.
Lemma same_tick e1 e2 : same e1 e2 -> same (tick_clock e1) (tick_clock e2).
Proof. intros Hs. same_set Hs. Qed.

#[local] Hint Resolve same_heap same_mem same_book same_fill same_rejected same_tick : core.

Lemma post_alike mk e1 e2 :
  same e1 e2 -> alike same (post clock_gettime e1 mk) (post clock_gettime e2 mk).
Proof.
  intros Hs. unfold post, now_ns. rewrite (sa_clock _ _ Hs).
  set (r := mk _).
  destruct (sink_push_ok r _ (sa_ok1 _ _ Hs)) as (s1 & E1 & Hk1 & Hl1).
  destruct (sink_push_ok r _ (sa_ok2 _ _ Hs)) as (s2 & E2 & Hk2 & Hl2).
  cbn [e_outbound tick_clock]. rewrite E1, E2. simpl.
  destruct Hs, sa_log0 as (R & HR1 & HR2). split; simpl; try done; try congruence.
  exists (R ++ [r]). by rewrite Hl1, Hl2, HR1, HR2, !app_assoc.
Qed.

Lemma pool_release_alike o e1 e2 :
  same e1 e2 -> alike same (pool_release Capacity e1 o) (pool_release Capacity e2 o).
Proof.
  intros Hs. unfold pool_release. share Hs. apply alike_step. intros [h p] _. simpl. auto.
Qed.

(** Continuing with a report, or with a release. *)
Lemma post_then {C D} (T : C -> D -> Prop) mk e1 e2 f g :
  same e1 e2 -> (forall e1' e2', same e1' e2' -> alike T (f e1') (g e2')) ->
  alike T (bind (post clock_gettime e1 mk) f) (bind (post clock_gettime e2 mk) g).
Proof. intros Hs Hk. eapply alike_bind; [by apply post_alike|done]. Qed.

Lemma release_then {C D} (T : C -> D -> Prop) o e1 e2 f g :
  same e1 e2 -> (forall e1' e2', same e1' e2' -> alike T (f e1') (g e2')) ->
  alike T (bind (pool_release Capacity e1 o) f) (bind (pool_release Capacity e2 o) g).
Proof. intros Hs Hk. eapply alike_bind; [by apply pool_release_alike|done]. Qed.

(** Both go on, or both stop. *)
Definition same_opt (x : option (Engine S1)) (y : option (Engine S2)) : Prop :=
  match x, y with
  | Some e1, Some e2 => same e1 e2
  | None, None => True
  | _, _ => False
  end.

Lemma sweep_body_alike price_ok id agg e1 e2 :
  same e1 e2 -> alike same_opt (sweep_body Capacity clock_gettime price_ok id agg e1)
                               (sweep_body Capacity clock_gettime price_ok id agg e2).
Proof.
  intros Hs. unfold sweep_body. share Hs.
  apply alike_step. intros ao _. apply alike_step. intros b _. apply alike_step. intros [lvl|] _; [|done].
  destruct (negb _); [done|]. apply alike_step. intros _ _. apply alike_step. intros ro _.
  apply alike_step. intros h1 _. apply alike_step. intros [[h2 b1] full] _.
  cbn [e_heap add_fill set_book set_heap].
  apply alike_step. intros ro1 _. apply alike_step. intros ao1 _.
  apply post_then; [by auto|]. intros f1 f2 Hf. apply post_then; [done|]. intros g1 g2 Hg.
  destruct full; [|done]. apply release_then; [done|]. done.
Qed.

Lemma do_sweep_alike fuel price_ok id agg e1 e2 :
  same e1 e2 -> alike same (do_sweep Capacity clock_gettime fuel price_ok id agg e1)
                           (do_sweep Capacity clock_gettime fuel price_ok id agg e2).
Proof.
  revert e1 e2. induction fuel as [|fuel IH]; intros e1 e2 Hs; cbn [do_sweep]; [done|].
  share Hs. apply alike_step. intros ao _. destruct (negb _); [done|].
  eapply alike_bind; [by apply sweep_body_alike|]. intros [f1|] [f2|] Hf; try done. by apply IH.
Qed.

Lemma sweep_limit_alike id agg e1 e2 :
  same e1 e2 -> alike same (sweep_limit Capacity clock_gettime id agg e1)
                           (sweep_limit Capacity clock_gettime id agg e2).
Proof.
  intros Hs. unfold sweep_limit, sweep_fuel. share Hs. apply alike_step. intros ao _.
  by apply do_sweep_alike.
Qed.

(** What market and IOC orders do after their sweep. *)
Lemma discard_alike agg e1 e2 :
  same e1 e2 ->
  alike same
    (let* ao := load (e_heap e1) (Some agg) in
     let* e2' := if o_quantity ao >? 0
                 then post_cancel_ack clock_gettime e1 (o_order_id ao) (o_quantity ao) else Ok e1 in
     pool_release Capacity e2' (Some agg))
    (let* ao := load (e_heap e2) (Some agg) in
     let* e2' := if o_quantity ao >? 0
                 then post_cancel_ack clock_gettime e2 (o_order_id ao) (o_quantity ao) else Ok e2 in
     pool_release Capacity e2' (Some agg)).
Proof.
  intros Hs. share Hs. apply alike_step. intros ao _. destruct (_ >? _).
  - apply post_then; [done|]. intros f1 f2 Hf. by apply pool_release_alike.
  - by apply pool_release_alike.
Qed.

Lemma match_limit_alike id agg e1 e2 :
  same e1 e2 -> alike same (match_limit Capacity clock_gettime id agg e1)
                           (match_limit Capacity clock_gettime id agg e2).
Proof.
  intros Hs. unfold match_limit. eapply alike_bind; [by apply sweep_limit_alike|].
  intros f1 f2 Hf. share Hf. apply alike_step. intros ao _. destruct (_ >? _).
  - apply alike_step. intros b _. apply alike_step. intros [h b1] _. simpl. auto.
  - by apply pool_release_alike.
Qed.

Lemma match_market_alike id agg e1 e2 :
  same e1 e2 -> alike same (match_market Capacity clock_gettime id agg e1)
                           (match_market Capacity clock_gettime id agg e2).
Proof.
  intros Hs. unfold match_market, sweep_fuel. rewrite (sa_heap _ _ Hs).
  eapply alike_bind; [by apply do_sweep_alike|]. intros f1 f2 Hf. by apply discard_alike.
Qed.

Lemma match_ioc_alike id agg e1 e2 :
  same e1 e2 -> alike same (match_ioc Capacity clock_gettime id agg e1)
                           (match_ioc Capacity clock_gettime id agg e2).
Proof.
  intros Hs. unfold match_ioc. eapply alike_bind; [by apply sweep_limit_alike|].
  intros f1 f2 Hf. by apply discard_alike.
Qed.

Lemma match_fok_alike id agg e1 e2 :
  same e1 e2 -> alike same (match_fok Capacity clock_gettime id agg e1)
                           (match_fok Capacity clock_gettime id agg e2).
Proof.
  intros Hs. unfold match_fok. share Hs. apply alike_step. intros ao _.
  apply alike_step. intros b _. apply alike_step. intros avail _. destruct (_ <? _).
  - apply post_then; [done|]. intros f1 f2 Hf. apply release_then; [done|]. simpl. auto.
  - eapply alike_bind; [by apply sweep_limit_alike|]. intros f1 f2 Hf. share Hf.
    apply alike_step. intros ao1 _. apply alike_step. intros _ _. by apply pool_release_alike.
Qed.

(** ** Handlers *)

Lemma handle_new_order_alike msg e1 e2 :
  same e1 e2 -> alike same (handle_new_order Capacity clock_gettime msg e1)
                           (handle_new_order Capacity clock_gettime msg e2).
Proof.
  intros Hs. unfold handle_new_order. share Hs. destruct (e_books e1 !! _).
  2: { apply post_then; [done|]. simpl. auto. }
  apply alike_step. intros [[h p] [a|]] _.
  2: { apply post_then; [by auto|]. simpl. auto. }
  unfold now_ns. cbn [e_heap e_clock_reads set_mem tick_clock]. rewrite (sa_clock _ _ Hs).
  apply alike_step. intros h2 _. cbn [e_heap set_heap]. apply alike_step. intros ord _.
  destruct (o_type ord).
  - apply match_limit_alike. auto.
  - apply match_market_alike. auto.
  - apply match_ioc_alike. auto.
  - apply match_fok_alike. auto.
  - apply post_then; [by auto|]. intros f1 f2 Hf. apply release_then; [done|]. simpl. auto.
Qed.

Lemma handle_cancel_alike msg e1 e2 :
  same e1 e2 -> alike same (handle_cancel Capacity clock_gettime msg e1)
                           (handle_cancel Capacity clock_gettime msg e2).
Proof.
  intros Hs. unfold handle_cancel. share Hs. destruct (e_books e1 !! _) eqn:Eb; [|done].
  apply alike_step. intros b _. destruct (find_order b _) as [a|]; [|done].
  apply alike_step. intros ord _. apply alike_step. intros [h b1] _. cbn [e_heap set_book set_heap].
  apply alike_step. intros ord1 _. apply post_then; [by auto|]. intros f1 f2 Hf.
  by apply pool_release_alike.
Qed.

Lemma dispatch_alike msg e1 e2 :
  same e1 e2 -> alike same (dispatch Capacity clock_gettime msg e1)
                           (dispatch Capacity clock_gettime msg e2).
Proof.
  intros Hs. unfold dispatch. destruct (im_kind msg); [|by apply handle_cancel_alike..|done].
  by apply handle_new_order_alike.
Qed.

Lemma dispatch_all_alike batch e1 e2 :
  same e1 e2 -> alike same (dispatch_all Capacity clock_gettime batch e1)
                           (dispatch_all Capacity clock_gettime batch e2).
Proof.
  revert e1 e2. induction batch as [|msg batch IH]; intros e1 e2 Hs; cbn [dispatch_all]; [done|].
  eapply alike_bind; [by apply dispatch_alike|]. intros f1 f2 Hf. by apply IH.
Qed.

End sinks.

(** The engine with an empty list in place of its outbound queue. *)
Definition to_log {S} (e : Engine S) : Engine (list ExecutionReport) :=
  mkEngine (e_heap e) (e_pool e) (e_books e) (e_inbound e) [] (e_orders_processed e)
    (e_fills_executed e) (e_orders_rejected e) (e_clock_reads e).

Lemma same_to_log {S} `{Sink ExecutionReport S} (e : Engine S) :
  sink_ok (e_outbound e) ->
  same (sink_log (e_outbound e)) [] (e_inbound e) (e_inbound e)
    (e_orders_processed e) (e_orders_processed e) e (to_log e).
Proof. intros Hs. split; try done. exists []. by rewrite app_nil_r. Qed.

Lemma same_logged {S} `{Sink ExecutionReport S} l q p (e : Engine S) (el : Engine (list ExecutionReport)) :
  same l [] q q p p e el -> to_log e = to_log el /\ sink_log (e_outbound e) = l ++ e_outbound el.
Proof.
  intros [? ? ? ? ? ? ? ? ? ? _ _ (R & HR1 & HR2)]. split.
  - unfold to_log. congruence.
  - change (e_outbound el = R) in HR2. by rewrite HR1, HR2.
Qed.

(** The engine does not depend on the queue it posts to: over any queue
    that takes every report and keeps their order, [poll] leaves the same
    books, pool and counters, posts the same reports in the same order, and
    fails in the same way, as over a plain list; in Debug builds too. *)
Theorem engine_queue_independent `{Build} {S} `{Sink ExecutionReport S} (Capacity : nat)
  (clock_gettime : nat -> Z * Z) (N max_batch : Z) (e : Engine S) :
  sink_ok (e_outbound e) ->
  match poll Capacity clock_gettime N max_batch (to_log e) with
  | Ok (el, n) => exists e', poll Capacity clock_gettime N max_batch e = Ok (e', n) /\
      to_log e' = to_log el /\ sink_log (e_outbound e') = sink_log (e_outbound e) ++ e_outbound el
  | Err f => poll Capacity clock_gettime N max_batch e = Err f
  end.
Proof.
  intros Hs. unfold poll. change (e_inbound (to_log e)) with (e_inbound e).
  destruct (try_pop_batch N (e_inbound e) _) as [[q batch]|f]; [|done]. cbn [bind].
  pose proof (dispatch_all_alike Capacity clock_gettime _ _ _ _ _ _ batch _ _
    (same_to_log (set_inbound q e) Hs)) as Ha.
  change (to_log (set_inbound q e)) with (set_inbound q (to_log e)) in Ha.
  destruct (dispatch_all _ _ batch (set_inbound q e)) as [e1|],
    (dispatch_all _ _ batch (set_inbound q (to_log e))) as [el|]; cbn in *; try done; [|congruence].
  destruct (same_logged _ _ _ _ _ Ha) as [E Hl]. eexists. split; [done|]. split; [|done].
  unfold to_log, add_processed in *. cbn. congruence.
Qed.
