(* ===== verification/EngineTypes.v ===== *)
(** * The declared types

    A C++ integer is a [Z] here, so that an object holds a value its declared
    type can hold is a theorem: every assignment the engine makes keeps each
    member of each order, price level, book and counter, and of each report
    posted, within its width.  The same pass over the code shows that the
    engine maps and unmaps nothing ([heap_ok], [ok_pool]).

    Statements use [ensures P m]: if [m] returns, [P] holds of the
    result.  That the engine does return is [submit_safe]. *)

From stdpp Require Import base numbers list gmap fin_maps.
From Stdlib Require Import ZArith Lia.
From S2P Require Import Prelude.
From S2P Require Import OrderTypes.
From S2P Require Import OrderPool.
From S2P Require Import PriceLevel.
From S2P Require Import OrderIndex.
From S2P Require Import OrderBook.
From S2P Require Import OrderBookQueries.
From S2P Require Import SPSCQueue.
From S2P Require Import Sink.
From S2P Require Import MatchingEngine.

Definition ensures {A} (P : A -> Prop) (m : res A) : Prop :=
  match m with Ok a => P a | Err _ => True end.

Lemma ensures_Ok {A} (P : A -> Prop) m a : ensures P m -> m = Ok a -> P a.
Proof. intros HP ->. exact HP. Qed.

Lemma ensures_bind {A B} (P : A -> Prop) (Q : B -> Prop) m f :
  ensures P m -> (forall a, P a -> ensures Q (f a)) -> ensures Q (bind m f).
Proof. destruct m; cbn; auto. Qed.

(** Going on after a part whose result has no type to keep. *)
Lemma ensures_any {A B} (Q : B -> Prop) (m : res A) f :
  (forall a, ensures Q (f a)) -> ensures Q (bind m f).
Proof. destruct m; cbn; auto. Qed.

(** ** Types *)

Definition side_ok (s : Side) : Prop :=
  match s with SideRaw v => 2 <= v < 2 ^ 8 | _ => True end.
Definition type_ok (t : OrderType) : Prop :=
  match t with TypeRaw v => 4 <= v < 2 ^ 8 | _ => True end.

Record order_ok (o : Order) : Prop := {
  ok_id : in_u64 (o_order_id o);
  ok_price : in_i64 (o_price o);
  ok_timestamp : in_u64 (o_timestamp_ns o);
  ok_quantity : in_u32 (o_quantity o);
  ok_orig : in_u32 (o_orig_quantity o);
  ok_instrument : in_u32 (o_instrument_id o);
  ok_side : side_ok (o_side o);
  ok_type : type_ok (o_type o);
  ok_pad : in_u8 (o_pad0 o);
  ok_client : in_u64 (o_client_id o);
  ok_reserved : in_u64 (o_reserved o)
}.

Definition orders_ok (h : heap) : Prop := map_Forall (fun _ => order_ok) h.

(** The region [mmap] gave, its address and its length in bytes, and the
    addresses of the orders in it. *)
Record region : Type := mkRegion { rg_base : nat; rg_bytes : Z }.
Definition slab_of (p : OrderPool) : region := mkRegion (storage_ p) (bytes_allocated_ p).
Definition slots_of (s : region) : gset nat :=
  list_to_set (seq (rg_base s) (Z.to_nat (rg_bytes s / sizeof_Order))).

Definition level_ok (lvl : PriceLevel) : Prop :=
  in_i64 (lv_price lvl) /\ in_u32 (lv_total_qty lvl) /\ in_u32 (lv_order_count lvl).

Definition levels_ok (l : list PriceLevel) : Prop :=
  Forall level_ok l /\ Z.of_nat (length l) < 2 ^ 64.

Record book_ok (b : OrderBook) : Prop := {
  ok_bids : levels_ok (bk_bid_levels b);
  ok_asks : levels_ok (bk_ask_levels b);
  ok_best_bid : in_u64 (bk_best_bid_idx b);
  ok_best_ask : in_u64 (bk_best_ask_idx b)
}.

Section operations.
Context `{Build}.

(** The addresses that are mapped, and the pool's region, which no operation
    of the engine changes. *)
Context (D : gset nat) (slab : region).

Record heap_ok (h : heap) : Prop := { ok_orders : orders_ok h; ok_dom : dom h = D }.

(** The results of the functions that return a store and something else. *)
Definition heap_level_ok (x : heap * PriceLevel) : Prop := heap_ok x.1 /\ level_ok x.2.
Definition heap_book_ok (x : heap * OrderBook) : Prop := heap_ok x.1 /\ book_ok x.2.
Definition heap_pool_ok (x : heap * OrderPool) : Prop := heap_ok x.1 /\ slab_of x.2 = slab.

(** ** Ranges *)

Lemma in_u32_0 : in_u32 0.
Proof. unfold in_u32. lia. Qed.
Lemma in_u64_0 : in_u64 0.
Proof. unfold in_u64. lia. Qed.
Lemma in_u8_0 : in_u8 0.
Proof. unfold in_u8. lia. Qed.
Lemma in_i64_0 : in_i64 0.
Proof. unfold in_i64. lia. Qed.
Lemma kNoBest_ok : in_u64 kNoBest.
Proof. unfold in_u64, kNoBest, SIZE_MAX. lia. Qed.
Lemma kInvalidPrice_ok : in_i64 kInvalidPrice.
Proof. unfold in_i64, kInvalidPrice, INT64_MIN. lia. Qed.
Lemma kInvalidInstrumentId_ok : in_u32 kInvalidInstrumentId.
Proof. unfold in_u32, kInvalidInstrumentId. lia. Qed.

Lemma sub_clamp_ok x y : in_u32 (sub_clamp x y).
Proof. unfold sub_clamp. destruct (_ >=? _); [apply u32_range|apply in_u32_0]. Qed.

Lemma min_ok x y : in_u32 x -> in_u32 y -> in_u32 (Z.min x y).
Proof. unfold in_u32. lia. Qed.

Lemma Side_of_u8_ok v : in_u8 v -> side_ok (Side_of_u8 v).
Proof.
  unfold Side_of_u8, in_u8. intros Hv.
  destruct (Z.eqb_spec v 0), (Z.eqb_spec v 1); simpl; try done. lia.
Qed.

Lemma OrderType_of_u8_ok v : in_u8 v -> type_ok (OrderType_of_u8 v).
Proof.
  unfold OrderType_of_u8, in_u8. intros Hv.
  destruct (Z.eqb_spec v 0), (Z.eqb_spec v 1), (Z.eqb_spec v 2), (Z.eqb_spec v 3); simpl; try done. lia.
Qed.

Create HintDb typed.
#[local] Hint Resolve in_u32_0 in_u64_0 in_u8_0 in_i64_0 kNoBest_ok kInvalidPrice_ok
  kInvalidInstrumentId_ok sub_clamp_ok min_ok u32_range u64_range Side_of_u8_ok OrderType_of_u8_ok
  ok_id ok_price ok_quantity ok_bids ok_asks ok_best_bid ok_best_ask I conj : typed.

(** ** Orders *)

Lemma set_next_ok n o : order_ok o -> order_ok (set_next n o).
Proof. by intros []. Qed.
Lemma set_prev_ok n o : order_ok o -> order_ok (set_prev n o).
Proof. by intros []. Qed.
Lemma set_status_ok s o : order_ok o -> order_ok (set_status s o).
Proof. by intros []. Qed.
Lemma set_quantity_ok q o : in_u32 q -> order_ok o -> order_ok (set_quantity q o).
Proof. by intros ? []. Qed.

Lemma Order_reset_ok o : order_ok (Order_reset o).
Proof. split; simpl; auto with typed. Qed.
Lemma zero_Order_ok : order_ok zero_Order.
Proof. split; simpl; auto with typed. Qed.

Lemma populate_ok msg now o :
  msg_ok msg -> in_u64 now -> order_ok o -> order_ok (populate msg now o).
Proof. intros (? & ? & ? & ? & ? & ? & ?) ? []. split; simpl; auto with typed. Qed.

#[local] Hint Resolve set_next_ok set_prev_ok set_status_ok set_quantity_ok Order_reset_ok
  populate_ok : typed.

Lemma load_ok h p : heap_ok h -> ensures order_ok (load h p).
Proof.
  intros Hh. destruct p as [a|]; cbn; [|done]. destruct (h !! a) eqn:E; cbn; [|done]. by apply (ok_orders _ Hh a).
Qed.

Lemma store_ok h p f :
  heap_ok h -> (forall o, order_ok o -> order_ok (f o)) -> ensures heap_ok (store h p f).
Proof.
  intros [Hh HD] Hf. destruct p as [a|]; cbn; [|done]. destruct (h !! a) eqn:E; cbn; [|done]. split.
  - apply map_Forall_insert_2; [by apply Hf, (Hh a)|done].
  - rewrite dom_insert_L, <- HD. apply elem_of_dom_2 in E. set_solver.
Qed.

Lemma vec_at_ok {A} (P : A -> Prop) l i : Forall P l -> ensures P (vec_at l i).
Proof.
  intros Hl. unfold vec_at. destruct (_ <? _); [done|]. destruct (l !! _) eqn:E; [|done].
  cbn. by eapply Forall_lookup_1.
Qed.

Lemma mkLevel_ok hd tl p t n : in_i64 p -> in_u32 t -> in_u32 n -> level_ok (mkLevel hd tl p t n).
Proof. intros. split; [|split]; assumption. Qed.
Lemma level_price_ok lvl : level_ok lvl -> in_i64 (lv_price lvl).
Proof. by intros (? & _). Qed.
Lemma level_count_ok lvl : level_ok lvl -> in_u32 (lv_order_count lvl).
Proof. by intros (_ & _ & ?). Qed.

Lemma heap_level_ok_pair h lvl : heap_ok h -> level_ok lvl -> heap_level_ok (h, lvl).
Proof. by split. Qed.
Lemma heap_book_ok_pair h b : heap_ok h -> book_ok b -> heap_book_ok (h, b).
Proof. by split. Qed.
Lemma heap_pool_ok_pair h p : heap_ok h -> slab_of p = slab -> heap_pool_ok (h, p).
Proof. by split. Qed.

Lemma level_at_ok l i : levels_ok l -> ensures level_ok (vec_at l i).
Proof. intros [Hl _]. by apply vec_at_ok. Qed.

Lemma level_set_ok l i lvl : levels_ok l -> level_ok lvl -> ensures levels_ok (vec_set l i lvl).
Proof.
  intros [Hl Hn] Hlvl. unfold vec_set. destruct (_ || _); [done|]. cbn. split.
  - by apply Forall_insert.
  - by rewrite length_insert.
Qed.

#[local] Hint Resolve load_ok store_ok mkLevel_ok level_price_ok level_count_ok heap_level_ok_pair
  heap_book_ok_pair heap_pool_ok_pair level_at_ok level_set_ok : typed.

(** One step through a monadic body: a part the database knows, a part with
    nothing to keep, or a branch. *)
Ltac typed_step :=
  lazymatch goal with
  | |- ensures _ (bind (assert_ _) _) => apply ensures_any; intros _
  | |- ensures _ (bind (if ?c then _ else _) _) => destruct c eqn:?
  | |- ensures _ (bind (match ?c with Some _ => _ | None => _ end) _) => destruct c eqn:?
  | |- ensures _ (bind (Ok _) _) => cbn [bind]
  | |- ensures _ (bind (bind _ _) _) => unfold bind at 2
  | |- ensures _ (bind _ _) =>
      first [eapply ensures_bind; [solve [eauto 20 with typed]|]; cbn beta; intros ? ?
            |apply ensures_any; intros ?]
  | |- ensures _ (if ?c then _ else _) => destruct c eqn:?
  | |- ensures _ (match ?c with _ => _ end) => destruct c eqn:?
  | |- ensures _ (Ok _) => cbn [ensures]
  end.

Ltac split_ok := repeat match goal with
  | x : _ * _ |- _ => destruct x; cbn [fst snd] in *
  | Hx : heap_level_ok _ |- _ => destruct Hx; cbn [fst snd] in *
  | Hx : heap_book_ok _ |- _ => destruct Hx; cbn [fst snd] in *
  | Hx : heap_pool_ok _ |- _ => destruct Hx; cbn [fst snd] in *
  end.

(** Reassociation, so that each step binds one part. *)
Lemma bind_bind {A B C} (m : res A) (f : A -> res B) (g : B -> res C) :
  bind (bind m f) g = bind m (fun a => bind (f a) g).
Proof. by destruct m. Qed.

Ltac typed := repeat (rewrite ?bind_bind; typed_step; split_ok).

(** ** Price levels *)

Lemma level_enqueue_tail_ok h lvl o :
  heap_ok h -> level_ok lvl -> ensures heap_level_ok (level_enqueue_tail h lvl o).
Proof.
  intros Hh Hl. unfold level_enqueue_tail. typed; eauto with typed.
Qed.

Lemma level_dequeue_head_ok h lvl :
  heap_ok h -> level_ok lvl -> ensures (fun x => heap_level_ok x.1) (level_dequeue_head h lvl).
Proof.
  intros Hh Hl. unfold level_dequeue_head. typed; eauto with typed.
Qed.

Lemma level_remove_ok h lvl o :
  heap_ok h -> level_ok lvl -> ensures heap_level_ok (level_remove h lvl o).
Proof.
  intros Hh Hl. unfold level_remove. typed; eauto with typed.
Qed.

Lemma level_reduce_qty_ok h lvl o delta :
  heap_ok h -> level_ok lvl -> ensures heap_level_ok (level_reduce_qty h lvl o delta).
Proof.
  intros Hh Hl. unfold level_reduce_qty. typed; eauto with typed.
Qed.

#[local] Hint Resolve level_enqueue_tail_ok level_dequeue_head_ok level_remove_ok level_reduce_qty_ok : typed.

(** ** Books *)

Lemma side_levels_ok b s : book_ok b -> levels_ok (side_levels b s).
Proof. intros []. unfold side_levels. by destruct (bool_decide _). Qed.

Lemma write_level_ok b s i lvl :
  book_ok b -> level_ok lvl -> ensures book_ok (write_level b s i lvl).
Proof.
  intros Hb Hl. unfold write_level. pose proof (side_levels_ok b s Hb). typed.
  destruct Hb. unfold set_side_levels. by destruct (bool_decide _).
Qed.

Lemma set_order_index_ok m b : book_ok b -> book_ok (set_order_index m b).
Proof. by intros []. Qed.
Lemma set_best_bid_ok i b : in_u64 i -> book_ok b -> book_ok (set_best_bid_idx i b).
Proof. by intros ? []. Qed.
Lemma set_best_ask_ok i b : in_u64 i -> book_ok b -> book_ok (set_best_ask_idx i b).
Proof. by intros ? []. Qed.
Lemma set_bid_levels_ok l b : levels_ok l -> book_ok b -> book_ok (set_bid_levels l b).
Proof. by intros ? []. Qed.
Lemma set_ask_levels_ok l b : levels_ok l -> book_ok b -> book_ok (set_ask_levels l b).
Proof. by intros ? []. Qed.

#[local] Hint Resolve side_levels_ok write_level_ok set_order_index_ok set_best_bid_ok set_best_ask_ok
  set_bid_levels_ok set_ask_levels_ok : typed.

Lemma tick_to_index_ok b p : ensures in_u64 (tick_to_index b p).
Proof. unfold tick_to_index. typed. auto with typed. Qed.

(** An index that was read is within the array. *)
Lemma index_read_ok l i (x : PriceLevel) :
  levels_ok l -> vec_at l (Z.of_nat i) = Ok x -> in_u64 (Z.of_nat i).
Proof.
  intros [_ Hn]. unfold vec_at. destruct (_ <? _); [done|]. rewrite Nat2Z.id.
  destruct (l !! i) eqn:E; [|done]. apply lookup_lt_Some in E. unfold in_u64. lia.
Qed.

Lemma scan_down_ok l i : levels_ok l -> ensures in_u64 (scan_down l i).
Proof.
  intros Hl. induction i as [|i IH]; cbn [scan_down].
  - destruct (vec_at l (Z.of_nat 0)) as [x|] eqn:E; [|done]. cbn [bind].
    destruct (negb _); [by eapply index_read_ok|apply kNoBest_ok].
  - destruct (vec_at l (Z.of_nat (S i))) as [x|] eqn:E; [|done]. cbn [bind].
    destruct (negb _); [by eapply index_read_ok|done].
Qed.

Lemma scan_up_ok l k : forall i, levels_ok l -> ensures in_u64 (scan_up l i k).
Proof.
  induction k as [|k IH]; intros i Hl; cbn [scan_up]; [apply kNoBest_ok|].
  destruct (vec_at l (Z.of_nat i)) as [x|] eqn:E; [|done]. cbn [bind].
  destruct (negb _); [by eapply index_read_ok|by apply IH].
Qed.

#[local] Hint Resolve tick_to_index_ok scan_down_ok scan_up_ok : typed.

Lemma advance_best_cursor_ok b s i : book_ok b -> ensures book_ok (advance_best_cursor b s i).
Proof. intros Hb. unfold advance_best_cursor. typed; eauto with typed. Qed.

#[local] Hint Resolve advance_best_cursor_ok : typed.

Lemma add_order_ok h b o : heap_ok h -> book_ok b -> ensures heap_book_ok (add_order h b o).
Proof. intros Hh Hb. unfold add_order. typed; eauto 20 with typed. Qed.

Lemma cancel_order_ptr_ok h b o :
  heap_ok h -> book_ok b -> ensures heap_book_ok (cancel_order_ptr h b o).
Proof. intros Hh Hb. unfold cancel_order_ptr. typed; eauto 20 with typed. Qed.

Lemma fill_resting_order_ok h b rest q :
  heap_ok h -> book_ok b -> ensures (fun x => heap_book_ok x.1) (fill_resting_order h b rest q).
Proof. intros Hh Hb. unfold fill_resting_order. typed; eauto 20 with typed. Qed.

Lemma reduce_order_qty_ok h b o q :
  heap_ok h -> book_ok b -> ensures heap_book_ok (reduce_order_qty h b o q).
Proof. intros Hh Hb. unfold reduce_order_qty. typed; eauto 20 with typed. Qed.

Lemma pop_best_bid_head_ok h b :
  heap_ok h -> book_ok b -> ensures (fun x => heap_book_ok x.1) (pop_best_bid_head h b).
Proof. intros Hh Hb. unfold pop_best_bid_head. typed; eauto 20 with typed. Qed.

Lemma pop_best_ask_head_ok h b :
  heap_ok h -> book_ok b -> ensures (fun x => heap_book_ok x.1) (pop_best_ask_head h b).
Proof. intros Hh Hb. unfold pop_best_ask_head. typed; eauto 20 with typed. Qed.

#[local] Hint Resolve add_order_ok cancel_order_ptr_ok fill_resting_order_ok : typed.

Lemma levels_of_ok f l :
  (forall lvl, level_ok lvl -> level_ok (f lvl)) -> levels_ok l -> levels_ok (map f l).
Proof.
  intros Hf [Hl Hn]. split; [|by rewrite length_map]. apply Forall_fmap. by eapply Forall_impl.
Qed.

Lemma clear_ok b : book_ok b -> book_ok (OrderBook.clear b).
Proof.
  intros []. assert (forall lvl, level_ok lvl -> level_ok (clear_level lvl)) as Hc
    by (intros lvl Hl; unfold clear_level; auto with typed).
  split; cbn; auto using levels_of_ok with typed.
Qed.

(** The prices of a new book lie between its bounds. *)
Lemma OrderBook_new_ok id mn mx tick :
  0 < tick -> mn <= mx -> in_i64 mn -> in_i64 mx -> ensures book_ok (OrderBook_new id mn mx tick).
Proof.
  intros Ht Hmm Hmn Hmx. unfold OrderBook_new. do 3 (apply ensures_any; intros _).
  unfold num_levels_for, i64_sub. destruct ((_ <=? _) && _) eqn:Ew; [|done]. cbn [bind].
  rewrite (proj2 (Z.eqb_neq tick 0)) by lia. cbn [bind ensures].
  apply andb_true_iff in Ew as [_ Ew%Z.leb_le]. unfold INT64_MAX in Ew.
  rewrite Z.quot_div_nonneg by lia. pose proof (Z.mul_div_le (mx - mn) tick Ht) as Hd.
  assert (0 <= (mx - mn) / tick <= mx - mn) as Hq
    by (split; [apply Z.div_pos; lia|apply Z.div_le_upper_bound; nia]).
  rewrite !u64_id by (unfold in_u64; rewrite ?u64_id; unfold in_u64; lia).
  assert (levels_ok (map (empty_level mn tick) (seq 0 (Z.to_nat ((mx - mn) / tick + 1))))) as Hl.
  { split; [|rewrite length_map, length_seq; lia].
    apply Forall_fmap, Forall_forall. intros i [_ Hi]%elem_of_seq. unfold empty_level, compose.
    apply mkLevel_ok; [|apply in_u32_0..]. unfold in_i64 in *.
    assert (Z.of_nat i * tick <= (mx - mn) / tick * tick) by (apply Z.mul_le_mono_nonneg_r; lia). lia. }
  split; cbn; auto with typed.
Qed.

(** ** The pool *)

Lemma acquire_ok h p :
  heap_ok h -> slab_of p = slab -> ensures (fun x => heap_pool_ok x.1) (acquire h p).
Proof. intros Hh Hp. unfold acquire. typed; eauto with typed. Qed.

Lemma release_ok n h p o :
  heap_ok h -> slab_of p = slab -> ensures heap_pool_ok (release n h p o).
Proof. intros Hh Hp. unfold release. typed; eauto with typed. Qed.

Lemma build_freelist_loop_ok base i : forall h hd,
  heap_ok h -> ensures (fun x => heap_ok x.1) (build_freelist_loop base i h hd).
Proof. induction i as [|i IH]; intros h hd Hh; cbn [build_freelist_loop]; [done|]. typed. by apply IH. Qed.

Lemma build_freelist_ok n h p :
  heap_ok h -> slab_of p = slab -> ensures heap_pool_ok (build_freelist n h p).
Proof.
  intros Hh Hp. unfold build_freelist. eapply ensures_bind; [by apply build_freelist_loop_ok|].
  intros [h1 hd] Hh1. done.
Qed.

#[local] Hint Resolve acquire_ok release_ok : typed.

(** ** The engine *)

Section engine.
Context {S : Type} `{Sink ExecutionReport S} (Capacity : nat) (clock_gettime : nat -> Z * Z).
Implicit Types (e : Engine S).

Record engine_ok e : Prop := {
  ok_heap : heap_ok (e_heap e);
  ok_pool : slab_of (e_pool e) = slab;
  ok_books : map_Forall (fun _ => book_ok) (e_books e);
  ok_processed : in_u64 (e_orders_processed e);
  ok_fills : in_u64 (e_fills_executed e);
  ok_rejected : in_u64 (e_orders_rejected e);
  ok_sink : sink_ok (e_outbound e);
  ok_reports : Forall report_ok (sink_log (e_outbound e))
}.

Lemma set_heap_ok h e : heap_ok h -> engine_ok e -> engine_ok (set_heap h e).
Proof. by intros ? []. Qed.
Lemma set_mem_ok h p e : heap_ok h -> slab_of p = slab -> engine_ok e -> engine_ok (set_mem h p e).
Proof. by intros ? ? []. Qed.
Lemma set_book_ok id b e : book_ok b -> engine_ok e -> engine_ok (set_book id b e).
Proof. intros ? []. split; cbn; try done. by apply map_Forall_insert_2. Qed.
Lemma add_fill_ok e : engine_ok e -> engine_ok (add_fill e).
Proof. intros []. split; cbn; auto with typed. Qed.
Lemma add_rejected_ok e : engine_ok e -> engine_ok (add_rejected e).
Proof. intros []. split; cbn; auto with typed. Qed.
Lemma add_processed_ok n e : engine_ok e -> engine_ok (add_processed n e).
Proof. intros []. split; cbn; auto with typed. Qed.
Lemma tick_clock_ok e : engine_ok e -> engine_ok (tick_clock e).
Proof. by intros []. Qed.
Lemma set_inbound_ok q e : engine_ok e -> engine_ok (set_inbound q e).
Proof. by intros []. Qed.

#[local] Hint Resolve ok_heap ok_pool set_heap_ok set_mem_ok set_book_ok add_fill_ok add_rejected_ok
  tick_clock_ok : typed.

Lemma get_book_ok e id : engine_ok e -> ensures book_ok (get_book e id).
Proof.
  intros He. unfold get_book. destruct (e_books e !! id) eqn:E; [|done].
  exact (ok_books _ He _ _ E).
Qed.

Lemma ns_at_ok n : in_u64 (ns_at clock_gettime n).
Proof. unfold ns_at. destruct (clock_gettime n). apply u64_range. Qed.

Lemma post_ok e mk :
  engine_ok e -> (forall now, in_u64 now -> report_ok (mk now)) ->
  ensures engine_ok (post clock_gettime e mk).
Proof.
  intros [] Hmk. unfold post, now_ns. cbn [e_outbound tick_clock].
  destruct (sink_push_ok (mk (ns_at clock_gettime (e_clock_reads e))) _ ok_sink0) as (s & -> & Hs & El).
  cbn. split; cbn; try done. rewrite El. apply Forall_app. split; [done|].
  constructor; [apply Hmk, ns_at_ok|constructor].
Qed.

(** The kinds the engine posts. *)
Definition named (kind : ExKind) : Prop := match kind with ExKindRaw _ => False | _ => True end.

Lemma named_fill (full : bool) : named (if full then Fill else PartialFill).
Proof. by destruct full. Qed.

Lemma report_kind_ok kind id1 id2 p q l now :
  named kind -> in_u64 id1 -> in_u64 id2 -> in_i64 p -> in_u32 q -> in_u32 l -> in_u64 now ->
  report_ok (mkReport kind id1 id2 p q l now).
Proof. intros Hk. unfold report_ok. cbn. intros. split_and!; try done. by destruct kind. Qed.

#[local] Hint Resolve named_fill : typed.

Lemma post_report_ok e kind id1 id2 p q l :
  engine_ok e -> named kind -> in_u64 id1 -> in_u64 id2 -> in_i64 p -> in_u32 q -> in_u32 l ->
  ensures engine_ok (post_report clock_gettime e kind id1 id2 p q l).
Proof. intros. apply post_ok; [done|]. intros. by apply report_kind_ok. Qed.

Lemma post_reject_ok e id q :
  engine_ok e -> in_u64 id -> in_u32 q -> ensures engine_ok (post_reject clock_gettime e id q).
Proof. intros. apply post_ok; [done|]. intros. apply report_kind_ok; auto with typed; done. Qed.

Lemma post_cancel_ack_ok e id q :
  engine_ok e -> in_u64 id -> in_u32 q -> ensures engine_ok (post_cancel_ack clock_gettime e id q).
Proof. intros. apply post_ok; [done|]. intros. apply report_kind_ok; auto with typed; done. Qed.

Lemma pool_release_ok e o : engine_ok e -> ensures engine_ok (pool_release Capacity e o).
Proof. intros He. unfold pool_release. typed. eauto with typed. Qed.

#[local] Hint Resolve get_book_ok post_report_ok post_reject_ok post_cancel_ack_ok pool_release_ok : typed.

Lemma best_bid_ok b : book_ok b -> ensures (fun l => match l with Some l => level_ok l | None => True end) (best_bid b).
Proof. intros Hb. unfold best_bid. typed; done. Qed.
Lemma best_ask_ok b : book_ok b -> ensures (fun l => match l with Some l => level_ok l | None => True end) (best_ask b).
Proof. intros Hb. unfold best_ask. typed; done. Qed.

Lemma sweep_body_ok price_ok id agg e :
  engine_ok e ->
  ensures (fun r => match r with Some e1 => engine_ok e1 | None => True end)
    (sweep_body Capacity clock_gettime price_ok id agg e).
Proof. intros He. unfold sweep_body. typed; eauto 20 with typed. Qed.

Lemma do_sweep_ok fuel price_ok id agg : forall e,
  engine_ok e -> ensures engine_ok (do_sweep Capacity clock_gettime fuel price_ok id agg e).
Proof.
  induction fuel as [|fuel IH]; intros e He; cbn [do_sweep]; [done|].
  apply ensures_any. intros ao. destruct (negb _); [done|].
  eapply ensures_bind; [by apply sweep_body_ok|]. intros [e1|] He1; [by apply IH|done].
Qed.

Lemma sweep_limit_ok id agg e :
  engine_ok e -> ensures engine_ok (sweep_limit Capacity clock_gettime id agg e).
Proof. intros He. unfold sweep_limit. apply ensures_any. intros ao. by apply do_sweep_ok. Qed.

#[local] Hint Resolve do_sweep_ok sweep_limit_ok : typed.

Lemma match_limit_ok id agg e :
  engine_ok e -> ensures engine_ok (match_limit Capacity clock_gettime id agg e).
Proof. intros He. unfold match_limit. typed; eauto with typed. Qed.

Lemma match_market_ok id agg e :
  engine_ok e -> ensures engine_ok (match_market Capacity clock_gettime id agg e).
Proof. intros He. unfold match_market. typed; eauto with typed. Qed.

Lemma match_ioc_ok id agg e :
  engine_ok e -> ensures engine_ok (match_ioc Capacity clock_gettime id agg e).
Proof. intros He. unfold match_ioc. typed; eauto with typed. Qed.

Lemma match_fok_ok id agg e :
  engine_ok e -> ensures engine_ok (match_fok Capacity clock_gettime id agg e).
Proof. intros He. unfold match_fok. typed; eauto with typed. Qed.

#[local] Hint Resolve match_limit_ok match_market_ok match_ioc_ok match_fok_ok : typed.

Lemma handle_new_order_ok msg e :
  msg_ok msg -> engine_ok e -> ensures engine_ok (handle_new_order Capacity clock_gettime msg e).
Proof.
  intros Hm He. pose proof Hm as (? & ? & ? & _). unfold handle_new_order.
  destruct (book_for e _) as [id|]; [|typed; eauto with typed].
  eapply ensures_bind; [apply acquire_ok; by apply He|]. intros [[h p] o] [Hh Hp]. cbn in Hh, Hp.
  assert (engine_ok (set_mem h p e)) as He1 by auto with typed.
  destruct o as [a|]; [|typed; eauto with typed]. unfold now_ns.
  eapply ensures_bind.
  { apply store_ok; [by apply He1|]. intros o. apply populate_ok; [done|apply ns_at_ok]. }
  intros h2 Hh2. typed; eauto with typed.
Qed.

Lemma handle_cancel_ok msg e :
  engine_ok e -> ensures engine_ok (handle_cancel Capacity clock_gettime msg e).
Proof. intros He. unfold handle_cancel. typed; eauto with typed. Qed.

Lemma dispatch_ok msg e :
  msg_ok msg -> engine_ok e -> ensures engine_ok (dispatch Capacity clock_gettime msg e).
Proof.
  intros Hm He. unfold dispatch.
  destruct (im_kind msg); auto using handle_new_order_ok, handle_cancel_ok.
Qed.

Lemma dispatch_all_ok batch : forall e,
  Forall msg_ok batch -> engine_ok e -> ensures engine_ok (dispatch_all Capacity clock_gettime batch e).
Proof.
  induction batch as [|msg batch IH]; intros e Hb He; cbn [dispatch_all]; [done|].
  apply Forall_cons in Hb as [Hm Hb]. eapply ensures_bind; [by apply dispatch_ok|]. auto.
Qed.

Lemma submit_ok msg e :
  msg_ok msg -> engine_ok e -> ensures engine_ok (submit Capacity clock_gettime msg e).
Proof.
  intros Hm He. unfold submit. eapply ensures_bind; [by apply dispatch_ok|]. intros e1. apply add_processed_ok.
Qed.

(** ** Set-up *)

Lemma add_instrument_ok id mn mx tick e :
  0 < tick -> mn <= mx -> in_i64 mn -> in_i64 mx -> engine_ok e ->
  ensures engine_ok (add_instrument id mn mx tick e).
Proof.
  intros Ht Hm Hmn Hmx He. unfold add_instrument. eapply ensures_bind; [by apply OrderBook_new_ok|].
  intros b Hb. destruct (e_books e !! id); cbn; auto with typed.
Qed.

Lemma reset_state_ok e : engine_ok e -> ensures engine_ok (reset_state Capacity e).
Proof.
  intros He. unfold reset_state, OrderPool.reset. eapply ensures_bind; [apply build_freelist_ok; by apply He|].
  intros [h p] [Hh Hp]. destruct He. split; cbn; try done.
  intros id b. rewrite lookup_fmap. intros (b0 & Hb0 & ->)%fmap_Some. by eapply clear_ok, ok_books0.
Qed.

End engine.
End operations.

(** ** Construction *)

Lemma map_zero_ok base n h :
  orders_ok h ->
  orders_ok (map_zero base n h) /\ dom (map_zero base n h) = dom h ∪ list_to_set (seq base n).
Proof.
  intros Hh. induction n as [|n [IHo IHd]]; cbn [map_zero]; [split; [done|set_solver]|]. split.
  - apply map_Forall_insert_2; [apply zero_Order_ok|done].
  - rewrite dom_insert_L, IHd, seq_S, list_to_set_app_L. set_solver.
Qed.

Section construction.
Context `{Build} {S : Type} `{Sink ExecutionReport S} (Capacity : nat).

Lemma OrderPool_new_ok mmap h :
  orders_ok h ->
  ensures (fun r => match r with
                    | inl (h1, p) => heap_ok (dom h ∪ slots_of (slab_of p)) h1
                    | inr _ => True
                    end) (OrderPool_new Capacity mmap h).
Proof.
  intros Hh. unfold OrderPool_new. cbv zeta. set (bytes := u64 _). set (k := Z.to_nat _).
  assert (forall base huge, ensures (fun r => match r with
        | inl (h1, p) => heap_ok (dom h ∪ slots_of (slab_of p)) h1 | inr _ => True end)
    (let* '(h1, p1) := build_freelist Capacity (map_zero base k h) (mkPool base None 0 bytes huge) in
     Ok (inl (B := runtime_error) (h1, p1)))) as Hb.
  { intros base huge. destruct (map_zero_ok base k h Hh) as [Ho Hd].
    eapply ensures_bind; [by apply build_freelist_ok; [split|reflexivity]|].
    intros [h1 p1] [Hh1 Ep]. cbn in *. by rewrite Ep. }
  destruct (mmap true _); [apply Hb|]. destruct (mmap false _); [apply Hb|done].
Qed.

Lemma MatchingEngine_new_ok mmap inbound outbound h :
  orders_ok h -> sink_ok outbound -> sink_log outbound = [] ->
  ensures (fun r => match r with
                    | inl e => engine_ok (dom h ∪ slots_of (slab_of (e_pool e))) (slab_of (e_pool e)) e
                    | inr _ => True
                    end)
    (MatchingEngine_new Capacity mmap inbound outbound h).
Proof.
  intros Hh Hs El. unfold MatchingEngine_new. eapply ensures_bind; [by apply OrderPool_new_ok|].
  intros [[h1 p]|err] Hr; [|done]. split; cbn; try done; try apply in_u64_0.
  rewrite El. constructor.
Qed.

End construction.
