(* ===== verification/EngineExample.v ===== *)
(** * A small engine

    A concrete engine on which the theorems are applied: four slots, one
    instrument with the grid 100, 101, ..., 110, an outbound ring of eight
    reports drained by a consumer that keeps up, and a clock that ticks once a
    second. *)

From stdpp Require Import base numbers list gmap fin_maps sorting.
From Stdlib Require Import ZArith Lia.
From S2P Require Import Prelude.
From S2P Require Import OrderTypes.
From S2P Require Import OrderPool.
From S2P Require Import PriceLevel.
From S2P Require Import OrderIndex.
From S2P Require Import OrderBook.
From S2P Require Import OrderBookInv.
From S2P Require Import OrderBookOps.
From S2P Require Import OrderBookQueries.
From S2P Require Import BookFacets.
From S2P Require Import SPSCQueue.
From S2P Require Import Sink.
From S2P Require Import MatchingEngine.
From S2P Require Import EngineInv.
From S2P Require Import SweepSpec.
From S2P Require Import EngineSweep.
From S2P Require Import EngineMatch.
From S2P Require Import EngineHandlers.
From S2P Require Import EngineRun.
From S2P Require Import EngineView.

#[local] Existing Instance Release.

Definition ex_sink : Sink ExecutionReport OutLink := small_sink ExecutionReport.
#[local] Existing Instance ex_sink.

Definition ex_clock (n : nat) : Z * Z := (Z.of_nat n, 0).
Definition ex_mmap (huge : bool) (bytes : Z) : option nat := if huge then None else Some 100%nat.
Definition ex_report : ExecutionReport := mkReport Fill 0 0 0 0 0 0.
Definition ex_inbound : InboundOrderMsg := mkInbound NewOrder 0 0 0 0 0 0 0.

Definition ex_dead : Engine OutLink :=
  mkEngine ∅ (mkPool 0 None 0 0 false) ∅ (mkRing 0 0 []) (mkLink [] (mkRing 0 0 []) 0) 0 0 0 0.

Definition ok_or {A} (d : A) (r : res A) : A := match r with Ok a => a | Err _ => d end.

Definition ex_new : Engine OutLink :=
  match MatchingEngine_new 4 ex_mmap (SPSCQueue_new 8 ex_inbound)
          (small_link ex_report) ∅ with
  | Ok (inl e) => e
  | _ => ex_dead
  end.
Definition ex0 : Engine OutLink := ok_or ex_dead (add_instrument 1 100 110 1 ex_new).

Definition ex_submit (e : Engine OutLink) (msg : InboundOrderMsg) : Engine OutLink :=
  ok_or ex_dead (submit 4 ex_clock msg e).

(** A new order for instrument 1: [side] and [type] are the wire bytes. *)
Definition ex_order (id side type price qty : Z) : InboundOrderMsg :=
  mkInbound NewOrder id price qty 1 7 side type.
Definition ex_cancel (id : Z) : InboundOrderMsg := mkInbound Cancel id 0 0 1 7 0 0.

(** Two asks (10 at 105, 5 at 104) and a bid (3 at 101). *)
Definition ex_book : Engine OutLink :=
  ex_submit (ex_submit (ex_submit ex0 (ex_order 1 1 0 105 10)) (ex_order 2 1 0 104 5))
    (ex_order 3 0 0 101 3).

Lemma ex_in_u32 x : bool_decide (0 <= x < 2 ^ 32) = true -> in_u32 x.
Proof. by intros ?%bool_decide_eq_true. Qed.

Lemma ex0_reachable : reachable 4 ex_clock 8 ex0.
Proof.
  apply (reach_instrument 4 ex_clock 8 ex_new 1 100 110 1).
  - apply (reach_new 4 ex_clock 8 ex_mmap ∅ ex_inbound (small_link ex_report)).
    + apply single_bit_8.
    + done.
    + apply small_link_ok.
    + vm_compute. reflexivity.
  - unfold grid_ok, in_i64, INT64_MAX. split_and!; try lia. reflexivity.
  - vm_compute. reflexivity.
Qed.

Lemma ex_submit_reachable e msg :
  reachable 4 ex_clock 8 e -> in_u32 (im_quantity msg) -> reachable 4 ex_clock 8 (ex_submit e msg).
Proof.
  intros Hr Hm. unfold ex_submit.
  destruct (good_step_submit (H := Release) 4 ex_clock 8 e msg eq_refl) as (e' & E & _);
    [exact (reachable_good (H := Release) _ _ _ _ eq_refl Hr)|done|]. rewrite E. by eapply reach_submit.
Qed.

Lemma ex_book_reachable : reachable 4 ex_clock 8 ex_book.
Proof. unfold ex_book. repeat apply ex_submit_reachable; try by apply ex_in_u32. apply ex0_reachable. Qed.

(** The book of instrument 1. *)
Definition ex_b (e : Engine OutLink) : OrderBook :=
  match e_books e !! 1 with
  | Some b => b
  | None => mkBook 0 0 0 0 [] [] 0 0 ∅
  end.

Lemma ex_b_unique (e : Engine OutLink) b : e_books e !! 1 = Some b -> b = ex_b e.
Proof. unfold ex_b. by intros ->. Qed.

(** An ask at the bottom of the grid. *)
Definition ex_low : Engine OutLink := ex_submit ex0 (ex_order 1 1 0 100 10).

Lemma ex_low_reachable : reachable 4 ex_clock 8 ex_low.
Proof. apply ex_submit_reachable; [apply ex0_reachable|by apply ex_in_u32]. Qed.

(** Membership, checked by evaluation. *)
Lemma ex_elem (o : Order) (os : list Order) : bool_decide (o ∈ os) = true -> o ∈ os.
Proof. by intros ?%bool_decide_eq_true. Qed.

(** Exact aggregates, checked by evaluation. *)
Definition level_aggb (h : heap) (lvl : PriceLevel) (ps : list nat) : bool :=
  bool_decide (lv_total_qty lvl = sum_qty h ps) && bool_decide (0 <= sum_qty h ps < 2 ^ 32)
  && bool_decide (lv_order_count lvl = Z.of_nat (length ps))
  && bool_decide (Z.of_nat (length ps) < 2 ^ 32)
  && forallb (fun a => bool_decide (0 <= qty_at h a)) ps.

Definition book_aggb (h : heap) (b : OrderBook) (q : queues) : bool :=
  forallb (fun lp => level_aggb h lp.1 lp.2)
    (zip (bk_bid_levels b) (q_bid q) ++ zip (bk_ask_levels b) (q_ask q)).

Lemma level_aggb_spec h lvl ps : level_aggb h lvl ps = true -> level_agg h lvl ps.
Proof.
  unfold level_aggb. rewrite !andb_true_iff, !bool_decide_eq_true, forallb_forall.
  intros ((((? & ?) & ?) & ?) & Hall). split; try done.
  intros a Ha. apply list_elem_of_In, Hall in Ha. by apply bool_decide_eq_true in Ha.
Qed.

Lemma book_aggb_spec h b q : book_aggb h b q = true -> book_agg h b q.
Proof.
  unfold book_aggb. rewrite forallb_forall. intros Hall buy i lvl ps Hl Hq.
  apply level_aggb_spec, (Hall (lvl, ps)), list_elem_of_In, elem_of_app.
  destruct buy; simpl in *; [left|right]; apply list_elem_of_lookup; exists i;
    apply lookup_zip_with_Some; by exists lvl, ps.
Qed.

Lemma ex_books_agg (e : Engine OutLink) :
  forallb (fun kb => book_aggb (e_heap e) kb.2 (queues_of (e_heap e) kb.2))
    (map_to_list (e_books e)) = true -> books_have Aggregates e.
Proof.
  rewrite forallb_forall. intros Hall id b Hb. apply book_aggb_spec, (Hall (id, b)).
  by apply list_elem_of_In, elem_of_map_to_list.
Qed.

(** A complete index, checked by evaluation. *)
Definition indexedb (h : heap) (b : OrderBook) (q : queues) : bool :=
  forallb (fun a => match h !! a with
                    | Some o => bool_decide (bk_order_index b !! o_order_id o = Some a)
                    | None => true
                    end) (resting_addrs q).

Lemma ex_books_indexed (e : Engine OutLink) :
  forallb (fun kb => indexedb (e_heap e) kb.2 (queues_of (e_heap e) kb.2))
    (map_to_list (e_books e)) = true -> books_have Indexed e.
Proof.
  rewrite forallb_forall. intros Hall id b Hb a o Ha Ho.
  specialize (Hall (id, b) ltac:(by apply list_elem_of_In, elem_of_map_to_list)). simpl in Hall.
  unfold indexedb in Hall. rewrite forallb_forall in Hall.
  apply list_elem_of_In, Hall in Ha. rewrite Ho in Ha. by apply bool_decide_eq_true in Ha.
Qed.
