(* ===== verification/EngineTheorems.v ===== *)
(** * The properties of the matching engine

    Stated for the Release build the pipeline runs, about every state the
    engine can reach; the outbound queue is any [Sink]. *)

From stdpp Require Import base numbers list gmap fin_maps sorting.
From Stdlib Require Import ZArith Lia.
From S2P Require Import Prelude.
From S2P Require Import OrderTypes.
From S2P Require Import OrderPool.
From S2P Require Import PriceLevel.
From S2P Require Import OrderIndex.
From S2P Require Import OrderBook.
From S2P Require Import OrderBookInv.
From S2P Require Import OrderBookOps.
From S2P Require Import OrderBookQueries.
From S2P Require Import BookFacets.
From S2P Require Import SPSCQueue.
From S2P Require Import Sink.
From S2P Require Import MatchingEngine.
From S2P Require Import EngineSink.
From S2P Require Import EngineInv.
From S2P Require Import SweepSpec.
From S2P Require Import EngineSweep.
From S2P Require Import EngineMatch.
From S2P Require Import EngineHandlers.
From S2P Require Import EngineRun.
From S2P Require Import EngineView.
From S2P Require Import EngineExample.

#[local] Existing Instance Release.

Section theorems.
Context {S : Type} `{Sink ExecutionReport S} (Capacity : nat) (clock_gettime : nat -> Z * Z) (N : Z).
Implicit Types (e : Engine S) (msg : InboundOrderMsg).

#[local] Abbreviation ns := (ns_at clock_gettime).
#[local] Abbreviation reachable := (reachable Capacity clock_gettime N).

Lemma reachable_inv e :
  reachable e -> exists L fs Q xs, eng_inv Capacity L fs Q e /\ eng_has Uncrossed Q e /\
    ring_rep N (e_inbound e) xs /\ Forall (fun msg => in_u32 (im_quantity msg)) xs.
Proof. intros Hr. exact (reachable_good (H := Release) _ _ _ _ eq_refl Hr). Qed.

Lemma reachable_book e id b :
  reachable e -> e_books e !! id = Some b ->
  exists L fs Q q, eng_inv Capacity L fs Q e /\ Q !! id = Some q /\
    book_rep (e_heap e) b q /\ forall buy, orders e id buy = side_view (e_heap e) q buy.
Proof.
  intros Hr Hb. destruct (reachable_inv e Hr) as (L & fs & Q & xs & Hinv & _).
  destruct (eng_book_at _ _ _ _ _ _ _ Hinv Hb) as (q & HQ & Hrep).
  exists L, fs, Q, q. split_and!; try done. intros buy. by eapply eng_inv_orders.
Qed.

(** The state right after [handled]: where its orders are. *)
Lemma handled_orders Q id e L' fs' q' e' R reads fills rejected :
  handled Capacity Q id e L' fs' q' e' R reads fills rejected ->
  (forall buy, orders e' id buy = side_view (e_heap e') q' buy) /\
  forall L fs, eng_inv Capacity L fs Q e -> forall id' buy, id' <> id ->
    orders e' id' buy = orders e id' buy.
Proof.
  intros Hh. pose proof (hd_inv _ _ _ _ _ _ _ _ _ _ _ _ Hh) as Hinv'. split.
  - intros buy. destruct (hd_book _ _ _ _ _ _ _ _ _ _ _ _ Hh) as (b & b' & _ & Hb' & _).
    eapply eng_inv_orders; [done..|apply lookup_insert_eq].
  - intros L fs Hinv id' buy Hne. pose proof (hd_books _ _ _ _ _ _ _ _ _ _ _ _ Hh id' Hne) as Hb.
    destruct (e_books e !! id') as [b|] eqn:E.
    + destruct (eng_book_at _ _ _ _ _ _ _ Hinv E) as (q & HQ & Hr).
      rewrite (eng_inv_orders _ _ _ _ _ _ _ _ buy Hinv E HQ).
      rewrite (eng_inv_orders Capacity _ _ _ e' id' b q buy Hinv' Hb)
        by (by rewrite lookup_insert_ne).
      apply side_view_frame. intros c Hc.
      by apply (hd_frame _ _ _ _ _ _ _ _ _ _ _ _ Hh id' q).
    + unfold orders. by rewrite Hb, E.
Qed.

(** What [submit] of a message does on top of [dispatch]. *)
Lemma submit_dispatch msg e e' :
  dispatch Capacity clock_gettime msg e = Ok e' ->
  submit Capacity clock_gettime msg e = Ok (add_processed 1 e').
Proof. intros E. unfold submit. by rewrite E. Qed.

(** The outcome the specification gives a new-order message in state [e]. *)
Definition outcome_in e msg (b : OrderBook) (avail : Z) : outcome :=
  let id := im_instrument_id msg in
  let o := order_of msg (ns (e_clock_reads e)) in
  match_outcome ns (Datatypes.S (e_clock_reads e)) (is_valid_price b (im_price msg)) avail o
    (orders e id (is_buy o)) (orders e id (negb (is_buy o))).

(** A new order for a registered instrument finds a free slot. *)
Definition accepted e msg (b : OrderBook) : Prop :=
  im_kind msg = NewOrder /\ in_u32 (im_quantity msg) /\
  e_books e !! im_instrument_id msg = Some b /\ free_slots e <> [].

Lemma submit_new_order e msg b :
  reachable e -> accepted e msg b ->
  let id := im_instrument_id msg in
  let o := order_of msg (ns (e_clock_reads e)) in
  exists e' avail,
    let oc := outcome_in e msg b avail in
    (o_type o = FOK -> available_quantity_at_or_better b (o_side o) (im_price msg) = Ok avail) /\
    submit Capacity clock_gettime msg e = Ok e' /\
    orders e' id (is_buy o) = oc_own oc /\ orders e' id (negb (is_buy o)) = oc_opp oc /\
    sink_log (e_outbound e') = sink_log (e_outbound e) ++ oc_reports oc /\
    e_fills_executed e' = Nat.iter (oc_fills oc) (fun n => u64 (n + 1)) (e_fills_executed e) /\
    e_orders_rejected e' = Nat.iter (oc_rejects oc) (fun n => u64 (n + 1)) (e_orders_rejected e) /\
    e_orders_processed e' = u64 (e_orders_processed e + 1) /\
    (forall id' buy, id' <> id -> orders e' id' buy = orders e id' buy) /\
    (length (free_slots e') + length (resting_slots e') + (if oc_lost oc then 1 else 0)
     = length (free_slots e) + length (resting_slots e))%nat.
Proof.
  intros Hr (Hk & Hq & Hb & Hfree) id o.
  destruct (reachable_book e id b Hr Hb) as (L & fs & Q & q & Hinv & HQ & Hrep & Ho).
  rewrite (eng_inv_free _ _ _ _ _ Hinv) in Hfree. destruct fs as [|a fs]; [done|].
  destruct (new_order_refines Capacity clock_gettime L a fs Q e msg b q Hinv Hb HQ Hq)
    as (avail & e1 & fs' & q' & Hav & E & Hh & Hown & Hopp & _); [done|].
  fold id o in Hav, Hh, Hown, Hopp. destruct (handled_orders _ _ _ _ _ _ _ _ _ _ _ Hh) as [Hv Hoth].
  exists (add_processed 1 e1), avail. unfold outcome_in. fold id o. rewrite !Ho. split; [done|]. split.
  { apply submit_dispatch. unfold dispatch. by rewrite Hk. }
  change (orders (add_processed 1 e1)) with (orders e1). rewrite !Hv. split_and!; try done.
  - apply Hh.
  - apply Hh.
  - apply Hh.
  - simpl. by rewrite (hd_processed _ _ _ _ _ _ _ _ _ _ _ _ Hh).
  - by apply (Hoth L (a :: fs)).
  - pose proof (eng_inv_slots _ _ _ _ _ Hinv) as H1.
    pose proof (eng_inv_slots _ _ _ _ _ (hd_inv _ _ _ _ _ _ _ _ _ _ _ _ Hh)) as H2.
    unfold new_order_outcome in H2. fold o in H2. change (o_price o) with (im_price msg) in H2.
    change (free_slots (add_processed 1 e1)) with (free_slots e1).
    change (resting_slots (add_processed 1 e1)) with (resting_slots e1).
    destruct (oc_lost _); simpl in H2; lia.
Qed.

(** C1: a new order for a registered instrument, when the pool has a free
    slot, does exactly what the abstract specification [match_outcome] says:
    both sides of that instrument's book become the specified priority
    lists, exactly the specified reports are appended to the outbound log in
    order, the fill and reject counters advance by the specified amounts, and
    every other instrument's book is unchanged. *)
Theorem new_order_refinement e msg b :
  reachable e -> accepted e msg b ->
  let id := im_instrument_id msg in
  let o := order_of msg (ns (e_clock_reads e)) in
  exists e' avail,
    let oc := outcome_in e msg b avail in
    (o_type o = FOK -> available_quantity_at_or_better b (o_side o) (im_price msg) = Ok avail) /\
    submit Capacity clock_gettime msg e = Ok e' /\
    orders e' id (is_buy o) = oc_own oc /\ orders e' id (negb (is_buy o)) = oc_opp oc /\
    sink_log (e_outbound e') = sink_log (e_outbound e) ++ oc_reports oc /\
    e_fills_executed e' = Nat.iter (oc_fills oc) (fun n => u64 (n + 1)) (e_fills_executed e) /\
    e_orders_rejected e' = Nat.iter (oc_rejects oc) (fun n => u64 (n + 1)) (e_orders_rejected e) /\
    e_orders_processed e' = u64 (e_orders_processed e + 1) /\
    (forall id' buy, id' <> id -> orders e' id' buy = orders e id' buy).
Proof.
  intros Hr Hacc. destruct (submit_new_order e msg b Hr Hacc)
    as (e' & avail & ? & ? & ? & ? & ? & ? & ? & ? & ? & _).
  exists e', avail. by split_and!.
Qed.

(** C2: from every reachable state every message is processed to completion:
    no null or dangling dereference, no index out of range, no unbounded
    loop, and the state reached is again reachable. *)
Theorem submit_safe e msg :
  reachable e -> in_u32 (im_quantity msg) ->
  exists e', submit Capacity clock_gettime msg e = Ok e' /\ reachable e'.
Proof.
  intros Hr Hq. destruct (good_step_submit (H := Release) Capacity clock_gettime N e msg eq_refl) as (e' & E & _);
    [exact (reachable_good (H := Release) _ _ _ _ eq_refl Hr)|done|]. exists e'. split; [done|]. by eapply reach_submit.
Qed.

(** C3: no reachable book is crossed: every resting bid of an instrument is
    priced strictly below every resting ask. *)
Theorem book_never_crossed e id bid ask :
  reachable e -> bid ∈ orders e id true -> ask ∈ orders e id false -> o_price bid < o_price ask.
Proof.
  intros Hr Hbid Hask. destruct (reachable_inv e Hr) as (L & fs & Q & xs & Hinv & Hu & _).
  destruct (e_books e !! id) as [b|] eqn:Hb; [|unfold orders in Hbid; rewrite Hb in Hbid; set_solver].
  destruct (eng_book_at _ _ _ _ _ _ _ Hinv Hb) as (q & HQ & Hrep).
  pose proof (br_struct _ _ _ Hrep) as Hst. specialize (Hu _ _ _ Hb HQ). simpl in Hu.
  assert (forall buy o, o ∈ side_view (e_heap e) q buy -> exists i ps, qside q buy !! i = Some ps /\
    ps <> [] /\ o_price o = bk_min_price b + Z.of_nat i * bk_tick_size b) as Hlevel.
  { intros buy o (a & o' & Ha & Hoa & ->)%elem_of_view. rewrite prio_perm in Ha.
    apply elem_of_concat_lookup in Ha as (i & ps & Hq & Ha).
    destruct (book_lookup _ _ _ _ _ _ _ Hst Hq Ha) as (o1 & _ & Ho1 & _ & _ & Hres & _).
    simplify_eq. exists i, ps. split_and!; [done|by destruct ps; set_solver|apply Hres]. }
  rewrite (eng_inv_orders _ _ _ _ _ _ _ _ _ Hinv Hb HQ) in Hbid.
  rewrite (eng_inv_orders _ _ _ _ _ _ _ _ _ Hinv Hb HQ) in Hask.
  destruct (Hlevel _ _ Hbid) as (i & psi & Hi & Hnei & ->).
  destruct (Hlevel _ _ Hask) as (j & psj & Hj & Hnej & ->).
  specialize (Hu _ _ _ _ Hi Hj Hnei Hnej). pose proof (cf_tick _ (bs_cfg _ _ _ Hst)). nia.
Qed.

(** C4: a fill-or-kill order on a book with exact aggregates, with a limit
    the availability check handles ([limit_ok]), is all or nothing: either
    the crossing quantity (as the 32-bit sum the code forms) is too small, the
    book is untouched and one reject goes out, or the whole quantity is
    traded.  It never rests. *)
Theorem fok_all_or_nothing e msg b :
  reachable e -> accepted e msg b ->
  let id := im_instrument_id msg in
  let o := order_of msg (ns (e_clock_reads e)) in
  o_type o = FOK -> limit_ok b (is_buy o) (im_price msg) ->
  holds Aggregates (e_heap e) b (queues_of (e_heap e) b) ->
  let opp := orders e id (negb (is_buy o)) in
  exists e',
    submit Capacity clock_gettime msg e = Ok e' /\
    orders e' id (is_buy o) = orders e id (is_buy o) /\
    ((u32 (liquidity o opp) < im_quantity msg /\ orders e' id (negb (is_buy o)) = opp /\
      sink_log (e_outbound e') = sink_log (e_outbound e) ++
        [mkReport Reject (im_order_id msg) 0 0 0 (im_quantity msg)
           (ns (Datatypes.S (e_clock_reads e)))])
     \/ (im_quantity msg <= liquidity o opp /\ exists ts,
         total_traded ts = im_quantity msg /\
         Forall (fun t => crosses (is_buy o) (im_price msg) (tr_price t) = true) ts /\
         total_qty (orders e' id (negb (is_buy o))) = total_qty opp - im_quantity msg /\
         sink_log (e_outbound e') = sink_log (e_outbound e) ++
           trade_reports ns (im_order_id msg) (Datatypes.S (e_clock_reads e)) ts)).
Proof.
  intros Hr Hacc id o Hty Hl Hagg opp. pose proof Hacc as (Hk & Hq & Hb & _).
  destruct (submit_new_order e msg b Hr Hacc)
    as (e' & avail & Hav & E & Hown & Hopp & Hlog & _). fold id o in Hav, Hown, Hopp.
  specialize (Hav Hty). exists e'. split; [done|].
  destruct (reachable_book e id b Hr Hb) as (L & fs & Q & q & Hinv & HQ & Hrep & Ho).
  rewrite (queues_of_rep _ _ _ (br_struct _ _ _ Hrep)) in Hagg.
  destruct (fok_fills (H := Release) _ _ _ o avail Hrep Hagg (proj1 Hq) Hl ltac:(intros X; discriminate X) Hav) as [-> Hz].
  pose proof (side_view_pos _ _ _ (negb (is_buy o)) (br_struct _ _ _ Hrep)) as Hpos.
  rewrite <- Ho in Hz, Hpos. rewrite <- Ho in Hav. fold opp in Hz, Hpos, Hav.
  unfold outcome_in in Hown, Hopp, Hlog. fold id o opp in Hown, Hopp, Hlog.
  unfold match_outcome in Hown, Hopp, Hlog. rewrite Hty in Hown, Hopp, Hlog.
  rewrite <- Ho in Hown, Hopp, Hlog. fold opp in Hown, Hopp, Hlog.
  destruct (Z.ltb_spec (u32 (liquidity o opp)) (o_quantity o)) as [Hlt|Hle].
  - split; [done|]. left. by split_and!.
  - split; [done|]. right. specialize (Hz Hle).
    destruct (sweep_conserves (crosses (is_buy o) (o_price o)) opp (o_quantity o) (proj1 Hq) Hpos)
      as (_ & Ht & Hrest). rewrite Hz, Z.sub_0_r in Ht, Hrest.
    pose proof (sweep_limit_amount _ _ _ o (o_quantity o) (br_struct _ _ _ Hrep) (proj1 Hq)) as Ham.
    cbv zeta in Ham. rewrite <- Ho in Ham. fold opp in Ham. rewrite Hz in Ham.
    split; [change (im_quantity msg) with (o_quantity o); lia|].
    eexists. split; [exact Ht|]. split; [|split; [|exact Hlog]].
    + eapply Forall_impl; [by apply sweep_trades_ok; [apply Hq|]|]. by intros t [? _].
    + rewrite Hopp. exact Hrest.
Qed.

(** C5: in every reachable state the free slots and the resting slots are
    pairwise distinct slots of the pool's slab, so no slot is handed out
    twice or freed while it rests, and the pool's counter is the length of its
    free list. *)
Theorem slots_partition e :
  reachable e ->
  NoDup (free_slots e ++ resting_slots e) /\
  (forall a, a ∈ free_slots e ++ resting_slots e -> in_slab Capacity (e_pool e) a) /\
  free_count_ (e_pool e) = Z.of_nat (length (free_slots e)).
Proof.
  intros Hr. destruct (reachable_inv e Hr) as (L & fs & Q & xs & Hinv & _).
  rewrite (eng_inv_free _ _ _ _ _ Hinv), (eng_inv_resting _ _ _ _ _ Hinv).
  pose proof (eng_nodup _ _ _ _ _ Hinv) as Hnd. split; [|split].
  - apply NoDup_app in Hnd as (H1 & H2 & H3). apply NoDup_app in H3 as (_ & _ & H3).
    apply NoDup_app. split_and!; try done. intros a Ha Ha'. apply (H2 a Ha). set_solver.
  - intros a Ha. eapply eng_slab; [done|]. set_solver.
  - apply (ei_pool _ _ _ _ _ Hinv).
Qed.

(** A new limit order priced off the grid that is not filled by the opposite
    side it meets. *)
Definition residual_off_grid e msg : Prop :=
  let o := order_now clock_gettime msg e in
  im_kind msg = NewOrder /\ o_type o = Limit /\
  exists b, e_books e !! im_instrument_id msg = Some b /\ is_valid_price b (im_price msg) = false /\
    0 < residual clock_gettime msg e (orders e (im_instrument_id msg) (negb (is_buy o))).

(** C11: no message loses a slot, except a limit order priced off the grid
    with something left after it has traded: the number of free plus resting
    slots is unchanged. *)
Theorem no_slot_lost e msg e' :
  reachable e -> in_u32 (im_quantity msg) -> submit Capacity clock_gettime msg e = Ok e' ->
  ~ residual_off_grid e msg ->
  (length (free_slots e') + length (resting_slots e')
   = length (free_slots e) + length (resting_slots e))%nat.
Proof.
  intros Hr Hq E Hgrid. destruct (reachable_inv e Hr) as (L & fs & Q & xs & Hinv & _).
  destruct (dispatch_step (H := Release) Capacity clock_gettime L fs Q e msg Hinv Hq)
    as (e1 & L1 & fs1 & Q1 & E1 & Hst); [intros X; discriminate X|].
  unfold submit in E. rewrite E1 in E. injection E as <-.
  pose proof (st_inv _ _ _ _ _ _ _ _ _ _ _ Hst) as Hinv1.
  assert (eng_inv Capacity L1 fs1 Q1 (add_processed 1 e1)) as Hinv2
    by (by eapply eng_inv_same; [|apply Hinv1|exact Hinv1]).
  pose proof (eng_inv_slots _ _ _ _ _ Hinv) as H1. pose proof (eng_inv_slots _ _ _ _ _ Hinv2) as H2.
  destruct (st_lost _ _ _ _ _ _ _ _ _ _ _ Hst) as [->|[Hoff _]]; [lia|].
  destruct Hgrid. destruct Hoff as (Hk & Hty & b & q & Hb & HQ & Hv & Hres).
  split; [done|]. split; [done|]. exists b. split; [done|]. split; [done|].
  by rewrite (eng_inv_orders _ _ _ _ _ _ _ _ _ Hinv Hb HQ).
Qed.

(** C12: a cancel (or modify) message for an order the book's index knows
    removes that order from its side, erases exactly its entry of the index,
    leaves everything else of the book in place, acknowledges the order's
    remaining quantity, and returns its slot to the pool. *)
Theorem cancel_removes e msg b a :
  reachable e -> im_kind msg = Cancel \/ im_kind msg = Modify ->
  in_u32 (im_quantity msg) ->
  let id := im_instrument_id msg in
  e_books e !! id = Some b -> find_order b (im_order_id msg) = Some a ->
  exists e' o buy V1 V2,
    submit Capacity clock_gettime msg e = Ok e' /\
    e_heap e !! a = Some o /\ o_order_id o = im_order_id msg /\
    orders e id buy = V1 ++ data o :: V2 /\ orders e' id buy = V1 ++ V2 /\
    orders e' id (negb buy) = orders e id (negb buy) /\
    free_slots e' = a :: free_slots e /\
    sink_log (e_outbound e') = sink_log (e_outbound e) ++
      [mkReport CancelAck (im_order_id msg) 0 0 0 (o_quantity o) (ns (e_clock_reads e))] /\
    (exists b', e_books e' !! id = Some b' /\ find_order b' (im_order_id msg) = None /\
       forall k, k <> im_order_id msg -> find_order b' k = find_order b k) /\
    (forall id' side, id' <> id -> orders e' id' side = orders e id' side).
Proof.
  intros Hr Hk Hq id Hb Ha.
  destruct (reachable_book e id b Hr Hb) as (L & fs & Q & q & Hinv & HQ & Hrep & Ho).
  destruct (cancel_known (H := Release) Capacity clock_gettime L fs Q e msg b q a Hinv Hb HQ Ha)
    as (e1 & q' & o & buy & V1 & V2 & E & Hoa & Hid & Hh & HV & HV' & Hopp & (b' & Hb' & Hix) & _);
    [intros X; discriminate X|].
  destruct (handled_orders _ _ _ _ _ _ _ _ _ _ _ Hh) as [Hv Hoth].
  exists (add_processed 1 e1), o, buy, V1, V2. rewrite !Ho. split.
  { apply submit_dispatch. unfold dispatch. by destruct Hk as [-> | ->]. }
  change (orders (add_processed 1 e1)) with (orders e1).
  change (free_slots (add_processed 1 e1)) with (free_slots e1). fold id in Hv, Hoth.
  rewrite !Hv. split_and!; try done.
  - rewrite (eng_inv_free _ _ _ _ _ Hinv).
    exact (eng_inv_free _ _ _ _ _ (hd_inv _ _ _ _ _ _ _ _ _ _ _ _ Hh)).
  - apply Hh.
  - exists b'. unfold find_order, OrderIndex.find. rewrite Hix. split; [done|]. split.
    + apply lookup_delete_eq.
    + intros k Hk'. by apply lookup_delete_ne.
  - by apply (Hoth L fs).
Qed.

(** A cancel or modify for an unknown instrument or an unknown order id
    changes nothing but the processed-message counter, and reports nothing. *)
Theorem cancel_unknown_noop e msg :
  im_kind msg = Cancel \/ im_kind msg = Modify ->
  (forall b, e_books e !! im_instrument_id msg = Some b -> has_order b (im_order_id msg) = false) ->
  submit Capacity clock_gettime msg e = Ok (add_processed 1 e).
Proof.
  intros Hk Hno. apply submit_dispatch. unfold dispatch.
  assert (handle_cancel Capacity clock_gettime msg e = Ok e) as E.
  { apply cancel_unknown. intros b Hb. specialize (Hno b Hb). unfold has_order, contains in Hno.
    apply bool_decide_eq_false in Hno. by apply eq_None_not_Some. }
  by destruct Hk as [-> | ->].
Qed.

(** The opposite side an accepted order meets: positive quantities, best
    price first. *)
Lemma opposite_side e id b side :
  reachable e -> e_books e !! id = Some b ->
  all_pos (orders e id side) /\
  StronglySorted (fun o1 o2 => better_eq side (o_price o1) (o_price o2)) (orders e id side).
Proof.
  intros Hr Hb. destruct (reachable_book e id b Hr Hb) as (L & fs & Q & q & Hinv & HQ & Hrep & Ho).
  rewrite Ho. split; [by eapply side_view_pos, Hrep|].
  apply (view_sorted _ _ (better_eq side)). eapply prio_sorted, Hrep.
Qed.

(** C13: a market or immediate-or-cancel order never rests: its own side is
    unchanged, and what it trades plus what its cancel acknowledgement
    reports is its whole quantity. *)
Theorem discarded_accounted e msg b :
  reachable e -> accepted e msg b ->
  let id := im_instrument_id msg in
  let o := order_of msg (ns (e_clock_reads e)) in
  o_type o = Market \/ o_type o = IOC ->
  exists e' ts rem,
    submit Capacity clock_gettime msg e = Ok e' /\
    orders e' id (is_buy o) = orders e id (is_buy o) /\
    total_traded ts + rem = im_quantity msg /\ 0 <= rem /\
    total_qty (orders e' id (negb (is_buy o)))
      = total_qty (orders e id (negb (is_buy o))) - total_traded ts /\
    sink_log (e_outbound e') = sink_log (e_outbound e)
      ++ trade_reports ns (im_order_id msg) (Datatypes.S (e_clock_reads e)) ts
      ++ (if rem >? 0 then
            [mkReport CancelAck (im_order_id msg) 0 0 0 rem
               (ns (Datatypes.S (e_clock_reads e) + 2 * length ts)%nat)]
          else []) /\
    (0 < rem -> o_type o = Market -> orders e' id (negb (is_buy o)) = []).
Proof.
  intros Hr Hacc id o Hty. pose proof Hacc as (Hk & Hq & Hb & _).
  destruct (submit_new_order e msg b Hr Hacc)
    as (e' & avail & _ & E & Hown & Hopp & Hlog & _). fold id o in Hown, Hopp.
  destruct (opposite_side e id b (negb (is_buy o)) Hr Hb) as [Hpos _].
  unfold outcome_in, match_outcome in Hown, Hopp, Hlog. fold id o in Hown, Hopp, Hlog.
  set (r := sweep_spec (match o_type o with Market => any_price
              | _ => crosses (is_buy o) (o_price o) end) (o_quantity o) (orders e id (negb (is_buy o)))).
  destruct (sweep_conserves (match o_type o with Market => any_price
              | _ => crosses (is_buy o) (o_price o) end) _ (o_quantity o) (proj1 Hq) Hpos)
    as (Hrem & Ht & Hrest).
  pose proof (sweep_exhausts (match o_type o with Market => any_price
              | _ => crosses (is_buy o) (o_price o) end) _ (o_quantity o) (proj1 Hq) Hpos) as Hex.
  fold r in Hrem, Ht, Hrest, Hex.
  exists e', (sp_trades r), (sp_rem r). unfold r in *.
  destruct Hty as [Hty|Hty]; rewrite Hty in *; (split; [done|]); (split; [exact Hown|]);
    (split; [change (im_quantity msg) with (o_quantity o); lia|]); (split; [lia|]);
    (split; [rewrite Hopp, Ht; exact Hrest|]);
    (split; [rewrite Hlog; done|]); [|done].
  intros Hpos' _. rewrite Hopp. simpl in *. destruct (sp_rest _) as [|o1 os]; [done|].
  by specialize (Hex Hpos' _ _ eq_refl).
Qed.

(** C22: price-time priority of limit orders: the orders hit are the first of
    the opposite side, in order, each at its own price; that side is sorted
    best price first; every trade respects the limit; and what is left joins
    its own side behind every order with a price at least as good. *)
Theorem limit_priority e msg b :
  reachable e -> accepted e msg b ->
  let id := im_instrument_id msg in
  let o := order_of msg (ns (e_clock_reads e)) in
  o_type o = Limit -> is_valid_price b (im_price msg) = true ->
  let own := orders e id (is_buy o) in
  let opp := orders e id (negb (is_buy o)) in
  exists e' ts rem,
    submit Capacity clock_gettime msg e = Ok e' /\
    (tr_rest <$> ts) = o_order_id <$> take (length ts) opp /\
    (tr_price <$> ts) = o_price <$> take (length ts) opp /\
    StronglySorted (fun o1 o2 => better_eq (negb (is_buy o)) (o_price o1) (o_price o2)) opp /\
    Forall (fun t => crosses (is_buy o) (im_price msg) (tr_price t) = true /\ 0 < tr_qty t) ts /\
    total_traded ts + rem = im_quantity msg /\ 0 <= rem /\
    orders e' id (is_buy o)
      = (if rem >? 0 then enqueue (is_buy o) (data (set_quantity rem o)) own else own) /\
    sink_log (e_outbound e') = sink_log (e_outbound e)
      ++ trade_reports ns (im_order_id msg) (Datatypes.S (e_clock_reads e)) ts.
Proof.
  intros Hr Hacc id o Hty Hv own opp. pose proof Hacc as (Hk & Hq & Hb & _).
  destruct (submit_new_order e msg b Hr Hacc)
    as (e' & avail & _ & E & Hown & Hopp & Hlog & _). fold id o in Hown, Hopp.
  destruct (opposite_side e id b (negb (is_buy o)) Hr Hb) as [Hpos Hs].
  unfold outcome_in, match_outcome in Hown, Hopp, Hlog. rewrite Hv in Hown, Hopp, Hlog.
  fold id o in Hown, Hopp, Hlog. rewrite Hty in Hown, Hopp, Hlog. fold own opp in Hown, Hopp, Hlog, Hpos, Hs.
  set (r := sweep_spec (crosses (is_buy o) (o_price o)) (o_quantity o) opp) in *.
  destruct (sweep_conserves (crosses (is_buy o) (o_price o)) _ (o_quantity o) (proj1 Hq) Hpos)
    as (Hrem & Ht & Hrest).
  destruct (sweep_prefix (crosses (is_buy o) (o_price o)) _ (o_quantity o) (proj1 Hq) Hpos) as [Hp1 Hp2].
  pose proof (sweep_trades_ok (crosses (is_buy o) (o_price o)) _ (o_quantity o) (proj1 Hq) Hpos) as Hok.
  fold r in Hrem, Ht, Hrest, Hp1, Hp2, Hok.
  exists e', (sp_trades r), (sp_rem r). split_and!; try done.
  - change (im_quantity msg) with (o_quantity o). lia.
  - lia.
  - rewrite Hown. by destruct (sp_rem r >? 0).
  - rewrite Hlog. by destruct (sp_rem r >? 0).
Qed.

(** A facet over one message, in terms of the engine alone. *)
Lemma submit_keeps f e msg e' :
  reachable e -> in_u32 (im_quantity msg) -> submit Capacity clock_gettime msg e = Ok e' ->
  books_have f e ->
  (forall b, im_kind msg = NewOrder -> e_books e !! im_instrument_id msg = Some b ->
     rest_ok f (e_heap e) b (queues_of (e_heap e) b) (order_now clock_gettime msg e)) ->
  books_have f e'.
Proof.
  intros Hr Hq E Hf Hok. destruct (reachable_inv e Hr) as (L & fs & Q & xs & Hinv & _).
  destruct (dispatch_step (H := Release) Capacity clock_gettime L fs Q e msg Hinv Hq)
    as (e1 & L1 & fs1 & Q1 & E1 & Hst); [intros X; discriminate X|].
  unfold submit in E. rewrite E1 in E. injection E as <-.
  pose proof (st_inv _ _ _ _ _ _ _ _ _ _ _ Hst) as Hinv1. change (books_have f e1).
  apply (books_have_inv _ _ _ _ _ _ Hinv1), (st_facet _ _ _ _ _ _ _ _ _ _ _ Hst).
  - by apply (books_have_inv _ _ _ _ _ _ Hinv).
  - intros Hk b q Hb HQ. specialize (Hok b Hk Hb).
    by rewrite (queues_of_rep _ _ _ (br_struct _ _ _ (ei_book _ _ _ _ _ Hinv _ _ _ Hb HQ))) in Hok.
Qed.

(** C33: as long as no new order reuses the id of an order resting in its
    book, every resting order stays findable under its id, and so can be
    cancelled. *)
Theorem resting_orders_indexed e msg e' :
  reachable e -> in_u32 (im_quantity msg) -> submit Capacity clock_gettime msg e = Ok e' ->
  books_have Indexed e ->
  (im_kind msg = NewOrder -> forall buy o, o ∈ orders e (im_instrument_id msg) buy ->
     o_order_id o <> im_order_id msg) ->
  books_have Indexed e'.
Proof.
  intros Hr Hq E Hf Hfresh. eapply submit_keeps; [done..|]. intros b Hk Hb buy o Ho.
  apply (Hfresh Hk buy). unfold orders. by rewrite Hb.
Qed.

(** C34: the level aggregates stay exact (each level's quantity is the sum
    over its queue and its count the queue's length) as long as the level at
    a new order's price, on the order's side, has room for it in 32 bits. *)
Theorem aggregates_exact e msg e' :
  reachable e -> in_u32 (im_quantity msg) -> submit Capacity clock_gettime msg e = Ok e' ->
  books_have Aggregates e ->
  (im_kind msg = NewOrder -> forall b i ps, e_books e !! im_instrument_id msg = Some b ->
     let buy := is_buy (order_now clock_gettime msg e) in
     qside (queues_of (e_heap e) b) buy !! i = Some ps ->
     im_price msg = bk_min_price b + Z.of_nat i * bk_tick_size b ->
     sum_qty (e_heap e) ps + im_quantity msg < 2 ^ 32 /\ Z.of_nat (length ps) + 1 < 2 ^ 32) ->
  books_have Aggregates e'.
Proof.
  intros Hr Hq E Hf Hroom. eapply submit_keeps; [done..|]. intros b Hk Hb i ps Hps Hp.
  by eapply Hroom.
Qed.

(** [poll(max_batch)] takes the oldest [min(max_batch, 64)] messages of
    the inbound ring, dispatches them in order, counts them, leaves the rest
    in the ring, and keeps the engine reachable. *)
Theorem poll_fifo e m :
  reachable e -> 0 <= m ->
  let xs := ring_list N (e_inbound e) in
  let batch := take (Z.to_nat (Z.min m 64)) xs in
  let n := Z.of_nat (length batch) in
  exists q e1,
    ring_list N q = drop (Z.to_nat (Z.min m 64)) xs /\
    dispatch_all Capacity clock_gettime batch (set_inbound q e) = Ok e1 /\
    e_inbound e1 = q /\
    poll Capacity clock_gettime N m e = Ok (add_processed n e1, n) /\
    reachable (add_processed n e1).
Proof.
  intros Hr Hm xs batch n. destruct (reachable_inv e Hr) as (L & fs & Q & ys & Hinv & _ & Hring & Hall).
  pose proof (rr_pow _ _ _ Hring) as HN. assert (xs = ys) as Exs by (by apply ring_list_rep).
  destruct (poll_dispatch Capacity clock_gettime N e ys m Hring Hm) as (q & Hq & E).
  rewrite <- Exs in *. fold batch in E. fold n in E.
  assert (eng_inv Capacity L fs Q (set_inbound q e)) as Hinv0
    by (by eapply eng_inv_same; [|apply Hinv|exact Hinv]).
  destruct (dispatch_all_step (H := Release) Capacity clock_gettime batch L fs Q (set_inbound q e)
    eq_refl Hinv0) as (e1 & L1 & fs1 & Q1 & E1 & _ & Hi & _); [by apply Forall_take|].
  rewrite E1 in E. cbn [bind] in E. exists q, e1. split_and!; try done.
  - by apply ring_list_rep.
  - by eapply reach_poll.
Qed.

(** C40: a limit order priced outside the grid trades with the opposite side
    like any other; whatever is left of it is neither queued nor reported, and
    its slot is not returned: one slot fewer is free or resting. *)
Theorem limit_off_grid_lost e msg b :
  reachable e -> accepted e msg b ->
  let id := im_instrument_id msg in
  let o := order_now clock_gettime msg e in
  o_type o = Limit -> is_valid_price b (im_price msg) = false ->
  let opp := orders e id (negb (is_buy o)) in
  let r := sweep_spec (crosses (is_buy o) (im_price msg)) (im_quantity msg) opp in
  0 < sp_rem r ->
  exists e',
    submit Capacity clock_gettime msg e = Ok e' /\
    orders e' id (is_buy o) = orders e id (is_buy o) /\
    orders e' id (negb (is_buy o)) = sp_rest r /\
    sink_log (e_outbound e') = sink_log (e_outbound e)
      ++ trade_reports ns (im_order_id msg) (Datatypes.S (e_clock_reads e)) (sp_trades r) /\
    (length (free_slots e') + length (resting_slots e') + 1
     = length (free_slots e) + length (resting_slots e))%nat.
Proof.
  intros Hr Hacc id o Hty Hv opp r Hrem.
  destruct (submit_new_order e msg b Hr Hacc)
    as (e' & avail & _ & E & Hown & Hopp & Hlog & _ & _ & _ & _ & Hslots).
  unfold outcome_in, match_outcome in Hown, Hopp, Hlog, Hslots.
  change (order_of msg (ns (e_clock_reads e))) with o in *. fold id opp in Hown, Hopp, Hlog, Hslots.
  rewrite Hty, Hv in Hown, Hopp, Hlog, Hslots.
  change (sweep_spec (crosses (is_buy o) (o_price o)) (o_quantity o) opp) with r in *.
  rewrite (proj2 (Z.gtb_lt _ _) Hrem) in Hown, Hopp, Hlog, Hslots.
  exists e'. by split_and!.
Qed.

(** C20: every order resting in a book of a reachable engine belongs there: it
    has the side of its list, a price on the book's grid, a status that can
    still trade and a positive 32-bit quantity. *)
Theorem resting_orders_placed e id b buy o :
  reachable e -> e_books e !! id = Some b -> o ∈ orders e id buy ->
  is_buy o = buy /\ is_valid_price b (o_price o) = true /\
  bk_min_price b <= o_price o <= bk_max_price b /\ is_active o = true /\ 0 < o_quantity o < 2 ^ 32.
Proof.
  intros Hr Hb Ho. destruct (reachable_book e id b Hr Hb) as (L & fs & Q & q & Hinv & HQ & Hrep & Hv).
  rewrite Hv in Ho. pose proof (br_struct _ _ _ Hrep) as Hst. pose proof (bs_cfg _ _ _ Hst) as Hc.
  destruct (view_order_placed _ _ _ _ _ Hst Ho) as (i & Hp & Hi & Hs & Ha & Hq).
  pose proof (grid_price_bounds b i Hc Hi) as Hbd. rewrite <- Hp in Hbd.
  split_and!; try done; try lia. unfold is_valid_price.
  rewrite Z.geb_leb, !(proj2 (Z.leb_le _ _)) by lia. cbn. rewrite Hp.
  replace (_ - _) with (Z.of_nat i * bk_tick_size b) by lia.
  rewrite Z.rem_mul; [done|]. pose proof (cf_tick _ Hc). lia.
Qed.

(** C35: [reset_state()] returns every slot of the slab to the pool, lost ones
    included, and empties every book. *)
Theorem reset_recovers e :
  reachable e ->
  exists e', reset_state Capacity e = Ok e' /\ reachable e' /\
    free_slots e' = seq (storage_ (e_pool e)) Capacity /\
    (forall id buy, orders e' id buy = []) /\ e_outbound e' = e_outbound e.
Proof.
  intros Hr. destruct (reachable_inv e Hr) as (L & fs & Q & xs & Hinv & _).
  destruct (reset_state_spec Capacity L fs Q e Hinv) as (e' & Q' & E & Hinv' & Hnone & _ & Ho & _).
  exists e'. split_and!; try done.
  - by eapply reach_reset.
  - by apply (eng_inv_free _ _ _ _ _ Hinv').
  - intros id buy. destruct (e_books e' !! id) as [b|] eqn:Hb; [|by unfold orders; rewrite Hb].
    destruct (eng_book_at _ _ _ _ _ _ _ Hinv' Hb) as (q & HQ & _).
    rewrite (eng_inv_orders _ _ _ _ _ _ _ _ buy Hinv' Hb HQ). unfold side_view.
    assert (resting_addrs q = []) as Hrq.
    { apply Permutation_nil. symmetry. pose proof (all_resting_lookup _ _ _ HQ) as Hp.
      rewrite Hnone in Hp. apply Permutation_nil in Hp. by apply app_nil in Hp as [-> _]. }
    destruct (prio buy (qside q buy)) as [|a ps] eqn:Hpr; [done|].
    assert (a ∈ resting_addrs q) as Ha by (eapply prio_resting; rewrite Hpr; set_solver).
    rewrite Hrq in Ha. set_solver.
Qed.

End theorems.

(** C36: in a Debug build, where a failed assertion aborts, a message whose
    price the assertions accept, sent to an engine with exact aggregates, is
    processed without tripping any of them; and the aggregates stay exact
    when the level joined has room. *)
Theorem debug_assertions_hold {S} `{Sink ExecutionReport S} (Capacity : nat) (clock_gettime : nat -> Z * Z) (N : Z)
  (e : Engine S) (msg : InboundOrderMsg) :
  reachable Capacity clock_gettime N e -> in_u32 (im_quantity msg) ->
  books_have Aggregates e ->
  (forall b, im_kind msg = NewOrder -> e_books e !! im_instrument_id msg = Some b ->
     debug_price_ok b (order_now clock_gettime msg e)) ->
  exists e', submit (H := DebugBuild) Capacity clock_gettime msg e = Ok e' /\
    ((forall b, im_kind msg = NewOrder -> e_books e !! im_instrument_id msg = Some b ->
        rest_ok Aggregates (e_heap e) b (queues_of (e_heap e) b) (order_now clock_gettime msg e)) ->
     books_have Aggregates e').
Proof.
  intros Hr Hq Hagg Hprice.
  destruct (reachable_good (H := Release) _ _ _ _ eq_refl Hr) as (L & fs & Q & xs & Hinv & _).
  destruct (dispatch_step (H := DebugBuild) Capacity clock_gettime L fs Q e msg Hinv Hq)
    as (e1 & L1 & fs1 & Q1 & E1 & Hst).
  { intros _. split; [by apply (books_have_inv _ _ _ _ _ _ Hinv)|done]. }
  unfold submit. rewrite E1. cbn [bind]. eexists. split; [done|]. intros Hok.
  pose proof (st_inv _ _ _ _ _ _ _ _ _ _ _ Hst) as Hinv1. change (books_have Aggregates e1).
  apply (books_have_inv _ _ _ _ _ _ Hinv1), (st_facet _ _ _ _ _ _ _ _ _ _ _ Hst).
  - by apply (books_have_inv _ _ _ _ _ _ Hinv).
  - intros Hk b q Hb HQ. specialize (Hok b Hk Hb).
    by rewrite (queues_of_rep _ _ _ (br_struct _ _ _ (ei_book _ _ _ _ _ Hinv _ _ _ Hb HQ))) in Hok.
Qed.

(** ** What the engine does not do *)

#[local] Existing Instance ex_sink.


(** ** The theorems at work *)

#[local] Ltac ex_eval := vm_compute; first [reflexivity|discriminate].

Lemma ex_accepted msg :
  im_kind msg = NewOrder -> in_u32 (im_quantity msg) -> im_instrument_id msg = 1 ->
  accepted ex_book msg (ex_b ex_book).
Proof.
  intros Hk Hq Hid. unfold accepted. rewrite Hid.
  split; [exact Hk|]. split; [exact Hq|]. split; ex_eval.
Qed.

Definition ex_buy : InboundOrderMsg := ex_order 4 0 0 105 12.

Lemma new_order_refinement_witness :
  exists e', submit 4 ex_clock ex_buy ex_book = Ok e' /\ length (orders e' 1 false) = 1%nat.
Proof.
  destruct (new_order_refinement 4 ex_clock 8 ex_book ex_buy (ex_b ex_book) ex_book_reachable)
    as (e' & avail & _ & E & _ & Hopp & _).
  - by apply ex_accepted.
  - exists e'. split; [exact E|].
    change (orders e' 1 false)
      with (orders e' (im_instrument_id ex_buy)
              (negb (is_buy (order_of ex_buy (ns_at ex_clock (e_clock_reads ex_book)))))).
    rewrite Hopp. vm_compute. reflexivity.
Defined.

Lemma submit_safe_witness :
  exists e', submit 4 ex_clock ex_buy ex_book = Ok e' /\ reachable 4 ex_clock 8 e'.
Proof. apply (submit_safe 4 ex_clock 8 ex_book ex_buy ex_book_reachable). by apply ex_in_u32. Defined.

Lemma book_never_crossed_witness :
  o_price (default zero_Order (head (orders ex_book 1 true)))
  < o_price (default zero_Order (head (orders ex_book 1 false))).
Proof.
  apply (book_never_crossed 4 ex_clock 8 ex_book 1 _ _ ex_book_reachable);
    apply ex_elem; vm_compute; reflexivity.
Defined.

Lemma fok_all_or_nothing_witness :
  exists e', submit 4 ex_clock (ex_order 4 0 3 105 12) ex_book = Ok e' /\
    orders e' 1 true = orders ex_book 1 true.
Proof.
  destruct (fok_all_or_nothing 4 ex_clock 8 ex_book (ex_order 4 0 3 105 12) (ex_b ex_book)
              ex_book_reachable) as (e' & E & Hown & _).
  - by apply ex_accepted.
  - reflexivity.
  - vm_compute. discriminate.
  - apply book_aggb_spec. vm_compute. reflexivity.
  - exists e'. split; [exact E|exact Hown].
Defined.

Lemma slots_partition_witness : NoDup (free_slots ex_book ++ resting_slots ex_book).
Proof. apply (slots_partition 4 ex_clock 8 ex_book ex_book_reachable). Defined.

Lemma no_slot_lost_witness :
  let msg := ex_order 4 0 0 200 12 in
  is_valid_price (ex_b ex_book) 200 = false /\
  (length (free_slots (ex_submit ex_book msg)) + length (resting_slots (ex_submit ex_book msg))
   = 4)%nat.
Proof.
  intros msg. split; [vm_compute; reflexivity|].
  rewrite (no_slot_lost 4 ex_clock 8 ex_book msg (ex_submit ex_book msg) ex_book_reachable).
  - vm_compute. reflexivity.
  - by apply ex_in_u32.
  - vm_compute. reflexivity.
  - intros (_ & _ & b & _ & _ & Hres). revert Hres. vm_compute. discriminate.
Defined.

Lemma cancel_removes_witness :
  exists e', submit 4 ex_clock (ex_cancel 2) ex_book = Ok e' /\
    free_slots e' = 101%nat :: free_slots ex_book.
Proof.
  destruct (cancel_removes 4 ex_clock 8 ex_book (ex_cancel 2) (ex_b ex_book) 101 ex_book_reachable)
    as (e' & o & buy & V1 & V2 & E & _ & _ & _ & _ & _ & Hfree & _).
  - by left.
  - by apply ex_in_u32.
  - vm_compute. reflexivity.
  - vm_compute. reflexivity.
  - exists e'. split; [exact E|exact Hfree].
Defined.

Lemma cancel_unknown_noop_witness :
  submit 4 ex_clock (ex_cancel 9) ex_book = Ok (add_processed 1 ex_book).
Proof.
  apply (cancel_unknown_noop 4 ex_clock ex_book (ex_cancel 9)).
  - by left.
  - intros b Hb. rewrite (ex_b_unique ex_book b Hb). vm_compute. reflexivity.
Defined.

Lemma discarded_accounted_witness :
  exists e', submit 4 ex_clock (ex_order 4 0 1 0 20) ex_book = Ok e' /\
    orders e' 1 true = orders ex_book 1 true.
Proof.
  destruct (discarded_accounted 4 ex_clock 8 ex_book (ex_order 4 0 1 0 20) (ex_b ex_book)
              ex_book_reachable) as (e' & ts & rem & E & Hown & _).
  - by apply ex_accepted.
  - by left.
  - exists e'. split; [exact E|exact Hown].
Defined.

Lemma limit_priority_witness :
  exists e' ts, submit 4 ex_clock ex_buy ex_book = Ok e' /\
    (tr_price <$> ts) = o_price <$> take (length ts) (orders ex_book 1 false).
Proof.
  destruct (limit_priority 4 ex_clock 8 ex_book ex_buy (ex_b ex_book) ex_book_reachable)
    as (e' & ts & rem & E & _ & Hp & _).
  - by apply ex_accepted.
  - reflexivity.
  - vm_compute. reflexivity.
  - exists e', ts. split; [exact E|exact Hp].
Defined.

Lemma resting_orders_indexed_witness : books_have Indexed (ex_submit ex_book ex_buy).
Proof.
  apply (resting_orders_indexed 4 ex_clock 8 ex_book ex_buy _ ex_book_reachable).
  - by apply ex_in_u32.
  - vm_compute. reflexivity.
  - apply ex_books_indexed. vm_compute. reflexivity.
  - intros _ buy o Ho Hid.
    assert (Forall (fun o => o_order_id o <> 4) (orders ex_book 1 buy)) as Hall.
    { destruct buy; vm_compute; repeat constructor; discriminate. }
    rewrite Forall_forall in Hall. by apply (Hall o Ho).
Defined.

Lemma aggregates_exact_witness : books_have Aggregates (ex_submit ex_book ex_buy).
Proof.
  apply (aggregates_exact 4 ex_clock 8 ex_book ex_buy _ ex_book_reachable).
  - by apply ex_in_u32.
  - vm_compute. reflexivity.
  - apply ex_books_agg. vm_compute. reflexivity.
  - intros _ b i ps Hb buy Hps _.
    rewrite (ex_b_unique ex_book b Hb) in Hps. clear b Hb.
    assert (forallb (fun ps => bool_decide (sum_qty (e_heap ex_book) ps + 12 < 2 ^ 32 /\
      Z.of_nat (length ps) + 1 < 2 ^ 32)) (q_bid (queues_of (e_heap ex_book) (ex_b ex_book))) = true)
      as Hall by (vm_compute; reflexivity).
    rewrite forallb_forall in Hall. apply list_elem_of_lookup_2, list_elem_of_In, Hall in Hps.
    by apply bool_decide_eq_true in Hps.
Defined.

Lemma poll_fifo_witness : exists e', poll 4 ex_clock 8 64 ex_book = Ok (e', 0).
Proof.
  destruct (poll_fifo 4 ex_clock 8 ex_book 64 ex_book_reachable) as (q & e1 & _ & _ & _ & E & _).
  - lia.
  - eexists. exact E.
Defined.

Lemma resting_orders_placed_witness :
  0 < o_quantity (default zero_Order (head (orders ex_book 1 true))) < 2 ^ 32.
Proof.
  refine (proj2 (proj2 (proj2 (proj2
    (resting_orders_placed 4 ex_clock 8 ex_book 1 (ex_b ex_book) true _ ex_book_reachable _ _))))).
  - vm_compute. reflexivity.
  - apply ex_elem. vm_compute. reflexivity.
Defined.


(** A buy at 200 with a grid that ends at 110: it takes both asks and the
    remaining 5 are lost with the slot. *)
Lemma limit_off_grid_lost_witness :
  exists e', submit 4 ex_clock (ex_order 4 0 0 200 20) ex_book = Ok e' /\
    (length (free_slots e') + length (resting_slots e') = 3)%nat.
Proof.
  destruct (limit_off_grid_lost 4 ex_clock 8 ex_book (ex_order 4 0 0 200 20) (ex_b ex_book)
              ex_book_reachable) as (e' & E & _ & _ & _ & Hs).
  - by apply ex_accepted.
  - reflexivity.
  - vm_compute. reflexivity.
  - vm_compute. reflexivity.
  - exists e'. split; [exact E|].
    assert (length (free_slots ex_book) + length (resting_slots ex_book) = 4)%nat as E4
      by (vm_compute; reflexivity). lia.
Defined.

Lemma reset_recovers_witness :
  exists e', reset_state 4 ex_book = Ok e' /\ free_slots e' = [100; 101; 102; 103]%nat.
Proof.
  destruct (reset_recovers 4 ex_clock 8 ex_book ex_book_reachable) as (e' & E & _ & Hf & _).
  exists e'. split; [exact E|exact Hf].
Defined.

Lemma debug_assertions_hold_witness :
  exists e', submit (H := DebugBuild) 4 ex_clock ex_buy ex_book = Ok e'.
Proof.
  destruct (debug_assertions_hold 4 ex_clock 8 ex_book ex_buy ex_book_reachable) as (e' & E & _).
  - by apply ex_in_u32.
  - apply ex_books_agg. vm_compute. reflexivity.
  - intros b _ Hb. rewrite (ex_b_unique ex_book b Hb). vm_compute. reflexivity.
  - exists e'. exact E.
Defined.

(** An engine with one more message in its inbound ring. *)
Definition ex_arrives (msg : InboundOrderMsg) (e : Engine OutLink) : Engine OutLink :=
  match try_push 8 (e_inbound e) msg with Ok (q, _) => set_inbound q e | Err _ => e end.

Lemma ex_arrives_outbound msg e : e_outbound (ex_arrives msg e) = e_outbound e.
Proof. unfold ex_arrives. by destruct (try_push _ _ _) as [[q ok]|f]. Qed.

(** A buy order that crosses both asks of [ex_book] waits. *)
Definition ex_waiting : Engine OutLink := ex_arrives (ex_order 9 0 0 105 7) ex_book.

Lemma ex_waiting_ok : sink_ok (e_outbound ex_waiting).
Proof.
  unfold ex_waiting. rewrite ex_arrives_outbound.
  destruct (reachable_inv 4 ex_clock 8 ex_book ex_book_reachable) as (L & fs & Q & xs & Hinv & _).
  exact (ei_sink _ _ _ _ _ Hinv).
Qed.

Lemma engine_queue_independent_witness :
  exists e' el n, poll 4 ex_clock 8 64 ex_waiting = Ok (e', n) /\
    poll 4 ex_clock 8 64 (to_log ex_waiting) = Ok (el, n) /\ length (e_outbound el) = 4%nat /\
    sink_log (e_outbound e') = sink_log (e_outbound ex_waiting) ++ e_outbound el.
Proof.
  pose proof (engine_queue_independent 4 ex_clock 8 64 ex_waiting ex_waiting_ok) as Hq.
  assert (match poll 4 ex_clock 8 64 (to_log ex_waiting) with
          | Ok (el, _) => length (e_outbound el) | Err _ => 0%nat end = 4%nat) as Hc by (vm_compute; reflexivity).
  destruct (poll 4 ex_clock 8 64 (to_log ex_waiting)) as [[el n]|f]; [|discriminate Hc].
  destruct Hq as (e' & E' & _ & Hl). exists e', el, n.
  split; [exact E'|]. split; [reflexivity|]. split; [exact Hc|exact Hl].
Defined.
