(* ===== verification/BookTheorems.v ===== *)
(** * The properties of the order book

    On their own ([book_rep] is the book's representation invariant, relating
    the level arrays, the linked queues, the cursors and the index to the
    lists of addresses [q]) and in the states the engine reaches. *)

From stdpp Require Import base numbers list gmap fin_maps sorting.
From Stdlib Require Import ZArith Lia.
From S2P Require Import Prelude.
From S2P Require Import OrderTypes.
From S2P Require Import OrderPool.
From S2P Require Import PriceLevel.
From S2P Require Import OrderIndex.
From S2P Require Import OrderBook.
From S2P Require Import OrderBookInv.
From S2P Require Import OrderBookOps.
From S2P Require Import OrderBookQueries.
From S2P Require Import BookFacets.
From S2P Require Import SPSCQueue.
From S2P Require Import Sink.
From S2P Require Import MatchingEngine.
From S2P Require Import EngineInv.
From S2P Require Import SweepSpec.
From S2P Require Import EngineSweep.
From S2P Require Import EngineMatch.
From S2P Require Import EngineHandlers.
From S2P Require Import EngineRun.
From S2P Require Import EngineView.
From S2P Require Import EngineExample.
From S2P Require Import EngineTheorems.

#[local] Existing Instance Release.

(** [best_bid_price()] or [best_ask_price()] *)
Definition best_price (buy : bool) (b : OrderBook) : res Z :=
  if buy then best_bid_price b else best_ask_price b.

Lemma best_price_level buy b :
  best_price buy b =
  let* l := best_level buy b in Ok (match l with Some lvl => lv_price lvl | None => kInvalidPrice end).
Proof. by destruct buy. Qed.

(** The head of the priority order is the head of the best level's queue. *)
Lemma prio_head h b q buy a rest :
  book_rep h b q -> prio buy (qside q buy) = a :: rest ->
  exists i l lvl, best_of b buy = Z.of_nat i /\ qside q buy !! i = Some (a :: l) /\
    prio buy (<[i := l]> (qside q buy)) = rest /\ best_level buy b = Ok (Some lvl) /\
    lv_price lvl = bk_min_price b + Z.of_nat i * bk_tick_size b.
Proof.
  intros Hr Hp.
  destruct (best_level_spec _ _ _ buy Hr) as [[_ Hn]|(i & a' & l & lvl & El & Hb & Hq & _ & _ & Hpr)];
    [congruence|].
  pose proof (br_best _ _ _ Hr buy) as Hok. rewrite Hb in Hok.
  destruct (prio_best buy (qside q buy) i (a' :: l) Hok Hq) as (rest' & Hpr' & Hins);
    [exact (qside_bound _ _ _ buy (br_struct _ _ _ Hr))|].
  rewrite Hpr' in Hp. simpl in Hp. injection Hp as <- <-. exists i, l, lvl. by split_and!; [..|apply Hins| |].
Qed.

(** [pop_best_bid_head] and [pop_best_ask_head] take orders out in price-
    time priority: the order at the front of its side's priority list comes
    out, the rest of that list and the other side stay as they were, and on an
    empty side nothing changes and null comes out. *)
Theorem pop_best_priority (h : heap) (b : OrderBook) (q : queues) (buy : bool) :
  book_rep h b q ->
  match prio buy (qside q buy) with
  | [] => pop_best buy h b = Ok (h, b, None)
  | a :: rest =>
      exists h' b' q', pop_best buy h b = Ok (h', b', Some a) /\ book_rep h' b' q' /\
        prio buy (qside q' buy) = rest /\ qside q' (negb buy) = qside q (negb buy) /\
        same_grid b b' /\ (book_agg h b q -> book_agg h' b' q')
  end.
Proof.
  intros Hr. destruct (prio buy (qside q buy)) as [|a rest] eqn:Hp.
  - apply pop_best_empty. pose proof (br_best _ _ _ Hr buy) as [[E _]|(i & ps & _ & Hi & Hne & _)]; [done|].
    exfalso. destruct ps as [|x ps]; [done|].
    assert (x ∈ prio buy (qside q buy)) as Hx.
    { rewrite prio_perm. apply elem_of_concat_lookup. exists i, (x :: ps). split; [done|set_solver]. }
    rewrite Hp in Hx. set_solver.
  - destruct (prio_head _ _ _ _ _ _ Hr Hp) as (i & l & lvl & Hb & Hq & Hrest & _).
    destruct (pop_best_spec (H := Release) _ _ _ _ _ _ _ Hr Hb Hq ltac:(intros X; discriminate X))
      as (o & h' & b' & _ & E & Hr' & Hg & _ & _ & Hagg).
    eexists h', b', _. split; [done|]. split; [done|]. rewrite qside_qset, qside_qset_ne by (by destruct buy).
    done.
Qed.

(** [reduce_order_qty(o, n)] on a resting order: for [0 < n] not above its
    quantity the order keeps its place, nothing else of the store changes
    than its quantity, and the aggregates stay exact; for [n = 0] it leaves
    its queue as a cancelled order, and no other order is touched. *)
Theorem reduce_order_qty_effect (h : heap) (b : OrderBook) (q : queues) (buy : bool) (i : nat)
  (l1 l2 : list nat) (a : nat) (o : Order) (n : Z) :
  book_rep h b q -> qside q buy !! i = Some (l1 ++ a :: l2) -> h !! a = Some o ->
  0 <= n <= o_quantity o ->
  exists h' b' q', reduce_order_qty h b (Some a) n = Ok (h', b') /\
    book_rep h' b' q' /\ same_grid b b' /\ (book_agg h b q -> book_agg h' b' q') /\
    if n =? 0
    then q' = qset buy (<[i := l1 ++ l2]> (qside q buy)) q /\
         o_status <$> h' !! a = Some Cancelled /\
         forall c, c <> a -> data <$> h' !! c = data <$> h !! c
    else q' = q /\ h' = <[a := set_quantity n o]> h.
Proof.
  intros Hr Hq Ho Hn. destruct (Z.eqb_spec n 0) as [->|Hne].
  - destruct (reduce_order_qty_zero (H := Release) _ _ _ _ _ _ _ _ _ Hr Hq Ho ltac:(intros X; discriminate X))
      as (h' & b' & E & Hr' & Hg & Ha & Hoth & Hagg).
    eexists h', b', _. split_and!; try done. by rewrite Ha.
  - destruct (reduce_order_qty_keep (H := Release) _ _ _ _ _ _ _ _ _ n Hr Hq Ho ltac:(lia)
      ltac:(intros X; discriminate X)) as (b' & E & Hr' & Hg & Hagg).
    eexists _, b', q. by split_and!.
Qed.

Section reachable_books.
Context {S : Type} `{Sink ExecutionReport S} (Capacity : nat) (clock_gettime : nat -> Z * Z) (N : Z).
Implicit Types (e : Engine S).

(** C31: in every reachable state the best bid (ask) price the book reports is
    the price of an order at the front of that side's priority list, no
    resting order on the side has a better one, and an empty side reports
    [kInvalidPrice]. *)
Theorem best_prices_exact e id b buy :
  reachable Capacity clock_gettime N e -> e_books e !! id = Some b ->
  exists p, best_price buy b = Ok p /\
    match orders e id buy with
    | [] => p = kInvalidPrice
    | o :: _ => o_price o = p /\ forall o', o' ∈ orders e id buy -> better_eq buy p (o_price o')
    end.
Proof.
  intros Hr Hb. destruct (reachable_book Capacity clock_gettime N e id b Hr Hb)
    as (L & fs & Q & q & Hinv & HQ & Hrep & Ho). rewrite Ho, best_price_level.
  pose proof (br_struct _ _ _ Hrep) as Hst.
  pose proof (view_sorted _ _ (better_eq buy) (prio_sorted _ _ _ buy Hst)) as Hsort.
  unfold side_view. destruct (prio buy (qside q buy)) as [|a rest] eqn:Hpr.
  - exists kInvalidPrice. split; [|done].
    destruct (best_level_spec _ _ _ buy Hrep) as [[-> _]|(i & a & l & _ & _ & _ & Hq & _)]; [done|].
    exfalso. assert (a ∈ prio buy (qside q buy)) as Hx; [|rewrite Hpr in Hx; set_solver].
    rewrite prio_perm. apply elem_of_concat_lookup. exists i, (a :: l). split; [done|set_solver].
  - destruct (prio_head _ _ _ _ _ _ Hrep Hpr) as (i & l & lvl & _ & Hq & _ & -> & Hp). cbn [bind].
    destruct (book_lookup _ _ _ _ _ _ a Hst Hq) as (o & _ & Hoa & _ & _ & Hres & _); [set_solver|].
    eexists. split; [done|]. rewrite (view_cons _ _ _ _ Hoa) in *. cbn [o_price data].
    pose proof (rs_price _ _ _ Hres) as Hpo. change (o_price (data o)) with (o_price o) in *.
    split; [by rewrite Hp|]. apply StronglySorted_inv in Hsort as [_ Hf]. rewrite Forall_forall in Hf.
    intros o' [->|Hin]%elem_of_cons.
    + change (o_price (data o)) with (o_price o). rewrite Hpo, Hp. unfold better_eq. by destruct buy.
    + specialize (Hf _ Hin). change (o_price (data o)) with (o_price o) in Hf. by rewrite Hp, <- Hpo.
Qed.

End reachable_books.

(** ** The theorems at work *)

#[local] Existing Instance ex_sink.

Definition bx_q : queues := queues_of (e_heap ex_book) (ex_b ex_book).

Lemma bx_rep : book_rep (e_heap ex_book) (ex_b ex_book) bx_q.
Proof.
  destruct (reachable_book 4 ex_clock 8 ex_book 1 (ex_b ex_book) ex_book_reachable)
    as (L & fs & Q & q & _ & _ & Hrep & _); [vm_compute; reflexivity|].
  unfold bx_q. by rewrite (queues_of_rep _ _ _ (br_struct _ _ _ Hrep)).
Qed.

Lemma pop_best_priority_witness :
  exists h' b', pop_best false (e_heap ex_book) (ex_b ex_book) = Ok (h', b', Some 101%nat).
Proof.
  pose proof (pop_best_priority (e_heap ex_book) (ex_b ex_book) bx_q false bx_rep) as Hp.
  assert (prio false (qside bx_q false) = [101; 100]%nat) as Eq by (vm_compute; reflexivity).
  rewrite Eq in Hp. destruct Hp as (h' & b' & q' & E & _).
  exists h', b'. exact E.
Defined.

Lemma reduce_order_qty_effect_witness :
  exists h' b', reduce_order_qty (e_heap ex_book) (ex_b ex_book) (Some 100%nat) 1 = Ok (h', b').
Proof.
  destruct (e_heap ex_book !! 100%nat) as [o|] eqn:Ho; [|vm_compute in Ho; discriminate Ho].
  destruct (reduce_order_qty_effect (e_heap ex_book) (ex_b ex_book) bx_q false 5 [] [] 100 o 1 bx_rep)
    as (h' & b' & q' & E & _).
  - vm_compute. reflexivity.
  - exact Ho.
  - vm_compute in Ho. injection Ho as <-. vm_compute. split; discriminate.
  - exists h', b'. exact E.
Defined.

Lemma best_prices_exact_witness : exists p, best_price true (ex_b ex_book) = Ok p.
Proof.
  destruct (best_prices_exact 4 ex_clock 8 ex_book 1 (ex_b ex_book) true ex_book_reachable)
    as (p & E & _); [vm_compute; reflexivity|].
  exists p. exact E.
Defined.
