(* ===== verification/WireProtocol.v ===== *)
(** * The binary wire protocol: [src/io/wire_protocol.hpp]

    The message structs with their object representations on x86-64
    (little-endian, no implicit padding: the member lists are laid out by the
    ABI rule of [Prelude] and the offsets used by the readers are checked
    against it), and the byte store that [memcpy] reads and writes. *)

From stdpp Require Import base numbers list gmap fin_maps.
From Stdlib Require Import ZArith Lia.
From S2P Require Import Prelude.

(** ** Little-endian integers *)

Fixpoint le_bytes (n : nat) (x : Z) : list Z :=
  match n with
  | O => []
  | S n' => u8 x :: le_bytes n' (x / 2 ^ 8)
  end.

Fixpoint le_val (bs : list Z) : Z :=
  match bs with
  | [] => 0
  | b :: bs' => b + 2 ^ 8 * le_val bs'
  end.

(** The unsigned member of [sz] bytes at offset [off]. *)
Definition rd (off sz : nat) (bs : list Z) : Z := le_val (take sz (drop off bs)).

(** ** Message types *)

Inductive WireMsgType : Type :=
| WM_NewOrder | WM_CancelOrder | WM_ModifyOrder | WM_ExecReport
| WM_Raw (v : Z).

Definition WireMsgType_u16 (t : WireMsgType) : Z :=
  match t with
  | WM_NewOrder => 0x0001
  | WM_CancelOrder => 0x0002
  | WM_ModifyOrder => 0x0003
  | WM_ExecReport => 0x0010
  | WM_Raw v => u16 v
  end.

(** ** The structs

    Each has its members as (size, alignment) pairs, a record, and the two
    directions of [memcpy]. *)

Record WireHeader : Type := mkHeader { hd_msg_type : Z; hd_msg_len : Z }.

Definition WireHeader_members : list (Z * Z) := [(2, 2); (2, 2)].
Definition sizeof_WireHeader : Z := layout_size WireHeader_members 2.

Definition WireHeader_of_bytes (bs : list Z) : WireHeader :=
  mkHeader (rd 0 2 bs) (rd 2 2 bs).

Record WireNewOrder : Type := mkWireNewOrder {
  wn_msg_type : Z;
  wn_msg_len : Z;
  wn_instrument_id : Z;
  wn_order_id : Z;
  wn_client_id : Z;
  wn_price : Z;
  wn_quantity : Z;
  wn_side : Z;
  wn_order_type : Z;
  wn_pad0 : Z;
  wn_pad1 : Z
}.

Definition WireNewOrder_members : list (Z * Z) :=
  [(2, 2); (2, 2); (4, 4); (8, 8); (8, 8); (8, 8); (4, 4); (1, 1); (1, 1); (1, 1); (1, 1)].
Definition sizeof_WireNewOrder : Z := layout_size WireNewOrder_members 8.

Definition WireNewOrder_of_bytes (bs : list Z) : WireNewOrder :=
  mkWireNewOrder (rd 0 2 bs) (rd 2 2 bs) (rd 4 4 bs) (rd 8 8 bs) (rd 16 8 bs)
    (i64 (rd 24 8 bs)) (rd 32 4 bs) (rd 36 1 bs) (rd 37 1 bs) (rd 38 1 bs) (rd 39 1 bs).

Definition bytes_of_WireNewOrder (w : WireNewOrder) : list Z :=
  le_bytes 2 (wn_msg_type w) ++ le_bytes 2 (wn_msg_len w) ++ le_bytes 4 (wn_instrument_id w) ++
  le_bytes 8 (wn_order_id w) ++ le_bytes 8 (wn_client_id w) ++ le_bytes 8 (wn_price w) ++
  le_bytes 4 (wn_quantity w) ++ le_bytes 1 (wn_side w) ++ le_bytes 1 (wn_order_type w) ++
  le_bytes 1 (wn_pad0 w) ++ le_bytes 1 (wn_pad1 w).

Record WireCancelOrder : Type := mkWireCancelOrder {
  wc_msg_type : Z;
  wc_msg_len : Z;
  wc_instrument_id : Z;
  wc_order_id : Z
}.

Definition WireCancelOrder_members : list (Z * Z) := [(2, 2); (2, 2); (4, 4); (8, 8)].
Definition sizeof_WireCancelOrder : Z := layout_size WireCancelOrder_members 8.

Definition WireCancelOrder_of_bytes (bs : list Z) : WireCancelOrder :=
  mkWireCancelOrder (rd 0 2 bs) (rd 2 2 bs) (rd 4 4 bs) (rd 8 8 bs).

Definition bytes_of_WireCancelOrder (w : WireCancelOrder) : list Z :=
  le_bytes 2 (wc_msg_type w) ++ le_bytes 2 (wc_msg_len w) ++ le_bytes 4 (wc_instrument_id w) ++
  le_bytes 8 (wc_order_id w).

Record WireExecReport : Type := mkWireExecReport {
  we_msg_type : Z;
  we_msg_len : Z;
  we_kind : Z;
  we_pad0 : Z;
  we_pad1 : Z;
  we_pad2 : Z;
  we_order_id : Z;
  we_counterpart_order_id : Z;
  we_exec_price : Z;
  we_exec_quantity : Z;
  we_leaves_quantity : Z;
  we_timestamp_ns : Z
}.

Definition WireExecReport_members : list (Z * Z) :=
  [(2, 2); (2, 2); (1, 1); (1, 1); (1, 1); (1, 1); (8, 8); (8, 8); (8, 8); (4, 4); (4, 4); (8, 8)].
Definition sizeof_WireExecReport : Z := layout_size WireExecReport_members 8.

Definition WireExecReport_of_bytes (bs : list Z) : WireExecReport :=
  mkWireExecReport (rd 0 2 bs) (rd 2 2 bs) (rd 4 1 bs) (rd 5 1 bs) (rd 6 1 bs) (rd 7 1 bs)
    (rd 8 8 bs) (rd 16 8 bs) (i64 (rd 24 8 bs)) (rd 32 4 bs) (rd 36 4 bs) (rd 40 8 bs).

Definition bytes_of_WireExecReport (w : WireExecReport) : list Z :=
  le_bytes 2 (we_msg_type w) ++ le_bytes 2 (we_msg_len w) ++ le_bytes 1 (we_kind w) ++
  le_bytes 1 (we_pad0 w) ++ le_bytes 1 (we_pad1 w) ++ le_bytes 1 (we_pad2 w) ++
  le_bytes 8 (we_order_id w) ++ le_bytes 8 (we_counterpart_order_id w) ++
  le_bytes 8 (we_exec_price w) ++ le_bytes 4 (we_exec_quantity w) ++
  le_bytes 4 (we_leaves_quantity w) ++ le_bytes 8 (we_timestamp_ns w).

Definition min_msg_len (t : WireMsgType) : Z :=
  match t with
  | WM_NewOrder => sizeof_WireNewOrder
  | WM_CancelOrder => sizeof_WireCancelOrder
  | WM_ExecReport => sizeof_WireExecReport
  | _ => sizeof_WireHeader
  end.

(** ** Bytes in memory *)

Abbreviation memory := (gmap nat Z).

(** The source side of [memcpy(dst, a, n)]. *)
Fixpoint load_bytes (m : memory) (a n : nat) : res (list Z) :=
  match n with
  | O => Ok []
  | S n' =>
      match m !! a with
      | None => Err BadAddress
      | Some b => let* bs := load_bytes m (S a) n' in Ok (b :: bs)
      end
  end.

(** The destination side of [memcpy(a, src, n)]: the bytes must lie in a live
    object. *)
Fixpoint store_bytes (m : memory) (a : nat) (bs : list Z) : res memory :=
  match bs with
  | [] => Ok m
  | b :: bs' =>
      match m !! a with
      | None => Err BadAddress
      | Some _ => store_bytes (<[a := b]> m) (S a) bs'
      end
  end.

(** * Lemmas *)

Definition is_bytes (bs : list Z) : Prop := Forall in_u8 bs.

Lemma length_le_bytes n x : length (le_bytes n x) = n.
Proof. revert x. induction n as [|n IH]; intros x; simpl; [done|by rewrite IH]. Qed.

Lemma le_bytes_range n x : is_bytes (le_bytes n x).
Proof. revert x. induction n as [|n IH]; intros x; constructor; [apply u8_range|apply IH]. Qed.

Lemma le_val_bytes n x : le_val (le_bytes n x) = x mod 2 ^ (8 * Z.of_nat n).
Proof.
  revert x. induction n as [|n IH]; intros x; [by rewrite Z.mod_1_r|].
  cbn [le_bytes le_val]. rewrite IH. unfold u8.
  replace (8 * Z.of_nat (S n)) with (8 + 8 * Z.of_nat n) by lia.
  rewrite Z.pow_add_r, Z.rem_mul_r by lia. lia.
Qed.

Lemma le_val_bound bs : is_bytes bs -> 0 <= le_val bs < 2 ^ (8 * Z.of_nat (length bs)).
Proof.
  induction 1 as [|b bs Hb _ IH]; [done|]. cbn [le_val length].
  replace (8 * Z.of_nat (S (length bs))) with (8 + 8 * Z.of_nat (length bs)) by lia.
  rewrite Z.pow_add_r by lia. unfold in_u8 in Hb. nia.
Qed.

Lemma rd_bound off sz bs :
  is_bytes bs -> 0 <= rd off sz bs < 2 ^ (8 * Z.of_nat sz).
Proof.
  intros Hb. unfold rd. pose proof (le_val_bound (take sz (drop off bs))) as H.
  assert (is_bytes (take sz (drop off bs))) as Hb' by (by apply Forall_take, Forall_drop).
  specialize (H Hb'). rewrite length_take in H.
  enough (2 ^ (8 * Z.of_nat (Nat.min sz (length (drop off bs)))) <= 2 ^ (8 * Z.of_nat sz)) by lia.
  apply Z.pow_le_mono_r; lia.
Qed.

(** Reading a member of a concatenation of members. *)
Lemma rd_skip off n l bs k : length l = n -> rd (n + off) k (l ++ bs) = rd off k bs.
Proof. intros <-. unfold rd. by rewrite drop_app_add. Qed.

Lemma rd_head n x bs : rd 0 n (le_bytes n x ++ bs) = x mod 2 ^ (8 * Z.of_nat n).
Proof.
  unfold rd. rewrite drop_0, <- (le_val_bytes n x). f_equal.
  rewrite <- (length_le_bytes n x) at 1. apply take_app_length.
Qed.

Lemma i64_mod x : in_i64 x -> i64 (x mod 2 ^ 64) = x.
Proof.
  intros Hx. unfold i64. rewrite Zplus_mod_idemp_l. unfold in_i64 in Hx.
  rewrite Z.mod_small by lia. lia.
Qed.

(** ** The two directions of [memcpy] *)

Lemma load_bytes_app m a n1 n2 :
  load_bytes m a (n1 + n2) =
  let* bs1 := load_bytes m a n1 in let* bs2 := load_bytes m (a + n1) n2 in Ok (bs1 ++ bs2).
Proof.
  revert a. induction n1 as [|n1 IH]; intros a; cbn [load_bytes Nat.add bind].
  { rewrite Nat.add_0_r. by destruct (load_bytes m a n2). }
  destruct (m !! a); [|done]. rewrite IH.
  destruct (load_bytes m (S a) n1); [|done]. cbn [bind].
  replace (a + S n1)%nat with (S a + n1)%nat by lia.
  by destruct (load_bytes m (S a + n1) n2).
Qed.

Lemma load_bytes_length m a n bs : load_bytes m a n = Ok bs -> length bs = n.
Proof.
  revert a bs. induction n as [|n IH]; intros a bs; cbn [load_bytes]; [by intros [= <-]|].
  destruct (m !! a); [|done]. intros (bs' & E & [= <-])%bind_Ok. simpl. by rewrite (IH _ _ E).
Qed.

Lemma load_bytes_take m a n bs k :
  load_bytes m a n = Ok bs -> (k <= n)%nat -> load_bytes m a k = Ok (take k bs).
Proof.
  intros E Hk. replace n with (k + (n - k))%nat in E by lia. rewrite load_bytes_app in E.
  apply bind_Ok in E as (b1 & E1 & (b2 & E2 & [= <-])%bind_Ok).
  rewrite E1. by rewrite <- (load_bytes_length _ _ _ _ E1), take_app_length.
Qed.

Lemma load_bytes_drop m a n bs k :
  load_bytes m a n = Ok bs -> (k <= n)%nat -> load_bytes m (a + k) (n - k) = Ok (drop k bs).
Proof.
  intros E Hk. replace n with (k + (n - k))%nat in E by lia. rewrite load_bytes_app in E.
  apply bind_Ok in E as (b1 & E1 & (b2 & E2 & [= <-])%bind_Ok).
  rewrite E2. by rewrite <- (load_bytes_length _ _ _ _ E1), drop_app_length.
Qed.

(** Everything outside the [n] bytes from [a] is the same in both stores. *)
Definition same_outside (a n : nat) (m m' : memory) : Prop :=
  forall c, ~ (a <= c < a + n)%nat -> m' !! c = m !! c.

Lemma store_bytes_spec m a bs :
  (forall c, (a <= c < a + length bs)%nat -> is_Some (m !! c)) ->
  exists m', store_bytes m a bs = Ok m' /\ load_bytes m' a (length bs) = Ok bs /\
    same_outside a (length bs) m m' /\ dom m' = dom m.
Proof.
  revert m a. induction bs as [|b bs IH]; intros m a Hm; cbn [store_bytes load_bytes length].
  { by exists m. }
  destruct (Hm a) as [b0 Hb0]; [simpl; lia|]. rewrite Hb0.
  destruct (IH (<[a := b]> m) (S a)) as (m' & -> & El & Hs & Hd).
  { intros c Hc. rewrite lookup_insert_ne by lia. apply Hm. simpl. lia. }
  exists m'. split; [done|].
  assert (m' !! a = Some b) as ->.
  { rewrite Hs by lia. apply lookup_insert_eq. }
  rewrite El. split; [done|]. split.
  - intros c Hc. rewrite Hs by (simpl in *; lia). apply lookup_insert_ne. simpl in Hc. lia.
  - rewrite Hd, dom_insert_L. apply elem_of_dom_2 in Hb0. set_solver.
Qed.

(** ** Layout *)

(** The readers' offsets are the ABI's and the sizes are the ones the
    [static_assert]s state. *)
Lemma wire_layout :
  layout_offsets 0 WireHeader_members = ([0; 2], 4) /\
  layout_offsets 0 WireNewOrder_members = ([0; 2; 4; 8; 16; 24; 32; 36; 37; 38; 39], 40) /\
  layout_offsets 0 WireCancelOrder_members = ([0; 2; 4; 8], 16) /\
  layout_offsets 0 WireExecReport_members = ([0; 2; 4; 5; 6; 7; 8; 16; 24; 32; 36; 40], 48) /\
  sizeof_WireHeader = 4 /\ sizeof_WireNewOrder = 40 /\ sizeof_WireCancelOrder = 16 /\
  sizeof_WireExecReport = 48.
Proof. by vm_compute. Qed.

(** ** Members in range *)

Definition in_u16 (x : Z) : Prop := 0 <= x < 2 ^ 16.

Definition WireNewOrder_ok (w : WireNewOrder) : Prop :=
  in_u16 (wn_msg_type w) /\ in_u16 (wn_msg_len w) /\ in_u32 (wn_instrument_id w) /\
  in_u64 (wn_order_id w) /\ in_u64 (wn_client_id w) /\ in_i64 (wn_price w) /\
  in_u32 (wn_quantity w) /\ in_u8 (wn_side w) /\ in_u8 (wn_order_type w) /\
  in_u8 (wn_pad0 w) /\ in_u8 (wn_pad1 w).

Definition WireCancelOrder_ok (w : WireCancelOrder) : Prop :=
  in_u16 (wc_msg_type w) /\ in_u16 (wc_msg_len w) /\ in_u32 (wc_instrument_id w) /\
  in_u64 (wc_order_id w).

Definition WireExecReport_ok (w : WireExecReport) : Prop :=
  in_u16 (we_msg_type w) /\ in_u16 (we_msg_len w) /\ in_u8 (we_kind w) /\
  in_u8 (we_pad0 w) /\ in_u8 (we_pad1 w) /\ in_u8 (we_pad2 w) /\
  in_u64 (we_order_id w) /\ in_u64 (we_counterpart_order_id w) /\ in_i64 (we_exec_price w) /\
  in_u32 (we_exec_quantity w) /\ in_u32 (we_leaves_quantity w) /\ in_u64 (we_timestamp_ns w).

(** Reads the member at a literal offset of a concatenation of [le_bytes]. *)
Ltac rd_members :=
  repeat match goal with
  | |- context [rd ?off ?k (le_bytes ?n ?x ++ ?bs)] =>
      lazymatch off with
      | 0%nat => rewrite (rd_head n x bs)
      | _ => rewrite (rd_skip (off - n) n (le_bytes n x) bs k (length_le_bytes n x) :
               rd off k (le_bytes n x ++ bs) = rd (off - n) k bs); cbn [Nat.sub]
      end
  end.

(** A member that is in range is read back. *)
Ltac in_range :=
  change (8 * Z.of_nat 1) with 8; change (8 * Z.of_nat 2) with 16;
  change (8 * Z.of_nat 4) with 32; change (8 * Z.of_nat 8) with 64;
  rewrite ?i64_mod by done; rewrite ?Z.mod_small by done.

Lemma WireNewOrder_roundtrip w rest :
  WireNewOrder_ok w -> WireNewOrder_of_bytes (bytes_of_WireNewOrder w ++ rest) = w.
Proof.
  intros (? & ? & ? & ? & ? & ? & ? & ? & ? & ? & ?).
  unfold WireNewOrder_of_bytes, bytes_of_WireNewOrder. rewrite <- !app_assoc.
  rd_members. in_range. by destruct w.
Qed.

Lemma WireCancelOrder_roundtrip w rest :
  WireCancelOrder_ok w -> WireCancelOrder_of_bytes (bytes_of_WireCancelOrder w ++ rest) = w.
Proof.
  intros (? & ? & ? & ?).
  unfold WireCancelOrder_of_bytes, bytes_of_WireCancelOrder. rewrite <- !app_assoc.
  rd_members. in_range. by destruct w.
Qed.

Lemma WireExecReport_roundtrip w rest :
  WireExecReport_ok w -> WireExecReport_of_bytes (bytes_of_WireExecReport w ++ rest) = w.
Proof.
  intros (? & ? & ? & ? & ? & ? & ? & ? & ? & ? & ? & ?).
  unfold WireExecReport_of_bytes, bytes_of_WireExecReport. rewrite <- !app_assoc.
  rd_members. in_range. by destruct w.
Qed.

(** ** Fresh memory *)

(** [n] live bytes from [a]. *)
Fixpoint live_at (a n : nat) : memory :=
  match n with O => ∅ | S n' => <[a := 0]> (live_at (S a) n') end.

Lemma live_at_some a n c : (a <= c < a + n)%nat -> is_Some (live_at a n !! c).
Proof.
  revert a. induction n as [|n IH]; intros a Hc; [lia|]. cbn [live_at].
  destruct (decide (a = c)) as [->|Hne]; [rewrite lookup_insert_eq; by eexists|].
  rewrite lookup_insert_ne by done. apply IH. lia.
Qed.

Lemma live_at_Z a (n : Z) c :
  Z.of_nat a <= Z.of_nat c < Z.of_nat a + n -> is_Some (live_at a (Z.to_nat n) !! c).
Proof. intros Hc. apply live_at_some. lia. Qed.
