(* ===== verification/Decoder.v ===== *)
(** * The decoder and the encoder: [src/io/decoder.hpp]

    [Decoder] turns the bytes of a receive buffer into [InboundOrderMsg]s for
    the matching engine and hands the buffer back; [Encoder] serialises
    [ExecutionReport]s.  The two queues the decoder fills are any [Sink]. *)

From stdpp Require Import base numbers list gmap fin_maps.
From Stdlib Require Import ZArith Lia.
From S2P Require Import Prelude.
From S2P Require Import SPSCQueue.
From S2P Require Import Sink.
From S2P Require Import WireProtocol.

(** [BufReturnQueue = SPSCQueue<uint32_t, 1024>] *)
Definition kBufReturnCapacity : Z := 1024.
Abbreviation BufReturnQueue := (SPSCQueue Z).

Record Decoder : Type := mkDecoder {
  decoded_count_ : Z;
  error_count_ : Z;
  spans_seen_ : Z
}.

Definition Decoder_new : Decoder := mkDecoder 0 0 0.

Definition inc_decoded (d : Decoder) : Decoder :=
  mkDecoder (u64 (decoded_count_ d + 1)) (error_count_ d) (spans_seen_ d).
Definition inc_error (d : Decoder) : Decoder :=
  mkDecoder (decoded_count_ d) (u64 (error_count_ d + 1)) (spans_seen_ d).
Definition inc_spans (d : Decoder) : Decoder :=
  mkDecoder (decoded_count_ d) (error_count_ d) (u64 (spans_seen_ d + 1)).

Definition decoded_count (d : Decoder) : Z := decoded_count_ d.
Definition error_count (d : Decoder) : Z := error_count_ d.
Definition spans_seen (d : Decoder) : Z := spans_seen_ d.

(** [InboundOrderMsg msg{}] *)
Definition InboundOrderMsg_zero : InboundOrderMsg := mkInbound NewOrder 0 0 0 0 0 0 0.

(** [parse_new_order(data, len, out)]: the result and the new [out]. *)
Definition parse_new_order (m : memory) (data : nat) (len : Z) (out : InboundOrderMsg)
  : res (bool * InboundOrderMsg) :=
  if len <? sizeof_WireNewOrder then Ok (false, out)
  else
    let* bs := load_bytes m data (Z.to_nat sizeof_WireNewOrder) in
    let wire := WireNewOrder_of_bytes bs in
    Ok (true, {| im_kind := NewOrder;
                 im_order_id := wn_order_id wire;
                 im_price := wn_price wire;
                 im_quantity := wn_quantity wire;
                 im_instrument_id := wn_instrument_id wire;
                 im_client_id := wn_client_id wire;
                 im_side := wn_side wire;
                 im_type := wn_order_type wire |}).

Definition parse_cancel_order (m : memory) (data : nat) (len : Z) (out : InboundOrderMsg)
  : res (bool * InboundOrderMsg) :=
  if len <? sizeof_WireCancelOrder then Ok (false, out)
  else
    let* bs := load_bytes m data (Z.to_nat sizeof_WireCancelOrder) in
    let wire := WireCancelOrder_of_bytes bs in
    Ok (true, {| im_kind := Cancel;
                 im_order_id := wc_order_id wire;
                 im_price := 0;
                 im_quantity := 0;
                 im_instrument_id := wc_instrument_id wire;
                 im_client_id := im_client_id out;
                 im_side := 0;
                 im_type := 0 |}).

Section decoder.
Context {SI SR : Type} `{Sink InboundOrderMsg SI} `{Sink Z SR}.

(** The [while] of [decode_span], with at most [fuel] evaluations of its
    condition. *)
Fixpoint decode_loop (fuel : nat) (m : memory) (ptr end_ : nat) (count : Z) (d : Decoder)
  (inbound : SI) : res (Decoder * SI * Z) :=
  match fuel with
  | O => Err NoProgress
  | S fuel' =>
      if Z.of_nat ptr + sizeof_WireHeader <=? Z.of_nat end_ then
        let* hb := load_bytes m ptr (Z.to_nat sizeof_WireHeader) in
        let hdr := WireHeader_of_bytes hb in
        if (hd_msg_len hdr <? sizeof_WireHeader)
           || (hd_msg_len hdr >? Z.of_nat end_ - Z.of_nat ptr)
        then Ok (inc_error d, inbound, count)
        else
          let msg := InboundOrderMsg_zero in
          let* '(d1, (ok, msg1)) :=
            if hd_msg_type hdr =? WireMsgType_u16 WM_NewOrder then
              let* r := parse_new_order m ptr (hd_msg_len hdr) msg in Ok (d, r)
            else if hd_msg_type hdr =? WireMsgType_u16 WM_CancelOrder then
              let* r := parse_cancel_order m ptr (hd_msg_len hdr) msg in Ok (d, r)
            else Ok (inc_error d, (false, msg)) in
          let* '(d2, inbound1, count1) :=
            if ok : bool then
              let* inbound1 := sink_push msg1 inbound in
              Ok (inc_decoded d1, inbound1, count + 1)
            else Ok (d1, inbound, count) in
          decode_loop fuel' m (ptr + Z.to_nat (hd_msg_len hdr)) end_ count1 d2 inbound1
      else Ok (d, inbound, count)
  end.

(** [decode_span(span, inbound)].  Every message is at least a header long, so
    [len + 1] evaluations of the condition are enough. *)
Definition decode_span (m : memory) (span : RawByteSpan) (d : Decoder) (inbound : SI)
  : res (Decoder * SI * Z) :=
  let d1 := inc_spans d in
  match sp_data span with
  | None => Ok (d1, inbound, 0)
  | Some ptr =>
      if sp_len span =? 0 then Ok (d1, inbound, 0)
      else decode_loop (S (Z.to_nat (sp_len span))) m ptr (ptr + Z.to_nat (sp_len span)) 0 d1
             inbound
  end.

(** The loop of [poll] with [k] iterations left before the batch limit. *)
Fixpoint poll_loop (N : Z) (k : nat) (m : memory) (raw : RawByteQueue) (d : Decoder)
  (inbound : SI) (returns : SR) (spans_processed : Z)
  : res (RawByteQueue * Decoder * SI * SR * Z) :=
  match k with
  | O => Ok (raw, d, inbound, returns, spans_processed)
  | S k' =>
      let* '(raw1, popped) := try_pop N raw in
      match popped with
      | None => Ok (raw1, d, inbound, returns, spans_processed)
      | Some span =>
          let* '(d1, inbound1, _) := decode_span m span d inbound in
          let* returns1 := sink_push (sp_buf_id span) returns in
          poll_loop N k' m raw1 d1 inbound1 returns1 (spans_processed + 1)
      end
  end.

(** [Decoder::poll(raw, inbound, returns, max_batch)] over a raw queue of
    capacity [N]; the bytes of the spans in the queue stay put during it. *)
Definition decoder_poll (N : Z) (m : memory) (raw : RawByteQueue) (d : Decoder)
  (inbound : SI) (returns : SR) (max_batch : Z)
  : res (RawByteQueue * Decoder * SI * SR * Z) :=
  poll_loop N (Z.to_nat (i32 max_batch)) m raw d inbound returns 0.

End decoder.

(** ** Encoder *)

Definition ExKind_u8 (k : ExKind) : Z :=
  match k with
  | Fill => 0 | PartialFill => 1 | CancelAck => 2 | Reject => 3 | ExKindRaw v => u8 v
  end.

Definition ExKind_of_u8 (v : Z) : ExKind :=
  if v =? 0 then Fill else if v =? 1 then PartialFill else if v =? 2 then CancelAck
  else if v =? 3 then Reject else ExKindRaw v.

(** The memory after the write, and the number of bytes written. *)
Definition encode_exec_report (report : ExecutionReport) (m : memory) (buf : nat)
  : res (memory * Z) :=
  let wire := {|
    we_msg_type := WireMsgType_u16 WM_ExecReport;
    we_msg_len := u16 sizeof_WireExecReport;
    we_kind := ExKind_u8 (er_kind report);
    we_pad0 := 0;
    we_pad1 := 0;
    we_pad2 := 0;
    we_order_id := er_order_id report;
    we_counterpart_order_id := er_counterpart_order_id report;
    we_exec_price := er_exec_price report;
    we_exec_quantity := er_exec_quantity report;
    we_leaves_quantity := er_leaves_quantity report;
    we_timestamp_ns := er_timestamp_ns report |} in
  let* m1 := store_bytes m buf (bytes_of_WireExecReport wire) in
  Ok (m1, sizeof_WireExecReport).

Definition decode_exec_report (m : memory) (data : nat) (len : Z) (out : ExecutionReport)
  : res (bool * ExecutionReport) :=
  if len <? sizeof_WireExecReport then Ok (false, out)
  else
    let* bs := load_bytes m data (Z.to_nat sizeof_WireExecReport) in
    let wire := WireExecReport_of_bytes bs in
    if negb (we_msg_type wire =? WireMsgType_u16 WM_ExecReport) then Ok (false, out)
    else
      Ok (true, {| er_kind := ExKind_of_u8 (we_kind wire);
                   er_order_id := we_order_id wire;
                   er_counterpart_order_id := we_counterpart_order_id wire;
                   er_exec_price := we_exec_price wire;
                   er_exec_quantity := we_exec_quantity wire;
                   er_leaves_quantity := we_leaves_quantity wire;
                   er_timestamp_ns := we_timestamp_ns wire |}).

(** * What a byte stream means *)

(** A frame starts with a header whose length field is the frame's length. *)
Definition frame_ok (f : list Z) : Prop :=
  (4 <= length f)%nat /\ rd 2 2 f = Z.of_nat (length f).

(** What cannot start with a frame: less than a header, or a header with a
    length that is too small or runs past the end. *)
Definition tail_ok (t : list Z) : Prop :=
  (length t < 4)%nat \/ rd 2 2 t < 4 \/ Z.of_nat (length t) < rd 2 2 t.

Inductive stream : list Z -> list (list Z) -> list Z -> Prop :=
| stream_end t : tail_ok t -> stream t [] t
| stream_frame f bs fs t : frame_ok f -> stream bs fs t -> stream (f ++ bs) (f :: fs) t.

(** The order command of a frame. *)
Definition frame_msg (f : list Z) : option InboundOrderMsg :=
  if (rd 0 2 f =? 1) && (40 <=? length f)%nat then
    let w := WireNewOrder_of_bytes f in
    Some (mkInbound NewOrder (wn_order_id w) (wn_price w) (wn_quantity w) (wn_instrument_id w)
            (wn_client_id w) (wn_side w) (wn_order_type w))
  else if (rd 0 2 f =? 2) && (16 <=? length f)%nat then
    let w := WireCancelOrder_of_bytes f in
    Some (mkInbound Cancel (wc_order_id w) 0 0 (wc_instrument_id w) 0 0 0)
  else None.

Definition frame_unknown (f : list Z) : bool := negb (rd 0 2 f =? 1) && negb (rd 0 2 f =? 2).

Definition stream_errors (fs : list (list Z)) (t : list Z) : nat :=
  (length (List.filter frame_unknown fs) + if (4 <=? length t)%nat then 1 else 0)%nat.

(** Cutting a byte string into its frames and what is left. *)
Fixpoint cut (fuel : nat) (bs : list Z) : list (list Z) * list Z :=
  match fuel with
  | O => ([], bs)
  | S fuel' =>
      let n := rd 2 2 bs in
      if (4 <=? length bs)%nat && (4 <=? n) && (n <=? Z.of_nat (length bs)) then
        let '(fs, t) := cut fuel' (drop (Z.to_nat n) bs) in (take (Z.to_nat n) bs :: fs, t)
      else ([], bs)
  end.

Definition frames (bs : list Z) : list (list Z) * list Z := cut (length bs) bs.
