(* ===== verification/DecoderProps.v ===== *)
(** * The decoder's meaning

    Every byte string cuts into frames and a tail in exactly one way;
    [decode_span] posts the order commands of the frames, in order, counts
    what it does not understand, and always returns. *)

From stdpp Require Import base numbers list gmap fin_maps.
From Stdlib Require Import ZArith Lia.
From S2P Require Import Prelude.
From S2P Require Import SPSCQueue.
From S2P Require Import Sink.
From S2P Require Import WireProtocol.
From S2P Require Import Decoder.

(** ** Cutting *)

Lemma rd_take off sz n bs : (off + sz <= n)%nat -> rd off sz (take n bs) = rd off sz bs.
Proof.
  intros Hn. unfold rd. f_equal. rewrite <- take_drop_commute || rewrite skipn_firstn_comm.
  rewrite take_take. f_equal. lia.
Qed.

Lemma rd_app off sz f bs : (off + sz <= length f)%nat -> rd off sz (f ++ bs) = rd off sz f.
Proof.
  intros Hn. rewrite <- (rd_take off sz (length f) (f ++ bs)) by done. by rewrite take_app_length.
Qed.

Lemma cut_stream fuel bs :
  (length bs <= fuel)%nat -> stream bs (cut fuel bs).1 (cut fuel bs).2.
Proof.
  revert bs. induction fuel as [|fuel IH]; intros bs Hf; cbn [cut fst snd].
  { apply stream_end. left. simpl. lia. }
  destruct (Nat.leb_spec 4 (length bs)) as [Hl|Hl]; cbn [andb fst snd];
    [|by apply stream_end; left].
  destruct (Z.leb_spec 4 (rd 2 2 bs)) as [Hn|Hn]; cbn [andb fst snd];
    [|by apply stream_end; right; left].
  destruct (Z.leb_spec (rd 2 2 bs) (Z.of_nat (length bs))) as [Hm|Hm]; cbn [andb fst snd];
    [|by apply stream_end; right; right].
  set (n := Z.to_nat (rd 2 2 bs)).
  specialize (IH (drop n bs)). destruct (cut fuel (drop n bs)) as [fs t]. cbn [fst snd] in *.
  rewrite <- (take_drop n bs) at 1. apply stream_frame.
  - assert (length (take n bs) = n) as E by (rewrite length_take; lia).
    split; [lia|]. rewrite rd_take, E by lia. lia.
  - apply IH. rewrite length_drop. lia.
Qed.

Lemma frame_not_tail f bs : frame_ok f -> ~ tail_ok (f ++ bs).
Proof.
  intros [Hl Hr] Ht. unfold tail_ok in Ht. rewrite rd_app, length_app in Ht by lia. lia.
Qed.

Lemma stream_unique bs fs t fs' t' :
  stream bs fs t -> stream bs fs' t' -> fs' = fs /\ t' = t.
Proof.
  intros Hs. revert fs' t'. induction Hs as [t Ht|f bs fs t Hf Hs IH]; intros fs' t' Hs'.
  - inversion Hs' as [|f ? ? ? Hf]; subst; [done|]. by destruct (frame_not_tail _ _ Hf Ht).
  - inversion Hs' as [? Ht' Hbs|f' bs' fs1 ? Hf' Hs1 Hbs]; subst.
    { by destruct (frame_not_tail _ _ Hf Ht'). }
    destruct Hf as [Hl Hr], Hf' as [Hl' Hr'].
    assert (length f' = length f) as E.
    { rewrite <- (rd_app _ _ _ bs') in Hr' by lia. rewrite <- (rd_app _ _ _ bs) in Hr by lia.
      rewrite Hbs in Hr'. lia. }
    apply app_inj_1 in Hbs as [-> ->]; [|done]. by destruct (IH _ _ Hs1) as [-> ->].
Qed.

Lemma stream_frames bs : stream bs (frames bs).1 (frames bs).2.
Proof. by apply cut_stream. Qed.

Lemma frames_stream bs fs t : stream bs fs t -> frames bs = (fs, t).
Proof.
  intros Hs. destruct (stream_unique _ _ _ _ _ Hs (stream_frames bs)) as [E1 E2].
  destruct (frames bs). simpl in *. by subst.
Qed.

(** The bytes of a stream are those of its frames and its tail. *)
Lemma stream_concat bs fs t : stream bs fs t -> bs = concat fs ++ t.
Proof.
  induction 1 as [|f bs fs t _ _ IH]; [done|]. cbn [concat]. rewrite <- app_assoc. by f_equal.
Qed.

(** Every command takes at least a cancel's worth of bytes. *)
Lemma frame_msg_length f msg : frame_msg f = Some msg -> (16 <= length f)%nat.
Proof.
  unfold frame_msg. destruct (_ && _) eqn:E1.
  - apply andb_true_iff in E1 as [_ E1%Nat.leb_le]. lia.
  - destruct (_ && (16 <=? length f)%nat) eqn:E2; [|done].
    by apply andb_true_iff in E2 as [_ E2%Nat.leb_le].
Qed.

Lemma stream_msgs_bound bs fs t :
  stream bs fs t -> (16 * length (omap frame_msg fs) <= length bs)%nat.
Proof.
  induction 1 as [t _|f bs fs t _ _ IH]; [apply Nat.le_0_l|]. rewrite length_app.
  assert (length (omap frame_msg (f :: fs))
          = (length (option_list (frame_msg f)) + length (omap frame_msg fs))%nat) as ->
    by (cbn; by destruct (frame_msg f)).
  destruct (frame_msg f) eqn:E; [apply frame_msg_length in E|];
    unfold option_list; cbn [option_rect length]; simpl; lia.
Qed.

(** ** Decoding a frame *)

Section frame.
Context (m : memory) (ptr : nat).

(** What the [switch] of [decode_span] does with the frame at [ptr]. *)
Lemma switch_frame f bs d :
  load_bytes m ptr (length (f ++ bs)) = Ok (f ++ bs) ->
  let out := InboundOrderMsg_zero in
  let len := Z.of_nat (length f) in
  (if rd 0 2 f =? WireMsgType_u16 WM_NewOrder then
     let* r := parse_new_order m ptr len out in Ok (d, r)
   else if rd 0 2 f =? WireMsgType_u16 WM_CancelOrder then
     let* r := parse_cancel_order m ptr len out in Ok (d, r)
   else Ok (inc_error d, (false, out)))
  = Ok (if frame_unknown f then inc_error d else d,
        match frame_msg f with Some msg => (true, msg) | None => (false, out) end).
Proof.
  intros El out len. unfold frame_unknown, frame_msg, parse_new_order, parse_cancel_order, len.
  change (WireMsgType_u16 WM_NewOrder) with 1. change (WireMsgType_u16 WM_CancelOrder) with 2.
  change sizeof_WireNewOrder with 40. change sizeof_WireCancelOrder with 16.
  pose proof (length_app f bs) as Hlen.
  destruct (Z.eqb_spec (rd 0 2 f) 1) as [E1|E1]; cbn [andb negb].
  - rewrite E1. change (1 =? 2) with false. cbn [andb].
    destruct (Nat.leb_spec 40 (length f)) as [Hl|Hl].
    + rewrite (proj2 (Z.ltb_ge _ _)) by lia. change (Z.to_nat 40) with 40%nat.
      rewrite (load_bytes_take _ _ _ _ _ El) by lia. rewrite take_app_le by lia.
      unfold WireNewOrder_of_bytes. cbn [bind]. by rewrite !rd_take by lia.
    + by rewrite (proj2 (Z.ltb_lt _ _)) by lia.
  - destruct (Z.eqb_spec (rd 0 2 f) 2) as [E2|E2]; cbn [andb negb]; [|done].
    destruct (Nat.leb_spec 16 (length f)) as [Hl|Hl].
    + rewrite (proj2 (Z.ltb_ge _ _)) by lia. change (Z.to_nat 16) with 16%nat.
      rewrite (load_bytes_take _ _ _ _ _ El) by lia. rewrite take_app_le by lia.
      unfold WireCancelOrder_of_bytes. cbn [bind]. by rewrite !rd_take by lia.
    + by rewrite (proj2 (Z.ltb_lt _ _)) by lia.
Qed.

(** The header [decode_span] reads is the first four bytes. *)
Lemma header_at bs n :
  load_bytes m ptr n = Ok bs -> (4 <= n)%nat ->
  load_bytes m ptr (Z.to_nat sizeof_WireHeader) = Ok (take 4 bs) /\
  WireHeader_of_bytes (take 4 bs) = mkHeader (rd 0 2 bs) (rd 2 2 bs).
Proof.
  intros El Hn. split; [by apply (load_bytes_take _ _ _ _ 4 El)|].
  unfold WireHeader_of_bytes. by rewrite !rd_take by lia.
Qed.

End frame.

(** ** Decoding a span *)

Definition dec_ok (d : Decoder) : Prop :=
  in_u64 (decoded_count_ d) /\ in_u64 (error_count_ d) /\ in_u64 (spans_seen_ d).

(** The counters after [n] decoded messages and [e] errors. *)
Definition counted (n e : nat) (d : Decoder) : Decoder :=
  mkDecoder (u64 (decoded_count_ d + Z.of_nat n)) (u64 (error_count_ d + Z.of_nat e))
    (spans_seen_ d).

Lemma counted_0 d : dec_ok d -> counted 0 0 d = d.
Proof.
  intros (? & ? & ?). unfold counted. rewrite !Z.add_0_r, !u64_id by done. by destruct d.
Qed.

Lemma counted_ok n e d : dec_ok d -> dec_ok (counted n e d).
Proof. intros (? & ? & ?). split_and!; [apply u64_range..|done]. Qed.

Lemma counted_counted n e n' e' d :
  counted n e (counted n' e' d) = counted (n' + n) (e' + e) d.
Proof. unfold counted. simpl. rewrite !u64_add_l. do 2 f_equal; lia. Qed.

Lemma inc_decoded_counted d : dec_ok d -> inc_decoded d = counted 1 0 d.
Proof. intros (? & ? & ?). unfold counted. by rewrite Z.add_0_r, (u64_id (error_count_ d)). Qed.

Lemma inc_error_counted d : dec_ok d -> inc_error d = counted 0 1 d.
Proof. intros (? & ? & ?). unfold counted. by rewrite Z.add_0_r, (u64_id (decoded_count_ d)). Qed.

Lemma inc_spans_ok d : dec_ok d -> dec_ok (inc_spans d).
Proof. intros (? & ? & ?). split_and!; [done..|apply u64_range]. Qed.

Section span.
Context {SI : Type} `{Sink InboundOrderMsg SI}.

(** Posting the message of a frame, if it has one. *)
Lemma post_frame msg d (s : SI) count :
  sink_ok s -> dec_ok d ->
  exists s',
    (let '(ok, msg1) := match msg with Some x => (true, x) | None => (false, InboundOrderMsg_zero) end in
     if ok : bool then let* s1 := sink_push msg1 s in Ok (inc_decoded d, s1, count + 1)
     else Ok (d, s, count))
    = Ok (counted (length (option_list msg)) 0 d, s', count + Z.of_nat (length (option_list msg))) /\
    sink_ok s' /\ sink_log s' = sink_log s ++ option_list msg.
Proof.
  intros Hs Hd. destruct msg as [msg|]; cbn [option_list length].
  - destruct (sink_push_ok msg s Hs) as (s' & -> & Hs' & Hlog). cbn [bind].
    exists s'. by rewrite inc_decoded_counted.
  - exists s. by rewrite counted_0, Z.add_0_r, app_nil_r.
Qed.

(** The loop at a tail: it stops, and a header that is there is an error. *)
Lemma decode_tail m t fuel ptr count d (s : SI) :
  tail_ok t -> load_bytes m ptr (length t) = Ok t -> dec_ok d ->
  decode_loop (S fuel) m ptr (ptr + length t) count d s
    = Ok (counted 0 (if (4 <=? length t)%nat then 1 else 0) d, s, count).
Proof.
  intros Ht El Hd. cbn [decode_loop]. change sizeof_WireHeader with 4.
  destruct (Nat.leb_spec 4 (length t)) as [Hl|Hl].
  - rewrite (proj2 (Z.leb_le _ _)) by lia.
    destruct (header_at m ptr t _ El Hl) as [Eh Ehd]. change sizeof_WireHeader with 4 in Eh.
    rewrite Eh. cbn [bind]. rewrite Ehd. cbn [hd_msg_len]. rewrite inc_error_counted by done.
    destruct Ht as [?|[Ht|Ht]]; [lia|by rewrite (proj2 (Z.ltb_lt _ _))|].
    by rewrite (proj2 (Z.gtb_lt _ _)), orb_true_r by lia.
  - rewrite (proj2 (Z.leb_gt _ _)) by lia. by rewrite counted_0.
Qed.

(** The loop at a frame: one pass. *)
Lemma decode_frame m f bs fuel ptr count d (s : SI) :
  frame_ok f -> load_bytes m ptr (length (f ++ bs)) = Ok (f ++ bs) -> sink_ok s -> dec_ok d ->
  let msgs := option_list (frame_msg f) in
  exists s',
    decode_loop (S fuel) m ptr (ptr + length (f ++ bs)) count d s
      = decode_loop fuel m (ptr + length f) (ptr + length f + length bs)
          (count + Z.of_nat (length msgs))
          (counted (length msgs) (if frame_unknown f then 1 else 0) d) s' /\
    sink_ok s' /\ sink_log s' = sink_log s ++ msgs.
Proof.
  intros [Hl Hr] El Hs Hd msgs. pose proof (length_app f bs) as Hlen.
  cbn [decode_loop]. change sizeof_WireHeader with 4. rewrite (proj2 (Z.leb_le _ _)) by lia.
  destruct (header_at m ptr (f ++ bs) _ El) as [Eh Ehd]; [lia|].
  change sizeof_WireHeader with 4 in Eh. rewrite Eh. cbn [bind].
  rewrite Ehd, !rd_app, Hr by lia. cbn [hd_msg_len hd_msg_type].
  rewrite (proj2 (Z.ltb_ge _ _)) by lia.
  destruct (Z.gtb_spec (Z.of_nat (length f)) (Z.of_nat (ptr + length (f ++ bs)) - Z.of_nat ptr)); [lia|].
  cbn [orb]. pose proof (switch_frame m ptr f bs d El) as Hsw. cbv zeta in Hsw.
  rewrite Hsw. cbn [bind].
  assert ((if frame_unknown f then inc_error d else d)
          = counted 0 (if frame_unknown f then 1 else 0) d) as ->
    by (destruct (frame_unknown f); by rewrite ?inc_error_counted, ?counted_0).
  destruct (post_frame (frame_msg f) (counted 0 (if frame_unknown f then 1 else 0) d) s count Hs)
    as (s1 & Ep & Hs1 & Hlog1); [by apply counted_ok|].
  destruct (match frame_msg f with Some _ => _ | None => _ end) as [ok msg1] eqn:Eok.
  cbv beta iota in Ep. rewrite Ep. cbn [bind]. rewrite Nat2Z.id, counted_counted, Nat.add_0_r.
  exists s1. split; [|done]. f_equal; lia.
Qed.

Lemma decode_loop_spec m bs fs t :
  stream bs fs t ->
  forall fuel ptr count d (s : SI),
  (length bs < fuel)%nat -> load_bytes m ptr (length bs) = Ok bs -> sink_ok s -> dec_ok d ->
  let msgs := omap frame_msg fs in
  exists s',
    decode_loop fuel m ptr (ptr + length bs) count d s
      = Ok (counted (length msgs) (stream_errors fs t) d, s', count + Z.of_nat (length msgs)) /\
    sink_ok s' /\ sink_log s' = sink_log s ++ msgs.
Proof.
  induction 1 as [t Ht|f bs fs t Hf Hst IH]; intros fuel ptr count d s Hfuel El Hs Hd msgs;
    (destruct fuel as [|fuel]; [lia|]).
  - exists s. rewrite (decode_tail m t fuel ptr count d s Ht El Hd).
    unfold msgs. cbn. by rewrite Z.add_0_r, app_nil_r.
  - pose proof (length_app f bs) as Hlen.
    destruct (decode_frame m f bs fuel ptr count d s Hf El Hs Hd) as (s1 & -> & Hs1 & Hlog1).
    destruct (IH fuel (ptr + length f)%nat (count + Z.of_nat (length (option_list (frame_msg f))))
      (counted (length (option_list (frame_msg f))) (if frame_unknown f then 1 else 0) d) s1)
      as (s2 & E2 & Hs2 & Hlog2); [destruct Hf; lia| |done|by apply counted_ok|].
    { pose proof (load_bytes_drop _ _ _ _ (length f) El) as E. rewrite drop_app_length in E.
      replace (length (f ++ bs) - length f)%nat with (length bs) in E by lia. apply E. lia. }
    rewrite E2. exists s2. unfold msgs, stream_errors. cbn [List.filter].
    assert (omap frame_msg (f :: fs) = option_list (frame_msg f) ++ omap frame_msg fs) as ->
      by (cbn; by destruct (frame_msg f)).
    rewrite length_app, counted_counted. split_and!; [|done|by rewrite Hlog2, Hlog1, app_assoc].
    do 2 f_equal; [|lia]. f_equal. f_equal. destruct (frame_unknown f); simpl; lia.
Qed.

(** [decode_span] on a span whose bytes are [bs]. *)
Lemma decode_span_spec m a len id bs d (s : SI) :
  load_bytes m a (Z.to_nat len) = Ok bs -> 0 <= len -> sink_ok s -> dec_ok d ->
  let msgs := omap frame_msg (frames bs).1 in
  exists s',
    decode_span m (mkSpan (Some a) len id) d s
      = Ok (counted (length msgs) (stream_errors (frames bs).1 (frames bs).2) (inc_spans d), s',
            Z.of_nat (length msgs)) /\
    sink_ok s' /\ sink_log s' = sink_log s ++ msgs.
Proof.
  intros El Hlen Hs Hd msgs. pose proof (load_bytes_length _ _ _ _ El) as Hbs.
  pose proof (inc_spans_ok d Hd) as Hd1.
  unfold decode_span. cbn [sp_data sp_len]. destruct (Z.eqb_spec len 0) as [->|Hne].
  - destruct bs; [|done]. exists s. unfold msgs. cbn. by rewrite app_nil_r, counted_0.
  - rewrite <- Hbs in *.
    destruct (decode_loop_spec m bs _ _ (stream_frames bs) (S (length bs)) a 0 (inc_spans d) s)
      as (s' & E & Hs' & Hlog); [lia|done..|]. by exists s'.
Qed.

(** The bytes of a span, the commands in them and the errors they count. *)
Definition span_bytes (m : memory) (span : RawByteSpan) : list Z :=
  match sp_data span with
  | None => []
  | Some a => match load_bytes m a (Z.to_nat (sp_len span)) with Ok bs => bs | Err _ => [] end
  end.
Definition span_msgs (m : memory) (span : RawByteSpan) : list InboundOrderMsg :=
  omap frame_msg (frames (span_bytes m span)).1.
Definition span_errors (m : memory) (span : RawByteSpan) : nat :=
  stream_errors (frames (span_bytes m span)).1 (frames (span_bytes m span)).2.

(** A span that lies in live memory. *)
Definition span_ok (m : memory) (span : RawByteSpan) : Prop :=
  in_u32 (sp_len span) /\
  forall a, sp_data span = Some a -> exists bs, load_bytes m a (Z.to_nat (sp_len span)) = Ok bs.

Lemma decode_span_ok m span d (s : SI) :
  span_ok m span -> sink_ok s -> dec_ok d ->
  exists s',
    decode_span m span d s
      = Ok (counted (length (span_msgs m span)) (span_errors m span) (inc_spans d), s',
            Z.of_nat (length (span_msgs m span))) /\
    sink_ok s' /\ sink_log s' = sink_log s ++ span_msgs m span.
Proof.
  intros [[Hl _] Hm] Hs Hd. destruct span as [[a|] len id]; cbn [sp_data sp_len] in *.
  - destruct (Hm a eq_refl) as (bs & El).
    unfold span_msgs, span_errors, span_bytes. cbn [sp_data sp_len]. rewrite El.
    by apply decode_span_spec.
  - exists s. cbn. by rewrite app_nil_r, counted_0 by (by apply inc_spans_ok).
Qed.

End span.

(** ** Polling *)

Section poll.
Context {SI SR : Type} `{Sink InboundOrderMsg SI} `{Sink Z SR} (N : Z).

(** The counters after a list of spans. *)
Definition counted_spans (m : memory) (spans : list RawByteSpan) (d : Decoder) : Decoder :=
  foldl (fun d span => counted (length (span_msgs m span)) (span_errors m span) (inc_spans d))
    d spans.

Lemma poll_loop_spec m spans k :
  Forall (span_ok m) spans ->
  forall raw d (s : SI) (r : SR) n,
  ring_rep N raw spans -> sink_ok s -> sink_ok r -> dec_ok d ->
  let batch := take k spans in
  exists raw' s' r',
    poll_loop N k m raw d s r n
      = Ok (raw', counted_spans m batch d, s', r', n + Z.of_nat (length batch)) /\
    ring_rep N raw' (drop k spans) /\ sink_ok s' /\ sink_ok r' /\
    sink_log s' = sink_log s ++ (batch ≫= span_msgs m) /\
    sink_log r' = sink_log r ++ (sp_buf_id <$> batch).
Proof.
  revert spans. induction k as [|k IH]; intros spans Hall raw d s r n Hraw Hs Hr Hd batch;
    cbn [poll_loop].
  { exists raw, s, r. unfold batch. cbn. by rewrite !app_nil_r, Z.add_0_r. }
  pose proof (rr_pow _ _ _ Hraw) as HN. destruct spans as [|span spans].
  { rewrite (try_pop_empty N raw Hraw). cbn [bind]. exists raw, s, r. unfold batch. cbn.
    by rewrite !app_nil_r, Z.add_0_r. }
  inversion Hall as [|? ? Hsp Hall']; subst.
  rewrite (try_pop_cons N HN raw span spans Hraw). cbn [bind].
  destruct (decode_span_ok m span d s Hsp Hs Hd) as (s1 & -> & Hs1 & Hlog1). cbn [bind].
  destruct (sink_push_ok (sp_buf_id span) r Hr) as (r1 & -> & Hr1 & Hlogr). cbn [bind].
  destruct (IH spans Hall' _ (counted (length (span_msgs m span)) (span_errors m span) (inc_spans d))
    s1 r1 (n + 1) (ring_rep_pop N HN raw spans span Hraw) Hs1 Hr1)
    as (raw' & s' & r' & E & Hraw' & Hs' & Hr' & El & Er); [by apply counted_ok, inc_spans_ok|].
  exists raw', s', r'. unfold batch. cbn [take drop]. rewrite E. split_and!; try done.
  - do 2 f_equal. cbn [length]. lia.
  - by rewrite El, Hlog1, <- app_assoc.
  - by rewrite Er, Hlogr, <- app_assoc.
Qed.

End poll.
