(* ===== verification/DecoderTheorems.v ===== *)
(** * The properties of the decoder and the encoder *)

From stdpp Require Import base numbers list gmap fin_maps.
From Stdlib Require Import ZArith Lia.
From S2P Require Import Prelude.
From S2P Require Import SPSCQueue.
From S2P Require Import Sink.
From S2P Require Import WireProtocol.
From S2P Require Import Decoder.
From S2P Require Import DecoderProps.

(** ** What clients send *)

Inductive client_msg : Type :=
| CNew (w : WireNewOrder)
| CCancel (w : WireCancelOrder).

(** The struct as the client puts it on the wire. *)
Definition client_bytes (c : client_msg) : list Z :=
  match c with
  | CNew w => bytes_of_WireNewOrder w
  | CCancel w => bytes_of_WireCancelOrder w
  end.

(** Members in range, and the header the protocol prescribes. *)
Definition client_ok (c : client_msg) : Prop :=
  match c with
  | CNew w => WireNewOrder_ok w /\ wn_msg_type w = WireMsgType_u16 WM_NewOrder /\
      wn_msg_len w = min_msg_len WM_NewOrder
  | CCancel w => WireCancelOrder_ok w /\ wc_msg_type w = WireMsgType_u16 WM_CancelOrder /\
      wc_msg_len w = min_msg_len WM_CancelOrder
  end.

(** The order command the client means. *)
Definition client_command (c : client_msg) : InboundOrderMsg :=
  match c with
  | CNew w => mkInbound NewOrder (wn_order_id w) (wn_price w) (wn_quantity w)
      (wn_instrument_id w) (wn_client_id w) (wn_side w) (wn_order_type w)
  | CCancel w => mkInbound Cancel (wc_order_id w) 0 0 (wc_instrument_id w) 0 0 0
  end.

Lemma length_bytes_of_WireNewOrder w : length (bytes_of_WireNewOrder w) = 40%nat.
Proof. unfold bytes_of_WireNewOrder. by rewrite !length_app, !length_le_bytes. Qed.
Lemma length_bytes_of_WireCancelOrder w : length (bytes_of_WireCancelOrder w) = 16%nat.
Proof. unfold bytes_of_WireCancelOrder. by rewrite !length_app, !length_le_bytes. Qed.
Lemma length_bytes_of_WireExecReport w : length (bytes_of_WireExecReport w) = 48%nat.
Proof. unfold bytes_of_WireExecReport. by rewrite !length_app, !length_le_bytes. Qed.

Lemma rd_wn w : WireNewOrder_ok w ->
  rd 0 2 (bytes_of_WireNewOrder w) = wn_msg_type w /\
  rd 2 2 (bytes_of_WireNewOrder w) = wn_msg_len w.
Proof.
  intros Hok. pose proof (WireNewOrder_roundtrip w [] Hok) as E. rewrite app_nil_r in E.
  split; [by apply (f_equal wn_msg_type) in E|by apply (f_equal wn_msg_len) in E].
Qed.

Lemma rd_wc w : WireCancelOrder_ok w ->
  rd 0 2 (bytes_of_WireCancelOrder w) = wc_msg_type w /\
  rd 2 2 (bytes_of_WireCancelOrder w) = wc_msg_len w.
Proof.
  intros Hok. pose proof (WireCancelOrder_roundtrip w [] Hok) as E. rewrite app_nil_r in E.
  split; [by apply (f_equal wc_msg_type) in E|by apply (f_equal wc_msg_len) in E].
Qed.

Lemma client_frame c :
  client_ok c -> frame_ok (client_bytes c) /\ frame_msg (client_bytes c) = Some (client_command c) /\
    frame_unknown (client_bytes c) = false.
Proof.
  destruct c as [w|w]; intros (Hok & Hty & Hlen); cbn [client_bytes client_command].
  - destruct (rd_wn w Hok) as [E0 E2]. unfold frame_ok, frame_msg, frame_unknown.
    rewrite E0, E2, Hty, Hlen, length_bytes_of_WireNewOrder.
    pose proof (WireNewOrder_roundtrip w [] Hok) as E. rewrite app_nil_r in E. rewrite E.
    split_and!; [lia|done..].
  - destruct (rd_wc w Hok) as [E0 E2]. unfold frame_ok, frame_msg, frame_unknown.
    rewrite E0, E2, Hty, Hlen, length_bytes_of_WireCancelOrder.
    pose proof (WireCancelOrder_roundtrip w [] Hok) as E. rewrite app_nil_r in E. rewrite E.
    split_and!; [lia|done..].
Qed.

Lemma client_stream cs t :
  Forall client_ok cs -> tail_ok t ->
  stream (concat (client_bytes <$> cs) ++ t) (client_bytes <$> cs) t /\
  omap frame_msg (client_bytes <$> cs) = client_command <$> cs /\
  List.filter frame_unknown (client_bytes <$> cs) = [].
Proof.
  intros Hall Ht. induction Hall as [|c cs Hc _ IH]; [by split_and!; [apply stream_end|..]|].
  destruct (client_frame c Hc) as (Hf & Hmsg & Hunk), IH as (Hs & Ho & Hn).
  cbn [fmap list_fmap concat omap list_omap List.filter].
  rewrite Hmsg, Hunk, <- app_assoc. split_and!; [by apply stream_frame| |done].
  unfold omap, list_omap in Ho. by f_equal.
Qed.

Section theorems.
Context {SI SR : Type} `{Sink InboundOrderMsg SI} `{Sink Z SR}.

(** C26: whatever the bytes of a span, they cut into frames and a tail in
    exactly one way, and [decode_span] returns after posting exactly the
    order commands of the frames, in order; it counts those as decoded, and
    as errors each frame of unknown type and a broken header at the tail. *)
Theorem decode_span_refines (m : memory) (a : nat) (len id : Z) (bs : list Z) d (s : SI) :
  load_bytes m a (Z.to_nat len) = Ok bs -> 0 <= len -> sink_ok s -> dec_ok d ->
  exists fs t, stream bs fs t /\ (forall fs' t', stream bs fs' t' -> fs' = fs /\ t' = t) /\
  let msgs := omap frame_msg fs in
  exists s',
    decode_span m (mkSpan (Some a) len id) d s
      = Ok (counted (length msgs) (stream_errors fs t) (inc_spans d), s',
            Z.of_nat (length msgs)) /\
    sink_ok s' /\ sink_log s' = sink_log s ++ msgs.
Proof.
  intros El Hlen Hs Hd. exists (frames bs).1, (frames bs).2. split; [apply stream_frames|].
  split; [intros fs' t'; apply stream_unique, stream_frames|by apply decode_span_spec].
Qed.

(** C27: round trip of the inbound protocol: the structs a client lays out
    one after the other in a buffer come out of [decode_span] as the commands
    it meant, in order and without an error. *)
Theorem decode_client_messages (m : memory) (a : nat) (id : Z) (cs : list client_msg) d (s : SI) :
  let bs := concat (client_bytes <$> cs) in
  Forall client_ok cs -> load_bytes m a (length bs) = Ok bs -> sink_ok s -> dec_ok d ->
  exists s',
    decode_span m (mkSpan (Some a) (Z.of_nat (length bs)) id) d s
      = Ok (counted (length cs) 0 (inc_spans d), s', Z.of_nat (length cs)) /\
    sink_ok s' /\ sink_log s' = sink_log s ++ (client_command <$> cs).
Proof.
  intros bs Hall El Hs Hd.
  destruct (client_stream cs [] Hall) as (Hst & Hmsgs & Hunk); [left; simpl; lia|].
  rewrite app_nil_r in Hst. fold bs in Hst.
  destruct (decode_span_spec m a (Z.of_nat (length bs)) id bs d s) as (s' & E & Hs' & Hlog);
    [by rewrite Nat2Z.id|lia|done..|].
  rewrite (frames_stream _ _ _ Hst) in E, Hlog. cbn [fst snd] in E, Hlog.
  unfold stream_errors in E. rewrite Hmsgs, Hunk, length_fmap in E. rewrite Hmsgs in Hlog.
  by exists s'.
Qed.

(** What is left of a client message once its first byte is gone has no frame
    that says what the message said. *)
Lemma remainder_msgs c k :
  client_ok c -> (0 < k)%nat ->
  let ms := omap frame_msg (frames (drop k (client_bytes c))).1 in
  ~ (client_command c ∈ ms) /\ Forall (fun msg => im_kind msg = Cancel) ms.
Proof.
  intros Hc Hk ms. set (bs := drop k (client_bytes c)) in *.
  assert (forall msg, msg ∈ ms -> exists f, frame_msg f = Some msg /\ (length f <= length bs)%nat) as Hin.
  { intros msg (f & Hf & Em)%list_elem_of_omap. exists f. split; [done|].
    rewrite (stream_concat _ _ _ (stream_frames bs)), length_app.
    apply list_elem_of_split in Hf as (l1 & l2 & ->). rewrite concat_app, length_app. cbn.
    rewrite length_app. lia. }
  assert (length bs < length (client_bytes c))%nat as Hlt.
  { unfold bs. rewrite length_drop. destruct (client_frame c Hc) as ([? _] & _). lia. }
  assert (Forall (fun msg => im_kind msg = Cancel) ms) as Hcan.
  { apply Forall_forall. intros msg Hm. destruct (Hin msg Hm) as (f & Em & Hf). revert Em. unfold frame_msg.
    destruct (_ && (40 <=? length f)%nat) eqn:E; [|by destruct (_ && (16 <=? _)%nat); [intros [= <-]|]].
    apply andb_true_iff in E as [_ E%Nat.leb_le]. destruct c as [w|w]; cbn [client_bytes] in Hlt;
      rewrite ?length_bytes_of_WireNewOrder, ?length_bytes_of_WireCancelOrder in Hlt; lia. }
  split; [|done]. intros Hm. destruct c as [w|w]; cbn [client_bytes client_command] in *.
  - by eapply Forall_forall in Hm; [|exact Hcan].
  - destruct (Hin _ Hm) as (f & Em%frame_msg_length & Hf).
    rewrite length_bytes_of_WireCancelOrder in Hlt. lia.
Qed.

(** C38: a client message that arrives in two spans is lost.  The first span,
    which ends inside it, posts the complete messages before it and nothing
    of it, and counts an error exactly if the piece includes the header; the
    second, the rest of the message, posts whatever cancels its bytes happen
    to spell, never the command the client meant. *)
Theorem split_message_lost (m m2 : memory) (a a2 : nat) (id id2 : Z) (cs : list client_msg)
  (c : client_msg) (k : nat) d (s : SI) :
  Forall client_ok cs -> client_ok c -> (0 < k < length (client_bytes c))%nat ->
  let bs := concat (client_bytes <$> cs) ++ take k (client_bytes c) in
  let bs2 := drop k (client_bytes c) in
  load_bytes m a (length bs) = Ok bs -> load_bytes m2 a2 (length bs2) = Ok bs2 ->
  sink_ok s -> dec_ok d ->
  let d1 := counted (length cs) (if (4 <=? k)%nat then 1 else 0) (inc_spans d) in
  exists s1 d2 s2 ms,
    decode_span m (mkSpan (Some a) (Z.of_nat (length bs)) id) d s = Ok (d1, s1, Z.of_nat (length cs)) /\
    sink_log s1 = sink_log s ++ (client_command <$> cs) /\
    decode_span m2 (mkSpan (Some a2) (Z.of_nat (length bs2)) id2) d1 s1
      = Ok (d2, s2, Z.of_nat (length ms)) /\
    sink_log s2 = sink_log s1 ++ ms /\
    (client_command c ∉ ms) /\ Forall (fun msg => im_kind msg = Cancel) ms.
Proof.
  intros Hall Hc Hk bs bs2 El El2 Hs Hd d1. destruct (client_frame c Hc) as ([_ Hlen] & _).
  assert (length (take k (client_bytes c)) = k) as Hlk by (rewrite length_take; lia).
  destruct (client_stream cs (take k (client_bytes c)) Hall) as (Hst & Hmsgs & Hunk).
  { destruct (Nat.lt_ge_cases k 4) as [|Hk4]; [by left; rewrite Hlk|].
    right. right. rewrite Hlk, rd_take, Hlen by lia. lia. }
  fold bs in Hst.
  destruct (decode_span_spec m a (Z.of_nat (length bs)) id bs d s) as (s1 & E & Hs1 & Hlog);
    [by rewrite Nat2Z.id|lia|done..|].
  rewrite (frames_stream _ _ _ Hst) in E, Hlog. cbn [fst snd] in E, Hlog.
  unfold stream_errors in E. rewrite Hmsgs, Hunk, length_fmap, Hlk in E. rewrite Hmsgs in Hlog.
  destruct (decode_span_spec m2 a2 (Z.of_nat (length bs2)) id2 bs2 d1 s1) as (s2 & E2 & _ & Hlog2);
    [by rewrite Nat2Z.id|lia|done|by apply counted_ok, inc_spans_ok|].
  eexists s1, _, s2, _. split; [exact E|]. split; [exact Hlog|]. split; [exact E2|].
  split; [exact Hlog2|]. by apply remainder_msgs; [|lia].
Qed.

(** A frame of a known type that declares less than the type's size is
    skipped: it posts nothing and, unlike a frame of unknown type, is not
    counted as an error. *)
Theorem short_frame_not_counted (m : memory) (a : nat) (id : Z) (f : list Z) d (s : SI) :
  frame_ok f -> rd 0 2 f = WireMsgType_u16 WM_NewOrder ->
  Z.of_nat (length f) < min_msg_len WM_NewOrder ->
  load_bytes m a (length f) = Ok f -> sink_ok s -> dec_ok d ->
  exists s',
    decode_span m (mkSpan (Some a) (Z.of_nat (length f)) id) d s = Ok (inc_spans d, s', 0) /\
    sink_log s' = sink_log s.
Proof.
  intros Hf Hty Hlen El Hs Hd. change (min_msg_len WM_NewOrder) with 40 in Hlen.
  assert (stream f [f] []) as Hst.
  { rewrite <- (app_nil_r f) at 1. apply stream_frame; [done|]. apply stream_end. left. simpl. lia. }
  assert (frame_msg f = None) as Hnone.
  { unfold frame_msg. rewrite Hty, (proj2 (Nat.leb_gt _ _)) by lia. done. }
  assert (frame_unknown f = false) as Hunk by (unfold frame_unknown; by rewrite Hty).
  destruct (decode_span_spec m a (Z.of_nat (length f)) id f d s) as (s' & E & _ & Hlog);
    [by rewrite Nat2Z.id|lia|done..|].
  rewrite (frames_stream _ _ _ Hst) in E, Hlog. cbn [fst snd] in E, Hlog.
  assert (omap frame_msg [f] = [] /\ stream_errors [f] [] = 0%nat) as [Ho He]
    by (unfold stream_errors; cbn; by rewrite Hnone, Hunk).
  rewrite Ho in Hlog. rewrite Ho, He in E. cbn [length] in E.
  rewrite counted_0 in E by (by apply inc_spans_ok). exists s'. by rewrite E, Hlog, app_nil_r.
Qed.

(** [decode_span] returns on every span in live memory, and the [int] it
    returns is at most a sixteenth of the span's length, so it cannot
    overflow. *)
Theorem decode_span_bounded (m : memory) (span : RawByteSpan) d (s : SI) :
  span_ok m span -> sink_ok s -> dec_ok d ->
  exists d' s' n, decode_span m span d s = Ok (d', s', n) /\
    0 <= 16 * n <= sp_len span /\ n < 2 ^ 28 /\ dec_ok d' /\ sink_ok s'.
Proof.
  intros Hsp Hs Hd. destruct (decode_span_ok m span d s Hsp Hs Hd) as (s' & E & Hs' & _).
  do 3 eexists. split; [exact E|].
  pose proof (stream_msgs_bound _ _ _ (stream_frames (span_bytes m span))) as Hb.
  assert (Z.of_nat (length (span_bytes m span)) <= sp_len span) as Hl.
  { destruct Hsp as [[Hlo _] Hm]. unfold span_bytes. destruct (sp_data span) as [p|] eqn:Ep; [|simpl; lia].
    destruct (Hm p eq_refl) as (bs & El). rewrite El, (load_bytes_length _ _ _ _ El). lia. }
  fold (span_msgs m span) in Hb. destruct Hsp as [[_ Hhi] _].
  split_and!; [lia..| |done]. by apply counted_ok, inc_spans_ok.
Qed.

(** [poll(max_batch)] takes the oldest [max_batch] spans of the raw queue
    (fewer when it holds fewer), posts the order commands of all of them in
    order, returns their buffers in order, each after its span was decoded,
    and reports how many it took. *)
Theorem decoder_poll_fifo (N : Z) (m : memory) (raw : RawByteQueue) (spans : list RawByteSpan) d
  (s : SI) (r : SR) (max_batch : Z) :
  Forall (span_ok m) spans -> ring_rep N raw spans -> sink_ok s -> sink_ok r -> dec_ok d ->
  0 <= max_batch < 2 ^ 31 ->
  let batch := take (Z.to_nat max_batch) spans in
  exists raw' s' r',
    decoder_poll N m raw d s r max_batch
      = Ok (raw', counted_spans m batch d, s', r', Z.of_nat (length batch)) /\
    ring_rep N raw' (drop (Z.to_nat max_batch) spans) /\ sink_ok s' /\ sink_ok r' /\
    sink_log s' = sink_log s ++ (batch ≫= span_msgs m) /\
    sink_log r' = sink_log r ++ (sp_buf_id <$> batch).
Proof.
  intros Hall Hraw Hs Hr Hd Hb batch. unfold decoder_poll.
  replace (i32 max_batch) with max_batch by (unfold i32; rewrite Z.mod_small by lia; lia).
  by apply poll_loop_spec.
Qed.

End theorems.

(** ** Execution reports *)

Lemma ExKind_roundtrip r :
  report_ok r -> ExKind_of_u8 (ExKind_u8 (er_kind r)) = er_kind r /\ in_u8 (ExKind_u8 (er_kind r)).
Proof.
  intros [Hk _]. destruct (er_kind r) as [| | | |v]; try done. cbn [ExKind_u8].
  rewrite u8_id by (unfold in_u8; lia). split; [|unfold in_u8; lia]. unfold ExKind_of_u8.
  by repeat (rewrite (proj2 (Z.eqb_neq v _)) by lia).
Qed.

(** C28: round trip of the outbound protocol: [encode_exec_report] writes
    exactly 48 bytes into the buffer and nothing outside it, and
    [decode_exec_report] reads the same report back. *)
Theorem exec_report_roundtrip (m : memory) (buf : nat) (r out : ExecutionReport) (len : Z) :
  report_ok r -> (forall c, (buf <= c < buf + 48)%nat -> is_Some (m !! c)) -> 48 <= len ->
  exists m', encode_exec_report r m buf = Ok (m', 48) /\ same_outside buf 48 m m' /\
    decode_exec_report m' buf len out = Ok (true, r).
Proof.
  intros Hr Hm Hlen. destruct (ExKind_roundtrip r Hr) as [Hk Hk8].
  unfold encode_exec_report. set (w := mkWireExecReport _ _ _ _ _ _ _ _ _ _ _ _).
  assert (WireExecReport_ok w) as Hw.
  { destruct Hr as (_ & ? & ? & ? & ? & ? & ?). by split_and!. }
  pose proof (length_bytes_of_WireExecReport w) as Hl.
  destruct (store_bytes_spec m buf (bytes_of_WireExecReport w)) as (m' & -> & El & Hs & _);
    [by rewrite Hl|]. rewrite Hl in El, Hs. cbn [bind].
  exists m'. split; [done|]. split; [done|].
  unfold decode_exec_report. change sizeof_WireExecReport with 48. change (Z.to_nat 48) with 48%nat.
  rewrite (proj2 (Z.ltb_ge _ _)), El by lia. cbn [bind].
  pose proof (WireExecReport_roundtrip w [] Hw) as E. rewrite app_nil_r in E. rewrite E. cbn.
  rewrite Hk. by destruct r.
Qed.

(** ** The theorems at work *)

#[local] Existing Instance small_sink.

(** A buffer at [a] that holds [bs]. *)
Fixpoint buffer_at (a : nat) (bs : list Z) : memory :=
  match bs with
  | [] => ∅
  | b :: bs' => <[a := b]> (buffer_at (S a) bs')
  end.

Definition dx_new : WireNewOrder := mkWireNewOrder 1 40 1 77 7 (-5) 12 0 0 0 0.
Definition dx_cancel : WireCancelOrder := mkWireCancelOrder 2 16 1 77.
Definition dx_msgs : list client_msg := [CNew dx_new; CCancel dx_cancel].
Definition dx_bytes : list Z := concat (client_bytes <$> dx_msgs).
Definition dx_short : list Z := le_bytes 2 1 ++ le_bytes 2 8 ++ le_bytes 4 0.
Definition dx_in : Link InboundOrderMsg := small_link InboundOrderMsg_zero.
Definition dx_returns : Link Z := small_link 0.

Lemma dx_msgs_ok : Forall client_ok dx_msgs.
Proof.
  repeat constructor; cbn; rewrite ?Z.pow_pos_fold;
    unfold in_u16, in_u32, in_u64, in_i64, in_u8; lia.
Qed.

Lemma dx_dec_ok : dec_ok Decoder_new.
Proof. by split_and!. Qed.

Lemma decode_span_refines_witness :
  exists s', decode_span (buffer_at 16 dx_bytes) (mkSpan (Some 16%nat) 56 3) Decoder_new dx_in
    = Ok (mkDecoder 2 0 1, s', 2).
Proof.
  destruct (decode_span_refines (buffer_at 16 dx_bytes) 16 56 3 dx_bytes Decoder_new dx_in)
    as (fs & t & Hst & _ & s' & E & _ & _).
  - vm_compute. reflexivity.
  - lia.
  - apply small_link_ok.
  - apply dx_dec_ok.
  - exists s'. rewrite E.
    destruct (stream_unique _ _ _ _ _ Hst (stream_frames dx_bytes)) as [<- <-].
    vm_compute. reflexivity.
Defined.

Lemma decode_client_messages_witness :
  exists s' : Link InboundOrderMsg, sink_log s' = client_command <$> dx_msgs.
Proof.
  destruct (decode_client_messages (buffer_at 16 dx_bytes) 16 3 dx_msgs Decoder_new dx_in)
    as (s' & _ & _ & Hlog).
  - apply dx_msgs_ok.
  - vm_compute. reflexivity.
  - apply small_link_ok.
  - apply dx_dec_ok.
  - exists s'. rewrite Hlog. vm_compute. reflexivity.
Defined.

(** A new order cut after its second byte. *)
Lemma split_message_lost_witness :
  exists s1 s2 : Link InboundOrderMsg, sink_log s1 = client_command <$> dx_msgs /\
    exists ms, sink_log s2 = sink_log s1 ++ ms /\ client_command (CNew dx_new) ∉ ms.
Proof.
  destruct (split_message_lost
      (buffer_at 16 (dx_bytes ++ take 2 (client_bytes (CNew dx_new))))
      (buffer_at 32 (drop 2 (client_bytes (CNew dx_new)))) 16 32 3 4 dx_msgs (CNew dx_new) 2
      Decoder_new dx_in) as (s1 & d2 & s2 & ms & _ & Hlog & _ & Hlog2 & Hn & _).
  - apply dx_msgs_ok.
  - apply (Forall_inv dx_msgs_ok).
  - split; apply Nat.leb_le; reflexivity.
  - vm_compute. reflexivity.
  - vm_compute. reflexivity.
  - apply small_link_ok.
  - apply dx_dec_ok.
  - exists s1, s2. split; [rewrite Hlog; vm_compute; reflexivity|]. exists ms. split; [exact Hlog2|exact Hn].
Defined.

Lemma short_frame_not_counted_witness :
  exists s', decode_span (buffer_at 16 dx_short) (mkSpan (Some 16%nat) 8 3) Decoder_new dx_in
    = Ok (mkDecoder 0 0 1, s', 0).
Proof.
  destruct (short_frame_not_counted (buffer_at 16 dx_short) 16 3 dx_short Decoder_new dx_in)
    as (s' & E & _).
  - split; [apply Nat.leb_le|]; reflexivity.
  - reflexivity.
  - reflexivity.
  - vm_compute. reflexivity.
  - apply small_link_ok.
  - apply dx_dec_ok.
  - exists s'. exact E.
Defined.

Definition dx_span : RawByteSpan := mkSpan (Some 16%nat) 56 3.

Lemma dx_span_ok : span_ok (buffer_at 16 dx_bytes) dx_span.
Proof.
  split; [by split|]. intros a [= <-]. exists dx_bytes. vm_compute. reflexivity.
Qed.

Lemma decode_span_bounded_witness :
  exists d' s' n, decode_span (buffer_at 16 dx_bytes) dx_span Decoder_new dx_in = Ok (d', s', n) /\
    n < 2 ^ 28.
Proof.
  destruct (decode_span_bounded (buffer_at 16 dx_bytes) dx_span Decoder_new dx_in)
    as (d' & s' & n & E & _ & Hn & _).
  - apply dx_span_ok.
  - apply small_link_ok.
  - apply dx_dec_ok.
  - exists d', s', n. split; [exact E|exact Hn].
Defined.

Definition dx_raw : RawByteQueue :=
  match try_push 8 (SPSCQueue_new 8 (mkSpan None 0 0)) dx_span with
  | Ok (q, _) => q
  | Err _ => SPSCQueue_new 8 (mkSpan None 0 0)
  end.

Lemma dx_raw_rep : ring_rep 8 dx_raw [dx_span].
Proof.
  pose proof (SPSCQueue_new_rep 8 single_bit_8 (mkSpan None 0 0)) as Hnew.
  unfold dx_raw. rewrite (try_push_room 8 single_bit_8 _ [] dx_span Hnew) by (simpl; lia).
  apply (ring_rep_push 8 single_bit_8 _ [] dx_span Hnew). simpl. lia.
Qed.

Lemma decoder_poll_fifo_witness :
  exists raw' d' s' r', decoder_poll 8 (buffer_at 16 dx_bytes) dx_raw Decoder_new dx_in dx_returns 64
    = Ok (raw', d', s', r', 1) /\ sink_log r' = [3].
Proof.
  destruct (decoder_poll_fifo 8 (buffer_at 16 dx_bytes) dx_raw [dx_span] Decoder_new dx_in dx_returns 64)
    as (raw' & s' & r' & E & _ & _ & _ & _ & Hret).
  - constructor; [apply dx_span_ok|constructor].
  - apply dx_raw_rep.
  - apply small_link_ok.
  - apply small_link_ok.
  - apply dx_dec_ok.
  - lia.
  - exists raw'. eexists. exists s', r'. split; [exact E|]. rewrite Hret. vm_compute. reflexivity.
Defined.

Lemma exec_report_roundtrip_witness :
  exists m', encode_exec_report (mkReport Fill 1 2 (-3) 4 5 6) (buffer_at 8 (replicate 48 0)) 8
    = Ok (m', 48).
Proof.
  destruct (exec_report_roundtrip (buffer_at 8 (replicate 48 0)) 8 (mkReport Fill 1 2 (-3) 4 5 6)
    (mkReport Reject 0 0 0 0 0 0) 48) as (m' & E & _).
  - repeat split; vm_compute; reflexivity || discriminate.
  - intros c Hc.
    assert (forallb (fun c => bool_decide (is_Some (buffer_at 8 (replicate 48 0) !! c))) (seq 8 48) = true)
      as Hall by (vm_compute; reflexivity).
    rewrite forallb_forall in Hall. specialize (Hall c (proj2 (in_seq _ _ _) Hc)).
    by apply bool_decide_eq_true in Hall.
  - lia.
  - exists m'. exact E.
Defined.
