(* ===== verification/Uring.v ===== *)
(** * liburing, as the receiver and the sender use it

    liburing is not part of the repository: [Uring U] is the interface, an
    io_uring instance of type [U] with the calls the code makes and what its
    manual pages promise about them.  A request stays [queued] from its
    preparation to [io_uring_submit], and in [flight] from then until its
    completion has been marked seen; completions are only ever of requests in
    flight.  [SimRing] is an instance. *)

From stdpp Require Import base numbers list gmap fin_maps.
From Stdlib Require Import ZArith Lia.
From S2P Require Import Prelude.

(** A prepared submission: its [user_data], the buffer and its length. *)
Record request : Type := mkReq { rq_data : Z; rq_addr : nat; rq_len : Z }.

#[export] Instance request_eq_dec : EqDecision request.
Proof. solve_decision. Defined.

(** A completion: [user_data] and [res]. *)
Record cqe : Type := mkCqe { cq_data : Z; cq_res : Z }.

(** The calls that give a ring's resources back. *)
Inductive ring_call : Type := UnregisterBuffers | QueueExit.

Class Uring (U : Type) : Type := {
  (** [io_uring_get_sqe]; [None] is [nullptr] *)
  get_sqe : U -> option U;
  (** [io_uring_prep_recv] or [io_uring_prep_send], and
      [io_uring_sqe_set_data64], on the entry just obtained *)
  prep : request -> U -> U;
  (** [io_uring_submit], whose return value the code ignores: it may submit
      the first few of the prepared entries only, or none *)
  submit_ring : U -> U;
  (** [io_uring_peek_cqe]: the kernel may have completed requests meanwhile *)
  peek_cqe : U -> U * option cqe;
  (** [io_uring_cqe_seen] *)
  cqe_seen : U -> U;

  queued : U -> list request;
  flight : U -> list request;
  (** the request whose completion is at the head of the completion queue *)
  cq_head : U -> option request;
  uring_ok : U -> Prop;

  prep_ok : forall u u' r, uring_ok u -> get_sqe u = Some u' ->
    uring_ok (prep r u') /\ queued (prep r u') = queued u ++ [r] /\
    flight (prep r u') ≡ₚ flight u /\ cq_head (prep r u') = cq_head u;
  submit_ok : forall u, uring_ok u ->
    uring_ok (submit_ring u) /\ exists k, queued (submit_ring u) = drop k (queued u) /\
      flight (submit_ring u) ≡ₚ take k (queued u) ++ flight u;
  peek_ok : forall u u' c, uring_ok u -> peek_cqe u = (u', c) ->
    uring_ok u' /\ queued u' = queued u /\ flight u' ≡ₚ flight u /\
    match c with
    | None => True
    | Some c => exists r, cq_head u' = Some r /\ cq_data c = rq_data r /\ cq_res c <= rq_len r
    end;
  seen_ok : forall u r, uring_ok u -> cq_head u = Some r ->
    uring_ok (cqe_seen u) /\ queued (cqe_seen u) = queued u /\
    flight u ≡ₚ r :: flight (cqe_seen u)
}.

(** A ring of [depth] submission entries that only runs out of them when
    that many requests have not completed: an entry is free again at the
    latest when its request has completed, however long the kernel's polling
    thread takes to pick up what was submitted. *)
Definition sq_depth {U} `{Uring U} (depth : nat) : Prop :=
  forall u, uring_ok u -> (length (queued u ++ flight u) < depth)%nat -> get_sqe u <> None.

(** A kernel whose [io_uring_submit] never fails and never stops short. *)
Definition submits_all {U} `{Uring U} : Prop :=
  forall u, uring_ok u -> queued (submit_ring u) = [].

(** ** An instance

    The kernel completes the oldest request when the completion queue is
    looked at, with the result [kernel] gives it (no more than was asked
    for). *)
Record SimRing : Type := mkSim {
  sim_queued : list request;
  sim_flight : list request;
  sim_head : option request
}.

Section sim.
Context (depth : nat) (kernel : request -> Z).

Definition sim_get_sqe (u : SimRing) : option SimRing :=
  if (length (sim_queued u) <? depth)%nat then Some u else None.
Definition sim_prep (r : request) (u : SimRing) : SimRing :=
  mkSim (sim_queued u ++ [r]) (sim_flight u) (sim_head u).
Definition sim_submit (u : SimRing) : SimRing :=
  mkSim [] (sim_flight u ++ sim_queued u) (sim_head u).
Definition sim_peek (u : SimRing) : SimRing * option cqe :=
  match sim_flight u with
  | [] => (u, None)
  | r :: _ => (mkSim (sim_queued u) (sim_flight u) (Some r), Some (mkCqe (rq_data r) (Z.min (kernel r) (rq_len r))))
  end.
Definition sim_seen (u : SimRing) : SimRing :=
  mkSim (sim_queued u) (tail (sim_flight u)) None.
Definition sim_ok (u : SimRing) : Prop :=
  forall r, sim_head u = Some r -> exists rs, sim_flight u = r :: rs.

#[export] Program Instance SimRing_Uring : Uring SimRing := {|
  get_sqe := sim_get_sqe;
  prep := sim_prep;
  submit_ring := sim_submit;
  peek_cqe := sim_peek;
  cqe_seen := sim_seen;
  queued := sim_queued;
  flight := sim_flight;
  cq_head := sim_head;
  uring_ok := sim_ok
|}.
Next Obligation.
  intros u u' r Hok E. unfold sim_get_sqe in E. destruct (_ <? _)%nat; [|done].
  injection E as <-. done.
Qed.
Next Obligation.
  intros u Hok. split.
  - intros r Hr. destruct (Hok r Hr) as [rs E]. simpl. rewrite E. eauto.
  - exists (length (sim_queued u)). simpl. rewrite drop_all, firstn_all.
    split; [done|apply Permutation_app_comm].
Qed.
Next Obligation.
  intros u u' c Hok E. unfold sim_peek in E. destruct (sim_flight u) as [|r rs] eqn:Ef.
  - injection E as <- <-. rewrite Ef. done.
  - injection E as <- <-. split_and!; [|done|done|].
    + intros r' [= <-]. simpl. eauto.
    + exists r. split_and!; [done|done|simpl; lia].
Qed.
Next Obligation.
  intros u r Hok Hr. destruct (Hok r Hr) as [rs E]. split_and!; [done|done|]. simpl.
  by rewrite E.
Qed.

Lemma sim_depth : sq_depth depth.
Proof.
  intros u _ Hlt. simpl in *. rewrite length_app in Hlt. unfold sim_get_sqe.
  by rewrite (proj2 (Nat.ltb_lt _ _)) by lia.
Qed.

Lemma sim_submits_all : submits_all.
Proof. by intros u _. Qed.

End sim.
