(* ===== verification/UringSender.v ===== *)
(** * The sender: [src/io/uring_sender.hpp]

    Drains the outbound queue, serialises each report into one of 256 send
    buffers and queues a SEND for it; a buffer is taken until its completion
    is seen. *)

From stdpp Require Import base numbers list gmap fin_maps.
From Stdlib Require Import ZArith Lia.
From S2P Require Import Prelude.
From S2P Require Import SPSCQueue.
From S2P Require Import WireProtocol.
From S2P Require Import Decoder.
From S2P Require Import Uring.

Definition kRingDepth : Z := 256.
Definition kNumSendBufs : Z := 256.
Definition kSqPollIdle : Z := 2000.

Record UringSender (U : Type) : Type := mkSender {
  ring_ : U;
  sqpoll_active_ : bool;
  pending_sqes_ : Z;
  mem_ : memory;                (* where send_bufs_ live *)
  buf_in_flight_ : list bool;
  free_count_ : Z;
  out_queue_ : OutboundQueue;
  reports_sent_ : Z;
  errors_ : Z
}.
Arguments mkSender {U}.
Arguments ring_ {U}.
Arguments sqpoll_active_ {U}.
Arguments pending_sqes_ {U}.
Arguments mem_ {U}.
Arguments buf_in_flight_ {U}.
Arguments free_count_ {U}.
Arguments out_queue_ {U}.
Arguments reports_sent_ {U}.
Arguments errors_ {U}.

(** The exception [init_ring] throws. *)
Inductive ring_error : Type := QueueInitFailed (ret : Z).

Section sender.
Context `{Build} {U : Type} `{Uring U}.

(** The address of [send_bufs_], an array of 256 buffers of 48 bytes, and the
    capacity of the outbound queue. *)
Context (send_bufs_ : nat) (N : Z).

Implicit Types (s : UringSender U).

Definition send_buf (slot : Z) : nat := send_bufs_ + Z.to_nat (slot * sizeof_WireExecReport).

(** Member assignment. *)
Definition set_ring (u : U) s : UringSender U :=
  mkSender u (sqpoll_active_ s) (pending_sqes_ s) (mem_ s) (buf_in_flight_ s) (free_count_ s)
    (out_queue_ s) (reports_sent_ s) (errors_ s).
Definition set_pending (n : Z) s : UringSender U :=
  mkSender (ring_ s) (sqpoll_active_ s) n (mem_ s) (buf_in_flight_ s) (free_count_ s)
    (out_queue_ s) (reports_sent_ s) (errors_ s).
Definition set_mem (m : memory) s : UringSender U :=
  mkSender (ring_ s) (sqpoll_active_ s) (pending_sqes_ s) m (buf_in_flight_ s) (free_count_ s)
    (out_queue_ s) (reports_sent_ s) (errors_ s).
Definition set_bufs (l : list bool) (n : Z) s : UringSender U :=
  mkSender (ring_ s) (sqpoll_active_ s) (pending_sqes_ s) (mem_ s) l n
    (out_queue_ s) (reports_sent_ s) (errors_ s).
Definition set_queue (q : OutboundQueue) s : UringSender U :=
  mkSender (ring_ s) (sqpoll_active_ s) (pending_sqes_ s) (mem_ s) (buf_in_flight_ s)
    (free_count_ s) q (reports_sent_ s) (errors_ s).
Definition inc_sent s : UringSender U :=
  mkSender (ring_ s) (sqpoll_active_ s) (pending_sqes_ s) (mem_ s) (buf_in_flight_ s)
    (free_count_ s) (out_queue_ s) (u64 (reports_sent_ s + 1)) (errors_ s).
Definition inc_errors s : UringSender U :=
  mkSender (ring_ s) (sqpoll_active_ s) (pending_sqes_ s) (mem_ s) (buf_in_flight_ s)
    (free_count_ s) (out_queue_ s) (reports_sent_ s) (u64 (errors_ s + 1)).

(** ** Ring set-up *)

(** [io_uring_queue_init_params] with SQPOLL, then [io_uring_queue_init]:
    liburing's return value and the ring, given the depth (and the idle time
    of the polling thread). *)
Definition init_ring (queue_init_params : Z -> Z -> Z * U) (queue_init : Z -> Z * U)
  : (U * bool) + ring_error :=
  let '(ret, u) := queue_init_params kRingDepth kSqPollIdle in
  if ret =? 0 then inl (u, true)
  else
    let '(ret2, u2) := queue_init kRingDepth in
    if ret2 <? 0 then inr (QueueInitFailed ret2) else inl (u2, false).

Definition UringSender_new (queue_init_params : Z -> Z -> Z * U) (queue_init : Z -> Z * U)
  (sock_fd : Z) (m : memory) (q : OutboundQueue) : res (UringSender U + ring_error) :=
  let* _ := assert_ (sock_fd >=? 0) in
  match init_ring queue_init_params queue_init with
  | inl (u, sqpoll) =>
      Ok (inl (mkSender u sqpoll 0 m (replicate (Z.to_nat kNumSendBufs) false) kNumSendBufs q 0 0))
  | inr err => Ok (inr err)
  end.

(** ** The send-buffer pool *)

(** The scan of [alloc_send_buf] over slots [i, i+1, ...]. *)
Fixpoint first_free (l : list bool) (i : Z) : option Z :=
  match l with
  | [] => None
  | b :: l' => if b then first_free l' (i + 1) else Some i
  end.

Definition alloc_send_buf s : res (UringSender U * Z) :=
  match first_free (take (Z.to_nat kNumSendBufs) (buf_in_flight_ s)) 0 with
  | Some i =>
      let* l := vec_set (buf_in_flight_ s) i true in
      Ok (set_bufs l (u32 (free_count_ s - 1)) s, i)
  | None => let* _ := assert_ false in Err Unreachable
  end.

Definition free_send_buf (slot : Z) s : res (UringSender U) :=
  let* _ := assert_ (slot <? kNumSendBufs) in
  let* b := vec_at (buf_in_flight_ s) slot in
  let* _ := assert_ b in
  let* l := vec_set (buf_in_flight_ s) slot false in
  Ok (set_bufs l (u32 (free_count_ s + 1)) s).

(** ** Completions and submissions *)

(** The [while] of [drain_completions]; at most 256 requests are in flight,
    so 257 looks at the completion queue are enough. *)
Fixpoint drain_loop (fuel : nat) s : res (UringSender U) :=
  match fuel with
  | O => Err NoProgress
  | S fuel' =>
      match peek_cqe (ring_ s) with
      | (u, None) => Ok (set_ring u s)
      | (u, Some c) =>
          let slot := u32 (cq_data c) in
          let s1 := set_ring (cqe_seen u) s in
          let s2 := if cq_res c <? 0 then inc_errors s1 else s1 in
          let* s3 := free_send_buf slot s2 in
          drain_loop fuel' s3
      end
  end.

Definition drain_completions s : res (UringSender U) :=
  drain_loop (S (Z.to_nat kNumSendBufs)) s.

Definition flush_sqes s : UringSender U :=
  if pending_sqes_ s >? 0 then set_pending 0 (set_ring (submit_ring (ring_ s)) s) else s.

(** ** poll() *)

(** [while (free_count_ == 0) { drain_completions(); TX_PAUSE(); }], with at
    most [patience] turns. *)
Fixpoint wait_free (patience : nat) s : res (UringSender U) :=
  if free_count_ s =? 0 then
    match patience with
    | O => Err NoProgress
    | S patience' => let* s1 := drain_completions s in wait_free patience' s1
    end
  else Ok s.

(** The body of the loop over the outbound queue, with the increment of
    [submitted]. *)
Definition send_report (patience : nat) (report : ExecutionReport) s
  : res (UringSender U * Z) :=
  let* s1 := wait_free patience s in
  let* '(s2, slot) := alloc_send_buf s1 in
  let* '(m, len) := encode_exec_report report (mem_ s2) (send_buf slot) in
  let s3 := set_mem m s2 in
  let* _ := assert_ (len =? sizeof_WireExecReport) in
  let* '(s4, sqe) :=
    match get_sqe (ring_ s3) with
    | Some u => Ok (set_ring u s3, true)
    | None =>
        let* s4 := drain_completions (flush_sqes s3) in
        match get_sqe (ring_ s4) with
        | Some u => Ok (set_ring u s4, true)
        | None => let* s5 := free_send_buf slot s4 in Ok (inc_errors s5, false)
        end
    end in
  if sqe : bool then
    let s5 := set_ring (prep (mkReq (u64 slot) (send_buf slot) len) (ring_ s4)) s4 in
    Ok (inc_sent (set_pending (u32 (pending_sqes_ s5 + 1)) s5), 1)
  else Ok (s4, 0).

(** The loop over the outbound queue.  [fuel] bounds its turns: one per
    report in the queue when the loop starts, and one to find it empty. *)
Fixpoint send_loop (fuel patience : nat) s (submitted : Z) : res (UringSender U * Z) :=
  match fuel with
  | O => Err NoProgress
  | S fuel' =>
      let* '(q, popped) := try_pop N (out_queue_ s) in
      let s1 := set_queue q s in
      match popped with
      | None => Ok (s1, submitted)
      | Some report =>
          let* '(s2, k) := send_report patience report s1 in
          send_loop fuel' patience s2 (submitted + k)
      end
  end.

Definition sender_poll (patience : nat) s : res (UringSender U * Z) :=
  let* s1 := drain_completions s in
  let s2 := flush_sqes s1 in
  send_loop (S (Z.to_nat (size_approx (out_queue_ s2)))) patience s2 0.

(** [~UringSender]: the call it makes. *)
Definition UringSender_delete s : list ring_call := [QueueExit].

Definition sqpoll_active s : bool := sqpoll_active_ s.
Definition reports_sent s : Z := reports_sent_ s.
Definition errors s : Z := errors_ s.

End sender.
