(* ===== verification/UringSenderProps.v ===== *)
(** * The sender's invariant and its properties

    Every buffer taken belongs to exactly one request that is queued or in
    flight; what such a request points to is not touched until it
    completes. *)

From stdpp Require Import base numbers list gmap fin_maps.
From Stdlib Require Import ZArith Lia.
From S2P Require Import Prelude.
From S2P Require Import SPSCQueue.
From S2P Require Import WireProtocol.
From S2P Require Import Decoder.
From S2P Require Import Uring.
From S2P Require Import UringSender.

(** ** Counting slots *)

Lemma elem_of_slots_range (n : nat) (l : list Z) :
  NoDup l -> (forall z, z ∈ l -> 0 <= z < Z.of_nat n) -> (length l <= n)%nat.
Proof.
  intros Hnd Hr. replace n with (length (seqZ 0 (Z.of_nat n))) by (rewrite length_seqZ; lia).
  apply submseteq_length, NoDup_submseteq; [done|]. intros z Hz. apply elem_of_seqZ.
  specialize (Hr z Hz). lia.
Qed.

Lemma slots_cover (n : nat) (l : list Z) :
  (forall i, (i < n)%nat -> Z.of_nat i ∈ l) -> (n <= length l)%nat.
Proof.
  intros Hc. replace n with (length (seqZ 0 (Z.of_nat n))) by (rewrite length_seqZ; lia).
  apply submseteq_length, NoDup_submseteq; [apply NoDup_seqZ|].
  intros z Hz%elem_of_seqZ. rewrite <- (Z2Nat.id z) by lia. apply Hc. lia.
Qed.

Lemma first_free_spec l i :
  (exists k, l !! k = Some false) ->
  exists k, first_free l i = Some (i + Z.of_nat k) /\ l !! k = Some false.
Proof.
  revert i. induction l as [|b l IH]; intros i [k Hk]; [done|]. cbn [first_free]. destruct b.
  - destruct k as [|k]; [done|]. destruct (IH (i + 1)) as (k' & -> & Hk'); [by exists k|].
    exists (S k'). split; [f_equal; lia|done].
  - exists 0%nat. by rewrite Z.add_0_r.
Qed.

Lemma load_bytes_frame m m' a n :
  (forall c, (a <= c < a + n)%nat -> m' !! c = m !! c) -> load_bytes m' a n = load_bytes m a n.
Proof.
  revert a. induction n as [|n IH]; intros a Hc; cbn [load_bytes]; [done|].
  rewrite Hc by lia. destruct (m !! a); [|done]. rewrite IH; [done|]. intros c Hlt. apply Hc. lia.
Qed.

(** The bytes on the wire for a report. *)
Definition report_bytes (r : ExecutionReport) : list Z :=
  bytes_of_WireExecReport
    (mkWireExecReport 16 48 (ExKind_u8 (er_kind r)) 0 0 0 (er_order_id r)
       (er_counterpart_order_id r) (er_exec_price r) (er_exec_quantity r)
       (er_leaves_quantity r) (er_timestamp_ns r)).

Lemma length_report_bytes r : length (report_bytes r) = 48%nat.
Proof. unfold report_bytes, bytes_of_WireExecReport. by rewrite !length_app, !length_le_bytes. Qed.

Lemma encode_report_bytes r m a :
  encode_exec_report r m a = let* m1 := store_bytes m a (report_bytes r) in Ok (m1, 48).
Proof. reflexivity. Qed.

Section sender.
Context `{Build} {U : Type} `{Uring U} (send_bufs_ : nat) (N : Z).
Implicit Types (s : UringSender U) (r : request).

#[local] Abbreviation send_buf := (send_buf send_bufs_).

(** The requests whose completion has not been seen, and their slots. *)
Definition outstanding s : list request := queued (ring_ s) ++ flight (ring_ s).
Definition slots s : list Z := rq_data <$> outstanding s.

Record tx_inv s : Prop := {
  ti_ok : uring_ok (ring_ s);
  ti_len : Z.of_nat (length (buf_in_flight_ s)) = 256;
  ti_pend : 0 <= pending_sqes_ s <= Z.of_nat (length (queued (ring_ s)));
  ti_all : submits_all (U := U) -> pending_sqes_ s = Z.of_nat (length (queued (ring_ s)));
  ti_nodup : NoDup (slots s);
  ti_range : forall z, z ∈ slots s -> 0 <= z < 256;
  ti_flags : forall i, buf_in_flight_ s !! i = Some true <-> Z.of_nat i ∈ slots s;
  ti_free : free_count_ s = 256 - Z.of_nat (length (slots s));
  ti_req : forall r, r ∈ outstanding s -> rq_addr r = send_buf (rq_data r) /\ rq_len r = 48;
  ti_mem : forall c, Z.of_nat send_bufs_ <= Z.of_nat c < Z.of_nat send_bufs_ + 12288 -> is_Some (mem_ s !! c)
}.

Lemma tx_slots_le s : tx_inv s -> Z.of_nat (length (slots s)) <= 256.
Proof.
  intros Hi. pose proof (elem_of_slots_range (Z.to_nat 256) (slots s) (ti_nodup _ Hi)) as Hle.
  rewrite Z2Nat.id in Hle by lia. specialize (Hle (ti_range _ Hi)). lia.
Qed.

Lemma tx_queued_le s : (length (queued (ring_ s)) <= length (slots s))%nat.
Proof. unfold slots, outstanding. rewrite length_fmap, length_app. lia. Qed.

Lemma send_buf_48 z : 0 <= z -> send_buf z = (send_bufs_ + Z.to_nat z * 48)%nat.
Proof. intros Hz. unfold UringSender.send_buf. change sizeof_WireExecReport with 48. lia. Qed.

(** The invariant only looks at the ring through its outstanding requests. *)
Lemma tx_inv_ring s u :
  tx_inv s -> uring_ok u -> queued u = queued (ring_ s) -> flight u ≡ₚ flight (ring_ s) ->
  tx_inv (set_ring u s).
Proof.
  intros [] Hok Hq Hf. assert (outstanding (set_ring u s) ≡ₚ outstanding s) as Ho.
  { unfold outstanding. simpl. by rewrite Hq, Hf. }
  assert (slots (set_ring u s) ≡ₚ slots s) as Hs by (unfold slots; by rewrite Ho).
  split; simpl; try done.
  - by rewrite Hq.
  - by rewrite Hq.
  - by rewrite Hs.
  - intros z. rewrite Hs. apply ti_range0.
  - intros i. by rewrite Hs.
  - by rewrite Hs.
  - intros r. rewrite Ho. apply ti_req0.
Qed.

(** ** Completions *)

(** Seeing the completion at the head of the queue frees the slot of its
    request. *)
Lemma tx_free_one s r s1 :
  tx_inv s -> outstanding s ≡ₚ r :: outstanding s1 -> uring_ok (ring_ s1) ->
  queued (ring_ s1) = queued (ring_ s) -> pending_sqes_ s1 = pending_sqes_ s ->
  mem_ s1 = mem_ s -> buf_in_flight_ s1 = buf_in_flight_ s -> free_count_ s1 = free_count_ s ->
  exists s', free_send_buf (u32 (rq_data r)) s1 = Ok s' /\ tx_inv s' /\
    s' = set_bufs (<[Z.to_nat (rq_data r) := false]> (buf_in_flight_ s)) (free_count_ s + 1) s1.
Proof.
  intros Hi Ho Hok Hq Hp Hm Hb Hf. pose proof (tx_slots_le s Hi) as Hle. destruct Hi.
  assert (slots s ≡ₚ rq_data r :: slots s1) as Hs by (unfold slots; by rewrite Ho).
  rewrite Hs in ti_nodup0, ti_free0, Hle. apply NoDup_cons in ti_nodup0 as [Hnotin Hnd].
  assert (0 <= rq_data r < 256) as Hr by (apply ti_range0; rewrite Hs; set_solver).
  rewrite u32_id by (unfold in_u32; lia).
  assert (buf_in_flight_ s !! Z.to_nat (rq_data r) = Some true) as Hfl.
  { apply ti_flags0. rewrite Z2Nat.id, Hs by lia. set_solver. }
  unfold free_send_buf. rewrite assert_Ok by (intros _; apply Z.ltb_lt; unfold kNumSendBufs; lia).
  cbn [bind]. pose proof (vec_at_Ok _ _ _ Hfl) as Ev.
  pose proof (vec_set_Ok (buf_in_flight_ s) (Z.to_nat (rq_data r)) false ltac:(lia)) as Es.
  rewrite Z2Nat.id in Ev, Es by lia.
  rewrite Hb, Ev. cbn [bind]. rewrite assert_Ok by done. cbn [bind]. rewrite Es. cbn [bind]. cbn [length] in ti_free0, Hle.
  rewrite Hf, u32_id by (unfold in_u32; lia). eexists. split; [done|]. split; [|done].
  split; simpl; rewrite ?Hq, ?Hp, ?Hm; try done.
  - by rewrite length_insert.
  - intros z Hz. apply ti_range0. rewrite Hs. change (slots (set_bufs _ _ _)) with (slots s1) in Hz. set_solver.
  - intros i. change (slots (set_bufs _ _ _)) with (slots s1).
    specialize (ti_flags0 i). rewrite Hs, elem_of_cons in ti_flags0.
    destruct (decide (Z.to_nat (rq_data r) = i)) as [<-|Hne].
    + rewrite list_lookup_insert_eq by lia. rewrite Z2Nat.id by lia. split; [done|set_solver].
    + rewrite list_lookup_insert_ne by done. rewrite ti_flags0. split; [|by right].
      intros [E|]; [lia|done].
  - change (slots (set_bufs _ _ _)) with (slots s1). lia.
  - intros r' Hr'. apply ti_req0. rewrite Ho. change (outstanding (set_bufs _ _ _)) with (outstanding s1) in Hr'.
    set_solver.
Qed.

(** What draining leaves alone. *)
Record drained s s' : Prop := {
  dr_inv : tx_inv s';
  dr_queued : queued (ring_ s') = queued (ring_ s);
  dr_flight : exists done_, flight (ring_ s) ≡ₚ done_ ++ flight (ring_ s');
  dr_mem : mem_ s' = mem_ s;
  dr_out : out_queue_ s' = out_queue_ s;
  dr_sent : reports_sent_ s' = reports_sent_ s;
  dr_free : free_count_ s <= free_count_ s'
}.

Lemma drain_loop_spec fuel s :
  tx_inv s -> (length (flight (ring_ s)) < fuel)%nat ->
  exists s', drain_loop fuel s = Ok s' /\ drained s s'.
Proof.
  revert s. induction fuel as [|fuel IH]; intros s Hi Hlt; [lia|]. cbn [drain_loop].
  destruct (peek_cqe (ring_ s)) as [u [c|]] eqn:Ep;
    destruct (peek_ok _ _ _ (ti_ok _ Hi) Ep) as (Hok & Hq & Hf & Hc).
  - destruct Hc as (r & Hh & Hdata & _). destruct (seen_ok u r Hok Hh) as (Hok' & Hq' & Hf').
    rewrite Hdata. set (s1 := if cq_res c <? 0 then _ else _).
    assert (ring_ s1 = cqe_seen u /\ pending_sqes_ s1 = pending_sqes_ s /\ mem_ s1 = mem_ s /\
      buf_in_flight_ s1 = buf_in_flight_ s /\ free_count_ s1 = free_count_ s /\
      out_queue_ s1 = out_queue_ s /\ reports_sent_ s1 = reports_sent_ s)
      as (Hr1 & Hp1 & Hm1 & Hb1 & Hf1 & Ho1 & Hs1) by (unfold s1; by destruct (cq_res c <? 0)).
    destruct (tx_free_one s r s1 Hi) as (s2 & -> & Hi2 & E2); try done; rewrite ?Hr1; try done.
    { unfold outstanding. rewrite Hr1, Hq', Hq, <- Hf, Hf'. symmetry. apply Permutation_middle. }
    { by rewrite Hq', Hq. }
    cbn [bind]. rewrite Hf in Hf'. pose proof (Permutation_length Hf') as Hl. simpl in Hl.
    assert (ring_ s2 = cqe_seen u) as Hr2 by (subst s2; done).
    destruct (IH s2 Hi2) as (s' & E & []); [rewrite Hr2; lia|].
    exists s'. split; [done|]. rewrite Hr2 in *. subst s2. simpl in *. split; try done.
    + by rewrite dr_queued0, Hq', Hq.
    + destruct dr_flight0 as [ds Hds]. exists (r :: ds). by rewrite Hf', Hds.
    + by rewrite dr_mem0, Hm1.
    + by rewrite dr_out0, Ho1.
    + by rewrite dr_sent0, Hs1.
    + lia.
  - eexists. split; [done|]. split; try done; simpl.
    + by apply tx_inv_ring.
    + exists []. by rewrite Hf.
Qed.

Lemma drain_completions_spec s :
  tx_inv s -> exists s', drain_completions s = Ok s' /\ drained s s'.
Proof.
  intros Hi. apply drain_loop_spec; [done|]. pose proof (tx_slots_le s Hi) as Hle.
  unfold slots, outstanding in Hle. rewrite length_fmap, length_app in Hle. unfold kNumSendBufs. lia.
Qed.

Lemma flush_sqes_spec s :
  tx_inv s ->
  tx_inv (flush_sqes s) /\
  (exists k, queued (ring_ (flush_sqes s)) = drop k (queued (ring_ s)) /\
    flight (ring_ (flush_sqes s)) ≡ₚ take k (queued (ring_ s)) ++ flight (ring_ s)) /\
  (submits_all (U := U) -> queued (ring_ (flush_sqes s)) = []) /\
  outstanding (flush_sqes s) ≡ₚ outstanding s /\ free_count_ (flush_sqes s) = free_count_ s /\
  mem_ (flush_sqes s) = mem_ s /\ out_queue_ (flush_sqes s) = out_queue_ s.
Proof.
  intros Hi. pose proof (ti_pend _ Hi) as Hp. unfold flush_sqes.
  destruct (Z.gtb_spec (pending_sqes_ s) 0) as [Hgt|Hle].
  2: { split_and!; try done; [by exists 0%nat|]. intros Ha. pose proof (ti_all _ Hi Ha) as Ep.
       destruct (queued (ring_ s)); [done|simpl in Ep; lia]. }
  destruct (submit_ok _ (ti_ok _ Hi)) as (Hok & k & Hq & Hf).
  set (s' := set_pending 0 (set_ring (submit_ring (ring_ s)) s)).
  assert (outstanding s' ≡ₚ outstanding s) as Ho.
  { unfold outstanding, s'. simpl. rewrite Hq, Hf, app_assoc. f_equiv.
    rewrite Permutation_app_comm. by rewrite take_drop. }
  assert (slots s' ≡ₚ slots s) as Hs by (unfold slots; by rewrite Ho).
  split_and!; try done; [|by exists k|intros Ha; apply (Ha _ (ti_ok _ Hi))].
  destruct Hi. split; simpl; try done.
  - lia.
  - intros Ha. by rewrite (Ha _ ti_ok0).
  - by rewrite Hs.
  - intros z. rewrite Hs. apply ti_range0.
  - intros i. by rewrite Hs.
  - by rewrite Hs.
  - intros r. rewrite Ho. apply ti_req0.
Qed.

(** ** Sending one report *)

Lemma alloc_send_buf_spec s :
  tx_inv s -> 0 < free_count_ s ->
  exists k, k < 256 /\ 0 <= k /\ (k ∉ slots s) /\
    alloc_send_buf s = Ok (set_bufs (<[Z.to_nat k := true]> (buf_in_flight_ s)) (free_count_ s - 1) s, k).
Proof.
  intros Hi Hfree. pose proof (tx_slots_le s Hi) as Hle. pose proof (ti_len _ Hi) as Hlen.
  pose proof (ti_free _ Hi) as Hfr. unfold alloc_send_buf, kNumSendBufs.
  rewrite take_ge by lia.
  destruct (first_free_spec (buf_in_flight_ s) 0) as (k & -> & Hk).
  { destruct (decide (Exists (fun b => b = false) (buf_in_flight_ s))) as [He|Hne].
    - apply Exists_exists in He as (b & Hb & ->). by apply list_elem_of_lookup_1 in Hb.
    - exfalso. enough (length (buf_in_flight_ s) <= length (slots s))%nat by lia.
      apply slots_cover. intros i Hlt. apply (ti_flags _ Hi).
      destruct (lookup_lt_is_Some_2 _ _ Hlt) as [[] Hb]; [done|].
      destruct Hne. apply Exists_exists. exists false. split; [by eapply list_elem_of_lookup_2|done]. }
  apply lookup_lt_Some in Hk as Hlt. rewrite Z.add_0_l.
  rewrite vec_set_Ok by done. cbn [bind]. exists (Z.of_nat k). rewrite Nat2Z.id.
  rewrite u32_id by (unfold in_u32; lia). split_and!; [lia..| |done].
  intros Hin. apply (ti_flags _ Hi) in Hin. congruence.
Qed.

(** The buffers of different slots do not overlap. *)
Lemma send_buf_frame m m' z z' :
  0 <= z < 256 -> 0 <= z' < 256 -> z' <> z -> same_outside (send_buf z) 48 m m' ->
  load_bytes m' (send_buf z') 48 = load_bytes m (send_buf z') 48.
Proof.
  intros Hz Hz' Hne Hs. apply load_bytes_frame. intros c Hc. apply Hs.
  rewrite send_buf_48 in * by lia. lia.
Qed.

(** So no two outstanding requests have the same buffer. *)
Lemma buffers_distinct s : tx_inv s -> NoDup (rq_addr <$> outstanding s).
Proof.
  intros []. unfold slots in *. revert ti_nodup0 ti_range0 ti_req0. generalize (outstanding s).
  induction l as [|r l IH]; cbn; intros Hnd Hr Hq; constructor.
  - apply NoDup_cons in Hnd as [Hn _]. intros (r' & Er & Hin)%list_elem_of_fmap. apply Hn.
    destruct (Hq r) as [E1 _]; [set_solver|]. destruct (Hq r') as [E2 _]; [set_solver|].
    apply list_elem_of_fmap. exists r'. split; [|done].
    pose proof (Hr (rq_data r) ltac:(set_solver)) as H1.
    pose proof (Hr (rq_data r') ltac:(apply elem_of_cons; right; by apply list_elem_of_fmap_2)) as H2.
    rewrite E1, E2, !send_buf_48 in Er by lia. lia.
  - apply NoDup_cons in Hnd as [_ Hnd]. apply IH; set_solver.
Qed.

(** Turning a free slot into a queued request. *)
Lemma tx_inv_queue s k m u :
  tx_inv s -> 0 <= k < 256 -> k ∉ slots s -> uring_ok u ->
  queued u = queued (ring_ s) ++ [mkReq k (send_buf k) 48] -> flight u ≡ₚ flight (ring_ s) ->
  dom m = dom (mem_ s) ->
  tx_inv (mkSender u (sqpoll_active_ s) (pending_sqes_ s + 1) m
            (<[Z.to_nat k := true]> (buf_in_flight_ s)) (free_count_ s - 1) (out_queue_ s)
            (u64 (reports_sent_ s + 1)) (errors_ s)).
Proof.
  intros Hi Hk Hnot Hok Hq Hf Hdom. destruct Hi. set (s' := mkSender _ _ _ _ _ _ _ _ _).
  assert (outstanding s' ≡ₚ mkReq k (send_buf k) 48 :: outstanding s) as Ho.
  { unfold outstanding. simpl. rewrite Hq, Hf, <- app_assoc. simpl. symmetry. apply Permutation_middle. }
  assert (slots s' ≡ₚ k :: slots s) as Hs by (unfold slots; by rewrite Ho).
  split; simpl; try done.
  - by rewrite length_insert.
  - rewrite Hq, length_app. simpl. lia.
  - intros Ha. rewrite Hq, length_app, (ti_all0 Ha). simpl. lia.
  - rewrite Hs. by constructor.
  - intros z. rewrite Hs. intros [->|Hz]%elem_of_cons; [done|by apply ti_range0].
  - intros i. rewrite Hs, elem_of_cons. destruct (decide (Z.to_nat k = i)) as [<-|Hne].
    + rewrite list_lookup_insert_eq by lia. rewrite Z2Nat.id by lia. split; [by left|done].
    + rewrite list_lookup_insert_ne, ti_flags0 by done. split; [by right|]. intros [E|]; [lia|done].
  - rewrite Hs. simpl. lia.
  - intros r. rewrite Ho. intros [->|Hr]%elem_of_cons; [done|by apply ti_req0].
  - intros c Hc. apply elem_of_dom. rewrite Hdom. apply elem_of_dom. by apply ti_mem0.
Qed.

(** What sending the report [rep] does: it is queued, in a buffer no other
    outstanding request uses. *)
Record sent_one (rep : ExecutionReport) s s' (q : request) : Prop := {
  so_inv : tx_inv s';
  so_queued : queued (ring_ s') = queued (ring_ s) ++ [q];
  so_flight : flight (ring_ s') ≡ₚ flight (ring_ s);
  so_bytes : load_bytes (mem_ s') (rq_addr q) 48 = Ok (report_bytes rep);
  so_frame : forall z, z ∈ slots s ->
    load_bytes (mem_ s') (send_buf z) 48 = load_bytes (mem_ s) (send_buf z) 48;
  so_free : free_count_ s' = free_count_ s - 1;
  so_out : out_queue_ s' = out_queue_ s;
  so_sent : reports_sent_ s' = u64 (reports_sent_ s + 1)
}.

Lemma send_report_spec (Hdepth : sq_depth (U := U) (Z.to_nat 256)) patience rep s :
  tx_inv s -> 0 < free_count_ s ->
  exists s' q, send_report send_bufs_ patience rep s = Ok (s', 1) /\ sent_one rep s s' q.
Proof.
  intros Hi Hfree. unfold send_report.
  assert (wait_free patience s = Ok s) as ->
    by (destruct patience; cbn [wait_free]; by rewrite (proj2 (Z.eqb_neq _ _)) by lia).
  cbn [bind]. destruct (alloc_send_buf_spec s Hi Hfree) as (k & Hk & Hk0 & Hnot & ->).
  cbn [bind]. rewrite encode_report_bytes. cbn [mem_ set_bufs].
  destruct (store_bytes_spec (mem_ s) (send_buf k) (report_bytes rep)) as (m' & -> & El & Hs & Hd).
  { intros c Hc. apply (ti_mem _ Hi). rewrite length_report_bytes, send_buf_48 in Hc by lia. lia. }
  rewrite length_report_bytes in El, Hs. cbn [bind].
  rewrite assert_Ok by done. cbn [bind ring_ set_mem set_bufs].
  pose proof (tx_slots_le s Hi). pose proof (tx_queued_le s). pose proof (ti_free _ Hi) as Hfr.
  destruct (get_sqe (ring_ s)) as [u|] eqn:Eg.
  2: { apply Hdepth in Eg; [done|apply Hi|]. unfold slots in Hfr. rewrite length_fmap in Hfr.
       unfold outstanding in Hfr. lia. }
  cbn [bind]. rewrite (u64_id k) by (unfold in_u64; lia).
  destruct (prep_ok _ _ (mkReq k (send_buf k) 48) (ti_ok _ Hi) Eg) as (Hok & Hq & Hf & _).
  pose proof (tx_inv_queue s k m' _ Hi (conj Hk0 Hk) Hnot Hok Hq Hf Hd) as Hi'.
  cbn [ring_ set_ring set_mem set_bufs pending_sqes_]. pose proof (ti_pend _ Hi).
  rewrite u32_id by (unfold in_u32; lia).
  do 2 eexists. split; [reflexivity|]. split; try done.
  intros z Hz. apply (send_buf_frame _ _ k z); [done|by apply (ti_range _ Hi)|by intros ->|done].
Qed.

(** ** The loop over the outbound queue *)

(** What sending the reports [xs] does. *)
Record sent_all (xs : list ExecutionReport) s s' (qs : list request) : Prop := {
  sa_inv : tx_inv s';
  sa_queued : queued (ring_ s') = queued (ring_ s) ++ qs;
  sa_flight : flight (ring_ s') ≡ₚ flight (ring_ s);
  sa_bytes : Forall2 (fun q rep => load_bytes (mem_ s') (rq_addr q) 48 = Ok (report_bytes rep)) qs xs;
  sa_frame : forall z, z ∈ slots s ->
    load_bytes (mem_ s') (send_buf z) 48 = load_bytes (mem_ s) (send_buf z) 48;
  sa_free : free_count_ s' = free_count_ s - Z.of_nat (length xs);
  sa_sent : reports_sent_ s' = Nat.iter (length xs) (fun n => u64 (n + 1)) (reports_sent_ s)
}.

Lemma sent_cons rep xs s s1 s' q qs :
  sent_one rep s s1 q -> sent_all xs s1 s' qs -> sent_all (rep :: xs) s s' (q :: qs).
Proof.
  intros [] []. assert (slots s1 ≡ₚ rq_data q :: slots s) as Hs.
  { unfold slots, outstanding. rewrite so_queued0, so_flight0, <- app_assoc. cbn [app].
    by rewrite <- Permutation_middle. }
  assert (rq_addr q = send_buf (rq_data q)) as Hq.
  { apply (ti_req _ so_inv0). unfold outstanding. rewrite so_queued0. set_solver. }
  split; try done.
  - by rewrite sa_queued0, so_queued0, <- app_assoc.
  - by rewrite sa_flight0.
  - constructor; [|done]. rewrite Hq, sa_frame0, <- Hq; [done|]. rewrite Hs. set_solver.
  - intros z Hz. rewrite sa_frame0, so_frame0; [done..|]. rewrite Hs. set_solver.
  - rewrite sa_free0, so_free0. cbn [length]. lia.
  - rewrite sa_sent0, so_sent0. cbn [length]. by rewrite Nat.iter_succ_r.
Qed.

Lemma send_loop_prefix (Hdepth : sq_depth (U := U) (Z.to_nat 256)) patience fuel xs ys s n :
  tx_inv s -> ring_rep N (out_queue_ s) (xs ++ ys) -> Z.of_nat (length xs) <= free_count_ s ->
  exists s' qs,
    send_loop send_bufs_ N (length xs + fuel) patience s n
      = send_loop send_bufs_ N fuel patience s' (n + Z.of_nat (length xs)) /\
    sent_all xs s s' qs /\ ring_rep N (out_queue_ s') ys.
Proof.
  revert s n. induction xs as [|x xs IH]; intros s n Hi Hr Hfree; cbn [length Nat.add].
  { exists s, []. rewrite Z.add_0_r. split; [done|]. split; [|done].
    split; try done; [by rewrite app_nil_r|simpl; lia]. }
  pose proof (rr_pow _ _ _ Hr) as HN. cbn [send_loop].
  rewrite (try_pop_cons N HN _ x (xs ++ ys) Hr). cbn [bind]. set (s0 := set_queue _ s).
  assert (tx_inv s0) as Hi0 by (destruct Hi; by split).
  destruct (send_report_spec Hdepth patience x s0 Hi0) as (s1 & q & -> & H1).
  { cbn [length] in Hfree. simpl. lia. }
  cbn [bind]. destruct (IH s1 (n + 1)) as (s' & qs & E & Ha & Hr').
  - apply H1.
  - rewrite (so_out _ _ _ _ H1). by apply (ring_rep_pop N HN _ _ x).
  - rewrite (so_free _ _ _ _ H1). cbn [length] in Hfree. simpl. lia.
  - exists s', (q :: qs). split; [rewrite E; f_equal; lia|]. split; [|done].
    pose proof (sent_cons x xs s0 s1 s' q qs H1 Ha) as []. by split.
Qed.

Lemma wait_free_hangs patience s :
  tx_inv s -> free_count_ s = 0 -> flight (ring_ s) = [] -> wait_free patience s = Err NoProgress.
Proof.
  revert s. induction patience as [|p IH]; intros s Hi Hf Hfl; cbn [wait_free]; rewrite Hf; [done|].
  change (0 =? 0) with true. cbn iota.
  destruct (drain_completions_spec s Hi) as (s' & -> & []). cbn [bind].
  destruct dr_flight0 as [ds Hds]. rewrite Hfl in Hds. apply Permutation_nil in Hds.
  apply app_nil in Hds as [_ Hfl']. apply IH; [done| |done].
  rewrite (ti_free _ dr_inv0). rewrite (ti_free _ Hi) in Hf.
  unfold slots, outstanding in *. by rewrite dr_queued0, Hfl', <- Hfl.
Qed.

Lemma sender_poll_start s xs :
  tx_inv s -> ring_rep N (out_queue_ s) xs ->
  exists s1, drain_completions s = Ok s1 /\ tx_inv (flush_sqes s1) /\
    (submits_all (U := U) -> queued (ring_ (flush_sqes s1)) = []) /\ free_count_ s <= free_count_ (flush_sqes s1) /\
    ring_rep N (out_queue_ (flush_sqes s1)) xs /\
    size_approx (out_queue_ (flush_sqes s1)) = Z.of_nat (length xs) /\
    (outstanding s = [] -> outstanding (flush_sqes s1) = []) /\
    reports_sent_ (flush_sqes s1) = reports_sent_ s /\ mem_ (flush_sqes s1) = mem_ s /\
    exists done_, outstanding s ≡ₚ done_ ++ outstanding (flush_sqes s1).
Proof.
  intros Hi Hr. destruct (drain_completions_spec s Hi) as (s1 & -> & []).
  destruct (flush_sqes_spec s1 dr_inv0) as (Hi1 & _ & Hq & Ho & Hf & Hm & Hout).
  exists s1. assert (reports_sent_ (flush_sqes s1) = reports_sent_ s1) as Hsent
    by (unfold flush_sqes; by destruct (_ >? _)).
  destruct dr_flight0 as [ds Hds].
  assert (outstanding s ≡ₚ ds ++ outstanding (flush_sqes s1)) as Hos.
  { rewrite Ho. unfold outstanding. rewrite Hds, dr_queued0.
    rewrite (app_assoc _ ds), (Permutation_app_comm _ ds). by rewrite app_assoc. }
  split_and!; try done.
  - lia.
  - by rewrite Hout, dr_out0.
  - rewrite Hout, dr_out0. exact (rr_len _ _ _ Hr).
  - intros E. rewrite E in Hos. apply Permutation_nil in Hos. by apply app_nil in Hos as [_ ->].
  - by rewrite Hsent.
  - by rewrite Hm.
  - by exists ds.
Qed.

(** A sender just constructed. *)
Lemma fresh_sender u sqpoll m q :
  uring_ok u -> queued u = [] -> flight u = [] ->
  (forall c, Z.of_nat send_bufs_ <= Z.of_nat c < Z.of_nat send_bufs_ + 12288 -> is_Some (m !! c)) ->
  tx_inv (mkSender u sqpoll 0 m (replicate (Z.to_nat kNumSendBufs) false) kNumSendBufs q 0 0).
Proof.
  intros Hok Hq Hf Hm. set (s := mkSender u _ _ _ _ _ _ _ _).
  assert (outstanding s = []) as Ho by (unfold outstanding; simpl; by rewrite Hq, Hf).
  split; unfold slots; rewrite ?Ho; try done.
  - simpl. lia.
  - simpl. by rewrite Hq.
  - constructor.
  - set_solver.
  - intros i. change (buf_in_flight_ s) with (replicate (Z.to_nat kNumSendBufs) false).
    split; [by intros [? _]%lookup_replicate|set_solver].
  - set_solver.
Qed.

End sender.
