(* ===== verification/UringReceiver.v ===== *)
(** * The receiver: [src/io/uring_receiver.hpp]

    Keeps a RECV request queued or in flight for each of 64 buffers, posts a
    span for each completed one, and re-arms a buffer when the decoder hands
    it back. *)

From stdpp Require Import base numbers list gmap fin_maps.
From Stdlib Require Import ZArith Lia.
From S2P Require Import Prelude.
From S2P Require Import SPSCQueue.
From S2P Require Import Sink.
From S2P Require Import Decoder.
From S2P Require Import Uring.

Definition kRingDepth : Z := 256.
Definition kNumBufs : Z := 64.
Definition kBufSize : Z := 4096.
Definition kSqPollIdle : Z := 2000.

Record UringReceiver (U S : Type) : Type := mkReceiver {
  ring_ : U;
  sqpoll_active_ : bool;
  bufs_registered_ : bool;
  pending_sqes_ : Z;
  buf_armed_ : list bool;
  raw_queue_ : S;
  ret_queue_ : BufReturnQueue;
  bytes_received_ : Z;
  cqes_processed_ : Z;
  errors_seen_ : Z
}.
Arguments mkReceiver {U S}.
Arguments ring_ {U S}.
Arguments sqpoll_active_ {U S}.
Arguments bufs_registered_ {U S}.
Arguments pending_sqes_ {U S}.
Arguments buf_armed_ {U S}.
Arguments raw_queue_ {U S}.
Arguments ret_queue_ {U S}.
Arguments bytes_received_ {U S}.
Arguments cqes_processed_ {U S}.
Arguments errors_seen_ {U S}.

(** The exception [init_ring] throws. *)
Inductive ring_error : Type := QueueInitFailed (ret : Z).

Section receiver.
Context `{Build} {U S : Type} `{Uring U} `{Sink RawByteSpan S}.

(** The address of [recv_bufs_], an array of 64 buffers of 4096 bytes, and the
    capacity of the return queue. *)
Context (recv_bufs_ : nat) (N : Z).

Implicit Types (r : UringReceiver U S).

Definition recv_buf (id : Z) : nat := recv_bufs_ + Z.to_nat (id * kBufSize).

(** Member assignment. *)
Definition set_ring (u : U) r : UringReceiver U S :=
  mkReceiver u (sqpoll_active_ r) (bufs_registered_ r) (pending_sqes_ r) (buf_armed_ r)
    (raw_queue_ r) (ret_queue_ r) (bytes_received_ r) (cqes_processed_ r) (errors_seen_ r).
Definition set_pending (n : Z) r : UringReceiver U S :=
  mkReceiver (ring_ r) (sqpoll_active_ r) (bufs_registered_ r) n (buf_armed_ r)
    (raw_queue_ r) (ret_queue_ r) (bytes_received_ r) (cqes_processed_ r) (errors_seen_ r).
Definition set_armed (l : list bool) r : UringReceiver U S :=
  mkReceiver (ring_ r) (sqpoll_active_ r) (bufs_registered_ r) (pending_sqes_ r) l
    (raw_queue_ r) (ret_queue_ r) (bytes_received_ r) (cqes_processed_ r) (errors_seen_ r).
Definition set_raw (q : S) r : UringReceiver U S :=
  mkReceiver (ring_ r) (sqpoll_active_ r) (bufs_registered_ r) (pending_sqes_ r) (buf_armed_ r)
    q (ret_queue_ r) (bytes_received_ r) (cqes_processed_ r) (errors_seen_ r).
Definition set_ret (q : BufReturnQueue) r : UringReceiver U S :=
  mkReceiver (ring_ r) (sqpoll_active_ r) (bufs_registered_ r) (pending_sqes_ r) (buf_armed_ r)
    (raw_queue_ r) q (bytes_received_ r) (cqes_processed_ r) (errors_seen_ r).
Definition add_bytes (n : Z) r : UringReceiver U S :=
  mkReceiver (ring_ r) (sqpoll_active_ r) (bufs_registered_ r) (pending_sqes_ r) (buf_armed_ r)
    (raw_queue_ r) (ret_queue_ r) (u64 (bytes_received_ r + u64 n)) (cqes_processed_ r) (errors_seen_ r).
Definition inc_cqes r : UringReceiver U S :=
  mkReceiver (ring_ r) (sqpoll_active_ r) (bufs_registered_ r) (pending_sqes_ r) (buf_armed_ r)
    (raw_queue_ r) (ret_queue_ r) (bytes_received_ r) (u64 (cqes_processed_ r + 1)) (errors_seen_ r).
Definition inc_errors r : UringReceiver U S :=
  mkReceiver (ring_ r) (sqpoll_active_ r) (bufs_registered_ r) (pending_sqes_ r) (buf_armed_ r)
    (raw_queue_ r) (ret_queue_ r) (bytes_received_ r) (cqes_processed_ r) (u64 (errors_seen_ r + 1)).

(** ** Arming a buffer *)

Definition arm_buf (id : Z) r : res (UringReceiver U S) :=
  let* _ := assert_ (id <? kNumBufs) in
  let* b := vec_at (buf_armed_ r) id in
  let* _ := assert_ (negb b) in
  match get_sqe (ring_ r) with
  | None => Ok (inc_errors r)
  | Some u =>
      let r1 := set_ring (prep (mkReq (u64 id) (recv_buf id) kBufSize) u) r in
      let* l := vec_set (buf_armed_ r1) id true in
      Ok (set_pending (u32 (pending_sqes_ r1 + 1)) (set_armed l r1))
  end.

(** [for (i = id; i < kNumBufs; ++i) arm_buf(i);] with [k] turns left. *)
Fixpoint arm_from (id : Z) (k : nat) r : res (UringReceiver U S) :=
  match k with
  | O => Ok r
  | Datatypes.S k' => let* r1 := arm_buf id r in arm_from (id + 1) k' r1
  end.

Definition arm_all_buffers r : res (UringReceiver U S) :=
  let* r1 := arm_from 0 (Z.to_nat kNumBufs) r in
  Ok (set_pending 0 (set_ring (submit_ring (ring_ r1)) r1)).

(** ** Set-up

    liburing's part: [io_uring_queue_init_params] and [io_uring_queue_init]
    give a return value and a ring, [io_uring_register_buffers] a return
    value. *)
Definition init_ring (queue_init_params : Z -> Z -> Z * U) (queue_init : Z -> Z * U)
  : (U * bool) + ring_error :=
  let '(ret, u) := queue_init_params kRingDepth kSqPollIdle in
  if ret =? 0 then inl (u, true)
  else
    let '(ret2, u2) := queue_init kRingDepth in
    if ret2 <? 0 then inr (QueueInitFailed ret2) else inl (u2, false).

Definition init_fixed_buffers (register_buffers : U -> U * Z) r : UringReceiver U S :=
  let r1 := set_armed (replicate (Z.to_nat kNumBufs) false) r in
  let '(u, ret) := register_buffers (ring_ r1) in
  mkReceiver u (sqpoll_active_ r1) (ret =? 0) (pending_sqes_ r1) (buf_armed_ r1)
    (raw_queue_ r1) (ret_queue_ r1) (bytes_received_ r1) (cqes_processed_ r1) (errors_seen_ r1).

Definition UringReceiver_new (queue_init_params : Z -> Z -> Z * U) (queue_init : Z -> Z * U)
  (register_buffers : U -> U * Z) (sock_fd : Z) (raw : S) (ret : BufReturnQueue)
  : res (UringReceiver U S + ring_error) :=
  let* _ := assert_ (sock_fd >=? 0) in
  match init_ring queue_init_params queue_init with
  | inr err => Ok (inr err)
  | inl (u, sqpoll) =>
      let r := mkReceiver u sqpoll false 0 (replicate (Z.to_nat kNumBufs) false) raw ret 0 0 0 in
      let* r1 := arm_all_buffers (init_fixed_buffers register_buffers r) in
      Ok (inl r1)
  end.

(** ** Completions *)

Definition process_cqe (c : cqe) r : res (UringReceiver U S) :=
  let r1 := inc_cqes r in
  let id := u32 (cq_data c) in
  let bytes := cq_res c in
  let* _ := assert_ (id <? kNumBufs) in
  let* l := vec_set (buf_armed_ r1) id false in
  let r2 := set_armed l r1 in
  if bytes >? 0 then
    let r3 := add_bytes bytes r2 in
    let span := mkSpan (Some (recv_buf id)) (u32 bytes) id in
    let* raw := sink_push span (raw_queue_ r3) in
    Ok (set_raw raw r3)
  else if bytes =? 0 then arm_buf id r2
  else arm_buf id (inc_errors r2).

(** [while (io_uring_peek_cqe(..) == 0) ..]; at most 64 requests are in
    flight, and none is submitted by the loop, so 65 looks are enough. *)
Fixpoint cq_loop (fuel : nat) r (processed : Z) : res (UringReceiver U S * Z) :=
  match fuel with
  | O => Err NoProgress
  | Datatypes.S fuel' =>
      match peek_cqe (ring_ r) with
      | (u, None) => Ok (set_ring u r, processed)
      | (u, Some c) =>
          let* r1 := process_cqe c (set_ring u r) in
          let r2 := set_ring (cqe_seen (ring_ r1)) r1 in
          cq_loop fuel' r2 (processed + 1)
      end
  end.

(** ** Returned buffers *)

(** The body of the loop: a returned buffer that is not armed is. *)
Definition reclaim_buf (buf_id : Z) r : res (UringReceiver U S) :=
  if buf_id <? kNumBufs then
    let* b := vec_at (buf_armed_ r) buf_id in
    if negb b then arm_buf buf_id r else Ok r
  else Ok r.

(** [fuel] bounds the pops: one per buffer in the queue when the loop starts,
    and one to find it empty. *)
Fixpoint reclaim_loop (fuel : nat) r : res (UringReceiver U S) :=
  match fuel with
  | O => Err NoProgress
  | Datatypes.S fuel' =>
      let* '(q, popped) := try_pop N (ret_queue_ r) in
      let r1 := set_ret q r in
      match popped with
      | None => Ok r1
      | Some buf_id =>
          let* r2 := reclaim_buf buf_id r1 in
          reclaim_loop fuel' r2
      end
  end.

Definition reclaim_buffers r : res (UringReceiver U S) :=
  reclaim_loop (Datatypes.S (Z.to_nat (size_approx (ret_queue_ r)))) r.

(** ** poll() *)

(** [if (pending_sqes_ > 0) { io_uring_submit(&ring_); pending_sqes_ = 0; }] *)
Definition submit_pending r : UringReceiver U S :=
  if pending_sqes_ r >? 0 then set_pending 0 (set_ring (submit_ring (ring_ r)) r) else r.

Definition receiver_poll r : res (UringReceiver U S * Z) :=
  let* r1 := reclaim_buffers r in
  cq_loop (Datatypes.S (Z.to_nat kNumBufs)) (submit_pending r1) 0.

(** [~UringReceiver]: the calls it makes. *)
Definition UringReceiver_delete r : list ring_call :=
  (if bufs_registered_ r then [UnregisterBuffers] else []) ++ [QueueExit].

Definition sqpoll_active r : bool := sqpoll_active_ r.
Definition bufs_registered r : bool := bufs_registered_ r.
Definition bytes_received r : Z := bytes_received_ r.
Definition cqes_processed r : Z := cqes_processed_ r.
Definition errors_seen r : Z := errors_seen_ r.

End receiver.
