(* ===== verification/UringReceiverProps.v ===== *)
(** * The receiver's ownership of its buffers

    Each of the 64 buffers is with the kernel (a request for it is queued or
    in flight), with the decoder (its span was posted and it has not been
    handed back), or lost (re-arming it failed). *)

From stdpp Require Import base numbers list gmap fin_maps.
From Stdlib Require Import ZArith Lia.
From S2P Require Import Prelude.
From S2P Require Import SPSCQueue.
From S2P Require Import Sink.
From S2P Require Import WireProtocol.
From S2P Require Import Decoder.
From S2P Require Import DecoderProps.
From S2P Require Import Uring.
From S2P Require Import UringReceiver.

(** The requests queued and in flight, the flags, and who has the rest. *)
Record owned (recv_bufs_ : nat) (qd fl : list request) (armed : list bool) (out lost : list Z)
  : Prop := {
  ow_len : Z.of_nat (length armed) = 64;
  ow_all : (rq_data <$> qd ++ fl) ++ out ++ lost ≡ₚ seqZ 0 64;
  ow_flags : forall i, armed !! i = Some true <-> Z.of_nat i ∈ rq_data <$> qd ++ fl;
  ow_req : forall q, q ∈ qd ++ fl -> rq_addr q = recv_buf recv_bufs_ (rq_data q) /\ rq_len q = 4096
}.

Section owned.
Context (recv_bufs_ : nat).

#[local] Abbreviation owned := (owned recv_bufs_).
#[local] Abbreviation recv_req id := (mkReq id (recv_buf recv_bufs_ id) 4096).

Lemma owned_perm qd qd' fl fl' armed out out' lost :
  qd ++ fl ≡ₚ qd' ++ fl' -> out ≡ₚ out' -> owned qd fl armed out lost -> owned qd' fl' armed out' lost.
Proof.
  intros Hp Ho []. split; [done|..].
  - by rewrite <- Hp, <- Ho.
  - intros i. by rewrite <- Hp.
  - intros q. rewrite <- Hp. apply ow_req0.
Qed.

Lemma owned_nodup qd fl armed out lost :
  owned qd fl armed out lost -> NoDup ((rq_data <$> qd ++ fl) ++ out ++ lost).
Proof. intros []. rewrite ow_all0. apply NoDup_seqZ. Qed.

Lemma owned_range qd fl armed out lost z :
  owned qd fl armed out lost -> z ∈ (rq_data <$> qd ++ fl) ++ out ++ lost -> 0 <= z < 64.
Proof. intros [] Hz. rewrite ow_all0 in Hz. apply elem_of_seqZ in Hz. lia. Qed.

Lemma owned_length qd fl armed out lost :
  owned qd fl armed out lost -> (length (qd ++ fl) + length (out ++ lost) = 64)%nat.
Proof.
  intros []. apply Permutation_length in ow_all0.
  rewrite length_app, length_fmap, length_seqZ in ow_all0. lia.
Qed.

(** A completion: the buffer passes to the receiver's caller. *)
Lemma owned_done qd fl fl' q armed out lost :
  owned qd fl armed out lost -> fl ≡ₚ q :: fl' ->
  0 <= rq_data q < 64 /\
  owned qd fl' (<[Z.to_nat (rq_data q) := false]> armed) (out ++ [rq_data q]) lost.
Proof.
  intros Ho Hf. pose proof (owned_nodup _ _ _ _ _ Ho) as Hnd.
  assert (qd ++ fl ≡ₚ q :: qd ++ fl') as Hp by (rewrite Hf; symmetry; apply Permutation_middle).
  assert (0 <= rq_data q < 64) as Hr.
  { eapply owned_range; [done|]. rewrite Hp. set_solver. }
  split; [done|]. destruct Ho. rewrite Hp, fmap_cons in Hnd. cbn [app] in Hnd.
  apply NoDup_cons in Hnd as [Hnot _]. split.
  - by rewrite length_insert.
  - rewrite <- ow_all0, Hp, fmap_cons. cbn [app]. rewrite <- app_assoc. cbn [app].
    rewrite <- !Permutation_middle. done.
  - intros i. specialize (ow_flags0 i). rewrite Hp, fmap_cons, elem_of_cons in ow_flags0.
    destruct (decide (Z.to_nat (rq_data q) = i)) as [<-|Hne].
    + rewrite list_lookup_insert_eq by lia. rewrite Z2Nat.id by lia. split; [done|].
      intros Hin. destruct Hnot. by apply elem_of_app; left.
    + rewrite list_lookup_insert_ne, ow_flags0 by done. split; [|by right]. intros [E|]; [lia|done].
  - intros q' Hq'. apply ow_req0. rewrite Hp. by right.
Qed.

(** Arming: a buffer not with the kernel is given to it. *)
Lemma owned_arm qd fl armed id out lost :
  owned qd fl armed (id :: out) lost ->
  0 <= id < 64 /\ armed !! Z.to_nat id = Some false /\
  owned (qd ++ [recv_req id]) fl (<[Z.to_nat id := true]> armed) out lost.
Proof.
  intros Ho. pose proof (owned_nodup _ _ _ _ _ Ho) as Hnd.
  assert (0 <= id < 64) as Hr by (eapply owned_range; [done|]; set_solver).
  destruct Ho. split; [done|]. apply NoDup_app in Hnd as (_ & Hdisj & _).
  assert (id ∉ rq_data <$> qd ++ fl) as Hnot by (intros Hin; apply (Hdisj id Hin); set_solver).
  assert (armed !! Z.to_nat id = Some false) as Hfalse.
  { destruct (lookup_lt_is_Some_2 armed (Z.to_nat id)) as [[] Hb]; [lia| |done].
    apply ow_flags0 in Hb. rewrite Z2Nat.id in Hb by lia. done. }
  split; [done|].
  assert ((qd ++ [recv_req id]) ++ fl ≡ₚ recv_req id :: qd ++ fl) as Hp
    by (rewrite <- app_assoc; cbn [app]; symmetry; apply Permutation_middle).
  split.
  - by rewrite length_insert.
  - rewrite Hp, fmap_cons, <- ow_all0. cbn [app rq_data]. apply Permutation_middle.
  - intros i. rewrite Hp, fmap_cons, elem_of_cons. cbn [rq_data].
    destruct (decide (Z.to_nat id = i)) as [<-|Hne].
    + rewrite list_lookup_insert_eq by lia. rewrite Z2Nat.id by lia. split; [by left|done].
    + rewrite list_lookup_insert_ne, ow_flags0 by done. split; [by right|]. intros [E|]; [lia|done].
  - intros q. rewrite Hp. intros [->|Hq]%elem_of_cons; [done|by apply ow_req0].
Qed.

(** Failing to arm it: the buffer is lost. *)
Lemma owned_lose qd fl armed id out lost :
  owned qd fl armed (id :: out) lost -> owned qd fl armed out (id :: lost).
Proof.
  intros []. split; try done. rewrite <- ow_all0. apply Permutation_app_head. symmetry.
  apply Permutation_middle.
Qed.

End owned.

Section receiver.
Context `{Build} {U S : Type} `{Uring U} `{Sink RawByteSpan S} (recv_bufs_ : nat) (N : Z).
Implicit Types (r : UringReceiver U S).

#[local] Abbreviation recv_buf := (recv_buf recv_bufs_).

(** The invariant; [out] are the buffers with the decoder (oldest first),
    [lost] those that could not be re-armed. *)
Record rx_inv r (out lost : list Z) : Prop := {
  ri_ok : uring_ok (ring_ r);
  ri_sink : sink_ok (raw_queue_ r);
  ri_pend : 0 <= pending_sqes_ r <= Z.of_nat (length (queued (ring_ r)));
  ri_own : owned recv_bufs_ (queued (ring_ r)) (flight (ring_ r)) (buf_armed_ r) out lost
}.

(** A span the receiver posts lies within the buffer it names. *)
Definition span_in_buf (span : RawByteSpan) : Prop :=
  sp_data span = Some (recv_buf (sp_buf_id span)) /\ 0 < sp_len span <= 4096 /\
  0 <= sp_buf_id span < 64.

(** Evaluating [arm_buf] on a buffer whose flag is off. *)
Lemma arm_buf_eval id r :
  0 <= id < 64 -> Z.of_nat (length (buf_armed_ r)) = 64 -> buf_armed_ r !! Z.to_nat id = Some false ->
  arm_buf recv_bufs_ id r =
  match get_sqe (ring_ r) with
  | None => Ok (inc_errors r)
  | Some u => Ok (set_pending (u32 (pending_sqes_ r + 1))
                    (set_armed (<[Z.to_nat id := true]> (buf_armed_ r))
                       (set_ring (prep (mkReq id (recv_buf id) 4096) u) r)))
  end.
Proof.
  intros Hid Hlen Hb. unfold arm_buf.
  rewrite assert_Ok by (intros _; apply Z.ltb_lt; unfold kNumBufs; lia). cbn [bind].
  pose proof (vec_at_Ok _ _ _ Hb) as Ev. rewrite Z2Nat.id in Ev by lia. rewrite Ev. cbn [bind negb].
  rewrite assert_Ok by done. cbn [bind]. destruct (get_sqe (ring_ r)) as [u|]; [|done].
  pose proof (vec_set_Ok (buf_armed_ r) (Z.to_nat id) true ltac:(lia)) as Es.
  rewrite Z2Nat.id in Es by lia. cbn [buf_armed_ set_ring]. rewrite Es. cbn [bind].
  by rewrite u64_id by (unfold in_u64; lia).
Qed.

(** Arming a buffer of [out]: with the kernel afterwards, or lost. *)
Lemma arm_buf_spec id r out lost :
  rx_inv r (id :: out) lost ->
  exists r' lost', arm_buf recv_bufs_ id r = Ok r' /\ rx_inv r' out lost' /\
    flight (ring_ r') ≡ₚ flight (ring_ r) /\ raw_queue_ r' = raw_queue_ r /\
    ret_queue_ r' = ret_queue_ r /\ (sq_depth (U := U) (Z.to_nat 256) -> lost' = lost).
Proof.
  intros []. destruct (owned_arm _ _ _ _ _ _ _ ri_own0) as (Hid & Hb & Harm).
  pose proof (owned_length _ _ _ _ _ _ ri_own0) as Hl. rewrite length_app in Hl.
  rewrite arm_buf_eval; [|done|apply ri_own0|done].
  destruct (get_sqe (ring_ r)) as [u|] eqn:Eg.
  - destruct (prep_ok _ _ (mkReq id (recv_buf id) 4096) ri_ok0 Eg) as (Hok & Hq & Hf & _).
    eexists _, lost. split; [done|]. split_and!; try done. split; simpl; try done.
    + rewrite Hq, length_app, u32_id by (unfold in_u32; lia). simpl. lia.
    + rewrite Hq. eapply owned_perm; [|done|exact Harm]. by rewrite Hf.
  - exists (inc_errors r), (id :: lost). split; [done|]. split_and!; try done.
    + split; try done. by apply owned_lose.
    + intros Hd. apply Hd in Eg; [done|done|]. rewrite length_app. lia.
Qed.

(** The counters, which arming a buffer leaves alone. *)
Definition counters r : Z * Z * Z := (bytes_received_ r, cqes_processed_ r, errors_seen_ r).

(** With an entry per buffer and more there is always one to arm a buffer
    with. *)
Lemma rx_has_sqe r out lost :
  rx_inv r out lost -> sq_depth (U := U) (Z.to_nat 256) -> get_sqe (ring_ r) <> None.
Proof.
  intros [] Hd. apply Hd; [done|]. pose proof (owned_length _ _ _ _ _ _ ri_own0). lia.
Qed.

Lemma arm_buf_counters id r r' :
  arm_buf recv_bufs_ id r = Ok r' -> get_sqe (ring_ r) <> None -> counters r' = counters r.
Proof.
  unfold arm_buf. intros E Hg. destruct (assert_ _); [|done]. cbn [bind] in E.
  destruct (vec_at _ _); [|done]. cbn [bind] in E. destruct (assert_ _); [|done]. cbn [bind] in E.
  destruct (get_sqe _) as [u|]; [|done]. destruct (vec_set _ _ _); [|done]. by injection E as <-.
Qed.

Lemma reclaim_buf_counters id r r' :
  reclaim_buf recv_bufs_ id r = Ok r' -> get_sqe (ring_ r) <> None -> counters r' = counters r.
Proof.
  unfold reclaim_buf. intros E Hg. destruct (_ <? _); [|by injection E as <-].
  destruct (vec_at _ _) as [b|]; [|done]. cbn [bind] in E.
  destruct b; cbn [negb] in E; [by injection E as <-|]. by eapply arm_buf_counters.
Qed.

(** What a completion adds to the counters. *)
Lemma process_cqe_counters c r r' :
  process_cqe recv_bufs_ c r = Ok r' -> get_sqe (ring_ r) <> None ->
  counters r' = (if cq_res c >? 0 then u64 (bytes_received_ r + u64 (cq_res c)) else bytes_received_ r,
                 u64 (cqes_processed_ r + 1),
                 if cq_res c <? 0 then u64 (errors_seen_ r + 1) else errors_seen_ r).
Proof.
  unfold process_cqe. intros E Hg. destruct (assert_ _); [|done]. cbn [bind] in E.
  destruct (vec_set _ _ _); [|done]. cbn [bind] in E.
  destruct (Z.gtb_spec (cq_res c) 0).
  - destruct (sink_push _ _); [|done]. injection E as <-. by rewrite (proj2 (Z.ltb_ge _ _)) by lia.
  - destruct (Z.eqb_spec (cq_res c) 0) as [->|].
    + by rewrite (arm_buf_counters _ _ _ E).
    + rewrite (proj2 (Z.ltb_lt _ _)) by lia. by rewrite (arm_buf_counters _ _ _ E).
Qed.

(** ** One completion *)

(** Re-arming the buffer of the completion at the head of the queue, before
    that completion is marked seen. *)
Lemma rearm_step q r out lost :
  uring_ok (ring_ r) -> cq_head (ring_ r) = Some q -> sink_ok (raw_queue_ r) ->
  0 <= pending_sqes_ r <= Z.of_nat (length (queued (ring_ r))) ->
  owned recv_bufs_ (queued (ring_ r)) (flight (cqe_seen (ring_ r))) (buf_armed_ r)
    (rq_data q :: out) lost ->
  exists r1 lost', arm_buf recv_bufs_ (rq_data q) r = Ok r1 /\
    rx_inv (set_ring (cqe_seen (ring_ r1)) r1) out lost' /\
    flight (cqe_seen (ring_ r1)) ≡ₚ flight (cqe_seen (ring_ r)) /\
    raw_queue_ r1 = raw_queue_ r /\ ret_queue_ r1 = ret_queue_ r /\
    (uring_ok (ring_ r1) /\ cq_head (ring_ r1) = Some q) /\
    (sq_depth (U := U) (Z.to_nat 256) -> lost' = lost).
Proof.
  intros Hok Hh Hs Hp Hown. destruct (seen_ok _ q Hok Hh) as (Hok' & Hq' & Hf').
  destruct (owned_arm _ _ _ _ _ _ _ Hown) as (Hid & Hoff & Harm).
  pose proof (owned_length _ _ _ _ _ _ Hown) as Hl64. rewrite length_app in Hl64.
  rewrite arm_buf_eval; [|done|apply Hown|done]. set (rq := mkReq (rq_data q) _ _).
  destruct (get_sqe (ring_ r)) as [u1|] eqn:Eg.
  - destruct (prep_ok _ _ rq Hok Eg) as (Hok1 & Hq1 & Hf1 & Hh1).
    rewrite Hh in Hh1. destruct (seen_ok _ q Hok1 Hh1) as (Hok2 & Hq2 & Hf2).
    assert (flight (cqe_seen (prep rq u1)) ≡ₚ flight (cqe_seen (ring_ r))) as Hfs
      by (apply (Permutation_cons_inv (a := q)); by rewrite <- Hf2, Hf1, Hf').
    eexists _, lost. split; [done|]. simpl. split_and!; try done.
    split; simpl; try done; rewrite Hq2, Hq1.
    + rewrite length_app, u32_id by (unfold in_u32; lia). simpl. lia.
    + eapply owned_perm; [|done|exact Harm]. by rewrite Hfs.
  - eexists _, (rq_data q :: lost). split; [done|]. simpl. split_and!; try done.
    + split; simpl; try done; rewrite Hq'; [done|]. by apply owned_lose.
    + intros Hd. apply Hd in Eg; [done|done|]. rewrite length_app, (Permutation_length Hf'). simpl. lia.
Qed.

Lemma cqe_step r out lost u c :
  rx_inv r out lost -> peek_cqe (ring_ r) = (u, Some c) ->
  exists r1 spans lost',
    process_cqe recv_bufs_ c (set_ring u r) = Ok r1 /\
    rx_inv (set_ring (cqe_seen (ring_ r1)) r1) (out ++ (sp_buf_id <$> spans)) lost' /\
    (length (flight (cqe_seen (ring_ r1))) < length (flight (ring_ r)))%nat /\
    sink_log (raw_queue_ r1) = sink_log (raw_queue_ r) ++ spans /\ Forall span_in_buf spans /\
    ret_queue_ r1 = ret_queue_ r /\ (length spans <= 1)%nat /\
    (exists q, uring_ok (ring_ r1) /\ cq_head (ring_ r1) = Some q) /\
    (sq_depth (U := U) (Z.to_nat 256) -> lost' = lost).
Proof.
  intros [] Ep. destruct (peek_ok _ _ _ ri_ok0 Ep) as (Hok & Hq & Hf & q & Hh & Hdata & Hres).
  destruct (seen_ok u q Hok Hh) as (Hok' & Hq' & Hf').
  assert (flight (ring_ r) ≡ₚ q :: flight (cqe_seen u)) as Hfl by (by rewrite <- Hf).
  destruct (owned_done _ _ _ _ _ _ _ _ ri_own0 Hfl) as [Hid Hdone].
  pose proof (ow_len _ _ _ _ _ _ ri_own0) as Hlen.
  assert (rq_len q = 4096) as Hql by (apply (ow_req _ _ _ _ _ _ ri_own0); rewrite Hfl; set_solver).
  pose proof (Permutation_length Hfl) as Hfll. cbn [length] in Hfll.
  unfold process_cqe. rewrite Hdata, u32_id by (unfold in_u32; lia).
  rewrite assert_Ok by (intros _; apply Z.ltb_lt; unfold kNumBufs; lia). cbn [bind].
  pose proof (vec_set_Ok (buf_armed_ r) (Z.to_nat (rq_data q)) false ltac:(lia)) as Es.
  rewrite Z2Nat.id in Es by lia. cbn [buf_armed_ inc_cqes set_ring]. rewrite Es. cbn [bind].
  set (r2 := set_armed _ _). destruct (Z.gtb_spec (cq_res c) 0) as [Hpos|Hneg].
  - set (span := mkSpan _ _ _). change (raw_queue_ (add_bytes (cq_res c) r2)) with (raw_queue_ r).
    destruct (sink_push_ok span (raw_queue_ r) ri_sink0) as (raw & -> & Hs' & Hlog). cbn [bind].
    eexists _, [span], lost. split; [done|]. simpl. split_and!; try done; [|lia| |by exists q].
    + split; simpl; try done; by rewrite Hq', Hq.
    + constructor; [|done]. unfold span_in_buf, span. simpl.
      rewrite u32_id by (unfold in_u32; lia). by split_and!; [|lia..].
  - set (r3 := if cq_res c =? 0 then r2 else inc_errors r2).
    replace (if cq_res c =? 0 then _ else _) with (arm_buf recv_bufs_ (rq_data q) r3)
      by (unfold r3; by destruct (cq_res c =? 0)).
    assert (ring_ r3 = u /\ buf_armed_ r3 = <[Z.to_nat (rq_data q) := false]> (buf_armed_ r) /\
      pending_sqes_ r3 = pending_sqes_ r /\ raw_queue_ r3 = raw_queue_ r /\ ret_queue_ r3 = ret_queue_ r)
      as (Hr3 & Hb3 & Hp3 & Hw3 & Ht3) by (unfold r3; by destruct (cq_res c =? 0)).
    destruct (rearm_step q r3 out lost) as (r1 & lost' & -> & Hinv & Hfl1 & Hw1 & Ht1 & Hh1 & Hlost);
      rewrite ?Hr3, ?Hw3, ?Hp3, ?Hb3, ?Hq; try done.
    { eapply owned_perm; [done| |exact Hdone]. by rewrite <- Permutation_cons_append. }
    exists r1, [], lost'. rewrite Hr3 in Hfl1. simpl. rewrite !app_nil_r.
    split_and!; try done; [rewrite Hfl1; lia|by rewrite Hw1, Hw3|by rewrite Ht1, Ht3|lia|by exists q].
Qed.

(** ** The loops *)

Lemma cq_loop_spec fuel r out lost n :
  rx_inv r out lost -> (length (flight (ring_ r)) < fuel)%nat ->
  exists r' n' spans lost',
    cq_loop recv_bufs_ fuel r n = Ok (r', n') /\ rx_inv r' (out ++ (sp_buf_id <$> spans)) lost' /\
    sink_log (raw_queue_ r') = sink_log (raw_queue_ r) ++ spans /\ Forall span_in_buf spans /\
    ret_queue_ r' = ret_queue_ r /\ (sq_depth (U := U) (Z.to_nat 256) -> lost' = lost).
Proof.
  revert r out lost n. induction fuel as [|fuel IH]; intros r out lost n Hi Hlt; [lia|].
  cbn [cq_loop]. destruct (peek_cqe (ring_ r)) as [u [c|]] eqn:Ep.
  - destruct (cqe_step r out lost u c Hi Ep)
      as (r1 & sp1 & l1 & -> & Hi1 & Hlt1 & Hlog1 & Hall1 & Hret1 & _ & _ & Hl1). cbn [bind].
    destruct (IH _ _ _ (n + 1) Hi1) as (r' & n' & sp2 & l2 & E & Hi2 & Hlog2 & Hall2 & Hret2 & Hl2);
      [simpl; lia|]. simpl in *.
    exists r', n', (sp1 ++ sp2), l2. rewrite E, fmap_app, app_assoc. split_and!; try done.
    + by rewrite Hlog2, Hlog1, app_assoc.
    + by apply Forall_app.
    + by rewrite Hret2.
    + intros Hd. by rewrite Hl2, Hl1.
  - destruct Hi. destruct (peek_ok _ _ _ ri_ok0 Ep) as (Hok & Hq & Hf & _).
    exists (set_ring u r), n, [], lost. split; [done|]. simpl. rewrite !app_nil_r.
    split_and!; try done. split; simpl; try done; rewrite Hq; [done|].
    eapply owned_perm; [|done|done]. by rewrite Hf.
Qed.

(** Taking back the oldest of the buffers the decoder has had. *)
Lemma reclaim_buf_spec x r rest lost :
  rx_inv r (x :: rest) lost ->
  exists r' lost', reclaim_buf recv_bufs_ x r = Ok r' /\ rx_inv r' rest lost' /\
    flight (ring_ r') ≡ₚ flight (ring_ r) /\ raw_queue_ r' = raw_queue_ r /\
    ret_queue_ r' = ret_queue_ r /\ (sq_depth (U := U) (Z.to_nat 256) -> lost' = lost).
Proof.
  intros Hi. destruct (owned_arm _ _ _ _ _ _ _ (ri_own _ _ _ Hi)) as (Hx & Hoff & _).
  unfold reclaim_buf. rewrite (proj2 (Z.ltb_lt x kNumBufs)) by (unfold kNumBufs; lia).
  pose proof (vec_at_Ok _ _ _ Hoff) as Ev. rewrite Z2Nat.id in Ev by lia. rewrite Ev.
  cbn [bind negb]. by apply arm_buf_spec.
Qed.

Lemma reclaim_loop_spec xs r rest lost :
  rx_inv r (xs ++ rest) lost -> ring_rep N (ret_queue_ r) xs ->
  exists r' lost',
    reclaim_loop recv_bufs_ N (Datatypes.S (length xs)) r = Ok r' /\ rx_inv r' rest lost' /\
    ring_rep N (ret_queue_ r') [] /\ raw_queue_ r' = raw_queue_ r /\
    (sq_depth (U := U) (Z.to_nat 256) -> lost' = lost).
Proof.
  revert r lost. induction xs as [|x xs IH]; intros r lost Hi Hr.
  { cbn [reclaim_loop length]. rewrite (try_pop_empty N _ Hr). cbn [bind].
    eexists _, lost. split; [done|]. destruct Hi. by split_and!. }
  pose proof (rr_pow _ _ _ Hr) as HN. cbn [length].
  remember (Datatypes.S (length xs)) as fuel. cbn [reclaim_loop].
  rewrite (try_pop_cons N HN _ x xs Hr). cbn [bind app] in *. set (r1 := set_ret _ r).
  assert (rx_inv r1 (x :: xs ++ rest) lost) as Hi1 by (destruct Hi; by split).
  destruct (reclaim_buf_spec x r1 (xs ++ rest) lost Hi1) as (r2 & l2 & -> & Hi2 & _ & Hw2 & Ht2 & Hl2).
  cbn [bind]. destruct (IH r2 l2 Hi2) as (r' & l' & E & Hi' & Hr' & Hw' & Hl').
  { rewrite Ht2. by apply (ring_rep_pop N HN _ _ x). }
  exists r', l'. split_and!; try done; [by rewrite Hw', Hw2|]. intros Hd. by rewrite Hl', Hl2.
Qed.

(** [io_uring_submit] keeps who owns what. *)
Lemma rx_submit r out lost :
  rx_inv r out lost ->
  rx_inv (set_pending 0 (set_ring (submit_ring (ring_ r)) r)) out lost.
Proof.
  intros []. destruct (submit_ok _ ri_ok0) as (Hok & k & Hq & Hf). split; simpl; try done.
  - lia.
  - eapply owned_perm; [|done|done]. rewrite Hq, Hf, app_assoc. f_equiv.
    by rewrite Permutation_app_comm, take_drop.
Qed.

Lemma submit_pending_spec r out lost :
  rx_inv r out lost ->
  rx_inv (submit_pending r) out lost /\ raw_queue_ (submit_pending r) = raw_queue_ r /\
  ret_queue_ (submit_pending r) = ret_queue_ r.
Proof.
  intros Hi. unfold submit_pending. destruct (_ >? _); [split; [by apply rx_submit|done]|done].
Qed.

Lemma receiver_poll_spec r xs rest lost :
  rx_inv r (xs ++ rest) lost -> ring_rep N (ret_queue_ r) xs ->
  exists r' n spans lost',
    receiver_poll recv_bufs_ N r = Ok (r', n) /\
    rx_inv r' (rest ++ (sp_buf_id <$> spans)) lost' /\ ring_rep N (ret_queue_ r') [] /\
    sink_log (raw_queue_ r') = sink_log (raw_queue_ r) ++ spans /\ Forall span_in_buf spans /\
    (sq_depth (U := U) (Z.to_nat 256) -> lost' = lost).
Proof.
  intros Hi Hr. unfold receiver_poll, reclaim_buffers, size_approx.
  rewrite (rr_len _ _ _ Hr), Nat2Z.id.
  destruct (reclaim_loop_spec xs r rest lost Hi Hr) as (r1 & l1 & -> & Hi1 & Hr1 & Hw1 & Hl1).
  cbn [bind]. destruct (submit_pending_spec r1 rest l1 Hi1) as (Hi2 & Hw2 & Ht2).
  set (r2 := submit_pending r1) in *.
  pose proof (owned_length _ _ _ _ _ _ (ri_own _ _ _ Hi2)) as Hl. rewrite length_app in Hl.
  destruct (cq_loop_spec (Datatypes.S (Z.to_nat kNumBufs)) r2 rest l1 0 Hi2)
    as (r' & n & spans & l' & E & Hi' & Hlog & Hall & Ht & Hl'); [unfold kNumBufs; lia|].
  exists r', n, spans, l'. split_and!; try done.
  - by rewrite Ht, Ht2.
  - by rewrite Hlog, Hw2, Hw1.
  - intros Hd. by rewrite Hl', Hl1.
Qed.

(** ** Construction *)

Lemma arm_from_spec (k : nat) id r :
  rx_inv r (seqZ id (Z.of_nat k)) [] -> sq_depth (U := U) (Z.to_nat 256) ->
  exists r', arm_from recv_bufs_ id k r = Ok r' /\ rx_inv r' [] [] /\
    raw_queue_ r' = raw_queue_ r /\ ret_queue_ r' = ret_queue_ r /\ counters r' = counters r.
Proof.
  revert id r. induction k as [|k IH]; intros id r Hi Hd; cbn [arm_from]; [by exists r|].
  rewrite seqZ_cons in Hi by lia. replace (Z.pred (Z.of_nat (Datatypes.S k))) with (Z.of_nat k) in Hi by lia.
  destruct (arm_buf_spec id r _ _ Hi) as (r1 & l1 & E1 & Hi1 & _ & Hw1 & Ht1 & Hl1).
  pose proof (arm_buf_counters _ _ _ E1 (rx_has_sqe _ _ _ Hi Hd)) as Hc1.
  rewrite (Hl1 Hd) in Hi1. rewrite E1. cbn [bind].
  destruct (IH (Z.succ id) r1 Hi1 Hd) as (r' & E & Hi' & Hw' & Ht' & Hc').
  exists r'. rewrite <- E. split_and!; try done; [by rewrite Hw'|by rewrite Ht'|by rewrite Hc'].
Qed.

(** A fresh ring, with registration leaving the queues alone. *)
Lemma UringReceiver_new_spec qip qi reg fd raw ret u sqpoll :
  init_ring qip qi = inl (u, sqpoll) -> (asserts_enabled = true -> 0 <= fd) -> uring_ok (reg u).1 ->
  queued (reg u).1 = [] -> flight (reg u).1 = [] -> sink_ok raw ->
  sq_depth (U := U) (Z.to_nat 256) ->
  exists r, UringReceiver_new recv_bufs_ qip qi reg fd raw ret = Ok (inl r) /\ rx_inv r [] [] /\
    raw_queue_ r = raw /\ ret_queue_ r = ret /\ counters r = (0, 0, 0).
Proof.
  intros Einit Hfd Hok Hq Hf Hs Hd. unfold UringReceiver_new.
  rewrite assert_Ok by (intros Ha; by apply Z.geb_le, Hfd). cbn [bind]. rewrite Einit.
  unfold init_fixed_buffers, arm_all_buffers. cbn [ring_ set_armed].
  destruct (reg u) as [u1 ret1] eqn:Ereg. cbn [fst] in *. set (r0 := mkReceiver u1 _ _ _ _ _ _ _ _ _).
  destruct (arm_from_spec (Z.to_nat kNumBufs) 0 r0) as (r1 & -> & Hi1 & Hw1 & Ht1 & Hc1); [|done|].
  { unfold kNumBufs. rewrite Z2Nat.id by lia. split; [done|done|by rewrite (Hq : queued (ring_ r0) = [])|].
    rewrite (Hq : queued (ring_ r0) = []), (Hf : flight (ring_ r0) = []).
    change (buf_armed_ r0) with (replicate (Z.to_nat kNumBufs) false). split.
    - by rewrite length_replicate.
    - cbn [app fmap list_fmap]. by rewrite app_nil_r.
    - intros i. split; [intros [? _]%lookup_replicate|]; set_solver.
    - set_solver. }
  cbn [bind]. eexists. split; [done|]. split_and!; [by apply rx_submit|done..].
Qed.

(** The bytes of [recv_bufs_] are live. *)
Definition recv_bufs_live (m : memory) : Prop :=
  forall c, Z.of_nat recv_bufs_ <= Z.of_nat c < Z.of_nat recv_bufs_ + 64 * 4096 -> is_Some (m !! c).

Lemma load_bytes_live (m : memory) a n :
  (forall c, (a <= c < a + n)%nat -> is_Some (m !! c)) -> exists bs, load_bytes m a n = Ok bs.
Proof.
  revert a. induction n as [|n IH]; intros a Hm; cbn [load_bytes]; [by exists []|].
  destruct (Hm a) as [b ->]; [lia|]. destruct (IH (Datatypes.S a)) as [bs ->].
  - intros c Hc. apply Hm. lia.
  - by exists (b :: bs).
Qed.

Lemma span_in_buf_ok m span :
  recv_bufs_live m -> span_in_buf span -> span_ok m span.
Proof.
  intros Hm (Hd & Hl & Hid). split; [unfold in_u32; lia|]. intros a Ha.
  rewrite Hd in Ha. injection Ha as <-. apply load_bytes_live. intros c Hc. apply Hm.
  unfold UringReceiver.recv_buf, kBufSize in *. lia.
Qed.

End receiver.
