(* ===== verification/UringTheorems.v ===== *)
(** * The properties of the receiver and the sender *)

From stdpp Require Import base numbers list gmap fin_maps.
From Stdlib Require Import ZArith Lia.
From S2P Require Import Prelude.
From S2P Require Import SPSCQueue.
From S2P Require Import Sink.
From S2P Require Import WireProtocol.
From S2P Require Import Decoder.
From S2P Require Import DecoderProps.
From S2P Require Import Uring.
From S2P Require UringSender.
From S2P Require UringSenderProps.
From S2P Require UringReceiver.
From S2P Require UringReceiverProps.

Section receiver.
Import UringReceiver UringReceiverProps.
Context `{Build} {U S : Type} `{Uring U} `{Sink RawByteSpan S} (recv_bufs_ : nat) (N : Z).
Implicit Types (r : UringReceiver U S).

(** C29: the receiver never lets the kernel write into a buffer the decoder
    still has: if the decoder hands back buffers in the order it got them,
    [poll] re-arms exactly those, and afterwards a buffer is either with the
    kernel or with the decoder, never both.  Every span posted names a buffer
    of its own and lies within it, so the decoder can read it; and while the
    submission queue has an entry for every buffer, no buffer is lost. *)
Theorem receiver_ownership r xs rest lost m :
  rx_inv recv_bufs_ r (xs ++ rest) lost -> ring_rep N (ret_queue_ r) xs -> recv_bufs_live recv_bufs_ m ->
  exists r' n spans lost',
    receiver_poll recv_bufs_ N r = Ok (r', n) /\
    rx_inv recv_bufs_ r' (rest ++ (sp_buf_id <$> spans)) lost' /\ ring_rep N (ret_queue_ r') [] /\
    sink_log (raw_queue_ r') = sink_log (raw_queue_ r) ++ spans /\
    Forall (span_ok m) spans /\
    (forall id, id ∈ rest ++ (sp_buf_id <$> spans) ->
       id ∉ rq_data <$> queued (ring_ r') ++ flight (ring_ r')) /\
    (sq_depth (U := U) (Z.to_nat 256) -> lost' = lost).
Proof.
  intros Hi Hr Hm. destruct (receiver_poll_spec recv_bufs_ N r xs rest lost Hi Hr)
    as (r' & n & spans & lost' & E & Hi' & Hr' & Hlog & Hall & Hl).
  exists r', n, spans, lost'. split_and!; try done.
  - eapply Forall_impl; [exact Hall|]. intros span. by apply span_in_buf_ok.
  - intros id Hid Hin. pose proof (owned_nodup _ _ _ _ _ _ (ri_own _ _ _ _ Hi')) as Hnd.
    apply NoDup_app in Hnd as (_ & Hd & _). apply (Hd id Hin). apply elem_of_app. by left.
Qed.

(** A receiver that comes out of its constructor has all 64 buffers with
    the kernel and none lost. *)
Theorem receiver_starts_armed qip qi reg fd raw ret u sqpoll :
  init_ring qip qi = inl (u, sqpoll) -> 0 <= fd -> uring_ok (reg u).1 ->
  queued (reg u).1 = [] -> flight (reg u).1 = [] -> sink_ok raw ->
  sq_depth (U := U) (Z.to_nat 256) ->
  exists r, UringReceiver_new recv_bufs_ qip qi reg fd raw ret = Ok (inl r) /\
    rx_inv recv_bufs_ r [] [] /\ rq_data <$> queued (ring_ r) ++ flight (ring_ r) ≡ₚ seqZ 0 64.
Proof.
  intros. destruct (UringReceiver_new_spec recv_bufs_ qip qi reg fd raw ret u sqpoll)
    as (r & E & Hi & _); [done|by intros _|done..|]. exists r. split_and!; try done.
  pose proof (ow_all _ _ _ _ _ _ (ri_own _ _ _ _ Hi)) as Hall. cbn [app] in Hall.
  by rewrite app_nil_r in Hall.
Qed.

End receiver.

Section sender.
Import UringSender UringSenderProps.
Context `{Build} {U : Type} `{Uring U} (send_bufs_ : nat) (N : Z).
Implicit Types (s : UringSender U).

(** C30: when there are enough free buffers, [poll] serialises every report of
    the outbound queue, in order, each into a buffer of its own, and queues a
    SEND of exactly those bytes, behind what [io_uring_submit] has left in
    the submission queue (nothing, if it submits all there is); no buffer of
    a request that is still outstanding is overwritten. *)
Theorem sender_poll_sends patience s xs :
  sq_depth (U := U) (Z.to_nat 256) -> tx_inv send_bufs_ s -> ring_rep N (out_queue_ s) xs ->
  Z.of_nat (length xs) <= free_count_ s ->
  exists s' left qs,
    sender_poll send_bufs_ N patience s = Ok (s', Z.of_nat (length xs)) /\
    tx_inv send_bufs_ s' /\ ring_rep N (out_queue_ s') [] /\ queued (ring_ s') = left ++ qs /\
    (submits_all (U := U) -> left = []) /\
    Forall2 (fun q rep => load_bytes (mem_ s') (rq_addr q) 48 = Ok (report_bytes rep) /\
                          rq_len q = 48) qs xs /\
    NoDup (rq_data <$> outstanding s') /\
    (forall q, q ∈ left ++ flight (ring_ s') ->
       load_bytes (mem_ s') (rq_addr q) 48 = load_bytes (mem_ s) (rq_addr q) 48) /\
    reports_sent_ s' = Nat.iter (length xs) (fun n => u64 (n + 1)) (reports_sent_ s).
Proof.
  intros Hd Hi Hr Hfree. unfold sender_poll.
  destruct (sender_poll_start send_bufs_ N s xs Hi Hr)
    as (s1 & -> & Hi1 & Hq1 & Hf1 & Hr1 & Hsz & _ & Hsent1 & Hm1 & ds & Hds). cbn [bind].
  rewrite Hsz, Nat2Z.id. rewrite <- (app_nil_r xs) in Hr1.
  destruct (send_loop_prefix send_bufs_ N Hd patience 1 xs [] _ 0 Hi1 Hr1) as (s' & qs & E & [] & Hr');
    [lia|]. replace (Datatypes.S (length xs)) with (length xs + 1)%nat by lia. rewrite E.
  cbn [send_loop]. rewrite (try_pop_empty N _ Hr'). cbn [bind].
  assert (tx_inv send_bufs_ (set_queue (out_queue_ s') s')) as Hi' by (destruct sa_inv; by split).
  exists (set_queue (out_queue_ s') s'), (queued (ring_ (flush_sqes s1))), qs.
  split; [done|]. split; [done|]. split; [done|]. split; [done|]. split; [done|]. split_and!.
  - apply Forall2_same_length_lookup. split; [by eapply Forall2_length|].
    intros i q rep Hq Hrep. split; [by eapply (Forall2_lookup_lr _ _ _ _ _ _ sa_bytes)|].
    apply (ti_req _ _ sa_inv). unfold outstanding. rewrite sa_queued.
    apply elem_of_app. left. apply elem_of_app. right. by eapply list_elem_of_lookup_2.
  - apply sa_inv.
  - intros q Hq. cbn [mem_ ring_ set_queue] in *. rewrite sa_flight in Hq.
    assert (q ∈ outstanding (flush_sqes s1)) as Ho by exact Hq.
    destruct (ti_req _ _ Hi1 q Ho) as [-> _]. rewrite sa_frame, Hm1; [done|].
    by apply list_elem_of_fmap_2.
  - cbn [reports_sent_ set_queue]. by rewrite sa_sent, Hsent1.
Qed.


End sender.

(** ** The theorems at work *)

#[local] Existing Instance Release.
#[local] Existing Instance small_sink.

(** A ring of 256 entries whose kernel receives 56 bytes, or sends all 48. *)
Definition ux_ring : Uring SimRing := SimRing_Uring 256 (fun _ => 56).
#[local] Existing Instance ux_ring.
Definition ux_empty : SimRing := mkSim [] [] None.

(** A ring that holds given elements. *)
Lemma ring_with {T} (N : Z) (zero : T) (xs : list T) :
  has_single_bit N -> Z.of_nat (length xs) <= N -> exists q, ring_rep N q xs.
Proof.
  intros HN Hl. destruct (push_each_fit N HN (SPSCQueue_new N zero) [] xs) as (q & _ & Hr & _);
    [by apply SPSCQueue_new_rep|simpl; lia|]. by exists q.
Qed.

Definition ux_span : RawByteSpan := mkSpan None 0 0.

Lemma receiver_starts_armed_witness :
  exists r, UringReceiver.UringReceiver_new 0 (fun _ _ => (-1, ux_empty)) (fun _ => (0, ux_empty))
    (fun u => (u, 0)) 3 (small_link ux_span) (SPSCQueue_new 8 0) = Ok (inl r) /\
    rq_data <$> queued (UringReceiver.ring_ r) ++ flight (UringReceiver.ring_ r) ≡ₚ seqZ 0 64.
Proof.
  destruct (receiver_starts_armed 0 (fun _ _ => (-1, ux_empty)) (fun _ => (0, ux_empty))
    (fun u => (u, 0)) 3 (small_link ux_span) (SPSCQueue_new 8 0) ux_empty false)
    as (r & E & _ & Hall).
  - reflexivity.
  - lia.
  - intros r Hr. discriminate Hr.
  - reflexivity.
  - reflexivity.
  - apply small_link_ok.
  - exact (sim_depth 256 (fun _ => 56)).
  - exists r. split; [exact E|exact Hall].
Defined.

(** The decoder has buffer 0 and has handed it back; the other 63 are with the
    kernel. *)
Definition ux_receiver : UringReceiver.UringReceiver SimRing (Link RawByteSpan) :=
  UringReceiver.mkReceiver
    (mkSim [] ((fun id => mkReq id (UringReceiver.recv_buf 0 id) 4096) <$> seqZ 1 63) None)
    false true 0 (false :: replicate 63 true) (small_link ux_span)
    (mkRing 1 0 (replicate 8 0)) 0 0 0.

Lemma ux_receiver_inv : UringReceiverProps.rx_inv 0 ux_receiver [0] [].
Proof.
  split.
  - intros r Hr. discriminate Hr.
  - apply small_link_ok.
  - split; [reflexivity|apply Nat2Z.is_nonneg].
  - split.
    + reflexivity.
    + exact (Permutation_app_comm (seqZ 1 63) [0]).
    + intros i. change (rq_data <$> _) with (seqZ 1 63). rewrite elem_of_seqZ.
      change (UringReceiver.buf_armed_ ux_receiver) with (false :: replicate 63 true).
      destruct i as [|i]; [cbn; split; [done|lia]|].
      rewrite lookup_cons_ne_0, lookup_replicate by done. cbn [Nat.pred].
      split; [intros [_ ?]; lia|]. intros ?. split; [done|lia].
    + intros q Hq. by apply list_elem_of_fmap in Hq as (id & -> & _).
Qed.

Lemma receiver_ownership_witness :
  exists r' n, UringReceiver.receiver_poll 0 8 ux_receiver = Ok (r', n).
Proof.
  destruct (receiver_ownership 0 8 ux_receiver [0] [] [] (live_at 0 (Z.to_nat (64 * 4096))))
    as (r' & n & spans & lost' & E & _).
  - exact ux_receiver_inv.
  - split; try done; [apply single_bit_8|split; simpl; lia..|].
    intros [|i] x Hx; [|done]. injection Hx as <-. reflexivity.
  - intros c Hc. apply live_at_Z. exact Hc.
  - exists r', n. exact E.
Defined.

Definition ux_report : ExecutionReport := mkReport Fill 1 2 3 4 5 6.
Definition ux_sender (q : OutboundQueue) : UringSender.UringSender SimRing :=
  UringSender.mkSender ux_empty false 0 (live_at 0 (Z.to_nat 12288))
    (replicate (Z.to_nat UringSender.kNumSendBufs) false) UringSender.kNumSendBufs q 0 0.

Lemma ux_sender_inv q : UringSenderProps.tx_inv 0 (ux_sender q).
Proof.
  apply UringSenderProps.fresh_sender; [intros r Hr; discriminate Hr|reflexivity..|].
  intros c Hc. by apply live_at_Z.
Qed.

Lemma single_bit_512 : has_single_bit 512.
Proof. exists 9. by split; [lia|]. Qed.

Lemma sender_poll_sends_witness :
  exists s s', UringSender.sender_poll 0 512 7 s = Ok (s', 3) /\
    length (queued (UringSender.ring_ s')) = 3%nat.
Proof.
  destruct (ring_with 512 ux_report (replicate 3 ux_report) single_bit_512) as [q Hq]; [simpl; lia|].
  destruct (sender_poll_sends 0 512 7 (ux_sender q) (replicate 3 ux_report)) as (s' & left & qs & E & _ & _ & Hq' & Hleft & Hqs & _).
  - exact (sim_depth 256 (fun _ => 56)).
  - apply ux_sender_inv.
  - exact Hq.
  - vm_compute. discriminate.
  - exists (ux_sender q), s'. split; [exact E|].
    rewrite Hq', (Hleft (sim_submits_all 256 (fun _ => 56))). exact (Forall2_length _ _ _ Hqs).
Defined.

