(* ===== verification/Pipeline.v ===== *)
(** * The daemon: [src/main.cpp]

    Four worker threads, each of which loops over its component's [poll] while
    [g_running] is set, four rings between them, and the main thread that
    waits for the signal and joins the workers.

    A step of a thread is one access to something another thread can see (a
    push into or a pop from a ring, a read of [g_running], a look at the
    completion queue) with the private computation around it.  The posting
    loops [while (!q.try_push(x)) { pause; }] are steps that leave everything
    as it is when the ring is full, so a thread can wait for ever.  What a
    thread computes between two accesses is run at once: the engine and the
    receiver run their handlers on a list ([Log_Sink]) and post what was
    added to it, one element per step; [EngineSink] shows that the engine
    cannot tell the difference.  Ring operations are atomic, which is what
    [spsc_linearizable] in [SPSCTheorems] establishes for the code of the
    rings, except that what a thread reads of the other side may be out of
    date: [stale_step].

    Each ring lives in the component that consumes it ([ret_queue_],
    [e_inbound], [out_queue_]), as the reference members of the C++ classes
    refer to one object; [raw_queue] is a local of [main]. *)

From stdpp Require Import base numbers list gmap fin_maps.
From Stdlib Require Import ZArith Lia.
From S2P Require Import Prelude.
From S2P Require Import OrderTypes.
From S2P Require Import OrderPool.
From S2P Require Import SPSCQueue.
From S2P Require Import Sink.
From S2P Require Import MatchingEngine.
From S2P Require Import WireProtocol.
From S2P Require Import Decoder.
From S2P Require Import DecoderProps.
From S2P Require Import Uring.
From S2P Require UringSender.
From S2P Require UringReceiver.

(** Where each thread is in its loop. *)
Inductive rx_pc : Type :=
| RxTop                          (* while (g_running) *)
| RxReclaim                      (* reclaim_buffers: while (ret_queue_.try_pop(buf_id)) *)
| RxCq                           (* while (io_uring_peek_cqe(..) == 0) *)
| RxPost (span : RawByteSpan)    (* while (!raw_queue_.try_push(span)) *)
| RxSeen                         (* io_uring_cqe_seen *)
| RxExited.

Inductive dec_pc : Type :=
| DecTop
| DecPop (turns : nat)            (* raw.try_pop(span), with [turns] to the batch limit *)
| DecPost (msgs : list InboundOrderMsg) (buf_id : Z) (turns : nat)
                                 (* the messages still to push, then returns.try_push(buf_id) *)
| DecExited.

Inductive eng_pc : Type :=
| EngTop
| EngPost (reports : list ExecutionReport)
| EngExited.

Inductive tx_pc : Type :=
| TxTop
| TxPop                          (* while (out_queue_.try_pop(report)) *)
| TxSend (report : ExecutionReport)
| TxExited.

Inductive main_pc : Type :=
| Supervise                      (* while (g_running) sleep *)
| JoinReceiver | JoinSender | JoinDecoder | JoinMatching
| Returned.

#[export] Instance main_pc_eq_dec : EqDecision main_pc.
Proof. solve_decision. Defined.

(** What the parts of the running daemon are.  The last three members are
    ghost state: the contents of every span the receiver has posted, and the
    messages and reports that have left the inbound and outbound rings. *)
Record world (U : Type) : Type := mkWorld {
  w_running : bool;
  w_main : main_pc;
  w_mem : memory;                 (* where recv_bufs_ live *)
  w_raw : RawByteQueue;
  w_rx : UringReceiver.UringReceiver U (list RawByteSpan);
  w_rx_pc : rx_pc;
  w_dec : Decoder;
  w_dec_pc : dec_pc;
  w_eng : Engine (list ExecutionReport);
  w_eng_pc : eng_pc;
  w_tx : UringSender.UringSender U;
  w_tx_pc : tx_pc;
  w_received : list (list Z);
  w_msgs : list InboundOrderMsg;
  w_sent : list ExecutionReport
}.
Arguments mkWorld {U}.
Arguments w_running {U}.
Arguments w_main {U}.
Arguments w_mem {U}.
Arguments w_raw {U}.
Arguments w_rx {U}.
Arguments w_rx_pc {U}.
Arguments w_dec {U}.
Arguments w_dec_pc {U}.
Arguments w_eng {U}.
Arguments w_eng_pc {U}.
Arguments w_tx {U}.
Arguments w_tx_pc {U}.
Arguments w_received {U}.
Arguments w_msgs {U}.
Arguments w_sent {U}.

Section pipeline.
Context `{Build} {U : Type} `{Uring U}.
Context (Capacity : nat) (clock_gettime : nat -> Z * Z) (recv_bufs_ send_bufs_ : nat).

(** The capacities of the four rings. *)
Context (Nraw Nret Nin Nout : Z).

Implicit Types (w : world U).

Definition set_running (b : bool) w : world U :=
  mkWorld b (w_main w) (w_mem w) (w_raw w) (w_rx w) (w_rx_pc w) (w_dec w) (w_dec_pc w)
    (w_eng w) (w_eng_pc w) (w_tx w) (w_tx_pc w) (w_received w) (w_msgs w) (w_sent w).
Definition set_main (pc : main_pc) w : world U :=
  mkWorld (w_running w) pc (w_mem w) (w_raw w) (w_rx w) (w_rx_pc w) (w_dec w) (w_dec_pc w)
    (w_eng w) (w_eng_pc w) (w_tx w) (w_tx_pc w) (w_received w) (w_msgs w) (w_sent w).
Definition set_memory (m : memory) w : world U :=
  mkWorld (w_running w) (w_main w) m (w_raw w) (w_rx w) (w_rx_pc w) (w_dec w) (w_dec_pc w)
    (w_eng w) (w_eng_pc w) (w_tx w) (w_tx_pc w) (w_received w) (w_msgs w) (w_sent w).
Definition set_raw (q : RawByteQueue) w : world U :=
  mkWorld (w_running w) (w_main w) (w_mem w) q (w_rx w) (w_rx_pc w) (w_dec w) (w_dec_pc w)
    (w_eng w) (w_eng_pc w) (w_tx w) (w_tx_pc w) (w_received w) (w_msgs w) (w_sent w).
Definition set_rx r (pc : rx_pc) w : world U :=
  mkWorld (w_running w) (w_main w) (w_mem w) (w_raw w) r pc (w_dec w) (w_dec_pc w)
    (w_eng w) (w_eng_pc w) (w_tx w) (w_tx_pc w) (w_received w) (w_msgs w) (w_sent w).
Definition set_dec (d : Decoder) (pc : dec_pc) w : world U :=
  mkWorld (w_running w) (w_main w) (w_mem w) (w_raw w) (w_rx w) (w_rx_pc w) d pc
    (w_eng w) (w_eng_pc w) (w_tx w) (w_tx_pc w) (w_received w) (w_msgs w) (w_sent w).
Definition set_eng e (pc : eng_pc) w : world U :=
  mkWorld (w_running w) (w_main w) (w_mem w) (w_raw w) (w_rx w) (w_rx_pc w) (w_dec w) (w_dec_pc w)
    e pc (w_tx w) (w_tx_pc w) (w_received w) (w_msgs w) (w_sent w).
Definition set_tx s (pc : tx_pc) w : world U :=
  mkWorld (w_running w) (w_main w) (w_mem w) (w_raw w) (w_rx w) (w_rx_pc w) (w_dec w) (w_dec_pc w)
    (w_eng w) (w_eng_pc w) s pc (w_received w) (w_msgs w) (w_sent w).

(** Ghost updates. *)
Definition note_received (bs : list (list Z)) w : world U :=
  mkWorld (w_running w) (w_main w) (w_mem w) (w_raw w) (w_rx w) (w_rx_pc w) (w_dec w) (w_dec_pc w)
    (w_eng w) (w_eng_pc w) (w_tx w) (w_tx_pc w) (w_received w ++ bs) (w_msgs w) (w_sent w).
Definition note_msgs (ms : list InboundOrderMsg) w : world U :=
  mkWorld (w_running w) (w_main w) (w_mem w) (w_raw w) (w_rx w) (w_rx_pc w) (w_dec w) (w_dec_pc w)
    (w_eng w) (w_eng_pc w) (w_tx w) (w_tx_pc w) (w_received w) (w_msgs w ++ ms) (w_sent w).
Definition note_sent (rs : list ExecutionReport) w : world U :=
  mkWorld (w_running w) (w_main w) (w_mem w) (w_raw w) (w_rx w) (w_rx_pc w) (w_dec w) (w_dec_pc w)
    (w_eng w) (w_eng_pc w) (w_tx w) (w_tx_pc w) (w_received w) (w_msgs w) (w_sent w ++ rs).

(** What a handler that started with the log [old] has posted. *)
Definition posts {T} (old new : list T) : list T := drop (length old) new.

(** ** The receiver thread: [while (g_running) receiver->poll();] *)
Definition rx_step w : res (world U) :=
  let r := w_rx w in
  match w_rx_pc w with
  | RxTop => Ok (set_rx r (if w_running w then RxReclaim else RxExited) w)
  | RxReclaim =>
      let* '(q, popped) := try_pop Nret (UringReceiver.ret_queue_ r) in
      let r1 := UringReceiver.set_ret q r in
      match popped with
      | None => Ok (set_rx (UringReceiver.submit_pending r1) RxCq w)
      | Some buf_id =>
          let* r2 := UringReceiver.reclaim_buf recv_bufs_ buf_id r1 in
          Ok (set_rx r2 RxReclaim w)
      end
  | RxCq =>
      match peek_cqe (UringReceiver.ring_ r) with
      | (u, None) => Ok (set_rx (UringReceiver.set_ring u r) RxTop w)
      | (u, Some c) =>
          let* r1 := UringReceiver.process_cqe recv_bufs_ c (UringReceiver.set_ring u r) in
          match posts (UringReceiver.raw_queue_ r) (UringReceiver.raw_queue_ r1) with
          | [] => Ok (set_rx r1 RxSeen w)
          | span :: _ => Ok (note_received [span_bytes (w_mem w) span] (set_rx r1 (RxPost span) w))
          end
      end
  | RxPost span =>
      let* '(q, ok) := try_push Nraw (w_raw w) span in
      Ok (set_rx r (if ok : bool then RxSeen else RxPost span) (set_raw q w))
  | RxSeen =>
      Ok (set_rx (UringReceiver.set_ring (cqe_seen (UringReceiver.ring_ r)) r) RxCq w)
  | RxExited => Ok w
  end.

(** ** The decoder thread:
       [while (g_running) decoder.poll(raw, inbound, returns);]
    with the default batch limit. *)
Definition dec_batch : nat := Z.to_nat (i32 64).

Definition dec_step w : res (world U) :=
  let d := w_dec w in
  match w_dec_pc w with
  | DecTop => Ok (set_dec d (if w_running w then DecPop dec_batch else DecExited) w)
  | DecPop O => Ok (set_dec d DecTop w)
  | DecPop (S turns) =>
      let* '(raw, popped) := try_pop Nraw (w_raw w) in
      match popped with
      | None => Ok (set_dec d DecTop (set_raw raw w))
      | Some span =>
          let* '(d1, msgs, _) := decode_span (w_mem w) span d [] in
          Ok (set_dec d1 (DecPost msgs (sp_buf_id span) turns) (set_raw raw w))
      end
  | DecPost (msg :: msgs) buf_id turns =>
      let* '(q, ok) := try_push Nin (e_inbound (w_eng w)) msg in
      let pc := if ok : bool then DecPost msgs buf_id turns else DecPost (msg :: msgs) buf_id turns in
      Ok (set_dec d pc (set_eng (set_inbound q (w_eng w)) (w_eng_pc w) w))
  | DecPost [] buf_id turns =>
      let* '(q, ok) := try_push Nret (UringReceiver.ret_queue_ (w_rx w)) buf_id in
      let pc := if ok : bool then DecPop turns else DecPost [] buf_id turns in
      Ok (set_dec d pc (set_rx (UringReceiver.set_ret q (w_rx w)) (w_rx_pc w) w))
  | DecExited => Ok w
  end.

(** ** The matching thread: [while (g_running) engine.poll();], default batch. *)

(** A poll that takes at most [count] messages, up to the first report. *)
Definition eng_poll (count : Z) w : res (world U) :=
  let e := w_eng w in
  let* '(_, batch) := try_pop_batch Nin (e_inbound e) count in
  let* '(e1, _) := poll Capacity clock_gettime Nin count e in
  Ok (note_msgs batch (set_eng e1 (EngPost (posts (e_outbound e) (e_outbound e1))) w)).

Definition eng_step w : res (world U) :=
  let e := w_eng w in
  match w_eng_pc w with
  | EngTop => if w_running w then eng_poll 64 w else Ok (set_eng e EngExited w)
  | EngPost (r :: rs) =>
      let* '(q, ok) := try_push Nout (UringSender.out_queue_ (w_tx w)) r in
      let pc := if ok : bool then EngPost rs else EngPost (r :: rs) in
      Ok (set_eng e pc (set_tx (UringSender.set_queue q (w_tx w)) (w_tx_pc w) w))
  | EngPost [] => Ok (set_eng e EngTop w)
  | EngExited => Ok w
  end.

(** ** The sender thread: [while (g_running) sender->poll();]; the wait for a
    free buffer is a step that drains the completion queue and stays. *)

(** [poll] up to its loop. *)
Definition tx_begin w : res (world U) :=
  let* s1 := UringSender.drain_completions (w_tx w) in
  Ok (set_tx (UringSender.flush_sqes s1) TxPop w).

Definition tx_step w : res (world U) :=
  let s := w_tx w in
  match w_tx_pc w with
  | TxTop => if w_running w then tx_begin w else Ok (set_tx s TxExited w)
  | TxPop =>
      let* '(q, popped) := try_pop Nout (UringSender.out_queue_ s) in
      let s1 := UringSender.set_queue q s in
      match popped with
      | None => Ok (set_tx s1 TxTop w)
      | Some report => Ok (note_sent [report] (set_tx s1 (TxSend report) w))
      end
  | TxSend report =>
      if UringSender.free_count_ s =? 0 then
        let* s1 := UringSender.drain_completions s in
        Ok (set_tx s1 (TxSend report) w)
      else
        let* '(s1, _) := UringSender.send_report send_bufs_ 0 report s in
        Ok (set_tx s1 TxPop w)
  | TxExited => Ok w
  end.

(** ** The main thread and the signal handler *)

Definition SIGINT : Z := 2.
Definition SIGTERM : Z := 15.

Definition signal_handler (signum : Z) w : world U :=
  if (signum =? SIGINT) || (signum =? SIGTERM) then set_running false w else w.

(** [std::jthread::join] returns once the thread has. *)
Definition join (exited : bool) (next : main_pc) w : world U :=
  if exited then set_main next w else w.

Definition main_step w : world U :=
  match w_main w with
  | Supervise => if w_running w then w else set_main JoinReceiver w
  | JoinReceiver => join (match w_rx_pc w with RxExited => true | _ => false end) JoinSender w
  | JoinSender => join (match w_tx_pc w with TxExited => true | _ => false end) JoinDecoder w
  | JoinDecoder => join (match w_dec_pc w with DecExited => true | _ => false end) JoinMatching w
  | JoinMatching => join (match w_eng_pc w with EngExited => true | _ => false end) Returned w
  | Returned => w
  end.

(** ** The system *)

Inductive event : Type :=
| Receiver | DecoderT | Matching | SenderT | Main
| Signal (signum : Z)
| KernelRecv (q : request) (bs : list Z).   (* the kernel writes into a receive buffer *)

(** The kernel writes at most what was asked for, and only for requests that
    have been submitted and have not completed. *)
Definition enabled (ev : event) w : Prop :=
  match ev with
  | KernelRecv q bs =>
      let u := UringReceiver.ring_ (w_rx w) in
      q ∈ flight u /\ cq_head u <> Some q /\ Z.of_nat (length bs) <= rq_len q /\ Forall in_u8 bs
  | _ => True
  end.

Definition step (ev : event) w : res (world U) :=
  match ev with
  | Receiver => rx_step w
  | DecoderT => dec_step w
  | Matching => eng_step w
  | SenderT => tx_step w
  | Main => Ok (main_step w)
  | Signal signum => Ok (signal_handler signum w)
  | KernelRecv q bs => let* m := store_bytes (w_mem w) (rq_addr q) bs in Ok (set_memory m w)
  end.

Inductive reach (w0 : world U) : world U -> Prop :=
| reach_refl : reach w0 w0
| reach_step ev w w' : reach w0 w -> enabled ev w -> step ev w = Ok w' -> reach w0 w'.

(** ** Stale reads

    An acquire load may return an older value than the latest.  A thread that
    reads [g_running] may go on although the signal has come; one that reads
    the other side's index of a ring may find the ring empty although there
    is something in it, or full although there is room; and a batch may hold
    only the [seen] oldest of the elements.  What is read is never newer than
    what is there, so these are all the ways a step can differ. *)
Definition stale_step (seen : nat) (ev : event) w : res (world U) :=
  match ev with
  | Receiver =>
      match w_rx_pc w with
      | RxTop => Ok (set_rx (w_rx w) RxReclaim w)
      | RxReclaim => Ok (set_rx (UringReceiver.submit_pending (w_rx w)) RxCq w)
      | _ => Ok w
      end
  | DecoderT =>
      match w_dec_pc w with
      | DecTop => Ok (set_dec (w_dec w) (DecPop dec_batch) w)
      | DecPop (S _) => Ok (set_dec (w_dec w) DecTop w)
      | _ => Ok w
      end
  | Matching => match w_eng_pc w with EngTop => eng_poll (Z.of_nat seen) w | _ => Ok w end
  | SenderT =>
      match w_tx_pc w with
      | TxTop => tx_begin w
      | TxPop => Ok (set_tx (w_tx w) TxTop w)
      | _ => Ok w
      end
  | _ => Ok w
  end.

Inductive weak_reach (w0 : world U) : world U -> Prop :=
| weak_refl : weak_reach w0 w0
| weak_step ev w w' : weak_reach w0 w -> enabled ev w -> step ev w = Ok w' -> weak_reach w0 w'
| weak_stale seen ev w w' :
    weak_reach w0 w -> (seen <= 64)%nat -> stale_step seen ev w = Ok w' -> weak_reach w0 w'.

(** ** Start *)

(** The exceptions [main] catches before it starts the threads, each with the
    locals that have a destructor to run when it is thrown. *)
Inductive start_error : Type :=
| PoolError (err : runtime_error)
| ReceiverError (engine : Engine (list ExecutionReport)) (err : UringReceiver.ring_error)
| SenderError (engine : Engine (list ExecutionReport))
    (receiver : UringReceiver.UringReceiver U (list RawByteSpan)) (err : UringSender.ring_error).

Definition kDefaultInstId : Z := 1.

(** What the operating system and liburing answer during start-up. *)
Record os : Type := mkOs {
  os_mmap : bool -> Z -> option nat;
  os_socketpair : Z * (Z * Z);                (* return value and the two descriptors *)
  os_socket : Z * Z;                          (* what two calls of socket() return *)
  os_rx_init_params : Z -> Z -> Z * U;
  os_rx_init : Z -> Z * U;
  os_register_buffers : U -> U * Z;
  os_tx_init_params : Z -> Z -> Z * U;
  os_tx_init : Z -> Z * U
}.

(** The default values of the elements the rings' buffers are made of. *)
Definition RawByteSpan_zero : RawByteSpan := mkSpan None 0 0.
Definition ExecutionReport_zero : ExecutionReport := mkReport Fill 0 0 0 0 0 0.

(** The sockets: a socket pair, or two sockets where that fails. *)
Definition open_sockets (o : os) : Z * Z :=
  let '(ret, fds) := os_socketpair o in
  if ret <? 0 then os_socket o else fds.

(** [main] up to the start of the threads, with [h] the heap the pool's slab
    is mapped into, [m] and [ms] the memory of the receive and send buffers. *)
Definition main_start (o : os) (h : heap) (m ms : memory) : res (world U + start_error) :=
  let raw_queue := SPSCQueue_new Nraw RawByteSpan_zero in
  let buf_ret_queue := SPSCQueue_new Nret 0 in
  let inbound_queue := SPSCQueue_new Nin InboundOrderMsg_zero in
  let outbound_queue := SPSCQueue_new Nout ExecutionReport_zero in
  let* r := MatchingEngine_new Capacity (os_mmap o) inbound_queue [] h in
  match r with
  | inr err => Ok (inr (PoolError err))
  | inl e =>
      let* engine := add_instrument kDefaultInstId 1000 100000 1 e in
      let '(fd0, fd1) := open_sockets o in
      let* r := UringReceiver.UringReceiver_new recv_bufs_ (os_rx_init_params o) (os_rx_init o)
                  (os_register_buffers o) fd0 [] buf_ret_queue in
      match r with
      | inr err => Ok (inr (ReceiverError engine err))
      | inl receiver =>
          let* r := UringSender.UringSender_new (os_tx_init_params o) (os_tx_init o) fd1 ms
                      outbound_queue in
          match r with
          | inr err => Ok (inr (SenderError engine receiver err))
          | inl sender =>
              Ok (inl (mkWorld true Supervise m raw_queue receiver RxTop Decoder_new DecTop
                         engine EngTop sender TxTop [] [] []))
          end
      end
  end.

(** ** The final statistics *)

Record statistics : Type := mkStats {
  st_spans_seen : Z;
  st_decoded : Z;
  st_decode_errors : Z;
  st_processed : Z;
  st_fills : Z;
  st_rejected : Z;
  st_bytes_received : Z;
  st_cqes : Z;
  st_reports_sent : Z;
  st_io_errors : Z
}.

Definition final_statistics w : statistics := {|
  st_spans_seen := spans_seen (w_dec w);
  st_decoded := decoded_count (w_dec w);
  st_decode_errors := error_count (w_dec w);
  st_processed := orders_processed (w_eng w);
  st_fills := fills_executed (w_eng w);
  st_rejected := orders_rejected (w_eng w);
  st_bytes_received := UringReceiver.bytes_received (w_rx w);
  st_cqes := UringReceiver.cqes_processed (w_rx w);
  st_reports_sent := UringSender.reports_sent (w_tx w);
  st_io_errors := u64 (UringReceiver.errors_seen (w_rx w) + UringSender.errors (w_tx w))
|}.

End pipeline.
