(* ===== verification/PipelineInv.v ===== *)
(** * The invariant of the running daemon

    What every interleaving of the threads keeps: each ring holds what its
    producer has posted and its consumer has not taken; the receive buffers
    are divided between the kernel and the decoder's side; the bytes of a
    span do not change before it is decoded; and the engine is in the state a
    sequential engine reaches on the messages taken so far. *)

From stdpp Require Import base numbers list gmap fin_maps.
From Stdlib Require Import ZArith Lia.
From S2P Require Import Prelude.
From S2P Require Import OrderTypes.
From S2P Require Import OrderPool.
From S2P Require Import OrderBook.
From S2P Require Import OrderBookInv.
From S2P Require Import BookFacets.
From S2P Require Import SPSCQueue.
From S2P Require Import Sink.
From S2P Require Import MatchingEngine.
From S2P Require Import EngineInv.
From S2P Require Import EngineRun.
From S2P Require Import EngineSink.
From S2P Require Import WireProtocol.
From S2P Require Import Decoder.
From S2P Require Import DecoderProps.
From S2P Require Import Uring.
From S2P Require UringSender.
From S2P Require UringReceiver.
From S2P Require Import UringSenderProps.
From S2P Require Import UringReceiverProps.
From S2P Require Import Pipeline.

(** ** Bytes in memory *)

Definition mem_bytes (m : memory) : Prop := map_Forall (fun _ b => in_u8 b) m.

Lemma store_mem_bytes m a bs m' :
  store_bytes m a bs = Ok m' -> mem_bytes m -> is_bytes bs -> mem_bytes m'.
Proof.
  revert m a. induction bs as [|b bs IH]; intros m a; cbn [store_bytes]; [by intros [= <-]|].
  destruct (m !! a); [|done]. intros E Hm Hb. apply Forall_cons in Hb as [Hb Hbs].
  eapply IH; [done| |done]. by apply map_Forall_insert_2.
Qed.

Lemma load_is_bytes m a n bs : load_bytes m a n = Ok bs -> mem_bytes m -> is_bytes bs.
Proof.
  revert a bs. induction n as [|n IH]; intros a bs; cbn [load_bytes]; [intros [= <-] _; constructor|].
  destruct (m !! a) as [b|] eqn:Eb; [|done]. destruct (load_bytes m (S a) n) eqn:El; [|done].
  intros [= <-] Hm. constructor; [by apply (Hm a)|by eapply IH].
Qed.

Lemma span_bytes_is_bytes m span : mem_bytes m -> is_bytes (span_bytes m span).
Proof.
  intros Hm. unfold span_bytes. destruct (sp_data span) as [a|]; [|constructor].
  destruct (load_bytes m a _) eqn:El; [by eapply load_is_bytes|constructor].
Qed.

(** ** The messages in a received byte string *)

Definition bytes_msgs (bs : list Z) : list InboundOrderMsg := omap frame_msg (frames bs).1.
Definition bytes_errors (bs : list Z) : nat := stream_errors (frames bs).1 (frames bs).2.

Lemma frame_msg_ok f msg : is_bytes f -> frame_msg f = Some msg -> msg_ok msg.
Proof.
  intros Hf. unfold frame_msg. destruct (_ && _); [|destruct (_ && _); [|done]]; intros [= <-];
    unfold msg_ok; cbn; split_and!; try apply i64_range; try by (unfold in_i64, in_u32, in_u64, in_u8; lia).
  all: first [exact (rd_bound _ 8 f Hf)|exact (rd_bound _ 4 f Hf)|exact (rd_bound _ 1 f Hf)].
Qed.

Lemma bytes_msgs_ok bs : is_bytes bs -> Forall msg_ok (bytes_msgs bs).
Proof.
  intros Hb. unfold bytes_msgs. pose proof (stream_concat _ _ _ (stream_frames bs)) as E.
  rewrite E in Hb at 1. apply Forall_app in Hb as [Hb _]. apply Forall_concat in Hb.
  apply Forall_forall. intros msg (f & Hf & Hmsg)%list_elem_of_omap.
  eapply frame_msg_ok; [|done]. by eapply Forall_forall in Hb.
Qed.

Lemma all_msgs_ok bss : Forall is_bytes bss -> Forall msg_ok (concat (bytes_msgs <$> bss)).
Proof.
  induction 1 as [|bs l Hb _ IH]; [constructor|]. cbn. apply Forall_app.
  split; [by apply bytes_msgs_ok|done].
Qed.

Lemma msgs_ok_quantity ms : Forall msg_ok ms -> Forall (fun msg => in_u32 (im_quantity msg)) ms.
Proof. intros Hms. eapply Forall_impl; [done|]. by intros msg (_ & _ & ? & _). Qed.

(** ** What the threads hold between two steps *)

Definition rx_posting (pc : rx_pc) : list RawByteSpan :=
  match pc with RxPost span => [span] | _ => [] end.
Definition dec_pending (pc : dec_pc) : list InboundOrderMsg :=
  match pc with DecPost msgs _ _ => msgs | _ => [] end.
Definition dec_buf (pc : dec_pc) : list Z :=
  match pc with DecPost _ buf_id _ => [buf_id] | _ => [] end.
Definition eng_pending (pc : eng_pc) : list ExecutionReport :=
  match pc with EngPost rs => rs | _ => [] end.
Definition tx_pending (pc : tx_pc) : list ExecutionReport :=
  match pc with TxSend r => [r] | _ => [] end.

(** A completion has been looked at and not yet marked seen. *)
Definition rx_unseen (pc : rx_pc) : bool :=
  match pc with RxPost _ | RxSeen => true | _ => false end.

(** What the four rings hold, and the received byte strings that have been
    decoded and those that wait. *)
Record view : Type := mkView {
  v_raw : list RawByteSpan;
  v_ret : list Z;
  v_in : list InboundOrderMsg;
  v_out : list ExecutionReport;
  v_done : list (list Z);
  v_wait : list (list Z)
}.

Section inv.
Context `{Build} {U : Type} `{Uring U}.
Context (Capacity : nat) (clock_gettime : nat -> Z * Z) (recv_bufs_ send_bufs_ : nat).
Context (Nraw Nret Nin Nout : Z).

(** Submission queues with an entry for every buffer. *)
Context (Hdepth : sq_depth (U := U) (Z.to_nat 256)).

(** The engine before the threads start. *)
Context (e0 : Engine (list ExecutionReport)).

Implicit Types (w : world U) (v : view).

(** The receiver as it is once the completion it looks at is marked seen. *)
Definition settled w : UringReceiver.UringReceiver U (list RawByteSpan) :=
  let r := w_rx w in
  if rx_unseen (w_rx_pc w)
  then UringReceiver.set_ring (cqe_seen (UringReceiver.ring_ r)) r else r.

(** The buffers that are not with the kernel, in the order they were posted. *)
Definition buffers_out v w : list Z :=
  v_ret v ++ dec_buf (w_dec_pc w) ++ (sp_buf_id <$> v_raw v ++ rx_posting (w_rx_pc w)).

(** The spans of the raw queue still hold what was received. *)
Definition intact (m : memory) : list RawByteSpan -> list (list Z) -> Prop :=
  Forall2 (fun span bs => span_in_buf recv_bufs_ span /\ span_bytes m span = bs).

Definition decoder_counts (ds : list (list Z)) : Decoder :=
  mkDecoder (u64 (Z.of_nat (length (concat (bytes_msgs <$> ds)))))
    (u64 (Z.of_nat (sum_list (bytes_errors <$> ds)))) (u64 (Z.of_nat (length ds))).

Record inv v w : Prop := {
  iv_raw : ring_rep Nraw (w_raw w) (v_raw v);
  iv_ret : ring_rep Nret (UringReceiver.ret_queue_ (w_rx w)) (v_ret v);
  iv_in : ring_rep Nin (e_inbound (w_eng w)) (v_in v);
  iv_out : ring_rep Nout (UringSender.out_queue_ (w_tx w)) (v_out v);
  iv_rx : rx_inv recv_bufs_ (settled w) (buffers_out v w) [];
  iv_head : rx_unseen (w_rx_pc w) = true ->
    exists q, uring_ok (UringReceiver.ring_ (w_rx w)) /\ cq_head (UringReceiver.ring_ (w_rx w)) = Some q;
  iv_live : recv_bufs_live recv_bufs_ (w_mem w);
  iv_bytes : mem_bytes (w_mem w);
  iv_received : w_received w = v_done v ++ v_wait v;
  iv_rbytes : Forall is_bytes (w_received w);
  iv_wait : intact (w_mem w) (v_raw v ++ rx_posting (w_rx_pc w)) (v_wait v);
  iv_msgs : concat (bytes_msgs <$> v_done v) = w_msgs w ++ v_in v ++ dec_pending (w_dec_pc w);
  iv_dec : w_dec w = decoder_counts (v_done v);
  iv_seq : exists es, dispatch_all Capacity clock_gettime (w_msgs w) e0 = Ok es /\
    same [] [] (e_inbound (w_eng w)) (e_inbound e0)
      (u64 (Z.of_nat (length (w_msgs w)))) (e_orders_processed e0) (w_eng w) es;
  iv_eng : exists L fs Q, eng_inv Capacity L fs Q (w_eng w) /\ eng_has Uncrossed Q (w_eng w);
  iv_log : e_outbound (w_eng w) = w_sent w ++ v_out v ++ eng_pending (w_eng_pc w);
  iv_tx : tx_inv send_bufs_ (w_tx w);
  iv_sent : UringSender.reports_sent_ (w_tx w)
    = u64 (Z.of_nat (length (w_sent w)) - Z.of_nat (length (tx_pending (w_tx_pc w))))
}.

#[local] Abbreviation rx_step := (rx_step recv_bufs_ Nraw Nret).
#[local] Abbreviation dec_step := (dec_step Nraw Nret Nin).
#[local] Abbreviation eng_step := (eng_step Capacity clock_gettime Nin Nout).
#[local] Abbreviation tx_step := (tx_step send_bufs_ Nout).

(** ** The receiver *)

Lemma rx_inv_ret r q out lost :
  rx_inv recv_bufs_ r out lost -> rx_inv recv_bufs_ (UringReceiver.set_ret q r) out lost.
Proof. intros []. by split. Qed.

Lemma rx_inv_look r u out lost :
  rx_inv recv_bufs_ r out lost -> peek_cqe (UringReceiver.ring_ r) = (u, None) ->
  rx_inv recv_bufs_ (UringReceiver.set_ring u r) out lost.
Proof.
  intros [] Ep. destruct (peek_ok _ _ _ ri_ok Ep) as (Hok & Hq & Hf & _).
  split; simpl; try done; rewrite Hq; [done|]. eapply owned_perm; [|done|done]. by rewrite Hf.
Qed.

Lemma rx_top_inv v w :
  inv v w -> w_rx_pc w = RxTop ->
  forall pc, pc = RxReclaim \/ pc = RxExited -> inv v (set_rx (w_rx w) pc w).
Proof.
  intros Hi Epc pc Hpc. destruct Hi. unfold settled, buffers_out in *. rewrite Epc in *.
  destruct Hpc as [-> | ->]; split; done.
Qed.

Lemma rx_reclaim_inv v w :
  inv v w -> w_rx_pc w = RxReclaim -> exists w' v', rx_step w = Ok w' /\ inv v' w'.
Proof.
  intros Hi Epc. pose proof (iv_rx _ _ Hi) as Hrx. unfold Pipeline.rx_step. rewrite Epc.
  unfold settled, buffers_out in Hrx. rewrite Epc in Hrx. cbn [rx_unseen rx_posting] in Hrx.
  destruct (try_pop_total Nret (rr_pow _ _ _ (iv_ret _ _ Hi)) _ _ (iv_ret _ _ Hi)) as (q & -> & Hq).
  cbn [bind]. destruct (v_ret v) as [|x xs] eqn:Ev; cbn [head tail] in *.
  - eexists _, v. split; [done|].
    destruct (submit_pending_spec recv_bufs_ _ _ _ (rx_inv_ret _ q _ _ Hrx)) as (Hrx' & _ & Eret).
    destruct Hi. unfold settled, buffers_out in *. rewrite Epc in *.
    split; unfold settled, buffers_out; cbn; rewrite ?Ev; try done. by rewrite Eret.
  - destruct (reclaim_buf_spec recv_bufs_ x _ _ _ (rx_inv_ret _ q _ _ Hrx))
      as (r' & lost' & -> & Hrx' & _ & _ & Eret & Hlost). rewrite (Hlost Hdepth) in Hrx'. cbn [bind].
    eexists _, (mkView (v_raw v) xs (v_in v) (v_out v) (v_done v) (v_wait v)). split; [done|].
    destruct Hi. unfold settled, buffers_out in *. rewrite Epc in *.
    split; unfold settled, buffers_out; cbn; try done. by rewrite Eret.
Qed.

Lemma posts_app {T} (old new : list T) : posts old (old ++ new) = new.
Proof. unfold posts. by rewrite drop_app_length. Qed.

(** A completion that carries bytes, and one that does not. *)
Lemma rx_cq_inv v w :
  inv v w -> w_rx_pc w = RxCq -> exists w' v', rx_step w = Ok w' /\ inv v' w'.
Proof.
  intros Hi Epc. pose proof (iv_rx _ _ Hi) as Hrx. unfold Pipeline.rx_step. rewrite Epc.
  unfold settled, buffers_out in Hrx. rewrite Epc in Hrx. cbn [rx_unseen rx_posting] in Hrx.
  destruct (peek_cqe (UringReceiver.ring_ (w_rx w))) as [u [c|]] eqn:Ep.
  - destruct (cqe_step recv_bufs_ _ _ _ u c Hrx Ep)
      as (r1 & spans & lost' & -> & Hrx' & _ & Hlog & Hspans & Eret & Hlen & Hhead & Hlost).
    rewrite (Hlost Hdepth) in Hrx'. cbn [bind]. change (sink_log ?x) with x in Hlog. rewrite Hlog, posts_app.
    destruct spans as [|span [|? ?]]; [| |simpl in Hlen; lia].
    + eexists _, (mkView (v_raw v) (v_ret v) (v_in v) (v_out v) (v_done v) (v_wait v)).
      split; [done|]. cbn [fmap list_fmap app] in Hrx'. rewrite app_nil_r in Hrx'.
      destruct Hi. unfold settled, buffers_out in *. rewrite Epc in *.
      split; unfold settled, buffers_out; cbn; try done. by rewrite Eret.
    + eexists _, (mkView (v_raw v) (v_ret v) (v_in v) (v_out v) (v_done v)
                    (v_wait v ++ [span_bytes (w_mem w) span])).
      split; [done|]. destruct Hi. unfold settled, buffers_out in *. rewrite Epc in *.
      cbn [rx_posting] in *. rewrite app_nil_r in *.
      split; unfold settled, buffers_out; cbn; try done.
      * by rewrite Eret.
      * by rewrite fmap_app, !app_assoc in *.
      * by rewrite iv_received0, app_assoc.
      * apply Forall_app. split; [done|]. constructor; [by apply span_bytes_is_bytes|constructor].
      * apply Forall2_app; [done|]. constructor; [|constructor].
        split; [|done]. by apply Forall_cons in Hspans as [? _].
  - eexists _, v. split; [done|]. pose proof (rx_inv_look _ _ _ _ Hrx Ep) as Hrx'.
    destruct Hi. unfold settled, buffers_out in *. rewrite Epc in *.
    split; unfold settled, buffers_out; cbn; done.
Qed.

Lemma rx_post_inv v w span :
  inv v w -> w_rx_pc w = RxPost span -> exists w' v', rx_step w = Ok w' /\ inv v' w'.
Proof.
  intros Hi Epc. unfold Pipeline.rx_step. rewrite Epc.
  destruct (try_push_total Nraw (rr_pow _ _ _ (iv_raw _ _ Hi)) _ _ span (iv_raw _ _ Hi))
    as (q & ok & -> & Hq & _). cbn [bind].
  destruct Hi. unfold settled, buffers_out in *. rewrite Epc in *. cbn [rx_posting rx_unseen] in *.
  destruct ok.
  - eexists _, (mkView (v_raw v ++ [span]) (v_ret v) (v_in v) (v_out v) (v_done v) (v_wait v)).
    split; [done|]. split; unfold settled, buffers_out; cbn; try done; by rewrite app_nil_r.
  - eexists _, v. split; [done|]. split; unfold settled, buffers_out; cbn; try done; eauto.
Qed.

Lemma rx_seen_inv v w :
  inv v w -> w_rx_pc w = RxSeen -> exists w' v', rx_step w = Ok w' /\ inv v' w'.
Proof.
  intros Hi Epc. unfold Pipeline.rx_step. rewrite Epc. eexists _, v. split; [done|].
  destruct Hi. unfold settled, buffers_out in *. rewrite Epc in *. split; done.
Qed.

Lemma rx_step_inv v w : inv v w -> exists w' v', rx_step w = Ok w' /\ inv v' w'.
Proof.
  intros Hi. destruct (w_rx_pc w) eqn:Epc.
  - unfold Pipeline.rx_step. rewrite Epc. eexists _, v. split; [done|].
    apply rx_top_inv; [done..|]. destruct (w_running w); auto.
  - by apply rx_reclaim_inv with (v := v).
  - by apply rx_cq_inv with (v := v).
  - by apply rx_post_inv with (v := v) (span := span).
  - by apply rx_seen_inv with (v := v).
  - exists w, v. unfold Pipeline.rx_step. by rewrite Epc.
Qed.

(** ** The decoder *)

Lemma decoder_counts_ok ds : dec_ok (decoder_counts ds).
Proof. split_and!; apply u64_range. Qed.

Lemma u64_succ n : u64 (u64 (Z.of_nat n) + 1) = u64 (Z.of_nat (n + 1)).
Proof. rewrite u64_add_l. f_equal. lia. Qed.

Lemma decoder_counts_snoc ds bs :
  counted (length (bytes_msgs bs)) (bytes_errors bs) (inc_spans (decoder_counts ds))
  = decoder_counts (ds ++ [bs]).
Proof.
  unfold counted, inc_spans, decoder_counts.
  cbn [decoded_count_ error_count_ spans_seen_]. rewrite u64_succ, !u64_add_l.
  rewrite !fmap_app, concat_app, !length_app.
  cbn [fmap list_fmap concat]. rewrite app_nil_r. f_equal.
  - f_equal. lia.
  - f_equal. rewrite <- Nat2Z.inj_add. f_equal. generalize (bytes_errors <$> ds). intros l.
    induction l as [|x l IH]; simpl in *; lia.
Qed.

Lemma settled_ret q w :
  settled (set_rx (UringReceiver.set_ret q (w_rx w)) (w_rx_pc w) w) = UringReceiver.set_ret q (settled w).
Proof. unfold settled. cbn. by destruct (rx_unseen (w_rx_pc w)). Qed.

Lemma dec_pop_inv v w turns :
  inv v w -> w_dec_pc w = DecPop (S turns) -> exists w' v', dec_step w = Ok w' /\ inv v' w'.
Proof.
  intros Hi Epc. unfold Pipeline.dec_step. rewrite Epc.
  destruct (try_pop_total Nraw (rr_pow _ _ _ (iv_raw _ _ Hi)) _ _ (iv_raw _ _ Hi)) as (q & -> & Hq).
  cbn [bind]. destruct v as [raw ret inb out ds ws]. cbn [v_raw] in *.
  destruct raw as [|span raw]; cbn [head tail] in *.
  { eexists _, (mkView [] ret inb out ds ws). split; [done|]. destruct Hi.
    unfold settled, buffers_out in *. rewrite Epc in *. split; done. }
  destruct Hi. unfold settled, buffers_out in *. rewrite Epc in *. cbn in *.
  inversion iv_wait0 as [|? bs ? ws' [Hspan Hbs] Hwait]; subst.
  destruct (decode_span_ok (w_mem w) span (w_dec w) ([] : list InboundOrderMsg))
    as (s' & -> & _ & Hlog); [by eapply span_in_buf_ok|done|rewrite iv_dec0; apply decoder_counts_ok|].
  cbn [bind]. change (s' = span_msgs (w_mem w) span) in Hlog. subst s'.
  eexists _, (mkView raw ret inb out (ds ++ [span_bytes (w_mem w) span]) ws'). split; [done|].
  split; unfold settled, buffers_out; cbn; try done.
  - by rewrite iv_received0, <- app_assoc.
  - rewrite fmap_app, concat_app, iv_msgs0. cbn. by rewrite !app_nil_r, <- app_assoc.
  - rewrite iv_dec0. apply decoder_counts_snoc.
Qed.

(** The engine with another inbound ring. *)
Lemma same_inbound {S1 S2} `{Sink ExecutionReport S1} `{Sink ExecutionReport S2} l1 l2 q1 q2 p1 p2 q
  (e1 : Engine S1) (e2 : Engine S2) :
  same l1 l2 q1 q2 p1 p2 e1 e2 -> same l1 l2 q q2 p1 p2 (set_inbound q e1) e2.
Proof. intros []. by split. Qed.

Lemma dec_post_inv v w msg msgs buf_id turns :
  inv v w -> w_dec_pc w = DecPost (msg :: msgs) buf_id turns ->
  exists w' v', dec_step w = Ok w' /\ inv v' w'.
Proof.
  intros Hi Epc. unfold Pipeline.dec_step. rewrite Epc.
  destruct (try_push_total Nin (rr_pow _ _ _ (iv_in _ _ Hi)) _ _ msg (iv_in _ _ Hi))
    as (q & ok & -> & Hq & _). cbn [bind].
  eexists _, (mkView (v_raw v) (v_ret v) (if ok then v_in v ++ [msg] else v_in v) (v_out v)
                (v_done v) (v_wait v)). split; [done|].
  destruct Hi. unfold settled, buffers_out in *. rewrite Epc in *.
  split; unfold settled, buffers_out; cbn; try done.
  - by destruct ok.
  - destruct ok; cbn in *; [|done]. by rewrite <- (app_assoc (v_in v)).
  - destruct iv_seq0 as (es & E & Hs). exists es. split; [done|]. by eapply same_inbound.
  - destruct iv_eng0 as (L & fs & Q & He & Hu). exists L, fs, Q. split.
    + by eapply eng_inv_same; [| |exact He].
    + by apply (eng_has_same _ _ (w_eng w)).
Qed.

Lemma dec_return_inv v w buf_id turns :
  inv v w -> w_dec_pc w = DecPost [] buf_id turns -> exists w' v', dec_step w = Ok w' /\ inv v' w'.
Proof.
  intros Hi Epc. unfold Pipeline.dec_step. rewrite Epc.
  destruct (try_push_total Nret (rr_pow _ _ _ (iv_ret _ _ Hi)) _ _ buf_id (iv_ret _ _ Hi))
    as (q & ok & -> & Hq & _). cbn [bind].
  eexists _, (mkView (v_raw v) (if ok then v_ret v ++ [buf_id] else v_ret v) (v_in v) (v_out v)
                (v_done v) (v_wait v)). split; [done|].
  destruct Hi. apply (rx_inv_ret _ q) in iv_rx0. rewrite <- settled_ret in iv_rx0.
  unfold buffers_out in *. rewrite Epc in *. split; unfold buffers_out; cbn; try done.
  - destruct ok; cbn in *; [|done]. by rewrite <- (app_assoc (v_ret v)).
  - by destruct ok.
Qed.

Lemma dec_step_inv v w : inv v w -> exists w' v', dec_step w = Ok w' /\ inv v' w'.
Proof.
  intros Hi. destruct (w_dec_pc w) as [|[|turns]|[|msg msgs] buf_id turns|] eqn:Epc.
  - unfold Pipeline.dec_step. rewrite Epc. eexists _, v. split; [done|]. destruct Hi.
    unfold settled, buffers_out in *. rewrite Epc in *.
    destruct (w_running w); by split.
  - unfold Pipeline.dec_step. rewrite Epc. eexists _, v. split; [done|]. destruct Hi.
    unfold settled, buffers_out in *. rewrite Epc in *. by split.
  - by apply dec_pop_inv with (v := v) (turns := turns).
  - by apply dec_return_inv with (v := v) (buf_id := buf_id) (turns := turns).
  - by eapply dec_post_inv.
  - exists w, v. unfold Pipeline.dec_step. by rewrite Epc.
Qed.

(** ** The matching engine *)

Lemma dispatch_all_app {S} `{Sink ExecutionReport S} ms ms' (e : Engine S) :
  dispatch_all Capacity clock_gettime (ms ++ ms') e
  = let* e1 := dispatch_all Capacity clock_gettime ms e in dispatch_all Capacity clock_gettime ms' e1.
Proof.
  revert e. induction ms as [|msg ms IH]; intros e; cbn [dispatch_all app bind]; [done|].
  destruct (dispatch _ _ msg e); cbn [bind]; [apply IH|done].
Qed.

Lemma same_processed {S1 S2} `{Sink ExecutionReport S1} `{Sink ExecutionReport S2} l1 l2 q1 q2 p1 p2 n
  (e1 : Engine S1) (e2 : Engine S2) :
  same l1 l2 q1 q2 p1 p2 e1 e2 -> same l1 l2 q1 q2 (u64 (p1 + n)) p2 (add_processed n e1) e2.
Proof. intros []. split; simpl; try done. congruence. Qed.

(** Every message on its way is one of its type. *)
Lemma msgs_typed v w : inv v w -> Forall msg_ok (w_msgs w ++ v_in v ++ dec_pending (w_dec_pc w)).
Proof.
  intros Hi. rewrite <- (iv_msgs _ _ Hi). pose proof (iv_rbytes _ _ Hi) as Hb.
  rewrite (iv_received _ _ Hi) in Hb. apply Forall_app in Hb as [Hb _]. by apply all_msgs_ok.
Qed.

Lemma eng_poll_inv k v w :
  asserts_enabled = false -> inv v w -> w_eng_pc w = EngTop -> (k <= 64)%nat ->
  exists w' v', eng_poll Capacity clock_gettime Nin (Z.of_nat k) w = Ok w' /\ inv v' w' /\
    v_in v' = drop k (v_in v).
Proof.
  intros Hrel Hi Epc Hk. unfold eng_poll.
  pose proof (msgs_ok_quantity _ (msgs_typed _ _ Hi)) as Hqty. apply Forall_app in Hqty as [_ [Hqty _]%Forall_app].
  pose proof (iv_in _ _ Hi) as Hin. pose proof (rr_pow _ _ _ Hin) as HN.
  pose proof (try_pop_batch_each Nin HN _ _ k Hin) as Eb.
  destruct (pop_each_spec Nin HN _ _ k Hin) as (q1 & Ep & _). rewrite Eb, Ep. cbn [bind].
  destruct (poll_dispatch Capacity clock_gettime Nin (w_eng w) _ (Z.of_nat k) Hin) as (q & Hq & ->); [lia|].
  replace (Z.to_nat (Z.min (Z.of_nat k) 64)) with k in * by lia. set (batch := take k (v_in v)) in *.
  destruct Hi. destruct iv_eng0 as (L & fs & Q & He & Hu).
  destruct (dispatch_all_step Capacity clock_gettime batch L fs Q (set_inbound q (w_eng w)) Hrel)
    as (e1 & L1 & fs1 & Q1 & E1 & He1 & Hin1 & Hp1 & (R & HR & _) & Hu1);
    [by eapply eng_inv_same; [| |exact He]|by apply Forall_take|].
  destruct iv_seq0 as (es & Es & Hs).
  pose proof (dispatch_all_alike Capacity clock_gettime _ _ _ _ _ _ batch _ _
    (same_inbound _ _ _ _ _ _ q _ _ Hs)) as Ha. rewrite E1 in *. cbn [bind].
  destruct (dispatch_all Capacity clock_gettime batch es) as [es1|] eqn:Ees; [|done]. cbn in Ha.
  change (e_outbound e1 = e_outbound (w_eng w) ++ R) in HR.
  cbn [e_outbound add_processed]. rewrite HR, posts_app.
  eexists _, (mkView (v_raw v) (v_ret v) (drop k (v_in v)) (v_out v) (v_done v) (v_wait v)).
  split; [done|]. split; [|done]. unfold settled, buffers_out in *. rewrite Epc in *.
  split; unfold settled, buffers_out; cbn; try done.
  - by rewrite Hin1.
  - rewrite iv_msgs0, <- (app_assoc (w_msgs w)), (app_assoc batch). unfold batch.
    by rewrite take_drop.
  - exists es1. rewrite dispatch_all_app, Es. cbn [bind]. split; [done|].
    apply (same_processed _ _ _ _ _ _ (Z.of_nat (length batch))) in Ha.
    rewrite u64_add_l, <- Nat2Z.inj_add, <- length_app in Ha.
    by rewrite (sa_in1 _ _ _ _ _ _ _ _ Ha : e_inbound e1 = q).
  - exists L1, fs1, Q1. split; [by eapply eng_inv_same; [| |exact He1]|].
    apply (eng_has_same _ _ e1); [done|]. apply Hu1. by apply (eng_has_same _ _ (w_eng w)).
  - rewrite HR, iv_log0. cbn. by rewrite app_nil_r, <- app_assoc.
Qed.

Lemma tx_inv_queue_set s q : tx_inv send_bufs_ s -> tx_inv send_bufs_ (UringSender.set_queue q s).
Proof. intros []. by split. Qed.

Lemma eng_post_inv v w r rs :
  inv v w -> w_eng_pc w = EngPost (r :: rs) -> exists w' v', eng_step w = Ok w' /\ inv v' w'.
Proof.
  intros Hi Epc. unfold Pipeline.eng_step. rewrite Epc.
  destruct (try_push_total Nout (rr_pow _ _ _ (iv_out _ _ Hi)) _ _ r (iv_out _ _ Hi))
    as (q & ok & -> & Hq & _). cbn [bind].
  eexists _, (mkView (v_raw v) (v_ret v) (v_in v) (if ok then v_out v ++ [r] else v_out v)
                (v_done v) (v_wait v)). split; [done|].
  destruct Hi. unfold settled, buffers_out in *. rewrite Epc in *.
  split; unfold settled, buffers_out; cbn; try done.
  - rewrite iv_log0. destruct ok; cbn; [|done]. by rewrite <- (app_assoc (v_out v)).
  - by apply tx_inv_queue_set.
Qed.

Lemma eng_step_inv v w :
  asserts_enabled = false -> inv v w -> exists w' v', eng_step w = Ok w' /\ inv v' w'.
Proof.
  intros Hrel Hi. destruct (w_eng_pc w) as [|[|r rs]|] eqn:Epc.
  - destruct (w_running w) eqn:Hrun.
    { destruct (eng_poll_inv 64 v w Hrel Hi Epc ltac:(lia)) as (w' & v' & E & Hi' & _). exists w', v'.
      unfold Pipeline.eng_step. by rewrite Epc, Hrun. }
    unfold Pipeline.eng_step. rewrite Epc, Hrun. eexists _, v. split; [done|]. destruct Hi.
    unfold settled, buffers_out in *. rewrite Epc in *. by split.
  - unfold Pipeline.eng_step. rewrite Epc. eexists _, v. split; [done|]. destruct Hi.
    unfold settled, buffers_out in *. rewrite Epc in *. by split.
  - by eapply eng_post_inv.
  - exists w, v. unfold Pipeline.eng_step. by rewrite Epc.
Qed.

(** ** The sender *)

Lemma flush_sent s : UringSender.reports_sent_ (UringSender.flush_sqes s) = UringSender.reports_sent_ s.
Proof. unfold UringSender.flush_sqes. by destruct (_ >? _). Qed.

Lemma tx_send_inv v w r :
  inv v w -> w_tx_pc w = TxSend r ->
  exists w' v', tx_step w = Ok w' /\ inv v' w'.
Proof.
  intros Hi Epc. unfold Pipeline.tx_step. rewrite Epc. pose proof (iv_tx _ _ Hi) as Htx.
  destruct (Z.eqb_spec (UringSender.free_count_ (w_tx w)) 0) as [Hf|Hf].
  - destruct (drain_completions_spec send_bufs_ _ Htx) as (s1 & -> & []). cbn [bind].
    eexists _, v. split; [done|]. destruct Hi. unfold settled, buffers_out in *. rewrite Epc in *.
    split; unfold settled, buffers_out; cbn; try done; [by rewrite dr_out|by rewrite dr_sent].
  - destruct (send_report_spec send_bufs_ Hdepth 0 r (w_tx w) Htx) as (s1 & q & -> & []).
    { pose proof (tx_slots_le _ _ Htx). rewrite (ti_free _ _ Htx) in *. lia. }
    cbn [bind]. eexists _, v. split; [done|]. destruct Hi.
    unfold settled, buffers_out in *. rewrite Epc in *.
    split; unfold settled, buffers_out; cbn; try done; try congruence.
    rewrite so_sent, iv_sent0, u64_add_l. cbn [tx_pending length]. f_equal. lia.
Qed.

Lemma tx_begin_inv v w :
  inv v w -> w_tx_pc w = TxTop -> exists w', tx_begin w = Ok w' /\ inv v w'.
Proof.
  intros Hi Epc. unfold tx_begin.
  destruct (drain_completions_spec send_bufs_ _ (iv_tx _ _ Hi)) as (s1 & -> & []). cbn [bind].
  destruct (flush_sqes_spec send_bufs_ s1 dr_inv) as (Htx & _ & _ & _ & _ & _ & Eq).
  eexists. split; [done|]. destruct Hi. unfold settled, buffers_out in *. rewrite Epc in *.
  split; unfold settled, buffers_out; cbn; try done; [by rewrite Eq, dr_out|].
  by rewrite flush_sent, dr_sent.
Qed.

Lemma tx_step_inv v w :
  inv v w -> exists w' v', tx_step w = Ok w' /\ inv v' w'.
Proof.
  intros Hi. destruct (w_tx_pc w) as [| |r|] eqn:Epc; [| |by eapply tx_send_inv|].
  - unfold Pipeline.tx_step. rewrite Epc. destruct (w_running w).
    + destruct (tx_begin_inv v w Hi Epc) as (w' & -> & Hi'). by exists w', v.
    + eexists _, v. split; [done|]. destruct Hi. unfold settled, buffers_out in *. rewrite Epc in *.
      by split.
  - unfold Pipeline.tx_step. rewrite Epc.
    destruct (try_pop_total Nout (rr_pow _ _ _ (iv_out _ _ Hi)) _ _ (iv_out _ _ Hi)) as (q & -> & Hq).
    cbn [bind]. destruct v as [raw ret inb out ds ws]. cbn [v_out] in *.
    destruct Hi; unfold settled, buffers_out in *; rewrite Epc in *.
    destruct out as [|r out]; cbn [head tail] in *.
    + eexists _, (mkView raw ret inb [] ds ws). split; [done|].
      split; unfold settled, buffers_out; cbn; try done. by apply tx_inv_queue_set.
    + eexists _, (mkView raw ret inb out ds ws). split; [done|].
      split; unfold settled, buffers_out; cbn; try done.
      * by rewrite iv_log0, <- app_assoc.
      * by apply tx_inv_queue_set.
      * rewrite iv_sent0, length_app. cbn. f_equal. lia.
  - exists w, v. unfold Pipeline.tx_step. by rewrite Epc.
Qed.

(** ** The kernel, the main thread and signals *)

Lemma intact_memory m m' l ws :
  intact m l ws ->
  (forall span, span ∈ l -> span_in_buf recv_bufs_ span -> span_bytes m' span = span_bytes m span) ->
  intact m' l ws.
Proof.
  unfold intact. induction 1 as [|span bs l ws [Hs Hb] _ IH]; intros Hm; constructor.
  - split; [done|]. rewrite Hm; [done|set_solver|done].
  - apply IH. set_solver.
Qed.

(** A request the kernel may write for is for a buffer nobody else has. *)
Lemma kernel_owns v w q :
  inv v w -> q ∈ flight (UringReceiver.ring_ (w_rx w)) ->
  cq_head (UringReceiver.ring_ (w_rx w)) <> Some q ->
  rq_addr q = UringReceiver.recv_buf recv_bufs_ (rq_data q) /\ rq_len q = 4096 /\
  0 <= rq_data q < 64 /\ rq_data q ∉ buffers_out v w.
Proof.
  intros Hi Hq Hne.
  assert (q ∈ flight (UringReceiver.ring_ (settled w))) as Hq'.
  { unfold settled. pose proof (iv_head _ _ Hi) as Hh. destruct (rx_unseen (w_rx_pc w)); [|done].
    destruct (Hh eq_refl) as (q0 & Hok & Hh0). destruct (seen_ok _ _ Hok Hh0) as (_ & _ & Hf).
    rewrite Hf in Hq. simpl. apply elem_of_cons in Hq as [->|]; [done|done]. }
  pose proof (ri_own _ _ _ _ (iv_rx _ _ Hi)) as Ho.
  pose proof (owned_nodup _ _ _ _ _ _ Ho) as Hnd.
  assert (q ∈ queued (UringReceiver.ring_ (settled w)) ++ flight (UringReceiver.ring_ (settled w)))
    as Hin by (apply elem_of_app; by right).
  pose proof (list_elem_of_fmap_2 rq_data _ _ Hin) as Hd.
  destruct (ow_req _ _ _ _ _ _ Ho q Hin). split_and!; try done.
  - eapply owned_range; [exact Ho|]. set_solver.
  - eapply owned_range; [exact Ho|]. set_solver.
  - apply NoDup_app in Hnd as (_ & Hx & _). intros Hb. apply (Hx _ Hd). set_solver.
Qed.

(** Writing to one buffer leaves the spans in others alone. *)
Lemma span_bytes_other m m' id n span :
  same_outside (UringReceiver.recv_buf recv_bufs_ id) n m m' -> Z.of_nat n <= 4096 -> 0 <= id < 64 ->
  span_in_buf recv_bufs_ span -> sp_buf_id span <> id -> span_bytes m' span = span_bytes m span.
Proof.
  intros Hs Hn Hid (Ed & Hl & Hsid) Hne. unfold span_bytes. rewrite Ed.
  rewrite (load_bytes_frame m m'); [done|]. intros c Hc. apply Hs.
  unfold UringReceiver.recv_buf, UringReceiver.kBufSize in *. lia.
Qed.

Lemma kernel_inv v w q bs :
  inv v w -> enabled (KernelRecv q bs) w ->
  exists m, store_bytes (w_mem w) (rq_addr q) bs = Ok m /\ inv v (set_memory m w).
Proof.
  intros Hi (Hq & Hne & Hlen & Hbs).
  destruct (kernel_owns v w q Hi Hq Hne) as (Ea & El & Hid & Hout). rewrite El in Hlen.
  destruct (store_bytes_spec (w_mem w) (rq_addr q) bs) as (m & E & _ & Hs & Hdom).
  { intros c Hc. apply (iv_live _ _ Hi). rewrite Ea in Hc.
    unfold UringReceiver.recv_buf, UringReceiver.kBufSize in *. lia. }
  exists m. split; [done|]. rewrite Ea in Hs. pose proof Hi as Hi'. destruct Hi.
  split; unfold settled, buffers_out in *; cbn; try done.
  - intros c Hc. apply elem_of_dom. rewrite Hdom. by apply elem_of_dom, iv_live0.
  - by eapply store_mem_bytes.
  - eapply intact_memory; [done|]. intros span Hin Hspan.
    eapply span_bytes_other; [done|done|done|done|]. intros Eid. apply Hout. rewrite <- Eid.
    apply elem_of_app. right. apply elem_of_app. right. by apply list_elem_of_fmap_2.
Qed.

Lemma set_main_inv v w pc : inv v w -> inv v (set_main pc w).
Proof. intros []. by split. Qed.

Lemma main_step_inv v w : inv v w -> inv v (main_step w).
Proof.
  intros Hi. unfold main_step, join. repeat case_match; try done; by apply set_main_inv.
Qed.

(** ** All steps *)

Lemma daemon_step_inv ev v w :
  asserts_enabled = false -> inv v w -> enabled ev w ->
  exists w' v',
    step Capacity clock_gettime recv_bufs_ send_bufs_ Nraw Nret Nin Nout ev w = Ok w' /\ inv v' w'.
Proof.
  intros Hrel Hi Hen. destruct ev; cbn [step].
  - by apply rx_step_inv with (v := v).
  - by apply dec_step_inv with (v := v).
  - by apply eng_step_inv with (v := v).
  - by apply tx_step_inv with (v := v).
  - eexists _, v. split; [done|]. by apply main_step_inv.
  - eexists _, v. split; [done|]. unfold signal_handler. destruct (_ || _); [|done].
    destruct Hi. by split.
  - destruct (kernel_inv v w q bs Hi Hen) as (m & -> & Hi'). cbn [bind]. by eexists _, v.
Qed.

(** A thread that sees an older value of a ring's index or of the flag keeps
    the invariant too: it finds the ring empty or full, or goes on. *)
Lemma stale_step_inv seen ev v w :
  asserts_enabled = false -> inv v w -> (seen <= 64)%nat ->
  exists w' v', stale_step Capacity clock_gettime Nin seen ev w = Ok w' /\ inv v' w'.
Proof.
  intros Hrel Hi Hs. destruct ev; cbn [stale_step]; try by eexists _, v.
  - destruct (w_rx_pc w) eqn:Epc; try by eexists _, v.
    + eexists _, v. split; [done|]. apply rx_top_inv; auto.
    + eexists _, v. split; [done|]. destruct Hi. unfold settled, buffers_out in *. rewrite Epc in *.
      destruct (submit_pending_spec recv_bufs_ _ _ _ iv_rx0) as (Hrx' & _ & Eret).
      split; unfold settled, buffers_out; cbn; try done. by rewrite Eret.
  - destruct (w_dec_pc w) as [|[|turns]| |] eqn:Epc; try by eexists _, v.
    all: eexists _, v; split; [done|]; destruct Hi; unfold settled, buffers_out in *; rewrite Epc in *; by split.
  - destruct (w_eng_pc w) eqn:Epc; try by eexists _, v.
    destruct (eng_poll_inv seen v w Hrel Hi Epc Hs) as (w' & v' & E & Hi' & _). by exists w', v'.
  - destruct (w_tx_pc w) eqn:Epc; try by eexists _, v.
    + destruct (tx_begin_inv v w Hi Epc) as (w' & E & Hi'). by exists w', v.
    + eexists _, v. split; [done|]. destruct Hi. unfold settled, buffers_out in *. rewrite Epc in *. by split.
Qed.

Lemma weak_reach_inv v0 w0 w :
  asserts_enabled = false -> inv v0 w0 ->
  weak_reach Capacity clock_gettime recv_bufs_ send_bufs_ Nraw Nret Nin Nout w0 w -> exists v, inv v w.
Proof.
  intros Hrel Hi. induction 1 as [|ev w w' _ [v IH] Hen E|seen ev w w' _ [v IH] Hs E]; [by exists v0|..].
  - destruct (daemon_step_inv ev v w Hrel IH Hen) as (w1 & v1 & E1 & Hi1). rewrite E1 in E.
    injection E as <-. by exists v1.
  - destruct (stale_step_inv seen ev v w Hrel IH Hs) as (w1 & v1 & E1 & Hi1). rewrite E1 in E.
    injection E as <-. by exists v1.
Qed.

Lemma reach_weak w0 w :
  reach Capacity clock_gettime recv_bufs_ send_bufs_ Nraw Nret Nin Nout w0 w ->
  weak_reach Capacity clock_gettime recv_bufs_ send_bufs_ Nraw Nret Nin Nout w0 w.
Proof. induction 1; [constructor|by eapply weak_step]. Qed.

Lemma daemon_reach_inv v0 w0 w :
  asserts_enabled = false -> inv v0 w0 ->
  reach Capacity clock_gettime recv_bufs_ send_bufs_ Nraw Nret Nin Nout w0 w -> exists v, inv v w.
Proof. intros Hrel Hi Hr%reach_weak. by eapply weak_reach_inv. Qed.

End inv.

(** ** Start-up *)

Section start.
Context `{Build} {U : Type} `{Uring U}.
Context (Capacity : nat) (clock_gettime : nat -> Z * Z) (recv_bufs_ send_bufs_ : nat).
Context (Nraw Nret Nin Nout : Z).

(** What start-up needs of its surroundings: ring capacities the templates
    accept, a pool that fits the address space, live buffers, and rings that
    liburing hands out empty. *)
Record start_ok (o : os (U := U)) (m ms : memory) : Prop := {
  so_raw : has_single_bit Nraw;
  so_ret : has_single_bit Nret;
  so_in : has_single_bit Nin;
  so_out : has_single_bit Nout;
  so_capacity : Z.of_nat Capacity * sizeof_Order < 2 ^ 64;
  so_live : recv_bufs_live recv_bufs_ m;
  so_mem : mem_bytes m;
  so_send : forall c, Z.of_nat send_bufs_ <= Z.of_nat c < Z.of_nat send_bufs_ + 12288 -> is_Some (ms !! c);
  so_depth : sq_depth (U := U) (Z.to_nat 256);
  so_rx : forall u sqpoll, UringReceiver.init_ring (os_rx_init_params o) (os_rx_init o) = inl (u, sqpoll) ->
    let u' := (os_register_buffers o u).1 in uring_ok u' /\ queued u' = [] /\ flight u' = [];
  so_tx : forall u sqpoll, UringSender.init_ring (os_tx_init_params o) (os_tx_init o) = inl (u, sqpoll) ->
    uring_ok u /\ queued u = [] /\ flight u = []
}.

Definition empty_view : view := mkView [] [] [] [] [] [].

#[local] Abbreviation main_start := (main_start Capacity recv_bufs_ Nraw Nret Nin Nout).
#[local] Abbreviation inv := (inv Capacity clock_gettime recv_bufs_ send_bufs_ Nraw Nret Nin Nout).

(** The engine part of start-up. *)
Lemma start_engine o m ms h :
  start_ok o m ms ->
  let r := MatchingEngine_new Capacity (os_mmap o) (SPSCQueue_new Nin InboundOrderMsg_zero)
             ([] : list ExecutionReport) h in
  r = Ok (inr MmapFailed) \/
  exists e e1, r = Ok (inl e) /\ add_instrument kDefaultInstId 1000 100000 1 e = Ok e1 /\
    (exists L fs Q, eng_inv Capacity L fs Q e1 /\ eng_has Uncrossed Q e1) /\
    e_inbound e1 = SPSCQueue_new Nin InboundOrderMsg_zero /\ e_outbound e1 = [] /\
    e_orders_processed e1 = 0 /\ e_fills_executed e1 = 0 /\ e_orders_rejected e1 = 0.
Proof.
  intros Ho. cbv zeta.
  destruct (MatchingEngine_new_spec Capacity (os_mmap o) (SPSCQueue_new Nin InboundOrderMsg_zero)
    ([] : list ExecutionReport) h (so_capacity _ _ _ Ho))
    as [->|(e & base & -> & He & Ei & Eo & Ep & Ef & Er)]; [done|by left|right].
  destruct (add_instrument_spec Capacity [] _ _ e kDefaultInstId 1000 100000 1 He)
    as (e1 & Q & E1 & He1 & Hf & Eo1 & Ei1 & _ & _ & Ep1 & Ef1 & Er1).
  { unfold grid_ok, in_i64, INT64_MAX. split_and!; try lia. done. }
  exists e, e1. split_and!; try done; try congruence. exists [], (seq base Capacity), Q. split; [done|].
  apply Hf. intros id b q. by rewrite lookup_empty.
Qed.

(** [main] gets to the start of the threads, or catches an exception; in the
    first case the invariant holds. *)
Lemma main_start_spec o h m ms :
  asserts_enabled = false -> start_ok o m ms ->
  (exists err, main_start o h m ms = Ok (inr err)) \/
  exists w, main_start o h m ms = Ok (inl w) /\ inv (w_eng w) empty_view w /\
    w_running w = true /\ w_main w = Supervise /\
    outstanding (w_tx w) = [] /\
    (w_rx_pc w, w_dec_pc w, w_eng_pc w, w_tx_pc w) = (RxTop, DecTop, EngTop, TxTop) /\
    w_sent w = [] /\ w_mem w = m /\ w_received w = [] /\
    counters (w_rx w) = (0, 0, 0) /\ UringSender.errors_ (w_tx w) = 0 /\
    e_fills_executed (w_eng w) = 0 /\ e_orders_rejected (w_eng w) = 0.
Proof.
  intros Hrel Ho. unfold Pipeline.main_start.
  destruct (start_engine o m ms h Ho) as [->|(e & e1 & -> & E1 & He & Ei & Eo & Ep & Ef & Erj)]; [by left; eexists|].
  cbn [bind]. rewrite E1. cbn [bind]. destruct (open_sockets o) as [fd0 fd1].
  destruct (UringReceiver.init_ring (os_rx_init_params o) (os_rx_init o)) as [[u sqpoll]|err] eqn:Er.
  2: { left. eexists. unfold UringReceiver.UringReceiver_new.
       rewrite assert_Ok by congruence. cbn [bind]. rewrite Er. done. }
  destruct (so_rx _ _ _ Ho _ _ Er) as (Hu & Hq & Hf).
  destruct (UringReceiver_new_spec recv_bufs_ (os_rx_init_params o) (os_rx_init o)
    (os_register_buffers o) fd0 ([] : list RawByteSpan) (SPSCQueue_new Nret 0) u sqpoll)
    as (r & -> & Hrx & Eraw & Eret & Ecnt); [done|congruence|done..|by apply Ho|]. cbn [bind].
  unfold UringSender.UringSender_new. rewrite assert_Ok by congruence. cbn [bind].
  destruct (UringSender.init_ring (os_tx_init_params o) (os_tx_init o)) as [[u2 sqpoll2]|err] eqn:Et;
    [|by left; eexists].
  destruct (so_tx _ _ _ Ho _ _ Et) as (Hu2 & Hq2 & Hf2). right. eexists. split; [done|].
  split; [|by unfold outstanding; cbn; rewrite Hq2, Hf2]. destruct Ho. split; cbn; try done.
  - by apply SPSCQueue_new_rep.
  - rewrite Eret. by apply SPSCQueue_new_rep.
  - rewrite Ei. by apply SPSCQueue_new_rep.
  - by apply SPSCQueue_new_rep.
  - constructor.
  - exists e1. split; [done|]. rewrite Ep. split; try done. by eexists.
  - by apply fresh_sender.
Qed.

End start.
