(* ===== verification/PipelineSequential.v ===== *)
(** * The daemon as a sequential engine

    What the threads do comes to running the engine on the messages in the
    received bytes, one after the other. *)

From stdpp Require Import base numbers list gmap fin_maps.
From Stdlib Require Import ZArith Lia.
From S2P Require Import Prelude.
From S2P Require Import OrderTypes.
From S2P Require Import OrderPool.
From S2P Require Import OrderBook.
From S2P Require Import OrderBookInv.
From S2P Require Import BookFacets.
From S2P Require Import SPSCQueue.
From S2P Require Import Sink.
From S2P Require Import MatchingEngine.
From S2P Require Import EngineInv.
From S2P Require Import EngineRun.
From S2P Require Import EngineSink.
From S2P Require Import WireProtocol.
From S2P Require Import Decoder.
From S2P Require Import DecoderProps.
From S2P Require Import Uring.
From S2P Require UringSender.
From S2P Require UringReceiver.
From S2P Require Import UringSenderProps.
From S2P Require Import UringReceiverProps.
From S2P Require Import Pipeline.
From S2P Require Import PipelineInv.

Section sequential.
Context `{Build} {U : Type} `{Uring U}.
Context (Capacity : nat) (clock_gettime : nat -> Z * Z) (recv_bufs_ send_bufs_ : nat).
Context (Nraw Nret Nin Nout : Z).
Implicit Types (w : world U).

#[local] Abbreviation inv := (inv Capacity clock_gettime recv_bufs_ send_bufs_ Nraw Nret Nin Nout).

(** Nothing is on its way between two threads. *)
Definition quiet w : Prop :=
  ring_list Nraw (w_raw w) = [] /\ rx_posting (w_rx_pc w) = [] /\
  ring_list Nin (e_inbound (w_eng w)) = [] /\ dec_pending (w_dec_pc w) = [] /\
  ring_list Nout (UringSender.out_queue_ (w_tx w)) = [] /\ eng_pending (w_eng_pc w) = [].

(** What the invariant says about the rings, without the view. *)
Lemma inv_rings e0 v w :
  inv e0 v w ->
  ring_list Nraw (w_raw w) = v_raw v /\ ring_list Nret (UringReceiver.ret_queue_ (w_rx w)) = v_ret v /\
  ring_list Nin (e_inbound (w_eng w)) = v_in v /\
  ring_list Nout (UringSender.out_queue_ (w_tx w)) = v_out v.
Proof.
  intros []. split_and!; (eapply ring_list_rep; [|done]); by eapply rr_pow.
Qed.

(** The messages that the engine has not taken, as the bytes have them. *)
Lemma received_msgs e0 v w :
  inv e0 v w ->
  concat (bytes_msgs <$> w_received w)
  = w_msgs w ++ v_in v ++ dec_pending (w_dec_pc w) ++ concat (bytes_msgs <$> v_wait v).
Proof.
  intros []. rewrite iv_received, fmap_app, concat_app, iv_msgs. by rewrite <- !app_assoc.
Qed.

Lemma received_quantity e0 v w :
  inv e0 v w ->
  Forall (fun msg => in_u32 (im_quantity msg)) (concat (bytes_msgs <$> w_received w)).
Proof. intros Hi. by apply msgs_ok_quantity, all_msgs_ok, Hi. Qed.

(** The reports of the sequential engine on all that was received. *)
Lemma sequential_reports e0 v w :
  asserts_enabled = false -> inv e0 v w ->
  exists es,
    dispatch_all Capacity clock_gettime (concat (bytes_msgs <$> w_received w)) e0 = Ok es /\
    w_sent w `prefix_of` e_outbound es /\
    (quiet w -> w_sent w = e_outbound es /\ e_books (w_eng w) = e_books es /\
      e_heap (w_eng w) = e_heap es).
Proof.
  intros Hrel Hi. pose proof (received_quantity _ _ _ Hi) as Hq.
  rewrite (received_msgs _ _ _ Hi) in *. set (rest := v_in v ++ _) in *.
  apply Forall_app in Hq as [_ Hq].
  destruct (iv_seq _ _ _ _ _ _ _ _ _ _ _ Hi) as (es & Es & Hs).
  destruct (iv_eng _ _ _ _ _ _ _ _ _ _ _ Hi) as (L & fs & Q & He & _).
  assert (eng_inv Capacity L fs Q es) as Hes by (eapply eng_inv_same; [|apply Hs|exact He]; by destruct Hs).
  destruct (dispatch_all_step Capacity clock_gettime rest L fs Q es Hrel Hes Hq)
    as (es1 & _ & _ & _ & E1 & _ & _ & _ & (R & HR & _) & _).
  destruct (sa_log _ _ _ _ _ _ _ _ Hs) as (R0 & HR1 & HR2).
  change (e_outbound (w_eng w) = R0) in HR1. change (e_outbound es = R0) in HR2.
  change (e_outbound es1 = e_outbound es ++ R) in HR.
  pose proof (iv_log _ _ _ _ _ _ _ _ _ _ _ Hi) as Hlog.
  exists es1. rewrite dispatch_all_app, Es. cbn [bind]. split; [done|]. split.
  - exists (v_out v ++ eng_pending (w_eng_pc w) ++ R).
    by rewrite HR, HR2, <- HR1, Hlog, <- !app_assoc.
  - intros (Q1 & Q2 & Q3 & Q4 & Q5 & Q6). destruct (inv_rings _ _ _ Hi) as (Er & _ & En & Eo).
    rewrite Er in Q1. rewrite En in Q3. rewrite Eo in Q5.
    pose proof (iv_wait _ _ _ _ _ _ _ _ _ _ _ Hi) as Hw. rewrite Q1, Q2 in Hw.
    apply Forall2_nil_inv_l in Hw. unfold rest in E1. rewrite Q3, Q4, Hw in E1. injection E1 as <-.
    rewrite Q5, Q6, !app_nil_r in Hlog. destruct Hs. split_and!; congruence.
Qed.

End sequential.
