(* ===== verification/PipelineShutdown.v ===== *)
(** * The daemon after the signal

    Once [g_running] is false each worker only finishes the poll it is in.
    [work] bounds how many steps that takes: every step of a worker that has
    neither exited nor is waiting for another thread makes it smaller, and
    nothing makes it larger. *)

From stdpp Require Import base numbers list gmap fin_maps.
From Stdlib Require Import ZArith Lia.
From S2P Require Import Prelude.
From S2P Require Import SPSCQueue.
From S2P Require Import Sink.
From S2P Require Import MatchingEngine.
From S2P Require Import WireProtocol.
From S2P Require Import Decoder.
From S2P Require Import DecoderProps.
From S2P Require Import Uring.
From S2P Require UringSender.
From S2P Require UringReceiver.
From S2P Require Import UringSenderProps.
From S2P Require Import UringReceiverProps.
From S2P Require Import Pipeline.
From S2P Require Import PipelineInv.

(** The number of elements in a ring. *)
Definition rlen {T} (q : SPSCQueue T) : nat := Z.to_nat (size_approx q).

Lemma rlen_rep {T} N (q : SPSCQueue T) xs : ring_rep N q xs -> rlen q = length xs.
Proof. intros Hr. unfold rlen, size_approx. by rewrite (rr_len _ _ _ Hr), Nat2Z.id. Qed.

Lemma full_rep {T} N (q : SPSCQueue T) xs :
  ring_rep N q xs -> full N q = bool_decide (Z.of_nat (length xs) = N).
Proof. intros Hr. by destruct (diagnostics_rep N q xs Hr) as (_ & ? & _). Qed.

(** Opens a step that has succeeded. *)
Ltac run_step E :=
  unfold bind in E; repeat (case_match; try discriminate E); injection E as <-.

Section shutdown.
Context `{Build} {U : Type} `{Uring U}.
Context (Capacity : nat) (clock_gettime : nat -> Z * Z) (recv_bufs_ send_bufs_ : nat).
Context (Nraw Nret Nin Nout : Z).

Implicit Types (w : world U) (v : view).

#[local] Abbreviation step := (step Capacity clock_gettime recv_bufs_ send_bufs_ Nraw Nret Nin Nout).
#[local] Abbreviation reach := (reach Capacity clock_gettime recv_bufs_ send_bufs_ Nraw Nret Nin Nout).
#[local] Abbreviation inv := (inv Capacity clock_gettime recv_bufs_ send_bufs_ Nraw Nret Nin Nout).

Definition is_worker (ev : event) : bool :=
  match ev with Receiver | DecoderT | Matching | SenderT => true | _ => false end.

Definition exited (ev : event) w : bool :=
  match ev with
  | Receiver => match w_rx_pc w with RxExited => true | _ => false end
  | DecoderT => match w_dec_pc w with DecExited => true | _ => false end
  | Matching => match w_eng_pc w with EngExited => true | _ => false end
  | SenderT => match w_tx_pc w with TxExited => true | _ => false end
  | _ => false
  end.

(** A worker that spins: on a full ring, or for want of a send buffer. *)
Definition waiting (ev : event) w : bool :=
  match ev with
  | Receiver => match w_rx_pc w with RxPost _ => full Nraw (w_raw w) | _ => false end
  | DecoderT =>
      match w_dec_pc w with
      | DecPost (_ :: _) _ _ => full Nin (e_inbound (w_eng w))
      | DecPost [] _ _ => full Nret (UringReceiver.ret_queue_ (w_rx w))
      | _ => false
      end
  | Matching =>
      match w_eng_pc w with EngPost (_ :: _) => full Nout (UringSender.out_queue_ (w_tx w)) | _ => false end
  | SenderT => match w_tx_pc w with TxSend _ => UringSender.free_count_ (w_tx w) =? 0 | _ => false end
  | _ => false
  end.

(** ** Bounds on what is left to do

    A span is popped, makes at most 256 messages to push, and is returned; a
    completion may make a span. *)
Definition span_work : nat := 260.
Definition cq_work : nat := 263.
#[local] Arguments span_work : simpl never.
#[local] Arguments cq_work : simpl never.
#[local] Arguments Nat.mul : simpl never.
#[local] Arguments Nat.add : simpl never.

Definition rx_work w : nat :=
  let f := length (flight (UringReceiver.ring_ (settled w))) in
  match w_rx_pc w with
  | RxReclaim =>
      rlen (UringReceiver.ret_queue_ (w_rx w)) + length (dec_buf (w_dec_pc w)) + rlen (w_raw w)
      + 3 + 64 * cq_work
  | RxCq => 2 + f * cq_work
  | RxPost _ => 4 + span_work + f * cq_work
  | RxSeen => 3 + f * cq_work
  | RxTop => 1
  | RxExited => 0
  end.

Definition dec_work w : nat :=
  span_work * rlen (w_raw w) +
  match w_dec_pc w with
  | DecTop => 1
  | DecPop _ => 2
  | DecPost msgs _ _ => 3 + length msgs
  | DecExited => 0
  end.

Definition eng_work w : nat :=
  match w_eng_pc w with EngTop => 1 | EngPost rs => 2 + 3 * length rs | EngExited => 0 end.

Definition tx_work w : nat :=
  2 * rlen (UringSender.out_queue_ (w_tx w)) +
  match w_tx_pc w with TxTop => 1 | TxPop => 2 | TxSend _ => 3 | TxExited => 0 end.

Definition work w : nat := rx_work w + dec_work w + eng_work w + tx_work w.

(** What a step of a worker does to the work. *)
Definition works ev w w' : Prop :=
  (work w' < work w)%nat \/ ((exited ev w || waiting ev w) = true /\ work w' = work w).

Context (Hdepth : sq_depth (U := U) (Z.to_nat 256)) (e0 : Engine (list ExecutionReport)).

(** Both sides of a step, pc by pc. *)
Ltac open_work Epc := unfold works, work, rx_work, dec_work, eng_work, tx_work, settled;
  cbn; rewrite ?Epc; cbn [rx_unseen dec_buf UringReceiver.ring_ UringReceiver.set_ring].

Lemma rx_flight_le v w : inv e0 v w -> (length (flight (UringReceiver.ring_ (settled w))) <= 64)%nat.
Proof.
  intros Hi. pose proof (owned_length _ _ _ _ _ _ (ri_own _ _ _ _ (iv_rx _ _ _ _ _ _ _ _ _ _ _ Hi))) as Hl.
  rewrite length_app in Hl. lia.
Qed.

Lemma rx_reclaim_work v v' w w' :
  inv e0 v w -> inv e0 v' w' -> w_rx_pc w = RxReclaim -> step Receiver w = Ok w' ->
  works Receiver w w'.
Proof.
  intros Hi Hi' Epc E. left. pose proof (rx_flight_le _ _ Hi') as Hfl.
  pose proof (iv_ret _ _ _ _ _ _ _ _ _ _ _ Hi) as Hret. pose proof (rr_pow _ _ _ Hret) as HN.
  pose proof (iv_rx _ _ _ _ _ _ _ _ _ _ _ Hi) as Hrx.
  unfold settled, buffers_out in Hrx. rewrite Epc in Hrx. cbn [rx_unseen rx_posting] in Hrx.
  cbn [Pipeline.step] in E. unfold rx_step in E. rewrite Epc in E.
  destruct (try_pop_total Nret HN _ _ Hret) as (q & Eq & Hq). rewrite Eq in E. cbn [bind] in E.
  pose proof (rlen_rep _ _ _ Hret) as L1. pose proof (rlen_rep _ _ _ Hq) as L2.
  destruct (v_ret v) as [|x xs]; cbn [head tail length] in *.
  - injection E as <-. open_work Epc. unfold settled in Hfl. cbn in Hfl. unfold cq_work. lia.
  - destruct (reclaim_buf_spec recv_bufs_ x _ _ _ (rx_inv_ret recv_bufs_ _ q _ _ Hrx))
      as (r' & lost' & Er & _ & _ & _ & Eret & _). rewrite Er in E. cbn [bind] in E.
    injection E as <-. open_work Epc. rewrite Eret. cbn. lia.
Qed.

Lemma rx_cq_work v w w' :
  inv e0 v w -> w_rx_pc w = RxCq -> step Receiver w = Ok w' -> works Receiver w w'.
Proof.
  intros Hi Epc E. left. pose proof (iv_rx _ _ _ _ _ _ _ _ _ _ _ Hi) as Hrx.
  unfold settled in Hrx. rewrite Epc in Hrx. cbn [rx_unseen] in Hrx.
  cbn [Pipeline.step] in E. unfold rx_step in E. rewrite Epc in E.
  destruct (peek_cqe (UringReceiver.ring_ (w_rx w))) as [u [c|]] eqn:Ep.
  - destruct (cqe_step recv_bufs_ _ _ _ u c Hrx Ep) as (r1 & spans & lost' & Er & _ & Hlt & _).
    rewrite Er in E. cbn [bind] in E. destruct (posts _ _) as [|span ?]; injection E as <-;
      open_work Epc; unfold cq_work, span_work; lia.
  - injection E as <-. open_work Epc. lia.
Qed.

Lemma rx_step_work v v' w w' :
  inv e0 v w -> inv e0 v' w' -> w_running w = false -> step Receiver w = Ok w' ->
  works Receiver w w'.
Proof.
  intros Hi Hi' Hrun E. destruct (w_rx_pc w) eqn:Epc;
    [|by eapply rx_reclaim_work|by eapply rx_cq_work|..];
    cbn [Pipeline.step] in E; unfold rx_step in E; rewrite Epc, ?Hrun in E.
  - injection E as <-. left. open_work Epc. lia.
  - pose proof (iv_raw _ _ _ _ _ _ _ _ _ _ _ Hi) as Hr.
    destruct (try_push_total Nraw (rr_pow _ _ _ Hr) _ _ span Hr) as (q & ok & Eq & Hq & Hfull).
    rewrite Eq in E. cbn [bind] in E. injection E as <-.
    pose proof (rlen_rep _ _ _ Hr) as L1. pose proof (rlen_rep _ _ _ Hq) as L2. destruct ok.
    + left. rewrite length_app in L2. open_work Epc. unfold span_work. simpl in *. lia.
    + right. destruct (Hfull eq_refl) as [-> Hl]. cbn [exited waiting]. rewrite Epc, (full_rep _ _ _ Hr).
      rewrite bool_decide_eq_true_2 by done. split; [done|]. open_work Epc. done.
  - injection E as <-. left. open_work Epc. lia.
  - injection E as <-. right. cbn [exited]. by rewrite Epc.
Qed.

(** ** The decoder *)

Lemma span_msgs_bound (m : memory) span :
  span_in_buf recv_bufs_ span -> (length (span_msgs m span) <= 256)%nat.
Proof.
  intros (Ed & Hl & _). unfold span_msgs.
  pose proof (stream_msgs_bound _ _ _ (stream_frames (span_bytes m span))) as Hb.
  assert (length (span_bytes m span) <= 4096)%nat as Hlen; [|lia].
  unfold span_bytes. rewrite Ed. destruct (load_bytes m _ _) as [bs|] eqn:El; [|simpl; lia].
  apply load_bytes_length in El. lia.
Qed.

Lemma dec_pop_work v w w' turns :
  inv e0 v w -> w_dec_pc w = DecPop (S turns) -> step DecoderT w = Ok w' -> works DecoderT w w'.
Proof.
  intros Hi Epc E. left. cbn [Pipeline.step] in E. unfold dec_step in E. rewrite Epc in E.
  pose proof (iv_raw _ _ _ _ _ _ _ _ _ _ _ Hi) as Hr.
  destruct (try_pop_total Nraw (rr_pow _ _ _ Hr) _ _ Hr) as (q & Eq & Hq).
  rewrite Eq in E. cbn [bind] in E.
  pose proof (rlen_rep _ _ _ Hr) as L1. pose proof (rlen_rep _ _ _ Hq) as L2.
  pose proof (iv_wait _ _ _ _ _ _ _ _ _ _ _ Hi) as Hw.
  destruct (v_raw v) as [|span raw]; cbn [head tail length] in *.
  - injection E as <-. open_work Epc. destruct (w_rx_pc w); cbn; lia.
  - inversion Hw as [|? bs ? ws [Hspan Hbs] Hwait]; subst.
    destruct (decode_span_ok (w_mem w) span (w_dec w) ([] : list InboundOrderMsg))
      as (s' & Ed & _ & Hlog); [eapply span_in_buf_ok; [apply Hi|done]|done| |].
    { rewrite (iv_dec _ _ _ _ _ _ _ _ _ _ _ Hi). apply decoder_counts_ok. }
    rewrite Ed in E. cbn [bind] in E. change (s' = span_msgs (w_mem w) span) in Hlog. subst s'.
    injection E as <-. pose proof (span_msgs_bound (w_mem w) span Hspan).
    open_work Epc. unfold span_work. destruct (w_rx_pc w); cbn; lia.
Qed.

Lemma dec_post_work v w w' msgs buf_id turns :
  inv e0 v w -> w_dec_pc w = DecPost msgs buf_id turns -> step DecoderT w = Ok w' ->
  works DecoderT w w'.
Proof.
  intros Hi Epc E. cbn [Pipeline.step] in E. unfold dec_step in E. rewrite Epc in E.
  destruct msgs as [|msg msgs].
  - pose proof (iv_ret _ _ _ _ _ _ _ _ _ _ _ Hi) as Hr.
    destruct (try_push_total Nret (rr_pow _ _ _ Hr) _ _ buf_id Hr) as (q & ok & Eq & Hq & Hfull).
    rewrite Eq in E. cbn [bind] in E. injection E as <-.
    pose proof (rlen_rep _ _ _ Hr) as L1. pose proof (rlen_rep _ _ _ Hq) as L2. destruct ok.
    + left. rewrite length_app in L2. open_work Epc. destruct (w_rx_pc w); cbn in *; lia.
    + right. destruct (Hfull eq_refl) as [-> Hl]. cbn [exited waiting]. rewrite Epc, (full_rep _ _ _ Hr).
      rewrite bool_decide_eq_true_2 by done. split; [done|]. open_work Epc.
      destruct (w_rx_pc w); cbn; lia.
  - pose proof (iv_in _ _ _ _ _ _ _ _ _ _ _ Hi) as Hr.
    destruct (try_push_total Nin (rr_pow _ _ _ Hr) _ _ msg Hr) as (q & ok & Eq & Hq & Hfull).
    rewrite Eq in E. cbn [bind] in E. injection E as <-. destruct ok.
    + left. open_work Epc. destruct (w_rx_pc w); cbn in *; lia.
    + right. destruct (Hfull eq_refl) as [-> Hl]. cbn [exited waiting]. rewrite Epc, (full_rep _ _ _ Hr).
      rewrite bool_decide_eq_true_2 by done. split; [done|]. open_work Epc.
      destruct (w_rx_pc w); cbn; lia.
Qed.

Lemma dec_step_work v w w' :
  inv e0 v w -> w_running w = false -> step DecoderT w = Ok w' -> works DecoderT w w'.
Proof.
  intros Hi Hrun E. destruct (w_dec_pc w) as [|[|turns]|msgs buf_id turns|] eqn:Epc;
    [| |by eapply dec_pop_work|by eapply dec_post_work|];
    cbn [Pipeline.step] in E; unfold dec_step in E; rewrite Epc, ?Hrun in E; injection E as <-.
  - left. open_work Epc. destruct (w_rx_pc w); cbn; lia.
  - left. open_work Epc. destruct (w_rx_pc w); cbn; lia.
  - right. cbn [exited]. by rewrite Epc.
Qed.

(** ** The matching engine and the sender *)

Lemma eng_step_work v w w' :
  inv e0 v w -> w_running w = false -> step Matching w = Ok w' -> works Matching w w'.
Proof.
  intros Hi Hrun E. cbn [Pipeline.step] in E. unfold eng_step, eng_poll in E.
  destruct (w_eng_pc w) as [|[|r rs]|] eqn:Epc; rewrite ?Hrun in E.
  - injection E as <-. left. open_work Epc. lia.
  - injection E as <-. left. open_work Epc. lia.
  - pose proof (iv_out _ _ _ _ _ _ _ _ _ _ _ Hi) as Hr.
    destruct (try_push_total Nout (rr_pow _ _ _ Hr) _ _ r Hr) as (q & ok & Eq & Hq & Hfull).
    rewrite Eq in E. cbn [bind] in E. injection E as <-.
    pose proof (rlen_rep _ _ _ Hr) as L1. pose proof (rlen_rep _ _ _ Hq) as L2. destruct ok.
    + left. rewrite length_app in L2. open_work Epc. cbn in *. lia.
    + right. destruct (Hfull eq_refl) as [-> Hl]. cbn [exited waiting]. rewrite Epc, (full_rep _ _ _ Hr).
      rewrite bool_decide_eq_true_2 by done. split; [done|]. by open_work Epc.
  - injection E as <-. right. cbn [exited]. by rewrite Epc.
Qed.

Lemma tx_step_work v w w' :
  inv e0 v w -> w_running w = false -> step SenderT w = Ok w' -> works SenderT w w'.
Proof.
  intros Hi Hrun E. cbn [Pipeline.step] in E. unfold tx_step, tx_begin in E.
  pose proof (iv_tx _ _ _ _ _ _ _ _ _ _ _ Hi) as Htx.
  destruct (w_tx_pc w) as [| |r|] eqn:Epc; rewrite ?Hrun in E.
  - injection E as <-. left. open_work Epc. lia.
  - pose proof (iv_out _ _ _ _ _ _ _ _ _ _ _ Hi) as Hr.
    destruct (try_pop_total Nout (rr_pow _ _ _ Hr) _ _ Hr) as (q & Eq & Hq).
    rewrite Eq in E. cbn [bind] in E.
    pose proof (rlen_rep _ _ _ Hr) as L1. pose proof (rlen_rep _ _ _ Hq) as L2. left.
    destruct (v_out v) as [|r out]; cbn [head tail length] in *; injection E as <-;
      open_work Epc; cbn in *; lia.
  - destruct (Z.eqb_spec (UringSender.free_count_ (w_tx w)) 0) as [Hf|Hf].
    + destruct (drain_completions_spec send_bufs_ _ Htx) as (s1 & Es & []). rewrite Es in E.
      cbn [bind] in E. injection E as <-. right. cbn [exited waiting]. rewrite Epc, Hf.
      split; [done|]. open_work Epc. by rewrite dr_out.
    + destruct (send_report_spec send_bufs_ Hdepth 0 r (w_tx w) Htx) as (s1 & q & Es & []).
      { pose proof (tx_slots_le _ _ Htx). rewrite (ti_free _ _ Htx) in *. lia. }
      rewrite Es in E. cbn [bind] in E. injection E as <-. left. open_work Epc. rewrite so_out. lia.
  - injection E as <-. right. cbn [exited]. by rewrite Epc.
Qed.

(** ** All steps *)

(** Only a signal changes the flag, and it never comes back. *)
Lemma running_step ev w w' :
  (forall signum, ev <> Signal signum) -> step ev w = Ok w' -> w_running w' = w_running w.
Proof.
  intros Hs E. destruct ev; cbn [Pipeline.step] in E.
  - unfold rx_step in E. by run_step E.
  - unfold dec_step in E. by run_step E.
  - unfold eng_step, eng_poll in E. by run_step E.
  - unfold tx_step, tx_begin in E. by run_step E.
  - unfold main_step, join in E. by run_step E.
  - by destruct (Hs signum).
  - by run_step E.
Qed.

Lemma step_running ev w w' : w_running w = false -> step ev w = Ok w' -> w_running w' = false.
Proof.
  intros Hrun E. destruct ev; try by (rewrite <- Hrun; eapply running_step; [|exact E]).
  cbn [Pipeline.step] in E. unfold signal_handler in E. by run_step E.
Qed.

(** Nothing but a worker's own step changes the work, and those only reduce
    it. *)
Lemma step_work ev v w w' :
  asserts_enabled = false -> inv e0 v w -> w_running w = false -> enabled ev w ->
  step ev w = Ok w' -> if is_worker ev then works ev w w' else work w' = work w.
Proof.
  intros Hrel Hi Hrun Hen E.
  destruct (daemon_step_inv Capacity clock_gettime recv_bufs_ send_bufs_ Nraw Nret Nin Nout Hdepth e0
    ev v w Hrel Hi Hen) as (w1 & v' & E1 & Hi'). rewrite E1 in E. injection E as ->.
  destruct ev; cbn [is_worker].
  - by eapply rx_step_work.
  - by eapply dec_step_work.
  - by eapply eng_step_work.
  - by eapply tx_step_work.
  - cbn [Pipeline.step] in E1. unfold main_step, join in E1. by run_step E1.
  - cbn [Pipeline.step] in E1. unfold signal_handler in E1. by run_step E1.
  - cbn [Pipeline.step] in E1. by run_step E1.
Qed.

(** A run, with the number of worker steps that were not spent waiting. *)
Inductive runs : world U -> nat -> world U -> Prop :=
| runs_nil w : runs w 0 w
| runs_step ev w w1 n w' :
    enabled ev w -> step ev w = Ok w1 -> runs w1 n w' ->
    runs w (if is_worker ev && negb (exited ev w || waiting ev w) then S n else n) w'.

Lemma runs_bound v w n w' :
  asserts_enabled = false -> inv e0 v w -> w_running w = false -> runs w n w' -> (n <= work w)%nat.
Proof.
  intros Hrel Hi Hrun Hr. revert v Hi Hrun.
  induction Hr as [w|ev w w1 n w' Hen E _ IH]; intros v Hi Hrun; [lia|].
  pose proof (step_work ev v w w1 Hrel Hi Hrun Hen E) as Hw.
  destruct (daemon_step_inv Capacity clock_gettime recv_bufs_ send_bufs_ Nraw Nret Nin Nout Hdepth e0
    ev v w Hrel Hi Hen) as (w2 & v' & E1 & Hi'). rewrite E1 in E. injection E as ->.
  specialize (IH v' Hi' (step_running _ _ _ Hrun E1)).
  destruct (is_worker ev); cbn [andb]; [|lia].
  destruct Hw as [Hw|[-> Hw]]; cbn [negb]; [|lia]. destruct (negb _); lia.
Qed.

(** ** The end *)

Definition workers : list event := [Receiver; SenderT; DecoderT; Matching].

Lemma reach_trans w1 w2 w3 : reach w1 w2 -> reach w2 w3 -> reach w1 w3.
Proof. intros H1 H2. induction H2; [done|]. by eapply reach_step. Qed.

(** The main thread changes nothing but where it is. *)
Lemma main_step_pc w : exists pc, main_step w = set_main pc w.
Proof.
  assert (set_main (w_main w) w = w) as Hid by (by destruct w).
  unfold main_step, join. repeat case_match; eauto.
Qed.

End shutdown.
