(* ===== verification/PipelineHang.v ===== *)
(** * How the daemon hangs

    Three ways to wait for ever, each kept by every step of every thread; and
    a daemon whose workers have all exited or wait has returned from [main],
    hangs, or waits for the kernel. *)

From stdpp Require Import base numbers list gmap fin_maps.
From Stdlib Require Import ZArith Lia.
From S2P Require Import Prelude.
From S2P Require Import SPSCQueue.
From S2P Require Import Sink.
From S2P Require Import MatchingEngine.
From S2P Require Import WireProtocol.
From S2P Require Import Decoder.
From S2P Require Import DecoderProps.
From S2P Require Import Uring.
From S2P Require UringSender.
From S2P Require UringReceiver.
From S2P Require Import UringSenderProps.
From S2P Require Import UringReceiverProps.
From S2P Require Import Pipeline.
From S2P Require Import PipelineInv.
From S2P Require Import PipelineShutdown.

Section hang.
Context `{Build} {U : Type} `{Uring U}.
Context (Capacity : nat) (clock_gettime : nat -> Z * Z) (recv_bufs_ send_bufs_ : nat).
Context (Nraw Nret Nin Nout : Z).

Implicit Types (w : world U) (v : view).

#[local] Abbreviation step := (step Capacity clock_gettime recv_bufs_ send_bufs_ Nraw Nret Nin Nout).
#[local] Abbreviation reach := (reach Capacity clock_gettime recv_bufs_ send_bufs_ Nraw Nret Nin Nout).
#[local] Abbreviation stale_step := (stale_step Capacity clock_gettime Nin).
#[local] Abbreviation weak_reach :=
  (weak_reach Capacity clock_gettime recv_bufs_ send_bufs_ Nraw Nret Nin Nout).
#[local] Abbreviation inv := (inv Capacity clock_gettime recv_bufs_ send_bufs_ Nraw Nret Nin Nout).
#[local] Abbreviation waiting := (waiting Nraw Nret Nin Nout).

Context (Hdepth : sq_depth (U := U) (Z.to_nat 256)) (e0 : Engine (list ExecutionReport)).

(** ** Hanging *)

(** The matching engine waits for a sender that has exited. *)
Definition outbound_jam w : Prop :=
  w_tx_pc w = TxExited /\ (exists r rs, w_eng_pc w = EngPost (r :: rs)) /\
  full Nout (UringSender.out_queue_ (w_tx w)) = true.

(** The decoder waits for a matching engine that has exited. *)
Definition inbound_jam w : Prop :=
  w_eng_pc w = EngExited /\ (exists m ms b k, w_dec_pc w = DecPost (m :: ms) b k) /\
  full Nin (e_inbound (w_eng w)) = true.

(** None of the sender's SENDs has been submitted, and more reports wait than
    it has free buffers: it submits only when it has taken them all, so it
    will run out of buffers and wait for a completion that cannot come. *)
Definition sender_doomed w : Prop :=
  flight (UringSender.ring_ (w_tx w)) = [] /\
  match w_tx_pc w with
  | TxPop => UringSender.free_count_ (w_tx w) < Z.of_nat (rlen (UringSender.out_queue_ (w_tx w)))
  | TxSend _ => UringSender.free_count_ (w_tx w) <= Z.of_nat (rlen (UringSender.out_queue_ (w_tx w)))
  | _ => False
  end.

Definition hung w : Prop := outbound_jam w \/ inbound_jam w \/ sender_doomed w.

(** The sender waits for a buffer, with none of its SENDs submitted. *)
Definition sender_starved w : Prop :=
  (exists r, w_tx_pc w = TxSend r) /\ UringSender.free_count_ (w_tx w) = 0 /\
  flight (UringSender.ring_ (w_tx w)) = [].

(** A doomed sender is saved if it misses the reports that wait and submits
    what it has; one that has run out of buffers is not. *)
Definition jammed w : Prop := outbound_jam w \/ inbound_jam w \/ sender_starved w.

Lemma jammed_hung w : jammed w -> hung w.
Proof.
  intros [?|[?|([r Hr] & Hf & Hfl)]]; [by left|by right; left|right; right].
  split; [done|]. rewrite Hr, Hf. lia.
Qed.

Lemma full_push {T} N (q : SPSCQueue T) x : full N q = true -> try_push N q x = Ok (q, false).
Proof. unfold full, try_push. by intros ->. Qed.

Lemma outbound_jam_step ev w w' : outbound_jam w -> step ev w = Ok w' -> outbound_jam w'.
Proof.
  intros (Ht & (r & rs & He) & Hf) E. unfold outbound_jam. destruct ev; cbn [Pipeline.step] in E.
  - unfold rx_step in E. run_step E; eauto.
  - unfold dec_step in E. run_step E; cbn; eauto.
  - unfold eng_step, eng_poll in E. rewrite He, (full_push _ _ _ Hf) in E. cbn [bind] in E.
    injection E as <-. cbn. eauto.
  - unfold tx_step, tx_begin in E. rewrite Ht in E. injection E as <-. eauto.
  - destruct (main_step_pc w) as [pc Epc]. rewrite Epc in E. injection E as <-. cbn. eauto.
  - unfold signal_handler in E. run_step E; cbn; eauto.
  - run_step E. cbn. eauto.
Qed.

Lemma inbound_jam_step ev w w' : inbound_jam w -> step ev w = Ok w' -> inbound_jam w'.
Proof.
  intros (He & (m & ms & b & k & Hd) & Hf) E. unfold inbound_jam. destruct ev; cbn [Pipeline.step] in E.
  - unfold rx_step in E. run_step E; cbn; eauto 10.
  - unfold dec_step in E. rewrite Hd, (full_push _ _ _ Hf) in E. cbn [bind] in E.
    injection E as <-. cbn. eauto 10.
  - unfold eng_step, eng_poll in E. rewrite He in E. injection E as <-. eauto 10.
  - unfold tx_step, tx_begin in E. run_step E; cbn; eauto 10.
  - destruct (main_step_pc w) as [pc Epc]. rewrite Epc in E. injection E as <-. cbn. eauto 10.
  - unfold signal_handler in E. run_step E; cbn; eauto 10.
  - run_step E. cbn. eauto 10.
Qed.

(** Draining when nothing is in flight frees nothing. *)
Lemma drain_starved s s' :
  tx_inv send_bufs_ s -> UringSender.free_count_ s = 0 -> flight (UringSender.ring_ s) = [] ->
  UringSender.drain_completions s = Ok s' ->
  UringSender.free_count_ s' = 0 /\ flight (UringSender.ring_ s') = [].
Proof.
  intros Htx Hf Hfl E. destruct (drain_completions_spec send_bufs_ s Htx) as (s1 & E1 & []).
  rewrite E1 in E. injection E as ->. destruct dr_flight as [ds Hds]. rewrite Hfl in Hds.
  apply Permutation_nil in Hds. apply app_nil in Hds as [_ Hfl']. split; [|done].
  rewrite (ti_free _ _ dr_inv). rewrite (ti_free _ _ Htx) in Hf. unfold slots, outstanding in *.
  by rewrite dr_queued, Hfl', <- Hfl.
Qed.

(** Other threads only add to the outbound ring. *)
Lemma sender_doomed_other w w' :
  sender_doomed w -> w_tx_pc w' = w_tx_pc w ->
  UringSender.ring_ (w_tx w') = UringSender.ring_ (w_tx w) ->
  UringSender.free_count_ (w_tx w') = UringSender.free_count_ (w_tx w) ->
  (rlen (UringSender.out_queue_ (w_tx w)) <= rlen (UringSender.out_queue_ (w_tx w')))%nat ->
  sender_doomed w'.
Proof.
  intros [Hf Hd] Epc Er Efr Hl. split; [by rewrite Er|]. rewrite Epc, Efr.
  destruct (w_tx_pc w); try done; lia.
Qed.

Lemma sender_doomed_post v w w' :
  inv e0 v w -> sender_doomed w -> eng_step Capacity clock_gettime Nin Nout w = Ok w' -> sender_doomed w'.
Proof.
  intros Hi Hd E. unfold eng_step, eng_poll in E. destruct (w_eng_pc w) as [|[|r rs]|] eqn:Epc.
  - run_step E; by eapply sender_doomed_other.
  - injection E as <-. by eapply sender_doomed_other.
  - pose proof (iv_out _ _ _ _ _ _ _ _ _ _ _ Hi) as Hr.
    destruct (try_push_total Nout (rr_pow _ _ _ Hr) _ _ r Hr) as (q & ok & Eq & Hq & _).
    rewrite Eq in E. cbn [bind] in E. injection E as <-. eapply sender_doomed_other; try done. cbn.
    rewrite (rlen_rep _ _ _ Hr), (rlen_rep _ _ _ Hq). destruct ok; [rewrite length_app|]; lia.
  - by injection E as <-.
Qed.

Lemma sender_doomed_send v w w' :
  inv e0 v w -> sender_doomed w -> tx_step send_bufs_ Nout w = Ok w' -> sender_doomed w'.
Proof.
  intros Hi [Hfl Hd] E. pose proof (iv_tx _ _ _ _ _ _ _ _ _ _ _ Hi) as Htx. unfold tx_step, tx_begin in E.
  destruct (w_tx_pc w) as [| |r|] eqn:Epc; try done.
  - pose proof (iv_out _ _ _ _ _ _ _ _ _ _ _ Hi) as Hr.
    destruct (try_pop_total Nout (rr_pow _ _ _ Hr) _ _ Hr) as (q & Eq & Hq). rewrite Eq in E.
    rewrite (rlen_rep _ _ _ Hr) in Hd. destruct (v_out v) as [|r out]; cbn [head tail length] in *.
    { pose proof (tx_slots_le _ _ Htx). rewrite (ti_free _ _ Htx) in Hd. lia. }
    injection E as <-. split; [done|]. cbn. rewrite (rlen_rep _ _ _ Hq). lia.
  - destruct (Z.eqb_spec (UringSender.free_count_ (w_tx w)) 0) as [Hf|Hf].
    + destruct (UringSender.drain_completions (w_tx w)) as [s1|] eqn:Es; [|done]. injection E as <-.
      destruct (drain_starved _ _ Htx Hf Hfl Es) as [Hf' Hfl']. split; [done|]. cbn. lia.
    + destruct (send_report_spec send_bufs_ Hdepth 0 r (w_tx w) Htx) as (s1 & q & Es & []).
      { pose proof (tx_slots_le _ _ Htx). rewrite (ti_free _ _ Htx) in *. lia. }
      rewrite Es in E. injection E as <-. rewrite Hfl in so_flight.
      symmetry in so_flight. apply Permutation_nil in so_flight. split; [done|]. cbn. rewrite so_out, so_free. lia.
Qed.

Lemma sender_doomed_step ev v w w' :
  inv e0 v w -> sender_doomed w -> step ev w = Ok w' -> sender_doomed w'.
Proof.
  intros Hi Hd E.
  destruct ev; cbn [Pipeline.step] in E; [| |by eapply sender_doomed_post|by eapply sender_doomed_send|..].
  - unfold rx_step in E. run_step E; by eapply sender_doomed_other.
  - unfold dec_step in E. run_step E; by eapply sender_doomed_other.
  - destruct (main_step_pc w) as [pc Epc]. rewrite Epc in E. injection E as <-. by eapply sender_doomed_other.
  - unfold signal_handler in E. run_step E; by eapply sender_doomed_other.
  - run_step E. by eapply sender_doomed_other.
Qed.

(** A hung daemon stays hung. *)
Lemma hung_step ev v w w' : inv e0 v w -> hung w -> step ev w = Ok w' -> hung w'.
Proof.
  intros Hi [Hh|[Hh|Hh]] E.
  - left. by eapply outbound_jam_step.
  - right. left. by eapply inbound_jam_step.
  - right. right. by eapply sender_doomed_step.
Qed.

Lemma hung_reach v w w' : asserts_enabled = false -> inv e0 v w -> hung w -> reach w w' -> hung w'.
Proof.
  intros Hrel Hi Hh Hr. induction Hr as [|ev w1 w2 Hr IH Hen E]; [done|].
  destruct (daemon_reach_inv _ _ _ _ _ _ _ _ Hdepth _ _ _ _ Hrel Hi Hr) as [v1 Hi1]. by eapply hung_step.
Qed.

(** ** Hanging, with stale reads *)

Lemma starved_other w w' :
  sender_starved w -> w_tx_pc w' = w_tx_pc w ->
  UringSender.ring_ (w_tx w') = UringSender.ring_ (w_tx w) ->
  UringSender.free_count_ (w_tx w') = UringSender.free_count_ (w_tx w) -> sender_starved w'.
Proof. unfold sender_starved. by intros Hs -> -> ->. Qed.

Lemma starved_step ev v w w' :
  inv e0 v w -> sender_starved w -> step ev w = Ok w' -> sender_starved w'.
Proof.
  intros Hi Hs E. destruct ev; cbn [Pipeline.step] in E.
  - unfold rx_step in E. run_step E; by eapply starved_other.
  - unfold dec_step in E. run_step E; by eapply starved_other.
  - unfold eng_step, eng_poll in E. run_step E; by eapply starved_other.
  - destruct Hs as ([r Epc] & Hf & Hfl). unfold tx_step in E. rewrite Epc, Hf in E. cbn [Z.eqb] in E.
    destruct (UringSender.drain_completions (w_tx w)) as [s1|] eqn:Es; [|done]. injection E as <-.
    destruct (drain_starved _ _ (iv_tx _ _ _ _ _ _ _ _ _ _ _ Hi) Hf Hfl Es). split; [by eexists|done].
  - destruct (main_step_pc w) as [pc Epc]. rewrite Epc in E. injection E as <-. by eapply starved_other.
  - unfold signal_handler in E. run_step E; by eapply starved_other.
  - run_step E. by eapply starved_other.
Qed.

Lemma jammed_step ev v w w' : inv e0 v w -> jammed w -> step ev w = Ok w' -> jammed w'.
Proof.
  intros Hi [Hh|[Hh|Hh]] E.
  - left. by eapply outbound_jam_step.
  - right. left. by eapply inbound_jam_step.
  - right. right. by eapply starved_step.
Qed.

Lemma jammed_stale seen ev w w' : jammed w -> stale_step seen ev w = Ok w' -> jammed w'.
Proof.
  unfold jammed, outbound_jam, inbound_jam, sender_starved.
  intros Hj E. unfold Pipeline.stale_step, eng_poll, tx_begin in E.
  run_step E; cbn; try done; destruct Hj as [(? & (? & ? & ?) & ?)|[(? & (? & ? & ? & ? & ?) & ?)|([? ?] & ? & ?)]];
    simplify_eq; try congruence; eauto 12.
Qed.

Lemma jammed_reach v w w' :
  asserts_enabled = false -> inv e0 v w -> jammed w -> weak_reach w w' -> jammed w'.
Proof.
  intros Hrel Hi Hh Hr. induction Hr as [|ev w1 w2 Hr IH Hen E|seen ev w1 w2 Hr IH Hs E]; [done|..].
  - destruct (weak_reach_inv _ _ _ _ _ _ _ _ Hdepth _ _ _ _ Hrel Hi Hr) as [v1 Hi1]. by eapply jammed_step.
  - by eapply jammed_stale.
Qed.

(** One of the workers of a hung daemon has not exited. *)
Lemma hung_not_exited w : hung w -> ~ Forall (fun ev => exited ev w = true) workers.
Proof.
  unfold workers. rewrite !Forall_cons. cbn [exited]. intros Hh (_ & Ht & Hd & He & _).
  destruct Hh as [(_ & (r & rs & E) & _)|[(_ & (x & xs & b & k & E) & _)|[_ E]]].
  - by rewrite E in He.
  - by rewrite E in Hd.
  - by destruct (w_tx_pc w).
Qed.

(** Which workers the main thread has joined. *)
Definition joined (pc : main_pc) : list event :=
  match pc with
  | Supervise | JoinReceiver => []
  | JoinSender => [Receiver]
  | JoinDecoder => [Receiver; SenderT]
  | JoinMatching => [Receiver; SenderT; DecoderT]
  | Returned => workers
  end.

Definition joined_exited w : Prop := Forall (fun ev => exited ev w = true) (joined (w_main w)).

Lemma exited_step ev w w' ev' : step ev w = Ok w' -> exited ev' w = true -> exited ev' w' = true.
Proof.
  intros E Hx. destruct ev; cbn [Pipeline.step] in E.
  - unfold rx_step in E. run_step E; destruct ev'; cbn in *; repeat case_match; congruence.
  - unfold dec_step in E. run_step E; destruct ev'; cbn in *; repeat case_match; congruence.
  - unfold eng_step, eng_poll in E. run_step E; destruct ev'; cbn in *; repeat case_match; congruence.
  - unfold tx_step, tx_begin in E. run_step E; destruct ev'; cbn in *; repeat case_match; congruence.
  - destruct (main_step_pc w) as [pc Epc]. rewrite Epc in E. injection E as <-. by destruct ev'.
  - unfold signal_handler in E. run_step E; destruct ev'; cbn in *; repeat case_match; congruence.
  - run_step E; destruct ev'; cbn in *; repeat case_match; congruence.
Qed.

Lemma joined_step ev w w' : joined_exited w -> step ev w = Ok w' -> joined_exited w'.
Proof.
  intros Hj E.
  assert (Forall (fun ev => exited ev w' = true) (joined (w_main w))) as Hj'
    by (eapply Forall_impl; [exact Hj|]; intros ev'; by eapply exited_step).
  destruct (decide (w_main w' = w_main w)) as [Em|Em]; [unfold joined_exited; by rewrite Em|].
  destruct ev; cbn [Pipeline.step] in E.
  - unfold rx_step in E. by run_step E.
  - unfold dec_step in E. by run_step E.
  - unfold eng_step, eng_poll in E. by run_step E.
  - unfold tx_step, tx_begin in E. by run_step E.
  - injection E as <-. unfold joined_exited, joined, workers in *. unfold main_step, join in *.
    destruct (w_main w) eqn:Epc; cbn in *.
    + destruct (w_running w); [by rewrite Epc|constructor].
    + destruct (w_rx_pc w) eqn:Ex; cbn in *; try (by rewrite Epc). repeat constructor; cbn; by rewrite ?Ex.
    + destruct (w_tx_pc w) eqn:Ex; cbn in *; try (by rewrite Epc).
      rewrite !Forall_cons in *. cbn. rewrite Ex. by destruct Hj' as [? _].
    + destruct (w_dec_pc w) eqn:Ex; cbn in *; try (by rewrite Epc).
      rewrite !Forall_cons in *. cbn. rewrite Ex. by destruct Hj' as (? & ? & _).
    + destruct (w_eng_pc w) eqn:Ex; cbn in *; try (by rewrite Epc).
      rewrite !Forall_cons in *. cbn. rewrite Ex. by destruct Hj' as (? & ? & ? & _).
    + by rewrite Epc.
  - unfold signal_handler in E. by run_step E.
  - by run_step E.
Qed.

Lemma joined_stale seen ev w w' : joined_exited w -> stale_step seen ev w = Ok w' -> joined_exited w'.
Proof.
  intros Hj E. unfold joined_exited in *.
  assert (w_main w' = w_main w) as ->
    by (unfold Pipeline.stale_step, eng_poll, tx_begin in E; by run_step E).
  eapply Forall_impl; [exact Hj|]. intros ev' Hx. unfold Pipeline.stale_step, eng_poll, tx_begin in E.
  run_step E; destruct ev'; cbn in *; repeat case_match; congruence.
Qed.

Lemma joined_reach w w' : joined_exited w -> weak_reach w w' -> joined_exited w'.
Proof. induction 2; [done|by eapply joined_step|by eapply joined_stale]. Qed.

(** ** Who can be waiting *)

Lemma buffers_out_le v w : inv e0 v w -> (length (buffers_out v w) <= 64)%nat.
Proof.
  intros Hi. pose proof (owned_length _ _ _ _ _ _ (ri_own _ _ _ _ (iv_rx _ _ _ _ _ _ _ _ _ _ _ Hi))) as Hl.
  rewrite app_nil_r in Hl. lia.
Qed.

(** There are fewer buffers than places in the two queues that carry them. *)
Lemma receiver_never_waits v w : inv e0 v w -> 64 <= Nraw -> waiting Receiver w = false.
Proof.
  intros Hi HN. pose proof (buffers_out_le _ _ Hi) as Hl. unfold buffers_out in Hl.
  cbn [waiting]. destruct (w_rx_pc w) eqn:Epc; try done.
  rewrite (full_rep _ _ _ (iv_raw _ _ _ _ _ _ _ _ _ _ _ Hi)). apply bool_decide_eq_false. intros Hf.
  rewrite !length_app, length_fmap, length_app in Hl. cbn in Hl. lia.
Qed.

Lemma return_never_waits v w buf_id turns :
  inv e0 v w -> 64 <= Nret -> w_dec_pc w = DecPost [] buf_id turns -> waiting DecoderT w = false.
Proof.
  intros Hi HN Epc. pose proof (buffers_out_le _ _ Hi) as Hl. unfold buffers_out in Hl.
  cbn [waiting]. rewrite Epc in *.
  rewrite (full_rep _ _ _ (iv_ret _ _ _ _ _ _ _ _ _ _ _ Hi)). apply bool_decide_eq_false. intros Hf.
  rewrite !length_app in Hl. cbn in Hl. lia.
Qed.

(** The sender waits, and the kernel has a SEND to complete. *)
Definition awaits_kernel w : Prop :=
  waiting SenderT w = true /\ flight (UringSender.ring_ (w_tx w)) <> [].

Lemma sender_outcome w :
  waiting SenderT w = true -> sender_doomed w \/ awaits_kernel w.
Proof.
  intros Hw. destruct (flight (UringSender.ring_ (w_tx w))) as [|q l] eqn:Ef.
  - left. cbn [waiting] in Hw. destruct (w_tx_pc w) as [| |r|] eqn:Epc; try done.
    apply Z.eqb_eq in Hw. split; [done|]. rewrite Epc. lia.
  - right. split; [done|]. by rewrite Ef.
Qed.

Lemma matching_outcome w :
  waiting Matching w = true -> exited SenderT w = true -> outbound_jam w.
Proof.
  cbn [waiting exited]. intros Hw Hx. destruct (w_eng_pc w) as [|[|r rs]|] eqn:Epc; try done.
  destruct (w_tx_pc w) eqn:Et; try done. by split_and!; [|exists r, rs|].
Qed.

(** When every worker has exited or is waiting. *)
Lemma idle_outcome v w :
  inv e0 v w -> 64 <= Nraw -> 64 <= Nret ->
  Forall (fun ev => (exited ev w || waiting ev w) = true) workers ->
  Forall (fun ev => exited ev w = true) workers \/ hung w \/ awaits_kernel w.
Proof.
  intros Hi HNr HNt Hall. unfold workers in Hall. rewrite !Forall_cons in Hall.
  destruct Hall as (Hrx & Htx & Hdec & Heng & _).
  rewrite (receiver_never_waits _ _ Hi HNr), orb_false_r in Hrx.
  destruct (waiting SenderT w) eqn:Ewt.
  { destruct (sender_outcome w Ewt) as [?|?]; [|by auto]. right. left. right. by right. }
  rewrite orb_false_r in Htx. destruct (waiting Matching w) eqn:Ewe.
  { right. left. left. by apply matching_outcome. }
  rewrite orb_false_r in Heng. destruct (waiting DecoderT w) eqn:Ewd.
  - right. left. right. left. destruct (w_dec_pc w) as [| |[|m ms] b k|] eqn:Epc;
      try (cbn [waiting] in Ewd; by rewrite Epc in Ewd).
    + by rewrite (return_never_waits _ _ _ _ Hi HNt Epc) in Ewd.
    + cbn [waiting exited] in *. rewrite Epc in Ewd. destruct (w_eng_pc w) eqn:Ee; try done.
      by split_and!; [|exists m, ms, b, k|].
  - rewrite orb_false_r in Hdec. left. unfold workers. by repeat constructor.
Qed.

End hang.
