(* ===== verification/PipelineFair.v ===== *)
(** * Fair runs of the daemon

    The operating system schedules every thread again and again.  A run is a
    function from the natural numbers to states with the schedule as a second
    function, fair when each thread is scheduled infinitely often.  After the
    signal every fair run settles: the work that is left never grows, and a
    worker that has something to do is still able to do it when its turn
    comes. *)

From stdpp Require Import base numbers list gmap fin_maps.
From Stdlib Require Import ZArith Lia.
From S2P Require Import Prelude.
From S2P Require Import SPSCQueue.
From S2P Require Import Sink.
From S2P Require Import MatchingEngine.
From S2P Require Import WireProtocol.
From S2P Require Import Decoder.
From S2P Require Import DecoderProps.
From S2P Require Import Uring.
From S2P Require UringSender.
From S2P Require UringReceiver.
From S2P Require Import UringSenderProps.
From S2P Require Import UringReceiverProps.
From S2P Require Import Pipeline.
From S2P Require Import PipelineInv.
From S2P Require Import PipelineShutdown.
From S2P Require Import PipelineHang.

#[export] Instance event_eq_dec : EqDecision event.
Proof. solve_decision. Defined.

Section fair.
Context `{Build} {U : Type} `{Uring U}.
Context (Capacity : nat) (clock_gettime : nat -> Z * Z) (recv_bufs_ send_bufs_ : nat).
Context (Nraw Nret Nin Nout : Z).

Implicit Types (w : world U) (v : view) (r : nat -> world U) (sched : nat -> event).

#[local] Abbreviation step := (step Capacity clock_gettime recv_bufs_ send_bufs_ Nraw Nret Nin Nout).
#[local] Abbreviation reach := (reach Capacity clock_gettime recv_bufs_ send_bufs_ Nraw Nret Nin Nout).
#[local] Abbreviation inv := (inv Capacity clock_gettime recv_bufs_ send_bufs_ Nraw Nret Nin Nout).
#[local] Abbreviation waiting := (waiting Nraw Nret Nin Nout).
#[local] Abbreviation awaits_kernel := (awaits_kernel Nraw Nret Nin Nout).
#[local] Abbreviation hung := (hung Nin Nout).

(** The threads of the process. *)
Definition threads : list event := Main :: workers.

Record fair_run r sched : Prop := {
  fr_enabled : forall n, enabled (sched n) (r n);
  fr_step : forall n, step (sched n) (r n) = Ok (r (S n));
  fr_fair : forall ev n, ev ∈ threads -> exists k, sched (n + k)%nat = ev
}.

(** The kernel completes SENDs: a sender that waits for it does not wait for
    ever. *)
Definition responsive r : Prop :=
  forall n, awaits_kernel (r n) -> exists k, waiting SenderT (r (n + k)%nat) = false.

(** ** Every state has a fair run

    The threads in turn, each event a step of the model. *)
Definition turn (n : nat) : event :=
  default Main (threads !! (n mod 5)%nat).

Fixpoint trace sched w (n : nat) : world U :=
  match n with
  | O => w
  | S n => match step (sched n) (trace sched w n) with Ok w' => w' | _ => trace sched w n end
  end.

Context (Hdepth : sq_depth (U := U) (Z.to_nat 256)) (e0 : Engine (list ExecutionReport)).
Context (Hrel : asserts_enabled = false).

Lemma turn_thread n : turn n ∈ threads.
Proof using.
  unfold turn. destruct (threads !! _) as [ev|] eqn:E; [by eapply list_elem_of_lookup_2|by left].
Qed.

Lemma turn_enabled n w : enabled (turn n) w.
Proof using.
  pose proof (turn_thread n) as E. generalize dependent (turn n). intros ev E.
  unfold threads, workers in E. repeat (apply elem_of_cons in E as [->|E]; [done|]). by apply elem_of_nil in E.
Qed.

Lemma turn_fair ev n : ev ∈ threads -> exists k, turn (n + k) = ev.
Proof.
  intros [i Hi]%list_elem_of_lookup_1. pose proof (lookup_lt_Some _ _ _ Hi) as Hlt.
  exists (i + 4 * n)%nat. unfold turn. replace (n + (i + 4 * n))%nat with (i + n * 5)%nat by lia.
  rewrite Nat.Div0.mod_add, Nat.mod_small by exact Hlt. by rewrite Hi.
Qed.

Lemma fair_run_exists v w : inv e0 v w -> fair_run (trace turn w) turn.
Proof.
  intros Hi.
  assert (forall n, exists vn, inv e0 vn (trace turn w n)) as Hall.
  { induction n as [|n [vn IH]]; [by exists v|]. cbn [trace].
    destruct (daemon_step_inv _ _ _ _ _ _ _ _ Hdepth _ (turn n) vn _ Hrel IH (turn_enabled _ _))
      as (w' & v' & E & Hi'). rewrite E. by exists v'. }
  split; [intros n; apply turn_enabled| |intros ev n; apply turn_fair].
  intros n. destruct (Hall n) as [vn Hn]. cbn [trace].
  destruct (daemon_step_inv _ _ _ _ _ _ _ _ Hdepth _ (turn n) vn _ Hrel Hn (turn_enabled _ _))
    as (w' & v' & E & Hi'). by rewrite E.
Qed.

(** No turn is a signal. *)
Lemma trace_running w n : w_running (trace turn w n) = w_running w.
Proof using.
  induction n as [|n IH]; [done|]. cbn [trace].
  destruct (step (turn n) (trace turn w n)) as [w'|] eqn:E; [|done].
  rewrite <- IH. eapply running_step; [|exact E]. intros signum Hs. pose proof (turn_thread n) as Ht. rewrite Hs in Ht.
  unfold threads, workers in Ht. repeat (apply elem_of_cons in Ht as [Ht|Ht]; [done|]). by apply elem_of_nil in Ht.
Qed.

(** ** Turns *)

(** A worker that would do something if it were scheduled. *)
Definition ready (ev : event) w : Prop := (exited ev w || waiting ev w) = false.

(** A step that does none of the work leaves the other workers ready. *)
Lemma ready_idle ev ev' v w w' :
  inv e0 v w -> ready ev w -> ev <> ev' -> (exited ev' w || waiting ev' w) = true -> step ev' w = Ok w' ->
  ready ev w'.
Proof.
  unfold ready. intros Hi Hr Hne Hidle E. destruct ev'; cbn [exited waiting Pipeline.step orb] in *; try done.
  - unfold rx_step in E. destruct (w_rx_pc w); try done; [|by injection E as <-].
    rewrite (full_push _ _ _ Hidle) in E. injection E as <-. by destruct ev.
  - unfold dec_step in E. destruct (w_dec_pc w) as [| |[|m ms] ? ?|]; try done; [..|by injection E as <-];
      rewrite (full_push _ _ _ Hidle) in E; injection E as <-; by destruct ev.
  - unfold eng_step in E. destruct (w_eng_pc w) as [|[|x xs]|]; try done; [|by injection E as <-].
    rewrite (full_push _ _ _ Hidle) in E. injection E as <-. by destruct ev.
  - unfold tx_step in E. destruct (w_tx_pc w); try done; [|by injection E as <-].
    cbn [orb] in Hidle. rewrite Hidle in E.
    destruct (drain_completions_spec send_bufs_ _ (iv_tx _ _ _ _ _ _ _ _ _ _ _ Hi)) as (s1 & Es & []).
    rewrite Es in E. injection E as <-. destruct ev; try done. cbn in *. by rewrite dr_out.
Qed.

Lemma ready_other ev ev' w w' :
  ready ev w -> is_worker ev' = false -> step ev' w = Ok w' -> ready ev w'.
Proof.
  unfold ready. intros Hr Hw E. destruct ev'; try done; cbn [Pipeline.step] in E.
  - destruct (main_step_pc w) as [pc Epc]. rewrite Epc in E. injection E as <-. by destruct ev.
  - unfold signal_handler in E. run_step E; by destruct ev.
  - run_step E. by destruct ev.
Qed.

(** A sender that has exited waits for nothing. *)
Lemma exited_responsive r sched : fair_run r sched -> exited SenderT (r 0%nat) = true -> responsive r.
Proof using.
  intros Hf Hx n [Hw _].
  assert (exited SenderT (r n) = true) as Hn.
  { clear Hw. induction n as [|n IH]; [done|]. by eapply exited_step, IH; apply (fr_step _ _ Hf). }
  cbn [PipelineShutdown.waiting exited] in *. by destruct (w_tx_pc (r n)).
Qed.

(** The sender's own state is its own. *)
Lemma tx_other ev w w' :
  ev <> SenderT -> step ev w = Ok w' ->
  w_tx_pc w' = w_tx_pc w /\ UringSender.ring_ (w_tx w') = UringSender.ring_ (w_tx w) /\
  UringSender.free_count_ (w_tx w') = UringSender.free_count_ (w_tx w).
Proof using.
  intros Hne E. destruct ev; cbn [Pipeline.step] in E; try done.
  - unfold rx_step in E. by run_step E.
  - unfold dec_step in E. by run_step E.
  - unfold eng_step, eng_poll in E. by run_step E.
  - destruct (main_step_pc w) as [pc Epc]. rewrite Epc in E. by injection E as <-.
  - unfold signal_handler in E. by run_step E.
  - by run_step E.
Qed.

Lemma waiting_other ev w w' :
  ev <> SenderT -> step ev w = Ok w' -> waiting SenderT w' = waiting SenderT w.
Proof using.
  intros Hne E. destruct (tx_other _ _ _ Hne E) as (E1 & _ & E2). cbn [PipelineShutdown.waiting].
  by rewrite E1, E2.
Qed.

(** ** Runs *)

Context r sched (Hfair : fair_run r sched) (Hinv : exists v, inv e0 v (r 0%nat)).

Lemma run_inv n : exists v, inv e0 v (r n).
Proof using Hfair Hinv Hrel Hdepth.
  induction n as [|n [v IH]]; [done|]. pose proof (fr_step _ _ Hfair n) as E.
  destruct (daemon_step_inv _ _ _ _ _ _ _ _ Hdepth _ _ v _ Hrel IH (fr_enabled _ _ Hfair n))
    as (w' & v' & E' & Hi'). rewrite E' in E. injection E as <-. by exists v'.
Qed.

(** A kernel that has completed everything by the time the completion queue
    is found empty. *)
Definition prompt : Prop := forall u u' : U, peek_cqe u = (u', None) -> flight u' = [].

Lemma prompt_drained fuel (s s' : UringSender.UringSender U) :
  prompt -> UringSender.drain_loop fuel s = Ok s' -> flight (UringSender.ring_ s') = [].
Proof using.
  intros Hp. revert s. induction fuel as [|fuel IH]; intros s E; [done|]. cbn [UringSender.drain_loop] in E.
  destruct (peek_cqe (UringSender.ring_ s)) as [u [c|]] eqn:Ep.
  - cbv zeta in E. destruct (UringSender.free_send_buf _ _) as [s3|]; [|done]. by eapply IH.
  - injection E as <-. by eapply Hp.
Qed.

Lemma prompt_frees v w w' :
  prompt -> inv e0 v w -> awaits_kernel w -> step SenderT w = Ok w' -> waiting SenderT w' = false.
Proof using.
  intros Hp Hi [Hw Hfl] E. pose proof (iv_tx _ _ _ _ _ _ _ _ _ _ _ Hi) as Htx.
  cbn [Pipeline.step PipelineShutdown.waiting] in *. unfold tx_step in E.
  destruct (w_tx_pc w) as [| |x|] eqn:Epc; try done. rewrite Hw in E. apply Z.eqb_eq in Hw.
  destruct (drain_completions_spec send_bufs_ _ Htx) as (s1 & Ed & []). rewrite Ed in E.
  injection E as <-. cbn. apply prompt_drained in Ed; [|done]. apply Z.eqb_neq.
  rewrite (ti_free _ _ dr_inv). rewrite (ti_free _ _ Htx) in Hw. unfold slots, outstanding in *.
  rewrite !length_fmap, !length_app in *. rewrite Ed, dr_queued.
  destruct (flight (UringSender.ring_ (w_tx w))); [done|]. cbn [length] in *. lia.
Qed.

Lemma prompt_responsive : prompt -> responsive r.
Proof using Hfair Hinv Hrel Hdepth.
  intros Hp n Hk. destruct (fr_fair _ _ Hfair SenderT n) as [k Es]; [by repeat constructor|].
  revert n Es Hk. induction k as [|k IH]; intros n Es Hk;
    pose proof (fr_step _ _ Hfair n) as E; destruct (run_inv n) as [v Hi].
  - rewrite Nat.add_0_r in Es. rewrite Es in E. exists 1%nat. rewrite Nat.add_1_r. by eapply prompt_frees.
  - destruct (decide (sched n = SenderT)) as [Ee|Ee].
    { rewrite Ee in E. exists 1%nat. rewrite Nat.add_1_r. by eapply prompt_frees. }
    rewrite Nat.add_succ_r, <- Nat.add_succ_l in Es. destruct (IH (S n) Es) as [j Hj].
    + destruct (tx_other _ _ _ Ee E) as (_ & Er & _). destruct Hk as [Hw Hfl].
      split; [by rewrite (waiting_other _ _ _ Ee E)|by rewrite Er].
    + exists (S j). by rewrite Nat.add_succ_r.
Qed.

(** ** After the signal *)

Context (Hrun : w_running (r 0%nat) = false).

Lemma run_stopped n : w_running (r n) = false.
Proof using Hfair Hrun.
  induction n as [|n IH]; [done|]. by eapply step_running, (fr_step _ _ Hfair).
Qed.

(** A step does some of the work, or leaves it and the other workers alone. *)
Lemma turn_work n :
  (work (r (S n)) < work (r n))%nat \/
  (work (r (S n)) = work (r n) /\ ~ ready (sched n) (r n) /\
    forall ev, ev <> sched n -> ready ev (r n) -> ready ev (r (S n))) \/
  (work (r (S n)) = work (r n) /\ is_worker (sched n) = false /\
    forall ev, ready ev (r n) -> ready ev (r (S n))).
Proof using Hfair Hinv Hrun Hrel Hdepth.
  destruct (run_inv n) as [v Hi]. pose proof (run_stopped n) as Hr. pose proof (fr_step _ _ Hfair n) as E.
  pose proof (step_work _ _ _ _ _ _ _ _ Hdepth _ _ _ _ _ Hrel Hi Hr (fr_enabled _ _ Hfair n) E) as Hw.
  destruct (is_worker (sched n)) eqn:Ew.
  - destruct Hw as [Hw|[Hidle Hw]]; [by left|right; left]. split; [done|]. split; [unfold ready; congruence|].
    intros ev Hne Hev. by eapply ready_idle.
  - right. right. split; [done|]. split; [done|]. intros ev Hev. by eapply ready_other.
Qed.

Lemma work_mono n k : (work (r (n + k)%nat) <= work (r n))%nat.
Proof using Hfair Hinv Hrun Hrel Hdepth.
  induction k as [|k IH]; [by rewrite Nat.add_0_r|]. rewrite Nat.add_succ_r.
  destruct (turn_work (n + k)) as [?|[[? _]|[? _]]]; lia.
Qed.

(** A ready worker gets its turn. *)
Lemma ready_works ev n :
  ev ∈ workers -> ready ev (r n) -> exists m, (n <= m)%nat /\ (work (r m) < work (r n))%nat.
Proof using Hfair Hinv Hrun Hrel Hdepth.
  intros Hev. destruct (fr_fair _ _ Hfair ev n) as [k Hk]; [by right|].
  revert n Hk. induction k as [|k IH]; intros n Hk Hr.
  - rewrite Nat.add_0_r in Hk. exists (S n). split; [lia|].
    destruct (turn_work n) as [?|[(_ & Hn & _)|(_ & Hn & _)]]; [done|by rewrite Hk in Hn|].
    rewrite Hk in Hn. unfold workers in Hev.
    repeat (apply elem_of_cons in Hev as [->|Hev]; [done|]). by apply elem_of_nil in Hev.
  - rewrite Nat.add_succ_r, <- Nat.add_succ_l in Hk.
    destruct (turn_work n) as [?|Hsame]; [exists (S n); lia|].
    assert (work (r (S n)) = work (r n) /\ (ready ev (r (S n)))) as [Hw Hr'].
    { destruct Hsame as [(? & Hn & Ho)|(? & _ & Ho)]; (split; [done|]); apply Ho; [congruence|done|done]. }
    destruct (IH (S n) Hk Hr') as (m & ? & ?). exists m. split; lia.
Qed.

(** Every fair run comes to a point at which no worker is ready. *)
Lemma run_settles n :
  exists m, (n <= m)%nat /\ Forall (fun ev => (exited ev (r m) || waiting ev (r m)) = true) workers.
Proof using Hfair Hinv Hrun Hrel Hdepth.
  remember (work (r n)) as k eqn:Ek. revert n Ek. induction (lt_wf k) as [k _ IH]. intros n ->.
  destruct (decide (Forall (fun ev => (exited ev (r n) || waiting ev (r n)) = true) workers)) as [Hall|Hnot].
  { by exists n. }
  apply not_Forall_Exists, Exists_exists in Hnot as (ev & Hev & Hidle); [|solve_decision].
  destruct (ready_works ev n Hev) as (m & Hm & Hlt); [by apply not_true_is_false|].
  destruct (IH _ Hlt m eq_refl) as (m' & ? & ?). exists m'. split; [lia|done].
Qed.

(** ** The sender and the kernel *)

Lemma sending_step ev x w w' :
  w_tx_pc w = TxSend x -> (ev = SenderT -> waiting SenderT w = true) -> step ev w = Ok w' ->
  w_tx_pc w' = TxSend x.
Proof using.
  intros Epc Hw E. destruct ev; cbn [Pipeline.step] in E.
  - unfold rx_step in E. by run_step E.
  - unfold dec_step in E. by run_step E.
  - unfold eng_step, eng_poll in E. by run_step E.
  - specialize (Hw eq_refl). cbn [PipelineShutdown.waiting] in Hw. unfold tx_step in E.
    rewrite Epc in *. rewrite Hw in E. by run_step E.
  - destruct (main_step_pc w) as [pc Em]. rewrite Em in E. by injection E as <-.
  - unfold signal_handler in E. by run_step E.
  - by run_step E.
Qed.

(** As long as none of the work is done, the sender has its report. *)
Lemma sending_run x n k :
  w_tx_pc (r n) = TxSend x -> work (r (n + k)%nat) = work (r n) -> w_tx_pc (r (n + k)%nat) = TxSend x.
Proof using Hfair Hinv Hrun Hrel Hdepth.
  intros Epc. induction k as [|k IH]; [by rewrite Nat.add_0_r|]. rewrite Nat.add_succ_r. intros Hw.
  pose proof (work_mono n k) as Hm. pose proof (work_mono (n + k) 1) as Hm1.
  rewrite Nat.add_1_r in Hm1.
  assert (w_tx_pc (r (n + k)%nat) = TxSend x) as Epc' by (apply IH; lia).
  eapply sending_step; [done| |apply (fr_step _ _ Hfair)]. intros Es.
  destruct (turn_work (n + k)) as [?|[(_ & Hn & _)|(_ & Hn & _)]]; [lia| |by rewrite Es in Hn].
  rewrite Es in Hn. apply not_false_is_true in Hn. cbn [exited] in Hn. by rewrite Epc' in Hn.
Qed.

Context (HNraw : 64 <= Nraw) (HNret : 64 <= Nret) (Hkernel : responsive r).

(** With a kernel that completes SENDs, the workers exit or the daemon hangs. *)
Lemma run_outcome n :
  exists m, (n <= m)%nat /\ (Forall (fun ev => exited ev (r m) = true) workers \/ hung (r m)).
Proof using Hfair Hinv Hrun Hrel Hdepth HNraw HNret Hkernel.
  remember (work (r n)) as k eqn:Ek. revert n Ek. induction (lt_wf k) as [k _ IH]. intros n ->.
  assert (forall m, (n <= m)%nat -> (work (r m) < work (r n))%nat -> exists m', (n <= m')%nat /\
    (Forall (fun ev => exited ev (r m') = true) workers \/ hung (r m'))) as Hlater.
  { intros m Hm Hlt. destruct (IH _ Hlt m eq_refl) as (m' & ? & ?). exists m'. split; [lia|done]. }
  destruct (run_settles n) as (m & Hm & Hall). destruct (run_inv m) as [v Hi].
  destruct (idle_outcome _ _ _ _ _ _ _ _ _ _ _ Hi HNraw HNret Hall) as [?|[?|Hk]]; [by eauto..|].
  pose proof (work_mono n (m - n)) as Hmn. replace (n + (m - n))%nat with m in Hmn by lia.
  destruct (Hkernel m Hk) as [j Hj]. pose proof (work_mono m j) as Hmj.
  destruct (decide (work (r (m + j)%nat) = work (r m))) as [Hw|Hw]; [|apply (Hlater (m + j)%nat); lia].
  destruct Hk as [Hwait _]. cbn [PipelineShutdown.waiting] in Hwait. destruct (w_tx_pc (r m)) as [| |x|] eqn:Epc; try done.
  pose proof (sending_run x m j Epc Hw) as Epc'.
  destruct (ready_works SenderT (m + j)) as (m' & ? & ?);
    [by set_solver|by unfold ready; rewrite Hj; cbn [exited]; rewrite Epc'|apply (Hlater m'); lia].
Qed.

(** ** The main thread *)

Definition joins_left (pc : main_pc) : nat :=
  match pc with
  | Supervise => 5
  | JoinReceiver => 4
  | JoinSender => 3
  | JoinDecoder => 2
  | JoinMatching => 1
  | Returned => 0
  end.

Lemma other_main ev w w' : ev <> Main -> step ev w = Ok w' -> w_main w' = w_main w.
Proof using.
  intros Hne E. destruct ev; cbn [Pipeline.step] in E; [| | | |done|..].
  - unfold rx_step in E. by run_step E.
  - unfold dec_step in E. by run_step E.
  - unfold eng_step, eng_poll in E. by run_step E.
  - unfold tx_step, tx_begin in E. by run_step E.
  - unfold signal_handler in E. by run_step E.
  - by run_step E.
Qed.

(** When all have exited, each of the main thread's steps is one of its joins. *)
Lemma main_joins w :
  w_running w = false -> Forall (fun ev => exited ev w = true) workers ->
  joins_left (w_main (main_step w)) = pred (joins_left (w_main w)).
Proof using.
  unfold workers. rewrite !Forall_cons. cbn [exited]. intros Hr (H1 & H2 & H3 & H4 & _).
  unfold main_step, join. destruct (w_main w) eqn:Em; rewrite ?Hr, ?H1, ?H2, ?H3, ?H4; cbn; by rewrite ?Em.
Qed.

Lemma exited_run n k :
  Forall (fun ev => exited ev (r n) = true) workers ->
  Forall (fun ev => exited ev (r (n + k)%nat) = true) workers.
Proof using Hfair.
  intros Hx. induction k as [|k IH]; [by rewrite Nat.add_0_r|]. rewrite Nat.add_succ_r.
  eapply Forall_impl; [exact IH|]. intros ev. by eapply exited_step, (fr_step _ _ Hfair).
Qed.

Lemma main_turn n :
  Forall (fun ev => exited ev (r n) = true) workers ->
  exists k, joins_left (w_main (r (n + k)%nat)) = pred (joins_left (w_main (r n))).
Proof using Hfair Hinv Hrun Hrel Hdepth.
  intros Hx. destruct (fr_fair _ _ Hfair Main n) as [k Hk]; [by left|].
  revert n Hx Hk. induction k as [|k IH]; intros n Hx Hk; pose proof (fr_step _ _ Hfair n) as E.
  - rewrite Nat.add_0_r in Hk. rewrite Hk in E. injection E as E. exists 1%nat. rewrite Nat.add_1_r, <- E.
    apply main_joins; [|done]. apply run_stopped.
  - destruct (decide (w_main (r (S n)) = w_main (r n))) as [Em|Em].
    + rewrite Nat.add_succ_r, <- Nat.add_succ_l in Hk. rewrite <- Em.
      destruct (IH (S n)) as [j Hj]; [by rewrite <- Nat.add_1_r; apply exited_run|done|].
      exists (S j). by rewrite Nat.add_succ_r.
    + exists 1%nat. rewrite Nat.add_1_r. destruct (sched n) eqn:Es;
        try (exfalso; apply Em; by eapply other_main; [|exact E]).
      injection E as E. rewrite <- E. apply main_joins; [|done]. apply run_stopped.
Qed.

Lemma main_joins_all n :
  Forall (fun ev => exited ev (r n) = true) workers -> exists m, (n <= m)%nat /\ w_main (r m) = Returned.
Proof using Hfair Hinv Hrun Hrel Hdepth.
  remember (joins_left (w_main (r n))) as j eqn:Ej. revert n Ej.
  induction j as [|j IH]; intros n Ej Hx.
  - exists n. split; [done|]. by destruct (w_main (r n)).
  - destruct (main_turn n Hx) as [k Hk]. rewrite <- Ej in Hk.
    destruct (IH (n + k)%nat) as (m & ? & ?); [done|by apply exited_run|]. exists m. split; [lia|done].
Qed.

(** ** For good *)

Lemma returned_run n k : w_main (r n) = Returned -> w_main (r (n + k)%nat) = Returned.
Proof using Hfair.
  intros Hm. induction k as [|k IH]; [by rewrite Nat.add_0_r|]. rewrite Nat.add_succ_r.
  pose proof (fr_step _ _ Hfair (n + k)) as E.
  destruct (sched (n + k)%nat) eqn:Es; try (rewrite <- IH; by eapply other_main; [|exact E]).
  injection E as <-. unfold main_step. by rewrite IH.
Qed.

Lemma hung_run n k : hung (r n) -> hung (r (n + k)%nat).
Proof using Hfair Hinv Hrun Hrel Hdepth.
  intros Hh. induction k as [|k IH]; [by rewrite Nat.add_0_r|]. rewrite Nat.add_succ_r.
  destruct (run_inv (n + k)) as [v Hi]. by eapply hung_step; [|exact Hi| |apply (fr_step _ _ Hfair)].
Qed.

(** In a fair run after the signal [main] returns or the daemon hangs. *)
Lemma fair_outcome :
  exists n, (forall k, w_main (r (n + k)%nat) = Returned) \/ (forall k, hung (r (n + k)%nat)).
Proof using Hfair Hinv Hrun Hrel Hdepth HNraw HNret Hkernel.
  destruct (run_outcome 0) as (m & _ & [Hx|Hh]).
  - destruct (main_joins_all m Hx) as (n & _ & Hm). exists n. left. intros k. by apply returned_run.
  - exists m. right. intros k. by apply hung_run.
Qed.

End fair.
