(* ===== verification/PipelineDrain.v ===== *)
(** * No circular wait

    The threads form a cycle (the decoder returns buffers to the receiver) in
    which each can make the one before it wait.  A running daemon can
    nevertheless always work off everything it has received, by draining the
    stages from the last to the first, unless the sender is stuck for want of
    buffers.

    [can P w] says that the daemon can run on from [w], receiving nothing
    new, to a state in which [P] holds or the sender is stuck; its rules
    compose such runs. *)

From stdpp Require Import base numbers list gmap fin_maps.
From Stdlib Require Import ZArith Lia.
From S2P Require Import Prelude.
From S2P Require Import SPSCQueue.
From S2P Require Import Sink.
From S2P Require Import MatchingEngine.
From S2P Require Import Decoder.
From S2P Require Import DecoderProps.
From S2P Require Import Uring.
From S2P Require UringSender.
From S2P Require UringReceiver.
From S2P Require Import UringSenderProps.
From S2P Require Import UringReceiverProps.
From S2P Require Import Pipeline.
From S2P Require Import PipelineInv.
From S2P Require Import PipelineSequential.
From S2P Require Import PipelineShutdown.
From S2P Require Import PipelineHang.

Section drain.
Context `{Build} {U : Type} `{Uring U}.
Context (Capacity : nat) (clock_gettime : nat -> Z * Z) (recv_bufs_ send_bufs_ : nat).
Context (Nraw Nret Nin Nout : Z).
Context (Hdepth : sq_depth (U := U) (Z.to_nat 256)) (e0 : Engine (list ExecutionReport)).
Context (Hrel : asserts_enabled = false) (HNraw : 64 <= Nraw) (HNret : 64 <= Nret).

Implicit Types (w : world U) (v : view) (P Q : world U -> Prop).

#[local] Abbreviation step := (step Capacity clock_gettime recv_bufs_ send_bufs_ Nraw Nret Nin Nout).
#[local] Abbreviation reach := (reach Capacity clock_gettime recv_bufs_ send_bufs_ Nraw Nret Nin Nout).
#[local] Abbreviation stale_step := (stale_step Capacity clock_gettime Nin).
#[local] Abbreviation weak_reach :=
  (weak_reach Capacity clock_gettime recv_bufs_ send_bufs_ Nraw Nret Nin Nout).
#[local] Abbreviation inv := (inv Capacity clock_gettime recv_bufs_ send_bufs_ Nraw Nret Nin Nout e0).
#[local] Abbreviation outq w := (UringSender.out_queue_ (w_tx w)).
#[local] Abbreviation inq w := (e_inbound (w_eng w)).

(** ** Running on *)

(** A worker exits only when the flag is down. *)
Definition alive w : Prop := Forall (fun ev => exited ev w = false) workers.

Definition good w : Prop := (exists v, inv v w) /\ w_running w = true /\ alive w.

Definition stuck w : Prop := sender_doomed w \/ awaits_kernel Nraw Nret Nin Nout w.

Definition can P w : Prop :=
  exists w', reach w w' /\ w_received w' = w_received w /\ w_running w' = true /\ (stuck w' \/ (good w' /\ P w')).

Lemma stays_step ev' ev w w' :
  exited ev' w = false -> w_running w = true -> step ev w = Ok w' -> exited ev' w' = false.
Proof.
  intros Hx Hrun E. destruct ev; cbn [Pipeline.step] in E.
  - unfold rx_step in E. rewrite Hrun in E. run_step E; destruct ev'; cbn in *; repeat case_match; congruence.
  - unfold dec_step in E. rewrite Hrun in E. run_step E; destruct ev'; cbn in *; repeat case_match; congruence.
  - unfold eng_step, eng_poll in E. rewrite Hrun in E. run_step E; destruct ev'; cbn in *; repeat case_match; congruence.
  - unfold tx_step, tx_begin in E. rewrite Hrun in E. run_step E; destruct ev'; cbn in *; repeat case_match; congruence.
  - destruct (main_step_pc w) as [pc Epc]. rewrite Epc in E. injection E as <-. by destruct ev'.
  - unfold signal_handler in E. run_step E; by destruct ev'.
  - run_step E; by destruct ev'.
Qed.

(** A stale read lets no thread exit. *)
Lemma stays_stale seen ev' ev w w' :
  exited ev' w = false -> stale_step seen ev w = Ok w' ->
  exited ev' w' = false /\ w_running w' = w_running w.
Proof.
  intros Hx E. unfold stale_step, eng_poll, tx_begin in E.
  run_step E; destruct ev'; cbn in *; repeat case_match; split; congruence.
Qed.

Lemma stays_reach ev' w w' :
  exited ev' w = false -> weak_reach w w' -> w_running w' = true -> exited ev' w' = false.
Proof.
  intros Hx. induction 1 as [|ev w1 w2 Hr IH Hen E|seen ev w1 w2 Hr IH _ E]; [done|..]; intros Hrun.
  - destruct (w_running w1) eqn:Hrun1; [by eapply stays_step; [apply IH| |]|].
    by rewrite (step_running _ _ _ _ _ _ _ _ _ _ _ Hrun1 E) in Hrun.
  - destruct (w_running w1) eqn:Hrun1; [by eapply stays_stale; [apply IH|]|].
    exfalso. unfold stale_step, eng_poll, tx_begin in E. run_step E; cbn in *; congruence.
Qed.

Lemma alive_step ev w w' :
  alive w -> w_running w = true -> step ev w = Ok w' -> alive w'.
Proof. intros Ha Hrun E. eapply Forall_impl; [exact Ha|]. intros ev' Hx. by apply (stays_step ev' ev w). Qed.

Lemma alive_reach w w' : alive w -> weak_reach w w' -> w_running w' = true -> alive w'.
Proof. intros Ha Hr Hrun. eapply Forall_impl; [exact Ha|]. intros ev' Hx. by apply (stays_reach ev' w). Qed.

Lemma can_now P w : good w -> P w -> can P w.
Proof. intros Hg HP. exists w. split; [constructor|]. split; [done|]. split; [apply Hg|]. by right. Qed.

Lemma can_stuck P w : w_running w = true -> stuck w -> can P w.
Proof. intros Hr Hs. exists w. split; [constructor|]. split; [done|]. split; [done|]. by left. Qed.

Lemma can_bind P Q w : can P w -> (forall w', good w' -> P w' -> can Q w') -> can Q w.
Proof.
  intros (w1 & Hr & Erc & Hrun & [Hs|[Hg HP]]) Hk; [by exists w1; auto|].
  destruct (Hk w1 Hg HP) as (w2 & Hr2 & Erc2 & Hrun2 & Ho). exists w2.
  split; [by eapply reach_trans|]. split; [congruence|]. by split.
Qed.

(** A step of a worker that takes nothing from the kernel. *)
Lemma can_step P ev w w' :
  good w -> is_worker ev = true -> step ev w = Ok w' -> w_received w' = w_received w ->
  (good w' -> can P w') -> can P w.
Proof.
  intros ([v Hi] & Hrun & Ha) Hw E Erc Hk.
  assert (enabled ev w) as Hen by (by destruct ev).
  destruct (daemon_step_inv _ _ _ _ _ _ _ _ Hdepth _ ev v w Hrel Hi Hen) as (w1 & v1 & E1 & Hi1).
  rewrite E in E1. injection E1 as <-.
  assert (w_running w' = true) as Hrun'.
  { rewrite <- Hrun. eapply running_step; [|exact E]. by destruct ev. }
  destruct Hk as (w2 & Hr & Erc2 & Hrun2 & Ho).
  { split; [by eexists|]. split; [done|]. by eapply alive_step. }
  exists w2. split; [|split; [congruence|by split]].
  eapply reach_trans; [eapply reach_step; [constructor|done|done]|done].
Qed.

(** ** The sender *)

(** What the sender and the engine leave alone. *)
Definition front w := (w_rx_pc w, w_raw w, w_dec_pc w).

Lemma can_send w :
  good w ->
  can (fun w' => rlen (outq w') = 0%nat /\ w_eng_pc w' = w_eng_pc w /\ inq w' = inq w /\ front w' = front w) w.
Proof.
  remember (2 * rlen (outq w) + match w_tx_pc w with TxTop | TxSend _ => 1 | _ => 0 end)%nat as n eqn:En.
  revert w En. induction (lt_wf n) as [n _ IH]. intros w -> Hg.
  pose proof Hg as ([v Hi] & Hrun & Ha). pose proof (iv_tx _ _ _ _ _ _ _ _ _ _ _ Hi) as Htx.
  pose proof (iv_out _ _ _ _ _ _ _ _ _ _ _ Hi) as Hr. pose proof (rlen_rep _ _ _ Hr) as Hl.
  (** the rest, after one step *)
  assert (forall w', step SenderT w = Ok w' -> w_received w' = w_received w ->
    (2 * rlen (outq w') + match w_tx_pc w' with TxTop | TxSend _ => 1 | _ => 0 end
     < 2 * rlen (outq w) + match w_tx_pc w with TxTop | TxSend _ => 1 | _ => 0 end)%nat ->
    w_eng_pc w' = w_eng_pc w -> inq w' = inq w -> front w' = front w ->
    can (fun w'' => rlen (outq w'') = 0%nat /\ w_eng_pc w'' = w_eng_pc w /\ inq w'' = inq w /\
                    front w'' = front w) w) as Hnext.
  { intros w' E Erc Hlt E1 E2 E3. eapply (can_step _ SenderT w w'); try done.
    intros Hg'. rewrite <- E1, <- E2, <- E3. by eapply IH. }
  destruct (w_tx_pc w) as [| |r|] eqn:Epc.
  - destruct (drain_completions_spec send_bufs_ _ Htx) as (s1 & Es & []).
    destruct (flush_sqes_spec send_bufs_ s1 dr_inv) as (_ & _ & _ & _ & _ & _ & Eq).
    eapply Hnext; [cbn [Pipeline.step]; unfold tx_step, tx_begin; by rewrite Epc, Hrun, Es| |cbn; rewrite Eq, dr_out|..];
      try done. lia.
  - destruct (try_pop_total Nout (rr_pow _ _ _ Hr) _ _ Hr) as (q & Eq & Hq).
    pose proof (rlen_rep _ _ _ Hq) as Hl'. destruct (v_out v) as [|r out]; cbn [head tail length] in *.
    + by apply can_now.
    + eapply Hnext; [cbn [Pipeline.step]; unfold tx_step; by rewrite Epc, Eq|..]; try done. cbn. lia.
  - destruct (Z.eqb_spec (UringSender.free_count_ (w_tx w)) 0) as [Hf|Hf].
    { apply can_stuck; [done|]. apply sender_outcome. cbn [waiting]. rewrite Epc. by apply Z.eqb_eq. }
    destruct (send_report_spec send_bufs_ Hdepth 0 r (w_tx w) Htx) as (s1 & q & Es & []).
    { pose proof (tx_slots_le _ _ Htx). rewrite (ti_free _ _ Htx) in *. lia. }
    eapply Hnext; [cbn [Pipeline.step]; unfold tx_step; by rewrite Epc, (proj2 (Z.eqb_neq _ _) Hf), Es|..];
      try done. cbn. rewrite so_out. lia.
  - unfold alive, workers in Ha. rewrite !Forall_cons in Ha. cbn in Ha. rewrite Epc in Ha. naive_solver.
Qed.

(** ** The engine *)

(** The engine has nothing to post and the outbound ring is empty. *)
Definition posted w : Prop := w_eng_pc w = EngTop /\ rlen (outq w) = 0%nat.

Lemma can_post w : good w -> can (fun w' => posted w' /\ inq w' = inq w /\ front w' = front w) w.
Proof.
  remember (match w_eng_pc w with EngPost rs => S (length rs) | _ => 0%nat end) as n eqn:En.
  revert w En. induction n as [|n IH]; intros w En Hg; (eapply can_bind; [by apply can_send|]);
    intros w1 Hg1 (Hl & E1 & E2 & E3).
  - apply can_now; [done|]. unfold posted. rewrite E1. pose proof Hg as (_ & _ & Ha).
    destruct (w_eng_pc w) eqn:Epc; [done|done|].
    unfold alive, workers in Ha. rewrite !Forall_cons in Ha. cbn in Ha. rewrite Epc in Ha. naive_solver.
  - destruct (w_eng_pc w) as [|rs|] eqn:Epc; [done| |done]. injection En as En.
    pose proof Hg1 as ([v Hi] & _). pose proof (iv_out _ _ _ _ _ _ _ _ _ _ _ Hi) as Hr.
    destruct rs as [|r rs]; cbn [length] in En; subst n.
    + eapply (can_step _ Matching w1); [done|done|cbn [Pipeline.step]; unfold eng_step; by rewrite E1|done|].
      intros Hg2. apply can_now; [done|]. by split; [split|].
    + destruct (try_push_total Nout (rr_pow _ _ _ Hr) _ _ r Hr) as (q & ok & Eq & _ & Hfull).
      assert (ok = true) as ->.
      { destruct ok; [done|]. destruct (Hfull eq_refl) as [_ Hn].
        rewrite (rlen_rep _ _ _ Hr) in Hl. pose proof (N_pos _ (rr_pow _ _ _ Hr)). lia. }
      eapply (can_step _ Matching w1);
        [done|done|cbn [Pipeline.step]; unfold eng_step; by rewrite E1, Eq|done|].
      intros Hg2. rewrite <- E2, <- E3. by refine (IH _ _ Hg2).
Qed.

(** The inbound ring is empty too. *)
Definition matched w : Prop := posted w /\ rlen (inq w) = 0%nat.

Lemma can_match w : good w -> can (fun w' => matched w' /\ front w' = front w) w.
Proof.
  remember (rlen (inq w)) as n eqn:En. revert w En. induction (lt_wf n) as [n _ IH]. intros w -> Hg.
  eapply can_bind; [by apply can_post|]. intros w1 Hg1 ([Epc Hout] & E2 & E3).
  destruct (decide (rlen (inq w) = 0%nat)) as [Hz|Hnz].
  { apply can_now; [done|]. split; [|done]. split; [by split|]. by rewrite E2. }
  pose proof Hg1 as ([v Hi] & Hrun & _).
  destruct (eng_poll_inv _ _ _ _ _ _ _ _ _ 64 v w1 Hrel Hi Epc ltac:(lia)) as (w2 & v2 & E & Hi2 & Hv2).
  pose proof (rlen_rep _ _ _ (iv_in _ _ _ _ _ _ _ _ _ _ _ Hi)) as L1.
  pose proof (rlen_rep _ _ _ (iv_in _ _ _ _ _ _ _ _ _ _ _ Hi2)) as L2.
  rewrite Hv2, length_drop in L2. rewrite E2 in L1.
  assert (w_received w2 = w_received w1 /\ front w2 = front w1) as [Erc Efr]
    by (unfold eng_poll in E; run_step E; done).
  eapply (can_step _ Matching w1 w2);
    [done|done|by cbn [Pipeline.step]; unfold eng_step; rewrite Epc, Hrun|done|]. intros Hg2. rewrite <- E3, <- Efr.
  eapply IH; [|done|done]. lia.
Qed.

(** ** The decoder *)

(** The decoder is ready to take a span. *)
Definition decoded w : Prop := matched w /\ exists turns, w_dec_pc w = DecPop (S turns).

(** A step of the decoder changes where it is. *)
Lemma can_decode_step P w w' :
  good w -> step DecoderT w = Ok w' -> (good w' -> can P w') -> can P w.
Proof.
  intros Hg E Hk. eapply (can_step _ DecoderT w w'); try done.
  cbn [Pipeline.step] in E. unfold dec_step in E. by run_step E.
Qed.

(** From the top of its loop. *)
Lemma can_decode_top w :
  good w -> dec_pending (w_dec_pc w) = [] -> dec_buf (w_dec_pc w) = [] ->
  can (fun w' => decoded w' /\ w_rx_pc w' = w_rx_pc w /\ w_raw w' = w_raw w) w.
Proof.
  intros Hg. remember (match w_dec_pc w with DecTop => 1%nat | DecPop O => 2%nat | _ => 0%nat end) as n eqn:En.
  revert w En Hg. induction n as [|n IH]; intros w En Hg Hp Hb.
  - eapply can_bind; [by apply can_match|]. intros w1 Hg1 [Hm Hfr]. injection Hfr as E1 E2 E3.
    apply can_now; [done|]. split; [|done]. split; [done|]. rewrite E3. pose proof Hg as (_ & _ & Ha).
    unfold alive, workers in Ha. rewrite !Forall_cons in Ha. cbn in Ha.
    destruct (w_dec_pc w) as [|[|turns]| |]; try done; [by exists turns|naive_solver].
  - pose proof Hg as (_ & Hrun & _). destruct (w_dec_pc w) as [|[|turns]| |] eqn:Epc; try done; injection En as ->.
    + eapply can_decode_step; [done|cbn [Pipeline.step]; unfold dec_step; by rewrite Epc, Hrun|].
      intros Hg'. by refine (IH _ _ Hg' _ _).
    + eapply can_decode_step; [done|cbn [Pipeline.step]; unfold dec_step; by rewrite Epc|].
      intros Hg'. by refine (IH _ _ Hg' _ _).
Qed.

Lemma can_decode w :
  good w -> can (fun w' => decoded w' /\ w_rx_pc w' = w_rx_pc w /\ w_raw w' = w_raw w) w.
Proof.
  remember (length (dec_pending (w_dec_pc w))) as n eqn:En. revert w En.
  induction n as [|n IH]; intros w En Hg; (eapply can_bind; [by apply can_match|]);
    intros w1 Hg1 [Hm Hfr]; injection Hfr as E1 E2 E3; rewrite <- E1, <- E2; rewrite <- E3 in En;
    pose proof Hg1 as ([v Hi] & Hrun & Ha);
    destruct (w_dec_pc w1) as [|turns|[|msg msgs] buf_id turns|] eqn:Epc; try done;
    try (by apply can_decode_top; rewrite ?Epc).
  - pose proof (iv_ret _ _ _ _ _ _ _ _ _ _ _ Hi) as Hr.
    destruct (try_push_total Nret (rr_pow _ _ _ Hr) _ _ buf_id Hr) as (q & ok & Eq & _ & Hfull).
    assert (ok = true) as ->.
    { destruct ok; [done|]. destruct (Hfull eq_refl) as [_ Hn].
      pose proof (return_never_waits _ _ _ _ _ _ _ _ _ _ _ _ _ Hi HNret Epc) as Hw.
      cbn [waiting] in Hw. rewrite Epc, (full_rep _ _ _ Hr) in Hw. by apply bool_decide_eq_false in Hw. }
    eapply can_decode_step; [done|cbn [Pipeline.step]; unfold dec_step; by rewrite Epc, Eq|].
    intros Hg'. apply (can_decode_top _ Hg' eq_refl eq_refl).
  - injection En as En. pose proof (iv_in _ _ _ _ _ _ _ _ _ _ _ Hi) as Hr.
    destruct (try_push_total Nin (rr_pow _ _ _ Hr) _ _ msg Hr) as (q & ok & Eq & _ & Hfull).
    assert (ok = true) as ->.
    { destruct ok; [done|]. destruct (Hfull eq_refl) as [_ Hn], Hm as [_ Hl].
      rewrite (rlen_rep _ _ _ Hr) in Hl. pose proof (N_pos _ (rr_pow _ _ _ Hr)). lia. }
    eapply can_decode_step; [done|cbn [Pipeline.step]; unfold dec_step; by rewrite Epc, Eq|].
    intros Hg'. by refine (IH _ _ Hg').
Qed.

(** ** The whole pipeline *)

#[local] Abbreviation quiet := (quiet Nraw Nin Nout).

Lemma decoded_quiet w :
  good w -> decoded w -> rx_posting (w_rx_pc w) = [] -> rlen (w_raw w) = 0%nat -> quiet w.
Proof.
  intros ([v Hi] & _) ([[Epc Hout] Hin] & turns & Ed) Hp Hraw.
  destruct (inv_rings _ _ _ _ _ _ _ _ _ _ _ Hi) as (E1 & _ & E3 & E4).
  rewrite (rlen_rep _ _ _ (iv_raw _ _ _ _ _ _ _ _ _ _ _ Hi)) in Hraw.
  rewrite (rlen_rep _ _ _ (iv_in _ _ _ _ _ _ _ _ _ _ _ Hi)) in Hin.
  rewrite (rlen_rep _ _ _ (iv_out _ _ _ _ _ _ _ _ _ _ _ Hi)) in Hout.
  unfold PipelineSequential.quiet. rewrite E1, E3, E4, Ed, Epc. split_and!; try done; by apply nil_length_inv.
Qed.

Lemma can_drain w : good w -> rx_posting (w_rx_pc w) = [] -> can quiet w.
Proof.
  remember (rlen (w_raw w)) as n eqn:En. revert w En. induction n as [|n IH]; intros w En Hg Hp;
    (eapply can_bind; [by apply can_decode|]); intros w1 Hg1 (Hd & E1 & E2); rewrite <- E1 in Hp.
  - apply can_now; [done|]. apply decoded_quiet; [done..|]. by rewrite E2.
  - pose proof Hg1 as ([v Hi] & _). pose proof Hd as (_ & turns & Epc).
    pose proof (iv_raw _ _ _ _ _ _ _ _ _ _ _ Hi) as Hr.
    destruct (try_pop_total Nraw (rr_pow _ _ _ Hr) _ _ Hr) as (q & Eq & Hq).
    pose proof (rlen_rep _ _ _ Hr) as L1. pose proof (rlen_rep _ _ _ Hq) as L2. rewrite E2, <- En in L1.
    destruct (daemon_step_inv _ _ _ _ _ _ _ _ Hdepth _ DecoderT v w1 Hrel Hi I) as (w2 & _ & E & _).
    assert (w_raw w2 = q /\ w_rx_pc w2 = w_rx_pc w1) as [Eq2 Erx].
    { cbn [Pipeline.step] in E. unfold dec_step in E. rewrite Epc, Eq in E. cbn [bind] in E.
      by run_step E. }
    eapply can_decode_step; [done|done|]. intros Hg2. apply IH; [|done|by rewrite Erx].
    rewrite Eq2, L2. destruct (v_raw v); cbn [tail length] in *; lia.
Qed.

Lemma can_quiet w : good w -> can quiet w.
Proof.
  intros Hg. destruct (rx_posting (w_rx_pc w)) as [|span l] eqn:Ep; [by apply can_drain|].
  destruct (w_rx_pc w) eqn:Epc; try done. pose proof Hg as ([v Hi] & _).
  pose proof (iv_raw _ _ _ _ _ _ _ _ _ _ _ Hi) as Hr.
  destruct (try_push_total Nraw (rr_pow _ _ _ Hr) _ _ span0 Hr) as (q & ok & Eq & _ & Hfull).
  assert (ok = true) as ->.
  { destruct ok; [done|]. destruct (Hfull eq_refl) as [_ Hn].
    pose proof (receiver_never_waits _ _ _ _ _ _ _ _ _ _ _ Hi HNraw) as Hw.
    cbn [waiting] in Hw. rewrite Epc, (full_rep _ _ _ Hr) in Hw. by apply bool_decide_eq_false in Hw. }
  eapply (can_step _ Receiver w);
    [done|done|cbn [Pipeline.step]; unfold rx_step; by rewrite Epc, Eq|done|].
  intros Hg'. by apply can_drain.
Qed.

End drain.
