(* ===== verification/PipelineLive.v ===== *)
(** * Everything received is answered

    A fair run of the daemon before the signal, with a kernel that completes
    SENDs.  Six counters say how far the data has come: spans posted and
    decoded, messages pushed and matched, reports posted and taken by the
    sender.  None of them ever goes back, and as long as a report on something
    received is missing, one of the threads has what it needs to advance one
    of them towards it and keeps it until its turn comes. *)

From stdpp Require Import base numbers list gmap fin_maps.
From Stdlib Require Import ZArith Lia.
From S2P Require Import Prelude.
From S2P Require Import SPSCQueue.
From S2P Require Import Sink.
From S2P Require Import MatchingEngine.
From S2P Require Import EngineInv.
From S2P Require Import EngineRun.
From S2P Require Import EngineSink.
From S2P Require Import WireProtocol.
From S2P Require Import Decoder.
From S2P Require Import DecoderProps.
From S2P Require Import Uring.
From S2P Require UringSender.
From S2P Require UringReceiver.
From S2P Require Import UringSenderProps.
From S2P Require Import UringReceiverProps.
From S2P Require Import Pipeline.
From S2P Require Import PipelineInv.
From S2P Require Import PipelineSequential.
From S2P Require Import PipelineShutdown.
From S2P Require Import PipelineHang.
From S2P Require Import PipelineDrain.
From S2P Require Import PipelineFair.

(** ** The six tasks *)

Inductive task : Type := Post | Decode | Push | Match | Report | Send.

Definition thread (t : task) : event :=
  match t with
  | Post => Receiver
  | Decode | Push => DecoderT
  | Match | Report => Matching
  | Send => SenderT
  end.

Definition total (f : task -> nat) : nat :=
  f Post + f Decode + f Push + f Match + f Report + f Send.

Lemma total_less (f g : task -> nat) t :
  (forall t, (f t <= g t)%nat) -> (f t < g t)%nat -> (total f < total g)%nat.
Proof.
  intros Hle Hlt. unfold total. pose proof (Hle Post). pose proof (Hle Decode). pose proof (Hle Push).
  pose proof (Hle Match). pose proof (Hle Report). pose proof (Hle Send). destruct t; lia.
Qed.

Section live.
Context `{Build} {U : Type} `{Uring U}.
Context (Capacity : nat) (clock_gettime : nat -> Z * Z) (recv_bufs_ send_bufs_ : nat).
Context (Nraw Nret Nin Nout : Z).
Context (Hdepth : sq_depth (U := U) (Z.to_nat 256)) (e0 : Engine (list ExecutionReport)).
Context (Hrel : asserts_enabled = false) (HNraw : 64 <= Nraw) (HNret : 64 <= Nret).

Implicit Types (w : world U) (v : view).

#[local] Abbreviation step := (step Capacity clock_gettime recv_bufs_ send_bufs_ Nraw Nret Nin Nout).
#[local] Abbreviation inv := (inv Capacity clock_gettime recv_bufs_ send_bufs_ Nraw Nret Nin Nout e0).
#[local] Abbreviation fair_run := (fair_run Capacity clock_gettime recv_bufs_ send_bufs_ Nraw Nret Nin Nout).
#[local] Abbreviation responsive := (responsive Nraw Nret Nin Nout).
#[local] Abbreviation waiting := (waiting Nraw Nret Nin Nout).
#[local] Abbreviation outq w := (UringSender.out_queue_ (w_tx w)).
#[local] Abbreviation inq w := (e_inbound (w_eng w)).
#[local] Abbreviation posting w := (rx_posting (w_rx_pc w)).

(** How often each has been done. *)
Definition count (t : task) w : nat :=
  match t with
  | Post => length (w_received w) - length (posting w)
  | Decode => length (w_received w) - length (posting w) - rlen (w_raw w)
  | Push => length (w_msgs w) + rlen (inq w)
  | Match => length (w_msgs w)
  | Report => length (w_sent w) + rlen (outq w)
  | Send => length (w_sent w)
  end.

(** Its thread has what it needs to do it. *)
Definition primed (t : task) w : Prop :=
  match t with
  | Post => posting w <> []
  | Decode => dec_pending (w_dec_pc w) = [] /\ (0 < rlen (w_raw w))%nat
  | Push => dec_pending (w_dec_pc w) <> [] /\ Z.of_nat (rlen (inq w)) < Nin
  | Match => eng_pending (w_eng_pc w) = [] /\ (0 < rlen (inq w))%nat
  | Report => eng_pending (w_eng_pc w) <> [] /\ Z.of_nat (rlen (outq w)) < Nout
  | Send => (0 < rlen (outq w))%nat
  end.

(** How many of its thread's steps come before. *)
Definition ahead (t : task) w : nat :=
  match t with
  | Decode =>
      match w_dec_pc w with DecPop (S _) => 0 | DecTop => 1 | DecPop O => 2 | _ => 3 end
  | Match => match w_eng_pc w with EngTop => 0 | _ => 1 end
  | Send => match w_tx_pc w with TxPop => 0 | _ => 1 end
  | _ => 0
  end.

(** ** The counters and the invariant *)

Lemma inv_counts v w :
  inv v w ->
  rlen (w_raw w) = length (v_raw v) /\ rlen (inq w) = length (v_in v) /\ rlen (outq w) = length (v_out v) /\
  (length (v_done v) + rlen (w_raw w) + length (posting w) = length (w_received w))%nat.
Proof using.
  intros Hi. pose proof (iv_wait _ _ _ _ _ _ _ _ _ _ _ Hi) as Hw. apply Forall2_length in Hw.
  rewrite length_app in Hw. destruct Hi.
  rewrite (rlen_rep _ _ _ iv_raw), (rlen_rep _ _ _ iv_in), (rlen_rep _ _ _ iv_out), iv_received, length_app.
  split_and!; try done. lia.
Qed.

(** A ring before and after. *)
Lemma push_rlen {T} N (q : SPSCQueue T) xs x :
  ring_rep N q xs ->
  exists q' (ok : bool), try_push N q x = Ok (q', ok) /\
    if ok then rlen q' = S (rlen q) else q' = q /\ Z.of_nat (rlen q) = N.
Proof using.
  intros Hr. destruct (try_push_total N (rr_pow _ _ _ Hr) _ _ x Hr) as (q' & ok & E & Hq & Hf).
  exists q', ok. split; [done|]. rewrite (rlen_rep _ _ _ Hr). destruct ok; [|by apply Hf].
  rewrite (rlen_rep _ _ _ Hq), length_app. simpl. lia.
Qed.

Lemma pop_rlen {T} N (q : SPSCQueue T) xs :
  ring_rep N q xs ->
  exists q' popped, try_pop N q = Ok (q', popped) /\ Z.of_nat (rlen q) <= N /\
    match popped with Some _ => rlen q = S (rlen q') | None => rlen q = 0%nat /\ rlen q' = 0%nat end.
Proof using.
  intros Hr. destruct (try_pop_total N (rr_pow _ _ _ Hr) _ _ Hr) as (q' & E & Hq).
  exists q', (head xs). split; [done|]. rewrite (rlen_rep _ _ _ Hr), (rlen_rep _ _ _ Hq).
  split; [apply Hr|]. by destruct xs.
Qed.

(** ** What a step does

    It takes no counter back; it leaves what the other threads are about to
    do to them; and it does what its own thread is about to do, or comes
    closer to it. *)
Record effect (ev : event) w w' : Prop := {
  ef_count : forall t, (count t w <= count t w')%nat;
  ef_other : forall t, thread t <> ev -> primed t w -> primed t w' /\ ahead t w' = ahead t w;
  ef_own : forall t, thread t = ev -> primed t w -> (t = Send -> waiting SenderT w = false) ->
    (count t w < count t w')%nat \/ (primed t w' /\ (ahead t w' < ahead t w)%nat)
}.

Ltac open_effect Epc :=
  split; intros []; cbn [thread count primed ahead]; intros; try done;
  unfold ahead in *; cbn in *; rewrite ?Epc in *; cbn in *; rewrite ?length_app in *; cbn in *;
  try by (intuition (first [lia | congruence | eauto])).

Lemma rx_effect v w w' :
  inv v w -> w_rx_pc w <> RxExited -> w_running w = true -> step Receiver w = Ok w' ->
  effect Receiver w w'.
Proof using HNraw.
  intros Hi Hx Hrun E. pose proof (inv_counts _ _ Hi) as (Hraw & _ & _ & Hc).
  pose proof (receiver_never_waits _ _ _ _ _ _ _ _ _ _ _ Hi HNraw) as Hnw.
  cbn [Pipeline.step PipelineShutdown.waiting] in *. unfold rx_step in E.
  destruct (w_rx_pc w) as [| | |span| |] eqn:Epc; try done.
  - injection E as <-. rewrite Hrun. open_effect Epc.
  - run_step E; open_effect Epc.
  - run_step E; open_effect Epc.
  - destruct (push_rlen _ _ _ span (iv_raw _ _ _ _ _ _ _ _ _ _ _ Hi)) as (q & ok & Eq & Hl).
    rewrite (full_rep _ _ _ (iv_raw _ _ _ _ _ _ _ _ _ _ _ Hi)), bool_decide_eq_false in Hnw.
    rewrite Eq in E. injection E as <-.
    destruct ok; [|destruct Hl; lia]. open_effect Epc.
  - injection E as <-. open_effect Epc.
Qed.

Lemma dec_effect v w w' :
  inv v w -> w_dec_pc w <> DecExited -> w_running w = true -> step DecoderT w = Ok w' ->
  effect DecoderT w w'.
Proof using HNret.
  intros Hi Hx Hrun E. pose proof (inv_counts _ _ Hi) as (_ & _ & _ & Hc).
  cbn [Pipeline.step] in E. unfold dec_step in E.
  destruct (w_dec_pc w) as [|[|turns]|[|msg msgs] buf_id turns|] eqn:Epc; try done.
  - injection E as <-. rewrite Hrun. open_effect Epc.
  - injection E as <-. open_effect Epc.
  - destruct (pop_rlen _ _ _ (iv_raw _ _ _ _ _ _ _ _ _ _ _ Hi)) as (q & popped & Eq & _ & Hl).
    rewrite Eq in E. cbn [bind] in E. run_step E; open_effect Epc.
  - pose proof (return_never_waits _ _ _ _ _ _ _ _ _ _ _ _ _ Hi HNret Epc) as Hnw.
    cbn [PipelineShutdown.waiting] in Hnw. rewrite Epc in Hnw.
    destruct (push_rlen _ _ _ buf_id (iv_ret _ _ _ _ _ _ _ _ _ _ _ Hi)) as (q & ok & Eq & Hl).
    rewrite (full_rep _ _ _ (iv_ret _ _ _ _ _ _ _ _ _ _ _ Hi)), bool_decide_eq_false in Hnw.
    rewrite <- (rlen_rep _ _ _ (iv_ret _ _ _ _ _ _ _ _ _ _ _ Hi)) in Hnw. rewrite Eq in E. injection E as <-.
    destruct ok; [|by destruct Hl]. open_effect Epc. right. split; [done|]. destruct turns; lia.
  - destruct (push_rlen _ _ _ msg (iv_in _ _ _ _ _ _ _ _ _ _ _ Hi)) as (q & ok & Eq & Hl).
    rewrite Eq in E. injection E as <-. destruct ok; [|destruct Hl as [-> Hl]]; open_effect Epc.
Qed.

Lemma poll_counts v w w' :
  inv v w -> w_eng_pc w = EngTop -> eng_poll Capacity clock_gettime Nin 64 w = Ok w' ->
  exists batch, w_msgs w' = w_msgs w ++ batch /\ (length batch + rlen (inq w') = rlen (inq w))%nat /\
    ((0 < rlen (inq w))%nat -> (0 < length batch)%nat).
Proof using Hrel.
  intros Hi Epc E. pose proof (iv_in _ _ _ _ _ _ _ _ _ _ _ Hi) as Hin.
  destruct (eng_poll_inv _ _ _ _ _ _ _ _ _ 64 v w Hrel Hi Epc ltac:(lia)) as (w1 & v1 & E1 & Hi1 & Hv1).
  change (Z.of_nat 64) with 64 in E1. rewrite E in E1. injection E1 as <-.
  pose proof (rlen_rep _ _ _ (iv_in _ _ _ _ _ _ _ _ _ _ _ Hi1)) as L1. rewrite Hv1, length_drop in L1.
  destruct (pop_each_spec Nin (rr_pow _ _ _ Hin) _ _ 64 Hin) as (q & Ep & _).
  rewrite <- (try_pop_batch_each Nin (rr_pow _ _ _ Hin) _ _ 64 Hin) in Ep.
  change (Z.of_nat 64) with 64 in Ep. unfold eng_poll in E. rewrite Ep in E. cbn [bind] in E.
  exists (take 64 (v_in v)). rewrite length_take, L1, (rlen_rep _ _ _ Hin).
  split; [by run_step E|]. lia.
Qed.

Lemma eng_effect v w w' :
  inv v w -> w_eng_pc w <> EngExited -> w_running w = true -> step Matching w = Ok w' ->
  effect Matching w w'.
Proof using Hrel.
  intros Hi Hx Hrun E.
  cbn [Pipeline.step] in E. unfold eng_step in E.
  destruct (w_eng_pc w) as [|[|r rs]|] eqn:Epc; try done.
  - rewrite Hrun in E. destruct (poll_counts _ _ _ Hi Epc E) as (batch & Em & Hb & Hpos).
    unfold eng_poll in E. run_step E. apply app_inv_head in Em as ->. open_effect Epc.
  - injection E as <-. open_effect Epc.
  - destruct (push_rlen _ _ _ r (iv_out _ _ _ _ _ _ _ _ _ _ _ Hi)) as (q & ok & Eq & Hl).
    rewrite Eq in E. injection E as <-. destruct ok; [|destruct Hl as [-> Hl]]; open_effect Epc.
Qed.

Lemma tx_effect v w w' :
  inv v w -> w_tx_pc w <> TxExited -> w_running w = true -> step SenderT w = Ok w' ->
  effect SenderT w w'.
Proof using Hdepth.
  intros Hi Hx Hrun E. pose proof (iv_tx _ _ _ _ _ _ _ _ _ _ _ Hi) as Htx.
  cbn [Pipeline.step] in E. unfold tx_step, tx_begin in E.
  destruct (w_tx_pc w) as [| |r|] eqn:Epc; try done.
  - rewrite Hrun in E. destruct (drain_completions_spec send_bufs_ _ Htx) as (s1 & Es & []).
    destruct (flush_sqes_spec send_bufs_ s1 dr_inv) as (_ & _ & _ & _ & _ & _ & Eq).
    rewrite Es in E. injection E as <-. rewrite dr_out in Eq. open_effect Epc; rewrite Eq in *; eauto.
  - destruct (pop_rlen _ _ _ (iv_out _ _ _ _ _ _ _ _ _ _ _ Hi)) as (q & popped & Eq & Hle & Hl).
    rewrite Eq in E. cbn [bind] in E. run_step E; open_effect Epc.
  - cbn in Epc. destruct (Z.eqb_spec (UringSender.free_count_ (w_tx w)) 0) as [Hf|Hf].
    + destruct (drain_completions_spec send_bufs_ _ Htx) as (s1 & Es & []). rewrite Es in E.
      injection E as <-. open_effect Epc; rewrite ?dr_out in *; try done.
    + destruct (send_report_spec send_bufs_ Hdepth 0 r (w_tx w) Htx) as (s1 & q & Es & []).
      { pose proof (tx_slots_le _ _ Htx). rewrite (ti_free _ _ Htx) in *. lia. }
      rewrite Es in E. injection E as <-. open_effect Epc; rewrite ?so_out in *; try done; auto.
Qed.

Lemma step_effect ev v w w' :
  inv v w -> alive w -> w_running w = true -> step ev w = Ok w' -> effect ev w w'.
Proof using Hdepth Hrel HNraw HNret.
  intros Hi Ha Hrun E. unfold alive, workers in Ha. rewrite !Forall_cons in Ha. cbn [exited] in Ha.
  destruct Ha as (Hx1 & Hx2 & Hx3 & Hx4 & _). destruct ev.
  - eapply rx_effect; [done| |done|done]. by intros Epc; rewrite Epc in Hx1.
  - eapply dec_effect; [done| |done|done]. by intros Epc; rewrite Epc in Hx3.
  - eapply eng_effect; [done| |done|done]. by intros Epc; rewrite Epc in Hx4.
  - eapply tx_effect; [done| |done|done]. by intros Epc; rewrite Epc in Hx2.
  - cbn [Pipeline.step] in E. destruct (main_step_pc w) as [pc Epc]. rewrite Epc in E. injection E as <-.
    by split; intros [].
  - cbn [Pipeline.step] in E. unfold signal_handler in E. destruct (_ || _); injection E as <-;
      by split; intros [].
  - cbn [Pipeline.step] in E. destruct (store_bytes _ _ _); [|done]. injection E as <-.
    split; intros []; by cbn.
Qed.

(** ** What there is to do *)

(** What the engine reports on the messages in [bss]. *)
Definition answers (bss : list (list Z)) (rs : list ExecutionReport) : Prop :=
  exists es, dispatch_all Capacity clock_gettime (concat (bytes_msgs <$> bss)) e0 = Ok es /\ e_outbound es = rs.

(** The engine only adds to its reports. *)
Lemma dispatch_all_log ms (e e' : Engine (list ExecutionReport)) :
  dispatch_all Capacity clock_gettime ms e = Ok e' -> e_outbound e `prefix_of` e_outbound e'.
Proof using.
  intros E.
  assert (same (e_outbound e) (e_outbound e) (e_inbound e) (e_inbound e) (e_orders_processed e)
    (e_orders_processed e) e e) as Hs by (split; try done; exists []; by rewrite app_nil_r).
  apply (dispatch_all_alike Capacity clock_gettime _ _ _ _ _ _ ms) in Hs. rewrite E in Hs.
  destruct (sa_log _ _ _ _ _ _ _ _ Hs) as (R & HR & _). by exists R.
Qed.

(** Of two prefixes of one list the shorter is a prefix of the longer. *)
Lemma prefix_shorter {T} (l1 l2 l : list T) :
  l1 `prefix_of` l -> l2 `prefix_of` l -> (length l1 <= length l2)%nat -> l1 `prefix_of` l2.
Proof using.
  intros H1 H2 Hl. destruct (prefix_weak_total _ _ _ H1 H2) as [?|[k Hk]]; [done|].
  rewrite Hk, length_app in Hl. destruct k; [|simpl in Hl; lia]. rewrite Hk. by rewrite app_nil_r.
Qed.

Lemma msgs_prefix (bss bss' : list (list Z)) :
  bss `prefix_of` bss' -> concat (bytes_msgs <$> bss) `prefix_of` concat (bytes_msgs <$> bss').
Proof using. intros [k ->]. rewrite fmap_app, concat_app. by eexists. Qed.

(** What the engine has logged is what the messages it has taken call for. *)
Lemma answers_logged v w bss rs :
  inv v w -> bss `prefix_of` w_received w -> answers bss rs ->
  (length (concat (bytes_msgs <$> bss)) <= length (w_msgs w))%nat ->
  rs `prefix_of` e_outbound (w_eng w).
Proof using.
  intros Hi Hb (es & Es & <-) Hlen.
  destruct (prefix_shorter (concat (bytes_msgs <$> bss)) (w_msgs w) (concat (bytes_msgs <$> w_received w)))
    as [rest Er]; [by apply msgs_prefix| |done|].
  { rewrite (received_msgs _ _ _ _ _ _ _ _ _ _ _ Hi). by eexists. }
  destruct (iv_seq _ _ _ _ _ _ _ _ _ _ _ Hi) as (es1 & Es1 & Hs).
  rewrite Er, dispatch_all_app, Es in Es1. cbn [bind] in Es1. apply dispatch_all_log in Es1.
  destruct (sa_log _ _ _ _ _ _ _ _ Hs) as (R & HR1 & HR2).
  change (e_outbound (w_eng w) = R) in HR1. change (e_outbound es1 = R) in HR2. congruence.
Qed.

(** How often each task is to be done for [bss] to be answered by [rs]. *)
Definition target (bss : list (list Z)) (rs : list ExecutionReport) (t : task) : nat :=
  match t with
  | Post | Decode => length bss
  | Push | Match => length (concat (bytes_msgs <$> bss))
  | Report | Send => length rs
  end.

(** While an answer is missing, a thread has something to do for it. *)
Lemma some_primed v w bss rs :
  inv v w -> bss `prefix_of` w_received w -> answers bss rs -> (length (w_sent w) < length rs)%nat ->
  exists t, primed t w /\ (count t w < target bss rs t)%nat.
Proof using.
  intros Hi Hb Ha Hlt. pose proof (inv_counts _ _ Hi) as (_ & Hin & Hout & Hc).
  destruct (decide (0 < rlen (outq w))%nat) as [Ho|Ho]; [by exists Send|].
  pose proof (iv_log _ _ _ _ _ _ _ _ _ _ _ Hi) as Hlog.
  apply (f_equal length) in Hlog. rewrite !length_app in Hlog.
  destruct (eng_pending (w_eng_pc w)) as [|x xs] eqn:Ee.
  2: { exists Report. cbn [primed count target]. rewrite Ee. split; [|lia]. split; [done|].
       pose proof (N_pos _ (rr_pow _ _ _ (iv_out _ _ _ _ _ _ _ _ _ _ _ Hi))). lia. }
  assert (length (w_msgs w) < length (concat (bytes_msgs <$> bss)))%nat as Hm.
  { apply Nat.lt_nge. intros Hm. apply (answers_logged v w bss rs Hi Hb Ha), prefix_length in Hm.
    simpl in Hlog. lia. }
  destruct (decide (0 < rlen (inq w))%nat) as [Hn|Hn]; [by exists Match|].
  pose proof (iv_msgs _ _ _ _ _ _ _ _ _ _ _ Hi) as Hms.
  apply (f_equal length) in Hms. rewrite !length_app in Hms.
  destruct (dec_pending (w_dec_pc w)) as [|x xs] eqn:Ed.
  2: { exists Push. cbn [primed count target]. rewrite Ed. split; [|lia]. split; [done|].
       pose proof (N_pos _ (rr_pow _ _ _ (iv_in _ _ _ _ _ _ _ _ _ _ _ Hi))). lia. }
  assert (length (v_done v) < length bss)%nat as Hd.
  { apply Nat.lt_nge. intros Hd.
    assert (bss `prefix_of` v_done v) as Hp%msgs_prefix%prefix_length.
    { eapply prefix_shorter; [done| |done]. rewrite (iv_received _ _ _ _ _ _ _ _ _ _ _ Hi). by eexists. }
    simpl in Hms. lia. }
  destruct (decide (0 < rlen (w_raw w))%nat) as [Hr|Hr].
  { exists Decode. cbn [primed count target]. split; [done|]. lia. }
  apply prefix_length in Hb. exists Post. cbn [primed count target].
  destruct (posting w); simpl in *; [lia|]. split; [done|lia].
Qed.

Lemma received_step ev w w' : step ev w = Ok w' -> w_received w `prefix_of` w_received w'.
Proof using.
  intros E. destruct ev; cbn [Pipeline.step] in E.
  - unfold rx_step in E. run_step E; cbn; (done || by apply prefix_app_r).
  - unfold dec_step in E. by run_step E.
  - unfold eng_step, eng_poll in E. by run_step E.
  - unfold tx_step, tx_begin in E. by run_step E.
  - destruct (main_step_pc w) as [pc Epc]. rewrite Epc in E. by injection E as <-.
  - unfold signal_handler in E. by run_step E.
  - by run_step E.
Qed.

(** ** Runs *)

Context (r : nat -> world U) (sched : nat -> event) (Hfair : fair_run r sched).
Context (Hinv : exists v, inv v (r 0%nat)) (Halive : alive (r 0%nat)).
Context (Hrun : forall n, w_running (r n) = true) (Hkernel : responsive r).

Lemma run_good n : (exists v, inv v (r n)) /\ alive (r n).
Proof using Hfair Hinv Halive Hrun Hrel Hdepth.
  split; [by eapply run_inv|]. induction n as [|n Ha]; [done|].
  by eapply alive_step, (fr_step _ _ _ _ _ _ _ _ _ _ Hfair).
Qed.

Lemma run_effect n : effect (sched n) (r n) (r (S n)).
Proof using Hfair Hinv Halive Hrun Hrel Hdepth HNraw HNret.
  destruct (run_good n) as [[v Hi] Ha].
  eapply step_effect; [exact Hi|done|done|apply (fr_step _ _ _ _ _ _ _ _ _ _ Hfair)].
Qed.

Lemma count_mono t n m : (n <= m)%nat -> (count t (r n) <= count t (r m))%nat.
Proof using Hfair Hinv Halive Hrun Hrel Hdepth HNraw HNret.
  induction 1 as [|m _ IH]; [done|]. pose proof (ef_count _ _ _ (run_effect m) t). lia.
Qed.

Lemma received_mono n m : (n <= m)%nat -> w_received (r n) `prefix_of` w_received (r m).
Proof using Hfair.
  induction 1 as [|m _ IH]; [done|]. etrans; [exact IH|].
  eapply received_step, (fr_step _ _ _ _ _ _ _ _ _ _ Hfair).
Qed.

Lemma thread_fair t n : exists k, sched (n + k)%nat = thread t.
Proof using Hfair. apply (fr_fair _ _ _ _ _ _ _ _ _ _ Hfair). destruct t; repeat constructor. Qed.

(** A primed task is done, or comes closer, when its thread has its turn. *)
Lemma turn_counts t n :
  primed t (r n) -> (t = Send -> waiting SenderT (r n) = false) ->
  exists m, (n <= m)%nat /\ ((count t (r n) < count t (r m))%nat \/
    (primed t (r m) /\ (ahead t (r m) < ahead t (r n))%nat)).
Proof using Hfair Hinv Halive Hrun Hrel Hdepth HNraw HNret.
  destruct (thread_fair t n) as [k Hk]. revert n Hk. induction k as [|k IH]; intros n Hk Hp Hw.
  - rewrite Nat.add_0_r in Hk. exists (S n). split; [lia|]. by eapply ef_own; [apply run_effect|..].
  - destruct (decide (sched n = thread t)) as [Es|Es].
    { exists (S n). split; [lia|]. by eapply ef_own; [apply run_effect|..]. }
    destruct (ef_other _ _ _ (run_effect n) t) as [Hp' Ea]; [congruence|done|].
    pose proof (ef_count _ _ _ (run_effect n) t) as Hc.
    rewrite Nat.add_succ_r, <- Nat.add_succ_l in Hk. destruct (IH (S n) Hk Hp') as (m & Hm & Hor).
    { intros ->. rewrite <- Hw by done. eapply waiting_other; [exact Es|apply (fr_step _ _ _ _ _ _ _ _ _ _ Hfair)]. }
    exists m. split; [lia|]. rewrite <- Ea. destruct Hor as [?|?]; [left; lia|by right].
Qed.

(** A sender that waits is given a buffer, or will never be. *)
Lemma sender_freed n :
  primed Send (r n) ->
  exists m, (n <= m)%nat /\ (sender_doomed (r m) \/ (count Send (r n) < count Send (r m))%nat \/
    (primed Send (r m) /\ waiting SenderT (r m) = false /\ (ahead Send (r m) <= ahead Send (r n))%nat)).
Proof using Hfair Hinv Halive Hrun Hkernel Hrel Hdepth HNraw HNret.
  intros Hp. destruct (waiting SenderT (r n)) eqn:Ew; [|exists n; split; [lia|auto 10]].
  destruct (sender_outcome _ _ _ _ _ Ew) as [Hd|Hk]; [exists n; split; [lia|auto]|].
  destruct (Hkernel n Hk) as [k Hw]. exists (n + k)%nat. split; [lia|]. right.
  pose proof (count_mono Send n (n + k) ltac:(lia)) as H1.
  pose proof (count_mono Report n (n + k) ltac:(lia)) as H2. cbn [primed count ahead] in *.
  destruct (decide (length (w_sent (r n)) = length (w_sent (r (n + k)%nat)))) as [El|El]; [right|left; lia].
  split; [lia|]. split; [done|]. cbn [PipelineShutdown.waiting] in Ew.
  destruct (w_tx_pc (r n)); try done. destruct (w_tx_pc _); lia.
Qed.

Lemma primed_counts t n :
  primed t (r n) ->
  exists m, (n <= m)%nat /\ (sender_doomed (r m) \/ (count t (r n) < count t (r m))%nat).
Proof using Hfair Hinv Halive Hrun Hkernel Hrel Hdepth HNraw HNret.
  remember (ahead t (r n)) as d eqn:Ed. revert n Ed. induction (lt_wf d) as [d _ IH]. intros n -> Hp.
  assert (exists m, (n <= m)%nat /\ (sender_doomed (r m) \/ (count t (r n) < count t (r m))%nat \/
    (primed t (r m) /\ (t = Send -> waiting SenderT (r m) = false) /\ (ahead t (r m) <= ahead t (r n))%nat)))
    as (m & Hm & [?|[?|(Hp1 & Hw1 & Ha)]]); [|by eauto..|].
  { destruct t; try (exists n; split; [lia|]; right; right; by split_and!).
    destruct (sender_freed n Hp) as (m & ? & [?|[?|(? & ? & ?)]]); exists m; auto 10. }
  destruct (turn_counts t m Hp1 Hw1) as (m1 & Hm1 & Hor). pose proof (count_mono t n m Hm) as Hc.
  destruct Hor as [?|[Hp2 Ha2]]; [exists m1; split; [lia|right; lia]|].
  pose proof (count_mono t m m1 Hm1) as Hc1.
  destruct (IH (ahead t (r m1)) ltac:(lia) m1 eq_refl Hp2) as (m2 & ? & [?|?]); exists m2; split; try lia; auto.
Qed.

(** What is missing, over all tasks. *)
Definition missing (bss : list (list Z)) (rs : list ExecutionReport) w : nat :=
  total (fun t => target bss rs t - count t w)%nat.

Lemma missing_less bss rs t n m :
  (n <= m)%nat -> (count t (r n) < target bss rs t)%nat -> (count t (r n) < count t (r m))%nat ->
  (missing bss rs (r m) < missing bss rs (r n))%nat.
Proof using Hfair Hinv Halive Hrun Hrel Hdepth HNraw HNret.
  intros Hm Ht Hc. apply (total_less _ _ t); [|lia]. intros t'. pose proof (count_mono t' n m Hm). lia.
Qed.

(** The sender takes every report on what has been received. *)
Lemma run_answers n bss rs :
  bss `prefix_of` w_received (r n) -> answers bss rs ->
  exists m, (n <= m)%nat /\ (sender_doomed (r m) \/ (length rs <= length (w_sent (r m)))%nat).
Proof using Hfair Hinv Halive Hrun Hkernel Hrel Hdepth HNraw HNret.
  remember (missing bss rs (r n)) as d eqn:Ed. revert n Ed. induction (lt_wf d) as [d _ IH]. intros n -> Hb Ha.
  destruct (decide (length rs <= length (w_sent (r n)))%nat) as [?|Hlt]; [exists n; split; [lia|auto]|].
  destruct (run_good n) as [[v Hi] _].
  destruct (some_primed v (r n) bss rs Hi Hb Ha ltac:(lia)) as (t & Hp & Hc).
  destruct (primed_counts t n Hp) as (m & Hm & [?|Hcm]); [by exists m; auto|].
  destruct (IH _ (missing_less bss rs t n m Hm Hc Hcm) m eq_refl) as (m' & ? & ?);
    [etrans; [exact Hb|by apply received_mono]|done|].
  exists m'. split; [lia|done].
Qed.

End live.
