(* ===== verification/PipelineLog.v ===== *)
(** * What the daemon does at its io_uring rings

    The log of a run: every completion the receiver looks at, every SEND the
    sender prepares, with the bytes in its buffer, and every completion the
    sender drains, in the order of the steps.  A step's entries are a
    function of the state it starts from, so the log is what the code does
    and not an assumption about it. *)

From stdpp Require Import base numbers list gmap fin_maps.
From Stdlib Require Import ZArith Lia.
From S2P Require Import Prelude.
From S2P Require Import SPSCQueue.
From S2P Require Import Sink.
From S2P Require Import MatchingEngine.
From S2P Require Import WireProtocol.
From S2P Require Import Decoder.
From S2P Require Import Uring.
From S2P Require UringSender.
From S2P Require UringReceiver.
From S2P Require Import Pipeline.

Inductive io_event : Type :=
| Received (c : cqe)
| Prepared (q : request) (bs : list Z)
| Completed (c : cqe).

Definition received : list io_event -> list cqe :=
  omap (fun x => match x with Received c => Some c | _ => None end).
Definition prepared : list io_event -> list (request * list Z) :=
  omap (fun x => match x with Prepared q bs => Some (q, bs) | _ => None end).
Definition completed : list io_event -> list cqe :=
  omap (fun x => match x with Completed c => Some c | _ => None end).

Lemma received_app l l' : received (l ++ l') = received l ++ received l'.
Proof. apply omap_app. Qed.
Lemma prepared_app l l' : prepared (l ++ l') = prepared l ++ prepared l'.
Proof. apply omap_app. Qed.
Lemma completed_app l l' : completed (l ++ l') = completed l ++ completed l'.
Proof. apply omap_app. Qed.

(** The byte counts of the completions that carry bytes, and the number of
    those that report an error. *)
Definition payloads (cs : list cqe) : list Z := filter (fun n => 0 < n) (cq_res <$> cs).
Definition failures (cs : list cqe) : nat := length (filter (fun c => cq_res c < 0) cs).
Definition total (ns : list Z) : Z := foldr Z.add 0 ns.

Lemma payloads_app l l' : payloads (l ++ l') = payloads l ++ payloads l'.
Proof. unfold payloads. by rewrite fmap_app, filter_app. Qed.
Lemma failures_app l l' : failures (l ++ l') = (failures l + failures l')%nat.
Proof. unfold failures. by rewrite filter_app, length_app. Qed.
Lemma payloads_snoc l c :
  payloads (l ++ [c]) = payloads l ++ if cq_res c >? 0 then [cq_res c] else [].
Proof.
  rewrite payloads_app. f_equal. unfold payloads. cbn [fmap list_fmap]. rewrite filter_cons, filter_nil.
  destruct (Z.gtb_spec (cq_res c) 0); case_decide; first [done|lia].
Qed.
Lemma failures_snoc l c : failures (l ++ [c]) = (failures l + if (cq_res c <? 0)%Z then 1 else 0)%nat.
Proof.
  rewrite failures_app. f_equal. unfold failures. rewrite filter_cons, filter_nil.
  destruct (Z.ltb_spec (cq_res c) 0); case_decide; first [done|lia].
Qed.
Lemma total_app l l' : total (l ++ l') = total l + total l'.
Proof. induction l as [|n l IH]; [done|]. unfold total in *. simpl. lia. Qed.

Section log.
Context `{Build} {U : Type} `{Uring U}.
Context (Capacity : nat) (clock_gettime : nat -> Z * Z) (recv_bufs_ send_bufs_ : nat).
Context (Nraw Nret Nin Nout : Z).
Implicit Types (w : world U) (u : U) (s : UringSender.UringSender U).

#[local] Abbreviation step := (step Capacity clock_gettime recv_bufs_ send_bufs_ Nraw Nret Nin Nout).
#[local] Abbreviation stale_step := (stale_step Capacity clock_gettime Nin).
#[local] Abbreviation weak_reach :=
  (weak_reach Capacity clock_gettime recv_bufs_ send_bufs_ Nraw Nret Nin Nout).

(** The completions [drain_completions] finds. *)
Fixpoint drained_cqes (fuel : nat) u : list cqe :=
  match fuel with
  | O => []
  | S fuel' =>
      match peek_cqe u with
      | (_, None) => []
      | (u', Some c) => c :: drained_cqes fuel' (cqe_seen u')
      end
  end.

Definition drain_log s : list io_event :=
  Completed <$> drained_cqes (S (Z.to_nat UringSender.kNumSendBufs)) (UringSender.ring_ s).

(** The bytes a request would send. *)
Definition sqe_bytes (m : memory) (q : request) : list Z :=
  match load_bytes m (rq_addr q) (Z.to_nat (rq_len q)) with Ok bs => bs | Err _ => [] end.

(** [send_report]: without a submission entry it flushes and drains first;
    if it gets one, the request it prepares is the last in the queue. *)
Definition send_log (rep : ExecutionReport) s : list io_event :=
  match UringSender.send_report send_bufs_ 0 rep s with
  | Ok (s1, k) =>
      (match get_sqe (UringSender.ring_ s) with
       | Some _ => []
       | None => drain_log (UringSender.flush_sqes s)
       end) ++
      (if k =? 1 then
         match last (queued (UringSender.ring_ s1)) with
         | Some q => [Prepared q (sqe_bytes (UringSender.mem_ s1) q)]
         | None => []
         end
       else [])
  | Err _ => []
  end.

Definition tx_log w : list io_event :=
  let s := w_tx w in
  match w_tx_pc w with
  | TxTop => if w_running w then drain_log s else []
  | TxSend rep => if UringSender.free_count_ s =? 0 then drain_log s else send_log rep s
  | _ => []
  end.

Definition rx_log w : list io_event :=
  match w_rx_pc w, peek_cqe (UringReceiver.ring_ (w_rx w)) with
  | RxCq, (_, Some c) => [Received c]
  | _, _ => []
  end.

Definition step_log (ev : event) w : list io_event :=
  match ev with Receiver => rx_log w | SenderT => tx_log w | _ => [] end.

(** With stale reads: the sender drains although the signal has come. *)
Definition stale_log (ev : event) w : list io_event :=
  match ev, w_tx_pc w with SenderT, TxTop => drain_log (w_tx w) | _, _ => [] end.

(** A run from [w0] to [w] with log [lg]. *)
Inductive logged w0 : list io_event -> world U -> Prop :=
| logged_refl : logged w0 [] w0
| logged_step ev lg w w' :
    logged w0 lg w -> enabled ev w -> step ev w = Ok w' -> logged w0 (lg ++ step_log ev w) w'
| logged_stale seen ev lg w w' :
    logged w0 lg w -> (seen <= 64)%nat -> stale_step seen ev w = Ok w' ->
    logged w0 (lg ++ stale_log ev w) w'.

(** The runs with a log are all the runs. *)
Lemma logged_weak w0 lg w : logged w0 lg w -> weak_reach w0 w.
Proof. induction 1; [constructor|by eapply weak_step|by eapply weak_stale]. Qed.

Lemma weak_logged w0 w : weak_reach w0 w -> exists lg, logged w0 lg w.
Proof.
  induction 1 as [|ev w w' _ [lg IH] Hen E|seen ev w w' _ [lg IH] Hs E].
  - exists []. constructor.
  - eexists. by eapply logged_step.
  - eexists. by eapply logged_stale.
Qed.

End log.
