(* ===== verification/PipelineWire.v ===== *)
(** * Where the reports handed to the sender are

    A report the sender has taken is the one it is working on, or a SEND of
    exactly its 48 bytes has been prepared.  A prepared SEND is queued or in
    flight, and its buffer holds those bytes, or its completion has been
    drained. *)

From stdpp Require Import base numbers list gmap fin_maps.
From Stdlib Require Import ZArith Lia Permutation.
From S2P Require Import Prelude.
From S2P Require Import SPSCQueue.
From S2P Require Import Sink.
From S2P Require Import MatchingEngine.
From S2P Require Import WireProtocol.
From S2P Require Import Decoder.
From S2P Require Import Uring.
From S2P Require UringSender.
From S2P Require UringReceiver.
From S2P Require Import UringSenderProps.
From S2P Require Import Pipeline.
From S2P Require Import PipelineInv.
From S2P Require Import PipelineShutdown.
From S2P Require Import PipelineLog.

(** A prepared SEND, whose buffer still holds its bytes. *)
Definition sends (m : memory) (p : request * list Z) : Prop :=
  rq_len p.1 = 48 /\ load_bytes m (rq_addr p.1) 48 = Ok p.2.

(** Taking out of a list the element behind one of its images. *)
Lemma fmap_take_out {A B} (f : A -> B) (l : list A) b k :
  f <$> l ≡ₚ b :: k -> exists a l', f a = b /\ l ≡ₚ a :: l' /\ f <$> l' ≡ₚ k.
Proof.
  intros Hp. assert (b ∈ f <$> l) as Hb by (rewrite Hp; set_solver).
  apply list_elem_of_fmap in Hb as (a & -> & Ha). apply list_elem_of_split in Ha as (l1 & l2 & ->).
  exists a, (l1 ++ l2). split; [done|]. split; [by rewrite <- Permutation_middle|].
  apply (Permutation_cons_inv (a := f a)). rewrite <- Hp, <- Permutation_middle. done.
Qed.

Section wire.
Context `{Build} {U : Type} `{Uring U} (send_bufs_ : nat).
Implicit Types (s : UringSender.UringSender U) (P fl qd : list (request * list Z)).

(** Of the SENDs prepared, [P] in their order, [qd] are queued, in that
    order, [fl] in flight, and [done_] have completed, with the completions
    [C] in the order they were drained. *)
Record wire P (C : list cqe) s done_ fl qd : Prop := {
  wr_prepared : exists pre, P = pre ++ qd /\ pre ≡ₚ done_ ++ fl;
  wr_done : (rq_data ∘ fst <$> done_) = (cq_data <$> C);
  wr_flight : fst <$> fl ≡ₚ flight (UringSender.ring_ s);
  wr_queued : fst <$> qd = queued (UringSender.ring_ s);
  wr_mem : Forall (sends (UringSender.mem_ s)) (fl ++ qd)
}.

Lemma wire_drain_loop fuel s s' P C done_ fl qd :
  tx_inv send_bufs_ s -> wire P C s done_ fl qd -> UringSender.drain_loop fuel s = Ok s' ->
  exists new fl', wire P (C ++ drained_cqes fuel (UringSender.ring_ s)) s' (done_ ++ new) fl' qd.
Proof.
  revert s C done_ fl. induction fuel as [|fuel IH]; intros s C done_ fl Hi Hw E; [done|].
  cbn [UringSender.drain_loop drained_cqes] in *.
  destruct (peek_cqe (UringSender.ring_ s)) as [u [c|]] eqn:Ep;
    destruct (peek_ok _ _ _ (ti_ok _ _ Hi) Ep) as (Hok & Hq & Hf & Hc).
  - destruct Hc as (r & Hh & Hdata & _). destruct (seen_ok u r Hok Hh) as (Hok' & Hq' & Hf').
    rewrite Hdata in E. set (s1 := if cq_res c <? 0 then _ else _) in E.
    assert (UringSender.ring_ s1 = cqe_seen u /\ UringSender.pending_sqes_ s1 = UringSender.pending_sqes_ s /\
      UringSender.mem_ s1 = UringSender.mem_ s /\ UringSender.buf_in_flight_ s1 = UringSender.buf_in_flight_ s /\
      UringSender.free_count_ s1 = UringSender.free_count_ s)
      as (Hr1 & Hp1 & Hm1 & Hb1 & Hf1) by (unfold s1; by destruct (cq_res c <? 0)).
    destruct (tx_free_one send_bufs_ s r s1 Hi) as (s2 & E2 & Hi2 & Es2); try done; rewrite ?Hr1; try done.
    { unfold outstanding. rewrite Hr1, Hq', Hq, <- Hf, Hf'. symmetry. apply Permutation_middle. }
    { by rewrite Hq', Hq. }
    rewrite E2 in E. cbn [bind] in E.
    assert (UringSender.ring_ s2 = cqe_seen u) as Hr2 by (subst s2; done).
    destruct Hw as [(pre & -> & Hpre) Hdone Hfl Hqd Hmem]. rewrite <- Hf, Hf' in Hfl.
    destruct (fmap_take_out _ _ _ _ Hfl) as (a & fl1 & Ea & Hfl1 & Hfl2).
    destruct (IH s2 (C ++ [c]) (done_ ++ [a]) fl1 Hi2) as (new & fl' & Hw'); [|done|].
    + split; rewrite ?Hr2.
      * exists pre. split; [done|]. by rewrite Hpre, Hfl1, <- app_assoc.
      * rewrite !fmap_app, Hdone. cbn. by rewrite Ea, Hdata.
      * done.
      * by rewrite Hq', Hq.
      * subst s2. cbn. rewrite Hm1. rewrite Hfl1 in Hmem. by apply Forall_cons in Hmem as [_ ?].
    + exists (a :: new), fl'. rewrite Hr2, <- !app_assoc in Hw'. done.
  - injection E as <-. exists [], fl. rewrite !app_nil_r. destruct Hw.
    split; cbn; [done|done|by rewrite Hf|by rewrite Hq|done].
Qed.

(** [flush_sqes] submits the oldest queued SENDs. *)
Lemma wire_flushed P C s done_ fl qd :
  tx_inv send_bufs_ s -> wire P C s done_ fl qd ->
  exists fl' qd', wire P C (UringSender.flush_sqes s) done_ fl' qd'.
Proof.
  intros Hi [(pre & -> & Hpre) Hdone Hfl Hqd Hmem].
  destruct (flush_sqes_spec send_bufs_ s Hi) as (_ & (k & Hq & Hf) & _ & _ & _ & Hm & _).
  exists (fl ++ take k qd), (drop k qd). split.
  - exists (pre ++ take k qd). rewrite <- app_assoc, take_drop. split; [done|]. by rewrite Hpre, app_assoc.
  - done.
  - rewrite fmap_app, fmap_take, Hqd, Hf, Hfl. apply Permutation_app_comm.
  - by rewrite fmap_drop, Hqd, Hq.
  - by rewrite Hm, <- app_assoc, take_drop.
Qed.

(** What outstanding requests send is not touched by the next report. *)
Lemma sends_frame s s' rep q ps :
  tx_inv send_bufs_ s -> sent_one send_bufs_ rep s s' q ->
  Forall (fun p => p.1 ∈ outstanding s) ps ->
  Forall (sends (UringSender.mem_ s)) ps -> Forall (sends (UringSender.mem_ s')) ps.
Proof.
  intros Hi Hone Hsub Hps. induction Hps as [|p ps [Hl Hb] _ IH]; [constructor|].
  apply Forall_cons in Hsub as [Hp Hsub]. constructor; [|by apply IH]. split; [done|].
  rewrite (proj1 (ti_req _ _ Hi _ Hp)) in *. rewrite (so_frame _ _ _ _ _ Hone); [done|].
  by apply list_elem_of_fmap_2.
Qed.

Lemma wire_outstanding P C s done_ fl qd :
  wire P C s done_ fl qd -> Forall (fun p => p.1 ∈ outstanding s) (fl ++ qd).
Proof.
  intros []. apply Forall_forall. intros p Hp. unfold outstanding.
  rewrite <- wr_queued0, <- wr_flight0, <- fmap_app. apply list_elem_of_fmap_2. set_solver.
Qed.

Lemma wire_sent P C s s' done_ fl qd rep q :
  wire P C s done_ fl qd -> tx_inv send_bufs_ s -> sent_one send_bufs_ rep s s' q ->
  wire (P ++ [(q, report_bytes rep)]) C s' done_ fl (qd ++ [(q, report_bytes rep)]).
Proof.
  intros Hw Hi Hone. pose proof (sends_frame _ _ _ _ _ Hi Hone (wire_outstanding _ _ _ _ _ _ Hw)
    (wr_mem _ _ _ _ _ _ Hw)) as Hmem.
  destruct Hw as [(pre & -> & Hpre) Hdone Hfl Hqd _], Hone. split.
  - exists pre. split; [by rewrite app_assoc|done].
  - done.
  - by rewrite so_flight, Hfl.
  - by rewrite fmap_app, so_queued, Hqd.
  - rewrite app_assoc. apply Forall_app. split; [done|]. constructor; [|constructor]. split; [|done].
    apply (ti_req _ _ so_inv). unfold outstanding. rewrite so_queued. set_solver.
Qed.

(** The entry a report makes in the log. *)
Lemma send_log_spec (Hdepth : sq_depth (U := U) (Z.to_nat 256)) rep s :
  tx_inv send_bufs_ s -> 0 < UringSender.free_count_ s ->
  exists s' q, UringSender.send_report send_bufs_ 0 rep s = Ok (s', 1) /\ sent_one send_bufs_ rep s s' q /\
    send_log send_bufs_ rep s = [Prepared q (report_bytes rep)].
Proof.
  intros Hi Hfree. destruct (send_report_spec send_bufs_ Hdepth 0 rep s Hi Hfree) as (s' & q & E & Hone).
  exists s', q. split; [done|]. split; [done|]. unfold send_log. rewrite E.
  destruct (get_sqe (UringSender.ring_ s)) eqn:Eg.
  - rewrite (so_queued _ _ _ _ _ Hone), last_snoc. cbn. unfold sqe_bytes.
    rewrite (proj2 (ti_req _ _ (so_inv _ _ _ _ _ Hone) q ltac:(unfold outstanding;
      rewrite (so_queued _ _ _ _ _ Hone); set_solver))).
    change (Z.to_nat 48) with 48%nat. by rewrite (so_bytes _ _ _ _ _ Hone).
  - apply Hdepth in Eg; [done|apply Hi|]. pose proof (ti_free _ _ Hi) as Hf. unfold slots in Hf.
    rewrite length_fmap in Hf. unfold outstanding in Hf. lia.
Qed.

End wire.

(** ** In the daemon *)

Section daemon_wire.
Context `{Build} {U : Type} `{Uring U}.
Context (Capacity : nat) (clock_gettime : nat -> Z * Z) (recv_bufs_ send_bufs_ : nat).
Context (Nraw Nret Nin Nout : Z) (Hdepth : sq_depth (U := U) (Z.to_nat 256)).
Implicit Types (w : world U) (lg : list io_event).

#[local] Abbreviation step := (step Capacity clock_gettime recv_bufs_ send_bufs_ Nraw Nret Nin Nout).
#[local] Abbreviation logged := (logged Capacity clock_gettime recv_bufs_ send_bufs_ Nraw Nret Nin Nout).
#[local] Abbreviation step_log := (step_log send_bufs_).

(** The log accounts for every report the sender has taken. *)
Definition accounted lg w : Prop :=
  (snd <$> prepared lg) ++ (report_bytes <$> tx_pending (w_tx_pc w)) = report_bytes <$> w_sent w /\
  exists done_ fl qd, wire (prepared lg) (completed lg) (w_tx w) done_ fl qd.

(** Steps of the other threads leave the sender's requests and buffers alone. *)
Lemma accounted_other lg lg' w w' :
  accounted lg w -> prepared lg' = prepared lg -> completed lg' = completed lg ->
  w_sent w' = w_sent w -> tx_pending (w_tx_pc w') = tx_pending (w_tx_pc w) ->
  UringSender.ring_ (w_tx w') = UringSender.ring_ (w_tx w) ->
  UringSender.mem_ (w_tx w') = UringSender.mem_ (w_tx w) -> accounted lg' w'.
Proof.
  intros (Es & done_ & fl & qd & []) E1 E2 E3 E4 E5 E6. unfold accounted. rewrite E1, E2, E3, E4.
  split; [done|]. exists done_, fl, qd. by split; rewrite ?E5, ?E6.
Qed.

Lemma drain_log_prepared s : prepared (drain_log s) = [].
Proof. unfold drain_log. by induction (drained_cqes _ _). Qed.
Lemma drain_log_received s : received (drain_log s) = [].
Proof. unfold drain_log. by induction (drained_cqes _ _). Qed.
Lemma drain_log_completed s :
  completed (drain_log s) = drained_cqes (S (Z.to_nat UringSender.kNumSendBufs)) (UringSender.ring_ s).
Proof. unfold drain_log. induction (drained_cqes _ _) as [|c cs IH]; [done|]. cbn. by f_equal. Qed.

Lemma accounted_drain lg w s1 :
  tx_inv send_bufs_ (w_tx w) -> accounted lg w -> UringSender.drain_completions (w_tx w) = Ok s1 ->
  tx_inv send_bufs_ s1 /\
  exists done_ fl qd, wire (prepared (lg ++ drain_log (w_tx w))) (completed (lg ++ drain_log (w_tx w))) s1
    done_ fl qd.
Proof.
  intros Hi (_ & done_ & fl & qd & Hw) E. split.
  { destruct (drain_completions_spec send_bufs_ _ Hi) as (s2 & E2 & Hd). rewrite E2 in E.
    injection E as <-. apply Hd. }
  rewrite prepared_app, completed_app, drain_log_prepared, drain_log_completed, app_nil_r.
  destruct (wire_drain_loop send_bufs_ _ _ _ _ _ _ _ _ Hi Hw E) as (new & fl' & Hw'). eauto.
Qed.

Lemma accounted_begin lg w w' :
  tx_inv send_bufs_ (w_tx w) -> w_tx_pc w = TxTop -> accounted lg w -> tx_begin w = Ok w' ->
  accounted (lg ++ drain_log (w_tx w)) w'.
Proof.
  intros Hi Epc Ha E. unfold tx_begin in E.
  destruct (UringSender.drain_completions (w_tx w)) as [s1|] eqn:E1; [|done]. injection E as <-.
  destruct (accounted_drain _ _ _ Hi Ha E1) as (Hi1 & done_ & fl & qd & Hw).
  destruct (wire_flushed _ _ _ _ _ _ _ Hi1 Hw) as (fl' & qd' & Hw'). destruct Ha as [Es _].
  split; [|by exists done_, fl', qd']. rewrite prepared_app, drain_log_prepared, (app_nil_r (prepared lg)).
  by rewrite Epc in Es.
Qed.

Lemma accounted_tx lg w w' :
  tx_inv send_bufs_ (w_tx w) -> accounted lg w -> tx_step send_bufs_ Nout w = Ok w' ->
  accounted (lg ++ tx_log send_bufs_ w) w'.
Proof.
  intros Hi Ha E. unfold tx_step in E. unfold tx_log. destruct (w_tx_pc w) as [| |rep|] eqn:Epc.
  - destruct (w_running w); [by eapply accounted_begin|]. injection E as <-. rewrite app_nil_r.
    eapply accounted_other; try done. by rewrite Epc.
  - rewrite app_nil_r. pose proof Ha as (Es & done_ & fl & qd & Hw). rewrite Epc in Es. cbn in Es.
    destruct (try_pop Nout _) as [[q [rep|]]|]; cbn [bind] in E; try discriminate E; injection E as <-.
    + split; [|exists done_, fl, qd; by destruct Hw; split]. rewrite app_nil_r in Es.
      cbn. by rewrite fmap_app, Es.
    + eapply accounted_other; try done. by rewrite Epc.
  - destruct (Z.eqb_spec (UringSender.free_count_ (w_tx w)) 0) as [Hf|Hf].
    + destruct (UringSender.drain_completions (w_tx w)) as [s1|] eqn:E1; [|done]. injection E as <-.
      destruct (accounted_drain _ _ _ Hi Ha E1) as (_ & Hw). destruct Ha as [Es _]. split; [|done].
      rewrite prepared_app, drain_log_prepared, (app_nil_r (prepared lg)). by rewrite Epc in Es.
    + destruct (send_log_spec send_bufs_ Hdepth rep (w_tx w) Hi) as (s1 & q & E1 & Hone & ->).
      { pose proof (tx_slots_le _ _ Hi). rewrite (ti_free _ _ Hi) in *. lia. }
      rewrite E1 in E. injection E as <-. destruct Ha as (Es & done_ & fl & qd & Hw).
      split.
      * rewrite prepared_app, fmap_app. cbn. rewrite app_nil_r. by rewrite Epc in Es.
      * exists done_, fl, (qd ++ [(q, report_bytes rep)]). rewrite prepared_app, completed_app. cbn.
        rewrite app_nil_r. by apply (wire_sent send_bufs_ _ _ (w_tx w)).
  - injection E as <-. by rewrite app_nil_r.
Qed.

Lemma rx_log_sender w : prepared (rx_log w) = [] /\ completed (rx_log w) = [].
Proof. unfold rx_log. by destruct (w_rx_pc w), (peek_cqe (UringReceiver.ring_ (w_rx w))) as [u [c|]]. Qed.

Lemma accounted_step lg ev w w' :
  tx_inv send_bufs_ (w_tx w) -> accounted lg w -> step ev w = Ok w' -> accounted (lg ++ step_log ev w) w'.
Proof.
  intros Hi Ha E. destruct ev; cbn [Pipeline.step PipelineLog.step_log] in *;
    [| | |by eapply accounted_tx| | |]; rewrite ?app_nil_r.
  - destruct (rx_log_sender w) as [Ep Ec].
    unfold rx_step in E. run_step E; eapply accounted_other; try done;
      by rewrite ?prepared_app, ?completed_app, ?Ep, ?Ec, ?app_nil_r.
  - unfold dec_step in E. run_step E; by eapply accounted_other.
  - unfold eng_step, eng_poll in E. run_step E; by eapply accounted_other.
  - destruct (main_step_pc w) as [pc Epc]. rewrite Epc in E. injection E as <-. by eapply accounted_other.
  - unfold signal_handler in E. destruct (_ || _); injection E as <-; by eapply accounted_other.
  - destruct (store_bytes _ _ _); [|done]. injection E as <-. by eapply accounted_other.
Qed.

Lemma accounted_stale lg seen ev w w' :
  tx_inv send_bufs_ (w_tx w) -> accounted lg w -> stale_step Capacity clock_gettime Nin seen ev w = Ok w' ->
  accounted (lg ++ stale_log ev w) w'.
Proof.
  intros Hi Ha E. destruct ev; cbn [stale_step stale_log] in *; rewrite ?app_nil_r; try by injection E as <-.
  - run_step E; by eapply accounted_other.
  - run_step E; by eapply accounted_other.
  - unfold eng_poll in E. run_step E; by eapply accounted_other.
  - destruct (w_tx_pc w) eqn:Epc; rewrite ?app_nil_r; try by injection E as <-.
    + by eapply accounted_begin.
    + injection E as <-. eapply accounted_other; try done. by rewrite Epc.
Qed.

Lemma accounted_logged e0 v0 w0 lg w :
  asserts_enabled = false ->
  inv Capacity clock_gettime recv_bufs_ send_bufs_ Nraw Nret Nin Nout e0 v0 w0 -> accounted [] w0 ->
  logged w0 lg w -> accounted lg w.
Proof.
  intros Hrel Hi Ha. induction 1 as [|ev lg w w' Hl IH Hen E|seen ev lg w w' Hl IH Hs E]; [done|..];
    destruct (weak_reach_inv _ _ _ _ _ _ _ _ Hdepth _ _ _ _ Hrel Hi (logged_weak _ _ _ _ _ _ _ _ _ _ _ Hl))
      as [v Hv].
  - eapply accounted_step; [|done|done]. apply Hv.
  - eapply accounted_stale; [|done|done]. apply Hv.
Qed.

End daemon_wire.
