(* ===== verification/PipelineStats.v ===== *)
(** * The counters of a run

    The receiver's and the sender's counters against the log of the run, and
    the engine's against its reports. *)

From stdpp Require Import base numbers list gmap fin_maps.
From Stdlib Require Import ZArith Lia.
From S2P Require Import Prelude.
From S2P Require Import SPSCQueue.
From S2P Require Import Sink.
From S2P Require Import MatchingEngine.
From S2P Require Import EngineInv.
From S2P Require Import EngineHandlers.
From S2P Require Import EngineRun.
From S2P Require Import EngineSink.
From S2P Require Import WireProtocol.
From S2P Require Import Decoder.
From S2P Require Import DecoderProps.
From S2P Require Import Uring.
From S2P Require UringSender.
From S2P Require UringReceiver.
From S2P Require Import UringSenderProps.
From S2P Require Import UringReceiverProps.
From S2P Require Import Pipeline.
From S2P Require Import PipelineInv.
From S2P Require Import PipelineShutdown.
From S2P Require Import PipelineLog.
From S2P Require Import PipelineWire.

(** ** The sender's errors *)

Section sender_stats.
Context `{Build} {U : Type} `{Uring U} (send_bufs_ : nat).
Implicit Types (s : UringSender.UringSender U).

Lemma free_send_buf_errors slot s s' :
  UringSender.free_send_buf slot s = Ok s' ->
  UringSender.errors_ s' = UringSender.errors_ s /\ UringSender.ring_ s' = UringSender.ring_ s.
Proof.
  unfold UringSender.free_send_buf. intros E. destruct (assert_ _); [|done]. cbn [bind] in E.
  destruct (vec_at _ _); [|done]. cbn [bind] in E. destruct (assert_ _); [|done]. cbn [bind] in E.
  destruct (vec_set _ _ _); [|done]. by injection E as <-.
Qed.

(** Draining counts the completions that report an error. *)
Lemma drain_loop_errors fuel s s' n :
  UringSender.drain_loop fuel s = Ok s' -> UringSender.errors_ s = u64 (Z.of_nat n) ->
  UringSender.errors_ s' = u64 (Z.of_nat (n + failures (drained_cqes fuel (UringSender.ring_ s)))).
Proof.
  revert s n. induction fuel as [|fuel IH]; intros s n E En; [done|].
  cbn [UringSender.drain_loop drained_cqes] in *.
  destruct (peek_cqe (UringSender.ring_ s)) as [u [c|]].
  - set (s1 := if cq_res c <? 0 then _ else _) in E.
    destruct (UringSender.free_send_buf _ s1) as [s2|] eqn:E2; [|done]. cbn [bind] in E.
    apply free_send_buf_errors in E2 as [Ee Er].
    assert (UringSender.ring_ s2 = cqe_seen u) as Er2 by (rewrite Er; unfold s1; by destruct (cq_res c <? 0)).
    unfold failures. rewrite filter_cons. unfold s1 in Ee.
    destruct (Z.ltb_spec (cq_res c) 0); case_decide; try lia.
    + rewrite (IH s2 (n + 1)%nat E), Er2; [cbn [length]; do 2 f_equal; unfold failures; lia|].
      rewrite Ee. cbn. by rewrite En, u64_succ.
    + by rewrite (IH s2 n E), Er2; [|rewrite Ee].
  - injection E as <-. cbn. by rewrite Nat.add_0_r.
Qed.

Lemma flush_sqes_errors s : UringSender.errors_ (UringSender.flush_sqes s) = UringSender.errors_ s.
Proof. unfold UringSender.flush_sqes. by destruct (_ >? _). Qed.

(** Sending a report with an entry at hand is no error. *)
Lemma send_report_errors rep s s' k :
  UringSender.send_report send_bufs_ 0 rep s = Ok (s', k) -> get_sqe (UringSender.ring_ s) <> None ->
  UringSender.free_count_ s <> 0 -> UringSender.errors_ s' = UringSender.errors_ s.
Proof.
  intros E Hg Hf. unfold UringSender.send_report in E. cbn [UringSender.wait_free] in E.
  rewrite (proj2 (Z.eqb_neq _ _) Hf) in E. cbn [bind] in E. unfold UringSender.alloc_send_buf in E.
  destruct (UringSender.first_free _ _) as [i|]; [|by destruct (assert_ _)].
  destruct (vec_set _ _ _) as [l|]; [|done]. cbn [bind] in E.
  destruct (encode_exec_report _ _ _) as [[m len]|]; [|done]. cbn [bind] in E.
  destruct (assert_ _); [|done]. cbn [bind] in E. cbn in E.
  destruct (get_sqe _) as [u|]; [|done]. by injection E as <- _.
Qed.

End sender_stats.

(** ** The receiver's spans *)

Section receiver_stats.
Context `{Build} {U : Type} `{Uring U} (recv_bufs_ : nat).
Implicit Types (r : UringReceiver.UringReceiver U (list RawByteSpan)).

Lemma arm_buf_raw id r r' :
  UringReceiver.arm_buf recv_bufs_ id r = Ok r' -> UringReceiver.raw_queue_ r' = UringReceiver.raw_queue_ r.
Proof.
  unfold UringReceiver.arm_buf. intros E. destruct (assert_ _); [|done]. cbn [bind] in E.
  destruct (vec_at _ _); [|done]. cbn [bind] in E. destruct (assert_ _); [|done]. cbn [bind] in E.
  destruct (get_sqe _); [|by injection E as <-]. destruct (vec_set _ _ _); [|done]. by injection E as <-.
Qed.

(** A completion with bytes posts one span of as many, any other none. *)
Lemma process_cqe_posts c r r' :
  UringReceiver.process_cqe recv_bufs_ c r = Ok r' ->
  sp_len <$> posts (UringReceiver.raw_queue_ r) (UringReceiver.raw_queue_ r')
  = if cq_res c >? 0 then [u32 (cq_res c)] else [].
Proof.
  unfold UringReceiver.process_cqe. intros E. destruct (assert_ _); [|done]. cbn [bind] in E.
  destruct (vec_set _ _ _); [|done]. cbn [bind] in E. destruct (cq_res c >? 0).
  - cbn in E. injection E as <-. cbn. by rewrite posts_app.
  - destruct (cq_res c =? 0); apply arm_buf_raw in E; rewrite E; cbn;
      rewrite <- (app_nil_r (UringReceiver.raw_queue_ r)) at 2; by rewrite posts_app.
Qed.

(** The receiver's counters after the completions [cs]. *)
Definition tally (cs : list cqe) : Z * Z * Z :=
  (u64 (total (payloads cs)), u64 (Z.of_nat (length cs)), u64 (Z.of_nat (failures cs))).

Lemma process_cqe_tally c r r' cs :
  UringReceiver.process_cqe recv_bufs_ c r = Ok r' -> get_sqe (UringReceiver.ring_ r) <> None ->
  counters r = tally cs -> counters r' = tally (cs ++ [c]).
Proof.
  intros E Hg Hc. rewrite (process_cqe_counters _ _ _ _ E Hg). injection Hc as -> -> ->.
  unfold tally. rewrite payloads_snoc, total_app, failures_snoc, length_app. cbn [length].
  rewrite !u64_succ. destruct (cq_res c >? 0), (cq_res c <? 0); cbn [total foldr];
    rewrite ?Z.add_0_r, ?Nat.add_0_r, ?u64_add_l, ?u64_add_r; done.
Qed.

Lemma span_bytes_length m span :
  recv_bufs_live recv_bufs_ m -> span_in_buf recv_bufs_ span ->
  Z.of_nat (length (span_bytes m span)) = sp_len span.
Proof.
  intros Hm Hs. destruct (span_in_buf_ok _ _ _ Hm Hs) as [_ Hok]. destruct Hs as (Ed & Hl & _).
  destruct (Hok _ Ed) as [bs El]. unfold span_bytes. rewrite Ed, El, (load_bytes_length _ _ _ _ El). lia.
Qed.

(** The byte strings the spans of a completion add to those received. *)
Lemma spans_payloads m c spans cs :
  recv_bufs_live recv_bufs_ m -> Forall (span_in_buf recv_bufs_) spans -> cq_res c <= 4096 ->
  sp_len <$> spans = (if cq_res c >? 0 then [u32 (cq_res c)] else []) ->
  payloads cs ++ ((fun bs => Z.of_nat (length bs)) <$> (span_bytes m <$> spans)) = payloads (cs ++ [c]).
Proof.
  intros Hm Hs Hres Hp. rewrite payloads_snoc. f_equal. destruct (Z.gtb_spec (cq_res c) 0).
  - destruct spans as [|span [|? ?]]; try done. injection Hp as Hp. cbn.
    apply Forall_cons in Hs as [Hsp _]. rewrite (span_bytes_length m span Hm Hsp), Hp.
    by rewrite u32_id by (unfold in_u32; lia).
  - by destruct spans.
Qed.

End receiver_stats.

(** ** In the daemon *)

Section daemon_stats.
Context `{Build} {U : Type} `{Uring U}.
Context (Capacity : nat) (clock_gettime : nat -> Z * Z) (recv_bufs_ send_bufs_ : nat).
Context (Nraw Nret Nin Nout : Z) (Hdepth : sq_depth (U := U) (Z.to_nat 256)).
Context (e0 : Engine (list ExecutionReport)).
Implicit Types (w : world U) (lg : list io_event).

#[local] Abbreviation step := (step Capacity clock_gettime recv_bufs_ send_bufs_ Nraw Nret Nin Nout).
#[local] Abbreviation logged := (logged Capacity clock_gettime recv_bufs_ send_bufs_ Nraw Nret Nin Nout).
#[local] Abbreviation inv := (inv Capacity clock_gettime recv_bufs_ send_bufs_ Nraw Nret Nin Nout e0).

Record tallies lg w : Prop := {
  ta_rx : counters (w_rx w) = tally (received lg);
  ta_bytes : (fun bs => Z.of_nat (length bs)) <$> w_received w = payloads (received lg);
  ta_tx : UringSender.errors_ (w_tx w) = u64 (Z.of_nat (failures (completed lg)))
}.

Lemma tallies_other lg lg' w w' :
  tallies lg w -> received lg' = received lg -> completed lg' = completed lg ->
  counters (w_rx w') = counters (w_rx w) -> w_received w' = w_received w ->
  UringSender.errors_ (w_tx w') = UringSender.errors_ (w_tx w) -> tallies lg' w'.
Proof. intros [] E1 E2 E3 E4 E5. by split; rewrite ?E1, ?E2, ?E3, ?E4, ?E5. Qed.

(** One completion, with what it adds to each counter. *)
Lemma tallies_cqe v lg w w' u c :
  inv v w -> tallies lg w -> w_rx_pc w = RxCq -> peek_cqe (UringReceiver.ring_ (w_rx w)) = (u, Some c) ->
  rx_step recv_bufs_ Nraw Nret w = Ok w' -> tallies (lg ++ [Received c]) w'.
Proof.
  intros Hi [] Epc Ep E. pose proof (iv_rx _ _ _ _ _ _ _ _ _ _ _ Hi) as Hrx. unfold settled, buffers_out in Hrx.
  rewrite Epc in Hrx. cbn [rx_unseen rx_posting] in Hrx.
  destruct (cqe_step recv_bufs_ _ _ _ u c Hrx Ep)
    as (r1 & spans & _ & E1 & _ & _ & Hlog & Hspans & _ & Hlen & _).
  change (sink_log ?x) with x in Hlog. unfold rx_step in E. rewrite Epc, Ep, E1 in E. cbn [bind] in E.
  pose proof (process_cqe_posts _ _ _ _ E1) as Hp. cbn [UringReceiver.raw_queue_ UringReceiver.set_ring] in Hp.
  rewrite Hlog, posts_app in Hp, E.
  destruct (peek_ok _ _ _ (ri_ok _ _ _ _ Hrx) Ep) as (Hok & Hq & Hf & q & Hh & Hd & Hres).
  assert (get_sqe u <> None) as Hg.
  { apply Hdepth; [done|]. pose proof (owned_length _ _ _ _ _ _ (ri_own _ _ _ _ Hrx)) as Hl.
    rewrite Hq, length_app, (Permutation_length Hf), <- length_app. lia. }
  assert (rq_len q = 4096) as Hql.
  { destruct (seen_ok u q Hok Hh) as (_ & _ & Hf').
    apply (ow_req _ _ _ _ _ _ (ri_own _ _ _ _ Hrx)). rewrite <- Hf, Hf'. set_solver. }
  pose proof (process_cqe_tally _ _ _ _ _ E1 Hg ta_rx0) as Hc1.
  pose proof (spans_payloads recv_bufs_ (w_mem w) c spans (received lg) (iv_live _ _ _ _ _ _ _ _ _ _ _ Hi)
    Hspans ltac:(lia) Hp) as Hb1.
  rewrite <- ta_bytes0, <- fmap_app in Hb1. change [c] with (received [Received c]) in Hc1, Hb1.
  rewrite <- received_app in Hc1, Hb1.
  assert (UringSender.errors_ (w_tx w) = u64 (Z.of_nat (failures (completed (lg ++ [Received c]))))) as Ht1
    by (by rewrite completed_app, app_nil_r).
  destruct spans as [|span [|? ?]]; [| |simpl in Hlen; lia]; injection E as <-; split; try done.
  cbn in Hb1. by rewrite app_nil_r in Hb1.
Qed.

Lemma tallies_rx v lg w w' :
  inv v w -> tallies lg w -> rx_step recv_bufs_ Nraw Nret w = Ok w' -> tallies (lg ++ rx_log w) w'.
Proof.
  intros Hi Ht E. unfold rx_log. destruct (w_rx_pc w) eqn:Epc; rewrite ?app_nil_r.
  - unfold rx_step in E. rewrite Epc in E. injection E as <-. by eapply tallies_other.
  - unfold rx_step in E. rewrite Epc in E. pose proof (iv_rx _ _ _ _ _ _ _ _ _ _ _ Hi) as Hrx.
    unfold settled in Hrx. rewrite Epc in Hrx. cbn [rx_unseen] in Hrx.
    destruct (try_pop Nret _) as [[q [id|]]|]; [| |done]; cbn [bind] in E.
    + destruct (UringReceiver.reclaim_buf _ _ _) as [r2|] eqn:E2; [|done]. injection E as <-.
      eapply tallies_other; try done. 
      exact (reclaim_buf_counters _ _ _ _ E2 (rx_has_sqe _ _ _ _ Hrx Hdepth)).
    + injection E as <-. eapply tallies_other; try done. cbn. unfold UringReceiver.submit_pending.
      by destruct (_ >? _).
  - destruct (peek_cqe (UringReceiver.ring_ (w_rx w))) as [u [c|]] eqn:Ep; [by eapply tallies_cqe|].
    unfold rx_step in E. rewrite Epc, Ep in E. injection E as <-. rewrite app_nil_r. by eapply tallies_other.
  - unfold rx_step in E. rewrite Epc in E. destruct (try_push _ _ _) as [[q ok]|]; [|done].
    injection E as <-. by eapply tallies_other.
  - unfold rx_step in E. rewrite Epc in E. injection E as <-. by eapply tallies_other.
  - unfold rx_step in E. rewrite Epc in E. by injection E as <-.
Qed.

Lemma tallies_drain lg w s1 :
  tallies lg w -> UringSender.drain_completions (w_tx w) = Ok s1 ->
  UringSender.errors_ s1 = u64 (Z.of_nat (failures (completed (lg ++ drain_log (w_tx w))))).
Proof.
  intros [] E. rewrite completed_app, failures_app, drain_log_completed.
  by apply (drain_loop_errors _ _ _ _ E).
Qed.

Lemma tallies_begin lg w w' :
  tallies lg w -> tx_begin w = Ok w' -> tallies (lg ++ drain_log (w_tx w)) w'.
Proof.
  intros Ht E. unfold tx_begin in E.
  destruct (UringSender.drain_completions (w_tx w)) as [s1|] eqn:E1; [|done]. injection E as <-.
  pose proof (tallies_drain _ _ _ Ht E1) as He. destruct Ht.
  split; [..|by cbn; rewrite flush_sqes_errors]; by rewrite received_app, drain_log_received, app_nil_r.
Qed.

Lemma tallies_tx v lg w w' :
  inv v w -> tallies lg w -> tx_step send_bufs_ Nout w = Ok w' -> tallies (lg ++ tx_log send_bufs_ w) w'.
Proof.
  intros Hi Ht E. unfold tx_step in E. unfold tx_log.
  destruct (w_tx_pc w) as [| |rep|] eqn:Epc; rewrite ?app_nil_r.
  - destruct (w_running w); [by eapply tallies_begin|]. injection E as <-. rewrite app_nil_r.
    by eapply tallies_other.
  - destruct (try_pop Nout _) as [[q [rep|]]|]; [| |done]; injection E as <-; by eapply tallies_other.
  - pose proof (iv_tx _ _ _ _ _ _ _ _ _ _ _ Hi) as Htx.
    destruct (Z.eqb_spec (UringSender.free_count_ (w_tx w)) 0) as [Hf|Hf].
    + destruct (UringSender.drain_completions (w_tx w)) as [s1|] eqn:E1; [|done]. injection E as <-.
      pose proof (tallies_drain _ _ _ Ht E1) as He. destruct Ht.
      split; [..|done]; by rewrite received_app, drain_log_received, app_nil_r.
    + pose proof (ti_free _ _ Htx) as Hfree. pose proof (tx_slots_le _ _ Htx) as Hle.
      destruct (send_log_spec send_bufs_ Hdepth rep (w_tx w) Htx) as (s1 & q & E1 & _ & ->); [lia|].
      rewrite E1 in E. injection E as <-. apply send_report_errors in E1; [| |done].
      * eapply tallies_other; try done; by rewrite ?received_app, ?completed_app, app_nil_r.
      * apply Hdepth; [apply Htx|]. unfold slots, outstanding in Hfree, Hle.
        rewrite length_fmap in Hfree, Hle. lia.
  - by injection E as <-.
Qed.

Lemma tallies_step v lg ev w w' :
  inv v w -> tallies lg w -> step ev w = Ok w' -> tallies (lg ++ step_log send_bufs_ ev w) w'.
Proof.
  intros Hi Ht E. destruct ev; cbn [Pipeline.step step_log] in *;
    [by eapply tallies_rx| | |by eapply tallies_tx| | |]; rewrite ?app_nil_r.
  - unfold dec_step in E. run_step E; by eapply tallies_other.
  - unfold eng_step, eng_poll in E. run_step E; by eapply tallies_other.
  - destruct (main_step_pc w) as [pc Epc]. rewrite Epc in E. injection E as <-. by eapply tallies_other.
  - unfold signal_handler in E. destruct (_ || _); injection E as <-; by eapply tallies_other.
  - destruct (store_bytes _ _ _); [|done]. injection E as <-. by eapply tallies_other.
Qed.

Lemma tallies_stale lg seen ev w w' :
  tallies lg w -> stale_step Capacity clock_gettime Nin seen ev w = Ok w' -> tallies (lg ++ stale_log ev w) w'.
Proof.
  intros Ht E. destruct ev; cbn [stale_step stale_log] in *; rewrite ?app_nil_r; try by injection E as <-.
  - run_step E; try by eapply tallies_other. eapply tallies_other; try done. cbn.
    unfold UringReceiver.submit_pending. by destruct (_ >? _).
  - run_step E; by eapply tallies_other.
  - unfold eng_poll in E. run_step E; by eapply tallies_other.
  - destruct (w_tx_pc w) eqn:Epc; rewrite ?app_nil_r; try by injection E as <-.
    + by eapply tallies_begin.
    + injection E as <-. by eapply tallies_other.
Qed.

Lemma tallies_logged v0 w0 lg w :
  asserts_enabled = false -> inv v0 w0 -> tallies [] w0 -> logged w0 lg w -> tallies lg w.
Proof.
  intros Hrel Hi Ha. induction 1 as [|ev lg w w' Hl IH Hen E|seen ev lg w w' Hl IH Hs E]; [done|..].
  - destruct (weak_reach_inv _ _ _ _ _ _ _ _ Hdepth _ _ _ _ Hrel Hi
      (logged_weak _ _ _ _ _ _ _ _ _ _ _ Hl)) as [v Hv]. by eapply tallies_step.
  - by eapply tallies_stale.
Qed.

(** The engine's counters: a fill for every two trade reports it has posted,
    a reject for every reject report. *)
Lemma engine_tallied v w L fs Q :
  asserts_enabled = false -> inv v w -> eng_inv Capacity L fs Q e0 -> e_outbound e0 = [] ->
  e_fills_executed e0 = 0 -> e_orders_rejected e0 = 0 ->
  exists n, trade_count (e_outbound (w_eng w)) = (2 * n)%nat /\
    e_fills_executed (w_eng w) = u64 (Z.of_nat n) /\
    e_orders_rejected (w_eng w) = u64 (Z.of_nat (reject_count (e_outbound (w_eng w)))).
Proof.
  intros Hrel Hi He Eo Ef Er. destruct (iv_seq _ _ _ _ _ _ _ _ _ _ _ Hi) as (es & Es & Hs).
  pose proof (msgs_typed _ _ _ _ _ _ _ _ _ _ _ Hi) as [Hm _]%Forall_app.
  destruct (dispatch_all_step Capacity clock_gettime (w_msgs w) L fs Q e0 Hrel He (msgs_ok_quantity _ Hm))
    as (es1 & _ & _ & _ & E1 & _ & _ & _ & (R & HR & n & Hn & Hf & Hr) & _).
  rewrite E1 in Es. injection Es as ->. destruct Hs, sa_log as (R0 & HR1 & HR2).
  change (sink_log ?x) with x in *. rewrite Eo in HR. cbn in HR, HR1, HR2. exists n.
  rewrite sa_fills, sa_rejected, HR1, <- HR2, HR in *. rewrite Ef, Er, !iter_count in *. done.
Qed.

End daemon_stats.
