(* ===== verification/PipelineExit.v ===== *)
(** * How the daemon ends: [src/main.cpp]

    What [main] does once the workers have been joined, what it does when the
    construction of one of its objects throws, and what becomes of a thread
    that cannot be started.  The objects are destroyed in the reverse order of
    their declarations, on both ways out of the [try] block. *)

From stdpp Require Import base numbers list gmap fin_maps.
From Stdlib Require Import ZArith Lia.
From S2P Require Import Prelude.
From S2P Require Import OrderTypes.
From S2P Require Import OrderPool.
From S2P Require Import SPSCQueue.
From S2P Require Import MatchingEngine.
From S2P Require Import Decoder.
From S2P Require Import Uring.
From S2P Require UringSender.
From S2P Require UringReceiver.
From S2P Require Import Pipeline.
From S2P Require Import PipelineShutdown.

(** The objects [main] declares, in that order. *)
Inductive local : Type :=
| raw_queue | buf_ret_queue | inbound_queue | outbound_queue
| decoder | engine | receiver | sender.

(** What is done to give something back. *)
Inductive effect : Type :=
| Close (fd : Z)
| RxRing (c : ring_call)
| TxRing (c : ring_call)
| Munmap (addr : nat) (len : Z)
| Destroy (x : local).              (* the end of the object's storage *)

(** Which object holds references to which. *)
Definition refers_to (x : local) : list local :=
  match x with
  | receiver => [raw_queue; buf_ret_queue]
  | sender => [outbound_queue]
  | engine => [inbound_queue; outbound_queue]
  | _ => []
  end.

Record exit_result : Type := mkExit {
  x_effects : list effect;
  x_printed : option statistics;
  x_heap : heap;
  x_status : Z
}.

Section exit.
Context {U : Type}.

(** [if (dummy_fds[i] >= 0) ::close(dummy_fds[i]);] *)
Definition close_sockets (fds : Z * Z) : list effect :=
  (if fds.1 >=? 0 then [Close fds.1] else []) ++ (if fds.2 >=? 0 then [Close fds.2] else []).

(** ** Destructors *)

Definition delete_sender (s : UringSender.UringSender U) : list effect :=
  (TxRing <$> UringSender.UringSender_delete s) ++ [Destroy sender].

Definition delete_receiver (r : UringReceiver.UringReceiver U (list RawByteSpan)) : list effect :=
  (RxRing <$> UringReceiver.UringReceiver_delete r) ++ [Destroy receiver].

(** The engine's members include the pool, whose destructor unmaps the slab. *)
Definition delete_engine (e : Engine (list ExecutionReport)) : list effect :=
  [Munmap (storage_ (e_pool e)) (bytes_allocated_ (e_pool e)); Destroy engine].

Definition delete_rest : list effect :=
  [Destroy decoder; Destroy outbound_queue; Destroy inbound_queue; Destroy buf_ret_queue;
   Destroy raw_queue].

(** ** The end of [main] *)

(** After the joins: the sockets are closed, the statistics printed, the
    locals destroyed; [return 0]. *)
Definition main_exit (o : os (U := U)) (w : world U) : exit_result := {|
  x_effects := close_sockets (open_sockets o) ++ delete_sender (w_tx w) ++ delete_receiver (w_rx w) ++
               delete_engine (w_eng w) ++ delete_rest;
  x_printed := Some (final_statistics w);
  x_heap := OrderPool_delete (e_heap (w_eng w)) (e_pool (w_eng w));
  x_status := 0
|}.

(** An exception while the objects are constructed: those that exist are
    destroyed, then [catch (..) { ..; return 1; }]. *)
Definition main_catch (h : heap) (err : start_error (U := U)) : exit_result :=
  match err with
  | PoolError _ => mkExit delete_rest None h 1
  | ReceiverError e _ =>
      mkExit (delete_engine e ++ delete_rest) None (OrderPool_delete (e_heap e) (e_pool e)) 1
  | SenderError e r _ =>
      mkExit (delete_receiver r ++ delete_engine e ++ delete_rest) None
        (OrderPool_delete (e_heap e) (e_pool e)) 1
  end.

(** The engine that exists when [main_start] is over. *)
Definition built (x : world U + start_error (U := U)) : option (Engine (list ExecutionReport)) :=
  match x with
  | inl w => Some (w_eng w)
  | inr (PoolError _) => None
  | inr (ReceiverError e _) | inr (SenderError e _ _) => Some e
  end.

(** ** A thread that cannot be started *)

(** The constructor of the thread after the first [n] of [workers] has thrown:
    those before it run, it and those after it do not exist. *)
Definition spawned (n : nat) (w : world U) : world U :=
  let w1 := if (n <=? 0)%nat then set_rx (w_rx w) RxExited w else w in
  let w2 := if (n <=? 1)%nat then set_tx (w_tx w1) TxExited w1 else w1 in
  let w3 := if (n <=? 2)%nat then set_dec (w_dec w2) DecExited w2 else w2 in
  if (n <=? 3)%nat then set_eng (w_eng w3) EngExited w3 else w3.

(** Unwinding runs [~jthread] on each thread that was started, which asks it
    to stop (the threads have no stop token to see that) and joins it; the
    handler is entered when all of them have returned. *)
Definition catch_entered (n : nat) (w : world U) : Prop :=
  Forall (fun ev => exited ev w = true) (take n workers).

End exit.

(** ** What is owed for what was acquired *)

(** The effects that undo what the operating system has given, read off its
    answers. *)
Section due.
Context {U : Type} (Capacity : nat) (o : os (U := U)).

Definition slab_due : list effect :=
  let bytes := u64 (Z.of_nat Capacity * sizeof_Order) in
  match os_mmap o true bytes with
  | Some base => [Munmap base bytes]
  | None => match os_mmap o false bytes with Some base => [Munmap base bytes] | None => [] end
  end.

Definition sockets_due : list effect :=
  Close <$> filter (fun fd => 0 <= fd) [(open_sockets o).1; (open_sockets o).2].

Definition rx_due : list effect :=
  match UringReceiver.init_ring (os_rx_init_params o) (os_rx_init o) with
  | inl (u, _) =>
      (if decide ((os_register_buffers o u).2 = 0) then [RxRing UnregisterBuffers] else []) ++
      [RxRing QueueExit]
  | inr _ => []
  end.

Definition tx_due : list effect :=
  match UringSender.init_ring (os_tx_init_params o) (os_tx_init o) with
  | inl _ => [TxRing QueueExit]
  | inr _ => []
  end.

End due.

(** The effects that concern the operating system. *)
Definition is_call (x : effect) : bool := match x with Destroy _ => false | _ => true end.
Definition calls (xs : list effect) : list effect := filter is_call xs.

(** [a] comes before [b] in [xs]. *)
Definition before (a b : effect) (xs : list effect) : Prop :=
  exists l1 l2 l3, xs = l1 ++ a :: l2 ++ b :: l3.

(** No object is destroyed while another that refers to it exists, nor a ring
    used once the object that holds its buffers is gone. *)
Definition orderly (xs : list effect) : Prop :=
  (forall x y, Destroy x ∈ xs -> y ∈ refers_to x -> before (Destroy x) (Destroy y) xs) /\
  (forall c, RxRing c ∈ xs -> before (RxRing c) (Destroy receiver) xs) /\
  (forall c, TxRing c ∈ xs -> before (TxRing c) (Destroy sender) xs).
