(* ===== verification/PipelineExample.v ===== *)
(** * Running the daemon

    Runs of the whole daemon, computed step by step.  The decoder's table of
    what each span holds stands for the bytes in the receive buffers, which
    are not computed with; [fast_run_reach] shows that such a run is one of
    the daemon. *)

From stdpp Require Import base numbers list gmap fin_maps.
From Stdlib Require Import ZArith Lia.
From S2P Require Import Prelude.
From S2P Require Import OrderTypes.
From S2P Require Import SPSCQueue.
From S2P Require Import Sink.
From S2P Require Import MatchingEngine.
From S2P Require Import WireProtocol.
From S2P Require Import Decoder.
From S2P Require Import DecoderProps.
From S2P Require Import Uring.
From S2P Require UringSender.
From S2P Require UringReceiver.
From S2P Require Import UringSenderProps.
From S2P Require Import UringReceiverProps.
From S2P Require Import Pipeline.
From S2P Require Import PipelineInv.
From S2P Require Import PipelineShutdown.
From S2P Require Import PipelineHang.

#[local] Existing Instance Release.

Lemma release_off : @asserts_enabled Release = false.
Proof. done. Qed.

(** The kernel answers a RECV into buffer [i] with [lens !! i] bytes, and with
    the end of the stream where there is none; a SEND is answered in full. *)
Definition px_ring (lens : list Z) : Uring SimRing :=
  SimRing_Uring 256 (fun r => if rq_len r =? 48 then 48 else default 0 (lens !! Z.to_nat (rq_data r))).

Definition px_empty : SimRing := mkSim [] [] None.

Definition px_os : os (U := SimRing) :=
  mkOs (fun _ _ => Some 0%nat) (0, (3, 4)) (-1, -1)
    (fun _ _ => (0, px_empty)) (fun _ => (-1, px_empty)) (fun u => (u, 0))
    (fun _ _ => (-1, px_empty)) (fun _ => (0, px_empty)).

Definition px_mem : memory := live_at 0 (Z.to_nat (64 * 4096)).
Definition px_send : memory := live_at 0 (Z.to_nat 12288).

Lemma single_bit_pow k : 0 <= k < 64 -> has_single_bit (2 ^ k).
Proof. intros Hk. by exists k. Qed.

Lemma live_at_bytes a n : mem_bytes (live_at a n).
Proof.
  revert a. induction n as [|n IH]; intros a; cbn [live_at]; [apply map_Forall_empty|].
  apply map_Forall_insert_2; [unfold in_u8; lia|apply IH].
Qed.

(** ** What arrives *)

(** The byte strings of buffers [0], [1], ... *)
Definition px_request (id : nat) : request := mkReq (Z.of_nat id) (id * 4096)%nat 4096.

Fixpoint px_store (m : memory) (id : nat) (bss : list (list Z)) : res memory :=
  match bss with
  | [] => Ok m
  | bs :: bss' => let* m1 := store_bytes m (id * 4096) bs in px_store m1 (S id) bss'
  end.

(** Byte strings that fit the buffers. *)
Definition px_fit (bss : list (list Z)) : bool :=
  forallb (fun bs => (Z.of_nat (length bs) <=? 4096) && forallb (fun b => (0 <=? b) && (b <? 256)) bs) bss.

Lemma px_fit_spec bss :
  px_fit bss = true -> Forall (fun bs => Z.of_nat (length bs) <= 4096 /\ Forall in_u8 bs) bss.
Proof.
  intros Hf. apply Forall_forall. intros bs Hbs. unfold px_fit in Hf. rewrite forallb_forall in Hf.
  specialize (Hf bs). apply list_elem_of_In in Hbs. apply Hf in Hbs.
  apply andb_true_iff in Hbs as [Hl%Z.leb_le Hb]. split; [done|].
  apply Forall_forall. intros b Hin%list_elem_of_In. rewrite forallb_forall in Hb. apply Hb in Hin.
  unfold in_u8. lia.
Qed.

Lemma px_store_spec bss : forall m id,
  Forall (fun bs => Z.of_nat (length bs) <= 4096 /\ Forall in_u8 bs) bss ->
  (forall c, (id * 4096 <= c < (id + length bss) * 4096)%nat -> is_Some (m !! c)) ->
  exists m', px_store m id bss = Ok m' /\
    (forall c, (c < id * 4096)%nat -> m' !! c = m !! c) /\
    (forall i bs, bss !! i = Some bs -> load_bytes m' ((id + i) * 4096) (length bs) = Ok bs).
Proof.
  induction bss as [|bs bss IH]; intros m id Hall Hm; cbn [px_store].
  { exists m. split; [done|]. split; [done|]. done. }
  apply Forall_cons in Hall as [[Hl _] Hall]. cbn [length] in Hm.
  destruct (store_bytes_spec m (id * 4096) bs) as (m1 & -> & El & Ho & Hd); [intros c Hc; apply Hm; lia|].
  cbn [bind]. destruct (IH m1 (S id) Hall) as (m' & E & Hlow & Hload).
  { intros c Hc. rewrite Ho by lia. apply Hm. lia. }
  exists m'. split; [done|]. split.
  - intros c Hc. rewrite Hlow by lia. apply Ho. lia.
  - intros [|i] bs' Hi; cbn in Hi.
    + injection Hi as <-. rewrite Nat.add_0_r. rewrite (load_bytes_frame m1); [done|].
      intros c Hc. apply Hlow. lia.
    + specialize (Hload i bs' Hi). by replace (S id + i)%nat with (id + S i)%nat in Hload by lia.
Qed.

(** What the decoder finds in buffer [i]. *)
Definition px_table (bss : list (list Z)) (span : RawByteSpan) : option (list InboundOrderMsg) :=
  bs ← bss !! Z.to_nat (sp_buf_id span);
  if bool_decide (sp_data span = Some (Z.to_nat (sp_buf_id span) * 4096)%nat)
     && (sp_len span =? Z.of_nat (length bs)) && (stream_errors (frames bs).1 (frames bs).2 =? 0)%nat
  then Some (omap frame_msg (frames bs).1) else None.

Definition px_holds (bss : list (list Z)) (m : memory) : Prop :=
  forall i bs, bss !! i = Some bs -> load_bytes m (i * 4096) (length bs) = Ok bs.

Lemma px_table_sound bss m span msgs :
  px_holds bss m -> px_table bss span = Some msgs -> span_msgs m span = msgs /\ span_errors m span = 0%nat.
Proof.
  intros Hh E. unfold px_table in E. destruct (bss !! _) as [bs|] eqn:Eb; [|done]. cbn in E.
  destruct ((_ && _) && _) eqn:Ec; [|done]. injection E as <-.
  apply andb_true_iff in Ec as [[Ed%bool_decide_eq_true El%Z.eqb_eq]%andb_true_iff He%Nat.eqb_eq].
  unfold span_msgs, span_errors, span_bytes. rewrite Ed, El, Nat2Z.id, (Hh _ _ Eb). done.
Qed.

(** ** Runs *)

Section runs.
Context (lens : list Z) (Nin Nout : Z).
#[local] Instance px_uring : Uring SimRing := px_ring lens.

#[local] Abbreviation px_step := (step 1 (fun _ => (0, 0)) 0 0 64 64 Nin Nout).
#[local] Abbreviation px_reach := (reach 1 (fun _ => (0, 0)) 0 0 64 64 Nin Nout).
#[local] Abbreviation px_inv := (inv 1 (fun _ => (0, 0)) 0 0 64 64 Nin Nout).
#[local] Abbreviation px_start := (main_start 1 0 64 64 Nin Nout px_os ∅).

Lemma px_depth : sq_depth (U := SimRing) (Z.to_nat 256).
Proof. exact (sim_depth 256 _). Qed.

Lemma px_start_ok :
  has_single_bit Nin -> has_single_bit Nout -> start_ok 1 0 0 64 64 Nin Nout px_os px_mem px_send.
Proof.
  intros Hi Ho. split.
  - by apply (single_bit_pow 6).
  - by apply (single_bit_pow 6).
  - exact Hi.
  - exact Ho.
  - vm_compute. done.
  - intros c Hc. by apply live_at_Z.
  - apply live_at_bytes.
  - intros c Hc. by apply live_at_Z.
  - exact px_depth.
  - intros u sqpoll [= <- <-]. split_and!; [|done..]. intros r Hr. discriminate Hr.
  - intros u sqpoll [= <- <-]. split_and!; [|done..]. intros r Hr. discriminate Hr.
Qed.

(** A step, with the table in place of [decode_span]. *)
Definition fast_step (table : RawByteSpan -> option (list InboundOrderMsg)) (ev : event)
  (w : world SimRing) : option (world SimRing) :=
  match ev, w_dec_pc w with
  | DecoderT, DecPop (S turns) =>
      match try_pop 64 (w_raw w) with
      | Ok (raw, None) => Some (set_dec (w_dec w) DecTop (set_raw raw w))
      | Ok (raw, Some span) =>
          msgs ← table span;
          Some (set_dec (counted (length msgs) 0 (inc_spans (w_dec w)))
                  (DecPost msgs (sp_buf_id span) turns) (set_raw raw w))
      | Err _ => None
      end
  | KernelRecv _ _, _ => None
  | _, _ => match px_step ev w with Ok w' => Some w' | Err _ => None end
  end.

Fixpoint fast_run table (evs : list event) (w : world SimRing) : option (world SimRing) :=
  match evs with
  | [] => Some w
  | ev :: evs' => w1 ← fast_step table ev w; fast_run table evs' w1
  end.

Lemma fast_pop_sound bss e0 v w w' turns :
  px_inv e0 v w -> px_holds bss (w_mem w) -> w_dec_pc w = DecPop (S turns) ->
  fast_step (px_table bss) DecoderT w = Some w' -> px_step DecoderT w = Ok w'.
Proof.
  intros Hi Hh Epc E. cbn [step]. unfold fast_step in E. unfold dec_step. rewrite Epc in *.
  pose proof (iv_raw _ _ _ _ _ _ _ _ _ _ _ Hi) as Hr.
  destruct (try_pop_total 64 (rr_pow _ _ _ Hr) _ _ Hr) as (q & Eq & _). rewrite Eq in *. cbn [bind].
  pose proof (iv_wait _ _ _ _ _ _ _ _ _ _ _ Hi) as Hw.
  destruct (v_raw v) as [|span raw]; cbn [head] in *; [by injection E as <-|].
  destruct (px_table bss span) as [msgs|] eqn:Et; [|done]. cbn in E. injection E as <-.
  destruct (px_table_sound _ _ _ _ Hh Et) as [Hmsgs Herr].
  inversion Hw as [|? bs ? ws [Hspan _] _]; subst.
  destruct (decode_span_ok (w_mem w) span (w_dec w) ([] : list InboundOrderMsg))
    as (s' & -> & _ & Hlog); [eapply span_in_buf_ok; [apply Hi|done]|done| |].
  { rewrite (iv_dec _ _ _ _ _ _ _ _ _ _ _ Hi). apply decoder_counts_ok. }
  change (s' = span_msgs (w_mem w) span) in Hlog. subst s'. cbn [bind]. by rewrite Herr.
Qed.

Lemma fast_step_sound bss e0 v w w' ev :
  px_inv e0 v w -> px_holds bss (w_mem w) -> fast_step (px_table bss) ev w = Some w' ->
  enabled ev w /\ px_step ev w = Ok w'.
Proof.
  intros Hi Hh E. destruct ev; try (unfold fast_step in E; split; [done|];
    destruct (px_step _ w); [by injection E as <-|done]); [|done].
  split; [done|]. destruct (w_dec_pc w) as [|[|turns]| |] eqn:Epc; try by eapply fast_pop_sound.
  all: unfold fast_step in E; rewrite Epc in E; destruct (px_step _ w); [by injection E as <-|done].
Qed.

(** Nobody but the kernel writes to the receive buffers. *)
Lemma step_mem ev w w' : px_step ev w = Ok w' ->
  match ev with KernelRecv _ _ => True | _ => w_mem w' = w_mem w end.
Proof.
  intros E. destruct ev; cbn [step] in E; [| | | | | |done].
  - unfold rx_step in E. by run_step E.
  - unfold dec_step in E. by run_step E.
  - unfold eng_step, eng_poll in E. by run_step E.
  - unfold tx_step, tx_begin in E. by run_step E.
  - destruct (main_step_pc w) as [pc Epc]. rewrite Epc in E. by injection E as <-.
  - unfold signal_handler in E. by run_step E.
Qed.

Lemma fast_run_reach bss evs : forall e0 v w w',
  px_inv e0 v w -> px_holds bss (w_mem w) -> fast_run (px_table bss) evs w = Some w' -> px_reach w w'.
Proof.
  induction evs as [|ev evs IH]; intros e0 v w w' Hi Hh E; cbn [fast_run] in E.
  { injection E as <-. constructor. }
  destruct (fast_step (px_table bss) ev w) as [w1|] eqn:E1; [|done]. cbn in E.
  destruct (fast_step_sound _ _ _ _ _ _ Hi Hh E1) as [Hen E2].
  destruct (daemon_step_inv 1 (fun _ => (0, 0)) 0 0 64 64 Nin Nout px_depth e0 ev v w release_off Hi Hen)
    as (w2 & v2 & E3 & Hi2). rewrite E2 in E3. injection E3 as <-.
  eapply reach_trans; [eapply reach_step; [constructor|done|done]|].
  eapply IH; [done| |done]. pose proof (step_mem _ _ _ E2) as Hm.
  destruct ev; try by rewrite Hm. by destruct (w_dec_pc w) as [|[|]| |].
Qed.

(** The kernel fills the buffers before anything else happens. *)
Lemma px_fill_reach bss : forall w m' id,
  Forall (fun bs => Z.of_nat (length bs) <= 4096 /\ Forall in_u8 bs) bss ->
  (forall i, (id <= i < id + length bss)%nat -> px_request i ∈ flight (UringReceiver.ring_ (w_rx w))) ->
  cq_head (UringReceiver.ring_ (w_rx w)) = None ->
  px_store (w_mem w) id bss = Ok m' -> px_reach w (set_memory m' w).
Proof.
  induction bss as [|bs bss IH]; intros w m' id Hall Hq Hh E; cbn [px_store] in E.
  { injection E as <-. destruct w. constructor. }
  apply Forall_cons in Hall as [[Hl Hb] Hall].
  destruct (store_bytes (w_mem w) (id * 4096) bs) as [m1|] eqn:E1; [|done]. cbn [bind] in E.
  eapply reach_trans.
  - eapply (reach_step _ _ _ _ _ _ _ _ w (KernelRecv (px_request id) bs) w (set_memory m1 w));
      [constructor| |cbn [step px_request rq_addr]; by rewrite E1].
    split; [apply Hq; cbn [length]; lia|]. split; [by rewrite Hh|]. by split.
  - apply (IH (set_memory m1 w) m' (S id)); try done. intros i Hi. apply Hq. cbn [length]. lia.
Qed.

(** The computed part of a run. *)
Definition px_final (bss : list (list Z)) (evs : list event) (m ms m1 : memory) : option (world SimRing) :=
  match px_start m ms with
  | Ok (inl w0) => fast_run (px_table bss) evs (set_memory m1 w0)
  | _ => None
  end.

(** What start-up leaves the kernel to do. *)
Definition px_armed (n : nat) (m ms : memory) : bool :=
  match px_start m ms with
  | Ok (inl w0) =>
      bool_decide (take n (sim_flight (UringReceiver.ring_ (w_rx w0))) = px_request <$> seq 0 n)
      && match sim_head (UringReceiver.ring_ (w_rx w0)) with None => true | _ => false end
  | _ => false
  end.

(** A state a computed run ends in is one of the daemon. *)
Lemma px_reaches_from bss evs (check : world SimRing -> bool) m ms m1 :
  start_ok 1 0 0 64 64 Nin Nout px_os m ms ->
  Forall (fun bs => Z.of_nat (length bs) <= 4096 /\ Forall in_u8 bs) bss ->
  px_store m 0 bss = Ok m1 -> px_holds bss m1 ->
  px_armed (length bss) m ms = true -> check <$> px_final bss evs m ms m1 = Some true ->
  exists w0 w, px_start m ms = Ok (inl w0) /\ px_reach w0 w /\ check w = true.
Proof.
  intros Hok Hf Es Hload Ha Hc.
  pose proof (main_start_spec 1 (fun _ => (0, 0)) 0 0 64 64 Nin Nout px_os ∅ m ms release_off Hok) as Hst.
  unfold px_armed in Ha. unfold px_final in Hc. revert Hst Ha Hc.
  generalize (px_start m ms). intros r Hst Ha Hc.
  destruct Hst as [[err ->]|(w0 & -> & Hinv & _ & _ & _ & _ & _ & Em & _)]; [discriminate Ha|].
  apply andb_true_iff in Ha as [Hq%bool_decide_eq_true Hh].
  destruct (sim_head (UringReceiver.ring_ (w_rx w0))) eqn:Ehd; [discriminate|].
  destruct (fast_run (px_table bss) evs (set_memory m1 w0)) as [w|] eqn:Er; [|discriminate].
  injection Hc as Hc. exists w0, w. split; [done|]. split; [|done].
  assert (px_reach w0 (set_memory m1 w0)) as Hr.
  { apply (px_fill_reach bss w0 m1 0); [done| |exact Ehd|by rewrite Em].
    intros i Hlt. change (px_request i ∈ sim_flight (UringReceiver.ring_ (w_rx w0))).
    apply (subseteq_take (length bss)). rewrite Hq. apply list_elem_of_fmap_2, elem_of_seq. lia. }
  destruct (daemon_reach_inv _ _ _ _ _ _ _ _ px_depth _ _ _ _ release_off Hinv Hr) as [v Hv].
  eapply reach_trans; [exact Hr|]. eapply fast_run_reach; [exact Hv|exact Hload|exact Er].
Qed.

Lemma px_reaches bss evs (check : world SimRing -> bool) :
  has_single_bit Nin -> has_single_bit Nout -> px_fit bss = true -> (length bss <= 64)%nat ->
  (forall m ms, px_armed (length bss) m ms = true) ->
  (forall m ms m1, check <$> px_final bss evs m ms m1 = Some true) ->
  exists w0 w, px_start px_mem px_send = Ok (inl w0) /\ px_reach w0 w /\ check w = true.
Proof.
  intros Hi Ho Hf%px_fit_spec Hn Ha Hc.
  destruct (px_store_spec bss px_mem 0 Hf) as (m1 & Es & _ & Hload).
  { intros c Hc'. apply live_at_Z. lia. }
  exact (px_reaches_from bss evs check px_mem px_send m1 (px_start_ok Hi Ho) Hf Es Hload
           (Ha px_mem px_send) (Hc px_mem px_send m1)).
Qed.

End runs.
