(* ===== verification/PipelineRuns.v ===== *)
(** * Three runs of the daemon

    Orders for an instrument that is not registered arrive and are rejected.
    With an outbound ring of two places the signal comes while the ring is
    full, and the matching engine is left waiting; with one of four the daemon
    stops, the reports still in the ring.  A burst of 306 orders hangs the
    daemon with no signal at all: more reports wait than the sender has
    buffers. *)

From stdpp Require Import base numbers list gmap fin_maps.
From Stdlib Require Import ZArith Lia.
From S2P Require Import Prelude.
From S2P Require Import SPSCQueue.
From S2P Require Import MatchingEngine.
From S2P Require Import WireProtocol.
From S2P Require Import Uring.
From S2P Require UringSender.
From S2P Require Import Pipeline.
From S2P Require Import PipelineShutdown.
From S2P Require Import PipelineHang.
From S2P Require Import PipelineExample.

#[local] Existing Instance Release.

(** [n] limit orders for instrument 7. *)
Definition px_orders (n : nat) : list Z :=
  concat ((fun id => bytes_of_WireNewOrder (mkWireNewOrder 1 40 7 id 1 5000 10 0 0 0 0))
            <$> seqZ 1 (Z.of_nat n)).

(** The receiver's poll up to the posting of [n] spans; the decoder's, for [n]
    spans of [k] messages. *)
Definition px_receive (n : nat) : list event := replicate (2 + 3 * n) Receiver.
Definition px_decode (n k : nat) : list event := replicate (1 + n * (k + 2)) DecoderT.

(** Computes with the memory left abstract. *)
Ltac px_compute := with_strategy transparent [gmap_empty] (lazy; reflexivity).

(** ** Jammed *)

Definition jam_in : list (list Z) := Eval vm_compute in [px_orders 3].
Definition jam_events : list event :=
  replicate 4 Receiver ++ replicate 5 DecoderT ++ [Matching; Matching; Matching; Signal SIGTERM; SenderT; Matching].

Definition px_jammed (w : world SimRing) : bool :=
  negb (w_running w) && full 2 (UringSender.out_queue_ (w_tx w)) &&
  match w_tx_pc w, w_eng_pc w, w_rx_pc w with TxExited, EngPost (_ :: _), RxSeen => true | _, _, _ => false end.

Lemma jam_armed m ms : px_armed [120] 8 2 1 m ms = true.
Proof. px_compute. Qed.

Lemma jam_computed m ms m1 : px_jammed <$> px_final [120] 8 2 jam_in jam_events m ms m1 = Some true.
Proof. px_compute. Qed.

Lemma px_hung :
  exists w0 w, main_start (H0 := px_ring [120]) 1 0 64 64 8 2 px_os ∅ px_mem px_send = Ok (inl w0) /\
    reach (H0 := px_ring [120]) 1 (fun _ => (0, 0)) 0 0 64 64 8 2 w0 w /\ w_running w = false /\
    hung (H0 := px_ring [120]) 8 2 w /\ w_rx_pc w = RxSeen /\ w_tx_pc w = TxExited.
Proof.
  destruct (px_reaches [120] 8 2 jam_in jam_events px_jammed (single_bit_pow 3 ltac:(lia))
    (single_bit_pow 1 ltac:(lia)) eq_refl ltac:(cbn; lia) jam_armed jam_computed) as (w0 & w & E & Hr & Hj).
  exists w0, w. split; [exact E|]. split; [exact Hr|]. clear E Hr. unfold px_jammed in Hj.
  apply andb_true_iff in Hj as [[Hrun Hfull]%andb_true_iff Hpc].
  split; [by apply negb_true_iff in Hrun|].
  destruct (w_tx_pc w) eqn:Et; try done. destruct (w_eng_pc w) as [|[|r rs]|] eqn:Ee; try done.
  split; [|by destruct (w_rx_pc w)]. left. by split_and!; [|exists r, rs|].
Qed.

(** ** Stopped *)

Definition stop_events : list event :=
  replicate 4 Receiver ++ px_decode 1 3 ++ replicate 5 Matching ++ [Signal SIGINT] ++
  replicate 132 Receiver ++ [SenderT; DecoderT; DecoderT; Matching; Main; Main; Main; Main; Main].

Definition px_stopped (w : world SimRing) : bool :=
  match w_main w with Returned => true | _ => false end &&
  (length (ring_list 4 (UringSender.out_queue_ (w_tx w))) =? 3)%nat.

Lemma stop_armed m ms : px_armed [120] 8 4 1 m ms = true.
Proof. px_compute. Qed.

Lemma stop_computed m ms m1 : px_stopped <$> px_final [120] 8 4 jam_in stop_events m ms m1 = Some true.
Proof. px_compute. Qed.

Lemma px_returned :
  exists w0 w, main_start (H0 := px_ring [120]) 1 0 64 64 8 4 px_os ∅ px_mem px_send = Ok (inl w0) /\
    reach (H0 := px_ring [120]) 1 (fun _ => (0, 0)) 0 0 64 64 8 4 w0 w /\ w_main w = Returned /\
    length (ring_list 4 (UringSender.out_queue_ (w_tx w))) = 3%nat.
Proof.
  destruct (px_reaches [120] 8 4 jam_in stop_events px_stopped (single_bit_pow 3 ltac:(lia))
    (single_bit_pow 2 ltac:(lia)) eq_refl ltac:(cbn; lia) stop_armed stop_computed) as (w0 & w & E & Hr & Hj).
  exists w0, w. split; [exact E|]. split; [exact Hr|]. clear E Hr. unfold px_stopped in Hj.
  apply andb_true_iff in Hj as [Hm Hl]. split; [by destruct (w_main w)|]. by apply Nat.eqb_eq in Hl.
Qed.

(** ** Doomed by a burst *)

Definition burst_in : list (list Z) := Eval vm_compute in replicate 3 (px_orders 102).
Definition burst_events : list event :=
  px_receive 3 ++ px_decode 3 102 ++ replicate (5 * 66) Matching ++ [SenderT].

Definition px_burst (w : world SimRing) : bool :=
  w_running w &&
  match w_tx_pc w, sim_flight (UringSender.ring_ (w_tx w)) with TxPop, [] => true | _, _ => false end &&
  (UringSender.free_count_ (w_tx w) <? size_approx (UringSender.out_queue_ (w_tx w))).

Lemma burst_armed m ms : px_armed [4080; 4080; 4080] 512 512 3 m ms = true.
Proof. px_compute. Qed.

Lemma burst_computed m ms m1 :
  px_burst <$> px_final [4080; 4080; 4080] 512 512 burst_in burst_events m ms m1 = Some true.
Proof. px_compute. Qed.

Lemma px_doomed :
  exists w0 w,
    main_start (H0 := px_ring [4080; 4080; 4080]) 1 0 64 64 512 512 px_os ∅ px_mem px_send = Ok (inl w0) /\
    reach (H0 := px_ring [4080; 4080; 4080]) 1 (fun _ => (0, 0)) 0 0 64 64 512 512 w0 w /\
    w_running w = true /\ hung (H0 := px_ring [4080; 4080; 4080]) 512 512 w.
Proof.
  destruct (px_reaches [4080; 4080; 4080] 512 512 burst_in burst_events px_burst
    (single_bit_pow 9 ltac:(lia)) (single_bit_pow 9 ltac:(lia)) eq_refl ltac:(cbn; lia) burst_armed
    burst_computed) as (w0 & w & E & Hr & Hj).
  exists w0, w. split; [exact E|]. split; [exact Hr|]. clear E Hr. unfold px_burst in Hj.
  apply andb_true_iff in Hj as [[Hrun Hpc]%andb_true_iff Hlt%Z.ltb_lt].
  split; [done|]. right. right. unfold sender_doomed.
  change (flight (Uring := px_ring [4080; 4080; 4080])) with sim_flight.
  destruct (w_tx_pc w) eqn:Et; try done. destruct (sim_flight _) eqn:Ef; [|done]. split; [done|].
  unfold rlen, size_approx in *. pose proof (u64_range (write_idx_ (UringSender.out_queue_ (w_tx w))
    - read_idx_ (UringSender.out_queue_ (w_tx w)))) as [? _]. lia.
Qed.
