(* ===== verification/PipelineTheorems.v ===== *)
(** * The properties of the daemon *)

From stdpp Require Import base numbers list gmap fin_maps.
From Stdlib Require Import ZArith Lia.
From S2P Require Import Prelude.
From S2P Require Import OrderTypes.
From S2P Require Import OrderPool.
From S2P Require Import OrderBook.
From S2P Require Import BookFacets.
From S2P Require Import SPSCQueue.
From S2P Require Import Sink.
From S2P Require Import MatchingEngine.
From S2P Require Import EngineInv.
From S2P Require Import EngineHandlers.
From S2P Require Import EngineRun.
From S2P Require Import EngineSink.
From S2P Require Import EngineTypes.
From S2P Require Import WireProtocol.
From S2P Require Import Decoder.
From S2P Require Import DecoderProps.
From S2P Require Import Uring.
From S2P Require UringSender.
From S2P Require UringReceiver.
From S2P Require Import UringSenderProps.
From S2P Require Import UringReceiverProps.
From S2P Require Import Pipeline.
From S2P Require Import PipelineInv.
From S2P Require Import PipelineSequential.
From S2P Require Import PipelineShutdown.
From S2P Require Import PipelineHang.
From S2P Require Import PipelineFair.
From S2P Require Import PipelineDrain.
From S2P Require Import PipelineLive.
From S2P Require Import PipelineLog.
From S2P Require Import PipelineWire.
From S2P Require Import PipelineStats.
From S2P Require Import PipelineExit.
From S2P Require Import PipelineExample.
From S2P Require Import PipelineRuns.

#[local] Existing Instance Release.

Section daemon.
Context {U : Type} `{Uring U}.
Context (Capacity : nat) (clock_gettime : nat -> Z * Z) (recv_bufs_ send_bufs_ : nat).
Context (Nraw Nret Nin Nout : Z).
Implicit Types (w : world U).

#[local] Abbreviation step := (step Capacity clock_gettime recv_bufs_ send_bufs_ Nraw Nret Nin Nout).
#[local] Abbreviation reach := (reach Capacity clock_gettime recv_bufs_ send_bufs_ Nraw Nret Nin Nout).
#[local] Abbreviation stale_step := (stale_step Capacity clock_gettime Nin).
#[local] Abbreviation weak_reach :=
  (weak_reach Capacity clock_gettime recv_bufs_ send_bufs_ Nraw Nret Nin Nout).
#[local] Abbreviation logged := (logged Capacity clock_gettime recv_bufs_ send_bufs_ Nraw Nret Nin Nout).
#[local] Abbreviation inv := (inv Capacity clock_gettime recv_bufs_ send_bufs_ Nraw Nret Nin Nout).
#[local] Abbreviation start_ok := (start_ok Capacity recv_bufs_ send_bufs_ Nraw Nret Nin Nout).
#[local] Abbreviation main_start := (main_start Capacity recv_bufs_ Nraw Nret Nin Nout).

#[local] Abbreviation fair_run := (fair_run Capacity clock_gettime recv_bufs_ send_bufs_ Nraw Nret Nin Nout).
#[local] Abbreviation responsive := (responsive Nraw Nret Nin Nout).

#[local] Abbreviation inv_rings :=
  (inv_rings Capacity clock_gettime recv_bufs_ send_bufs_ Nraw Nret Nin Nout).

(** The daemon, started on [o] with the memories [h], [m] and [ms] as [w0],
    can be in state [w], however its threads are scheduled and whatever older
    values of [g_running] and of the rings' indices they have read. *)
Definition daemon (o : os (U := U)) (h : heap) (m ms : memory) (w0 w : world U) : Prop :=
  start_ok o m ms /\ main_start o h m ms = Ok (inl w0) /\ weak_reach w0 w.

Lemma daemon_inv o h m ms w0 w :
  daemon o h m ms w0 w ->
  sq_depth (U := U) (Z.to_nat 256) /\ (exists v, inv (w_eng w0) v w) /\ joined_exited w.
Proof.
  intros (Ho & E & Hr). pose proof (so_depth _ _ _ _ _ _ _ _ _ _ Ho) as Hd. split; [done|].
  destruct (main_start_spec Capacity clock_gettime recv_bufs_ send_bufs_ Nraw Nret Nin Nout o h m ms
    release_off Ho) as [[err E']|(w1 & E' & Hi & _ & Em & _)]; rewrite E' in E; [done|]. injection E as ->. split.
  - by eapply weak_reach_inv.
  - eapply joined_reach; [|done]. unfold joined_exited. rewrite Em. constructor.
Qed.

(** C7: end-to-end safety: [main] starts the threads or reports an exception,
    and from then on, however the threads, the kernel and the signals
    interleave, and whether or not a thread sees the latest value of what
    another writes, no step of any thread is a fault: no bad pointer, no index
    out of range, no arithmetic error, and each loop over private data ends. *)
Theorem pipeline_safe o h m ms :
  start_ok o m ms ->
  (exists err, main_start o h m ms = Ok (inr err)) \/
  exists w0, main_start o h m ms = Ok (inl w0) /\
    forall w, weak_reach w0 w ->
      (forall ev, enabled ev w -> exists w', step ev w = Ok w') /\
      (forall seen ev, (seen <= 64)%nat -> exists w', stale_step seen ev w = Ok w').
Proof.
  intros Ho. destruct (main_start_spec Capacity clock_gettime recv_bufs_ send_bufs_ Nraw Nret Nin Nout
    o h m ms release_off Ho) as [?|(w0 & E & Hi & _)]; [by left|right].
  exists w0. split; [done|]. intros w Hr. pose proof (so_depth _ _ _ _ _ _ _ _ _ _ Ho) as Hd.
  destruct (weak_reach_inv _ _ _ _ _ _ _ _ Hd _ _ _ _ release_off Hi Hr) as [v Hv]. split.
  - intros ev Hen. destruct (daemon_step_inv _ _ _ _ _ _ _ _ Hd _ ev v w release_off Hv Hen)
      as (w' & _ & E' & _). by exists w'.
  - intros seen ev Hs. edestruct (stale_step_inv (U := U)) as (w' & _ & E' & _); [done..|]. by exists w'.
Qed.

(** C6: whatever the scheduling and the stale reads, the reports handed to the sender are the
    first of those a sequential engine posts on the messages in the received
    bytes, in that order: no message and no report is lost, duplicated,
    reordered or changed by the threads.  When nothing is on its way they are
    all of them, and the books are the sequential engine's. *)
Theorem pipeline_reports o h m ms w0 w :
  daemon o h m ms w0 w ->
  exists es,
    dispatch_all Capacity clock_gettime (concat (bytes_msgs <$> w_received w)) (w_eng w0) = Ok es /\
    w_sent w `prefix_of` e_outbound es /\
    (quiet Nraw Nin Nout w -> w_sent w = e_outbound es /\ e_books (w_eng w) = e_books es /\
      e_heap (w_eng w) = e_heap es).
Proof. intros (_ & [v Hi] & _)%daemon_inv. by eapply sequential_reports; [apply release_off|]. Qed.

Lemma start_alive o h m ms w0 : start_ok o m ms -> main_start o h m ms = Ok (inl w0) -> alive w0.
Proof.
  intros Ho E. destruct (main_start_spec Capacity clock_gettime recv_bufs_ send_bufs_ Nraw Nret Nin Nout
    o h m ms release_off Ho) as [[err E']|(w1 & E' & _ & _ & _ & _ & Hpc & _)];
    rewrite E' in E; [done|]. injection E as ->. injection Hpc as E1 E2 E3 E4.
  unfold alive, workers. repeat constructor; cbn; by rewrite ?E1, ?E2, ?E3, ?E4.
Qed.

Lemma start_running o h m ms w0 :
  start_ok o m ms -> main_start o h m ms = Ok (inl w0) -> w_running w0 = true.
Proof.
  intros Ho E. destruct (main_start_spec Capacity clock_gettime recv_bufs_ send_bufs_ Nraw Nret Nin Nout
    o h m ms release_off Ho) as [[err E']|(w1 & E' & _ & Hrun & _)]; rewrite E' in E; [done|].
  by injection E as <-.
Qed.

Lemma daemon_alive o h m ms w0 w : daemon o h m ms w0 w -> w_running w = true -> alive w.
Proof. intros (Ho & E & Hr) Hrun. eapply alive_reach; [|exact Hr|done]. by eapply start_alive. Qed.

(** C8: everything received is answered: in every fair run before the signal,
    with a kernel that completes SENDs, there comes a time for each moment at
    which the sender has taken every report the sequential engine posts on
    what had been received by then, in that order; or the sender has run out
    of buffers for good, with none of its SENDs submitted.  There is such a
    run from every state. *)
Theorem pipeline_delivers o h m ms w0 w :
  daemon o h m ms w0 w -> w_running w = true -> 64 <= Nraw -> 64 <= Nret ->
  (exists r sched, r 0%nat = w /\ fair_run r sched /\ forall n, w_running (r n) = true) /\
  forall r sched, r 0%nat = w -> fair_run r sched -> (forall n, w_running (r n) = true) -> responsive r ->
    forall n, exists es k, (n <= k)%nat /\
      dispatch_all Capacity clock_gettime (concat (bytes_msgs <$> w_received (r n))) (w_eng w0) = Ok es /\
      (e_outbound es `prefix_of` w_sent (r k) \/ forall j, (k <= j)%nat -> sender_doomed (r j)).
Proof.
  intros Hdm Hrun HN1 HN2. destruct (daemon_inv _ _ _ _ _ _ Hdm) as (Hd & [v Hi] & _). split.
  { eexists (trace _ _ _ _ _ _ _ _ turn w), turn. split; [done|]. split; [by eapply fair_run_exists|].
    intros n. by rewrite trace_running. }
  intros r sched <- Hf Hon Hk n.
  assert (forall n, exists v, inv (w_eng w0) v (r n)) as Hinv
    by (intros k; eapply run_inv; [exact Hd|apply release_off|exact Hf|by exists v]).
  destruct (Hinv n) as [vn Hn].
  destruct (sequential_reports _ _ _ _ _ _ _ _ _ _ _ release_off Hn) as (es & Es & _).
  destruct (run_answers Capacity clock_gettime recv_bufs_ send_bufs_ Nraw Nret Nin Nout Hd (w_eng w0)
    release_off HN1 HN2 r sched Hf (Hinv 0%nat) (daemon_alive _ _ _ _ _ _ Hdm Hrun) Hon Hk n
    (w_received (r n)) (e_outbound es)) as (k & Hnk & Hor); [done|by exists es|].
  exists es, k. split; [done|]. split; [done|]. destruct Hor as [Hdoom|Hlen].
  - right. induction 1 as [|j _ IH]; [done|]. destruct (Hinv j) as [vj Hj].
    eapply sender_doomed_step; [exact Hd|exact Hj|exact IH|apply (fr_step _ _ _ _ _ _ _ _ _ _ Hf)].
  - left. destruct (Hinv k) as [vk Hvk].
    destruct (sequential_reports _ _ _ _ _ _ _ _ _ _ _ release_off Hvk) as (es' & Es' & Hp & _).
    eapply prefix_shorter; [|exact Hp|exact Hlen].
    destruct (msgs_prefix (w_received (r n)) (w_received (r k))) as [rest Er]; [by eapply received_mono|].
    rewrite Er, dispatch_all_app, Es in Es'. by eapply dispatch_all_log.
Qed.

(** No circular wait: at every moment before a signal the daemon can work
    off everything it has received, without receiving more: to a state in
    which nothing is on its way and exactly the reports of the sequential
    engine have been handed to the sender; unless the sender gets stuck, for
    want of a buffer that only the kernel can give back, or for good. *)
Theorem pipeline_drains o h m ms w0 w :
  daemon o h m ms w0 w -> w_running w = true -> 64 <= Nraw -> 64 <= Nret ->
  exists w', reach w w' /\ w_received w' = w_received w /\
    ((quiet Nraw Nin Nout w' /\ exists es,
        dispatch_all Capacity clock_gettime (concat (bytes_msgs <$> w_received w)) (w_eng w0) = Ok es /\
        w_sent w' = e_outbound es) \/
     awaits_kernel Nraw Nret Nin Nout w' \/ sender_doomed w').
Proof.
  intros Hd Hrun HN1 HN2. pose proof Hd as (Ho & E & Hr).
  destruct (daemon_inv _ _ _ _ _ _ Hd) as (Hdep & [v Hi] & _).
  destruct (can_quiet Capacity clock_gettime recv_bufs_ send_bufs_ Nraw Nret Nin Nout Hdep (w_eng w0)
    release_off HN1 HN2 w) as (w' & Hr' & Erc & _ & Hout).
  { split; [by exists v|]. split; [done|]. by eapply daemon_alive. }
  exists w'. split; [done|]. split; [done|]. destruct Hout as [[?|?]|(([v' Hi'] & _) & Hq)]; [auto..|].
  left. split; [done|]. rewrite <- Erc.
  destruct (sequential_reports _ _ _ _ _ _ _ _ _ _ _ release_off Hi') as (es & Es & _ & Hfin).
  exists es. split; [done|]. by apply Hfin.
Qed.

(** The log of a run starts empty. *)
Lemma start_books o h m ms w0 :
  start_ok o m ms -> main_start o h m ms = Ok (inl w0) ->
  (exists v, inv (w_eng w0) v w0) /\ accounted [] w0 /\ tallies [] w0 /\
  e_outbound (w_eng w0) = [] /\ e_fills_executed (w_eng w0) = 0 /\ e_orders_rejected (w_eng w0) = 0.
Proof.
  intros Ho E. destruct (main_start_spec Capacity clock_gettime recv_bufs_ send_bufs_ Nraw Nret Nin Nout
    o h m ms release_off Ho)
    as [[err E']|(w1 & E' & Hi & _ & _ & Hout & Hpc & Hs & _ & Hr & Hc & He & Hf & Hj)];
    rewrite E' in E; [done|]. injection E as ->. injection Hpc as _ _ Heng Hpc.
  apply app_nil in Hout as [Hq Hfl]. split; [by eexists|]. split_and!; try done.
  - unfold accounted. rewrite Hs, Hpc. split; [done|]. exists [], [], [].
    split; rewrite ?Hq, ?Hfl; try done. by exists [].
  - split; [by rewrite Hc|by rewrite Hr|by rewrite He].
  - rewrite (iv_log _ _ _ _ _ _ _ _ _ _ _ Hi), Hs, Heng. done.
Qed.

Lemma daemon_logged o h m ms w0 w : daemon o h m ms w0 w -> exists lg, logged w0 lg w.
Proof. intros (_ & _ & Hr). by apply weak_logged. Qed.

Lemma daemon_books o h m ms w0 w lg :
  daemon o h m ms w0 w -> logged w0 lg w -> accounted lg w /\ tallies lg w.
Proof.
  intros Hd Hl. destruct (daemon_inv _ _ _ _ _ _ Hd) as (Hdep & _ & _). destruct Hd as (Ho & E & _).
  destruct (start_books _ _ _ _ _ Ho E) as ([v Hi] & Ha & Ht & _). split.
  - by eapply accounted_logged; [exact Hdep|apply release_off|..].
  - by eapply tallies_logged; [exact Hdep|apply release_off|..].
Qed.

(** C10: nothing the engine reports is lost on the way out.  Every run has a
    log of its SENDs and completions, and for every report the sender has
    taken, in order, but the one it is working on, the log has a SEND of
    exactly its 48 bytes.  The SENDs not queued any more are those whose
    completions have been drained, in that order, and those in flight; the
    queued ones are the latest, in order; and until it completes a SEND's
    bytes stay in its buffer, which no other has. *)
Theorem pipeline_wire o h m ms w0 w :
  daemon o h m ms w0 w ->
  (exists lg, logged w0 lg w) /\
  forall lg, logged w0 lg w ->
  (snd <$> prepared lg) ++ (report_bytes <$> tx_pending (w_tx_pc w)) = report_bytes <$> w_sent w /\
  exists pre done_ in_flight in_queue,
    prepared lg = pre ++ in_queue /\ pre ≡ₚ done_ ++ in_flight /\
    (rq_data ∘ fst <$> done_) = cq_data <$> completed lg /\
    fst <$> in_flight ≡ₚ flight (UringSender.ring_ (w_tx w)) /\
    fst <$> in_queue = queued (UringSender.ring_ (w_tx w)) /\
    Forall (sends (UringSender.mem_ (w_tx w))) (in_flight ++ in_queue) /\
    NoDup (rq_addr <$> outstanding (w_tx w)).
Proof.
  intros Hd. split; [by eapply daemon_logged|]. intros lg Hl.
  destruct (daemon_books _ _ _ _ _ _ _ Hd Hl) as [(Es & done_ & fl & qd & [(pre & Ep & Hp) Hdn Hf Hq Hm]) _].
  destruct (daemon_inv _ _ _ _ _ _ Hd) as (_ & [v Hi] & _). split; [done|].
  exists pre, done_, fl, qd. split_and!; try done. eapply buffers_distinct, iv_tx, Hi.
Qed.

(** The engine the threads start with, and any it is in later, is one of the
    declared types, in the slab mapped at the start. *)
Definition engine_at (h : heap) (e0 e : Engine (list ExecutionReport)) : Prop :=
  engine_ok (dom h ∪ slots_of (slab_of (e_pool e0))) (slab_of (e_pool e0)) e.

Lemma start_types o h m ms :
  orders_ok h ->
  ensures (fun x => forall e, built x = Some e -> engine_at h e e) (main_start o h m ms).
Proof.
  intros Hh. unfold Pipeline.main_start. eapply ensures_bind; [by apply MatchingEngine_new_ok|].
  intros [e|err] He; [|done]. eapply ensures_bind.
  { eapply add_instrument_ok; [..|exact He]; [lia|lia|unfold in_i64; lia..]. }
  intros e1 He1. destruct (open_sockets o) as [fd0 fd1].
  assert (engine_at h e1 e1) as Ha by (unfold engine_at; by rewrite (ok_pool _ _ _ He1)).
  apply ensures_any. intros [r|err]; [|by intros ? [= <-]].
  apply ensures_any. intros [s|err]; by intros ? [= <-].
Qed.

Lemma start_types_inl o h m ms w0 :
  orders_ok h -> main_start o h m ms = Ok (inl w0) -> engine_at h (w_eng w0) (w_eng w0).
Proof. intros Hh E. by apply (ensures_Ok _ _ _ (start_types o h m ms Hh) E). Qed.

Lemma engine_types D slab e0 v w :
  engine_ok D slab e0 -> inv e0 v w -> engine_ok D slab (w_eng w).
Proof.
  intros He Hi. pose proof (msgs_typed _ _ _ _ _ _ _ _ _ _ _ Hi) as [Hm _]%Forall_app.
  destruct (iv_seq _ _ _ _ _ _ _ _ _ _ _ Hi) as (es & Es & Hs).
  pose proof (dispatch_all_ok _ _ Capacity clock_gettime _ _ Hm He) as Hes. rewrite Es in Hes.
  destruct Hes, Hs, sa_log as (R & HR1 & HR2).
  rewrite sa_heap, sa_pool, sa_books, sa_fills, sa_rejected, HR2, <- HR1 in *. split; try done.
  rewrite sa_proc1. apply u64_range.
Qed.

(** The encoding of the integers: whatever arrives, each integer the daemon stores or passes on
    is one its declared C++ type can hold: the members of the messages the
    decoder posts, of the orders in the pool, of the price levels and
    cursors, the counters, and the reports handed to the sender, which are
    therefore reports [decode_exec_report] gives back unchanged. *)
Theorem pipeline_types o h m ms w0 w :
  daemon o h m ms w0 w -> orders_ok h ->
  Forall msg_ok (w_msgs w ++ ring_list Nin (e_inbound (w_eng w)) ++ dec_pending (w_dec_pc w)) /\
  engine_at h (w_eng w0) (w_eng w) /\
  Forall report_ok (w_sent w ++ ring_list Nout (UringSender.out_queue_ (w_tx w)) ++ eng_pending (w_eng_pc w)).
Proof.
  intros Hd Hh. pose proof Hd as (_ & E & _). destruct (daemon_inv _ _ _ _ _ _ Hd) as (_ & [v Hi] & _).
  destruct (inv_rings _ _ _ Hi) as (_ & _ & En & Eo). rewrite En, Eo.
  pose proof (engine_types _ _ _ _ _ (start_types_inl _ _ _ _ _ Hh E) Hi) as He.
  split; [by eapply msgs_typed|]. split; [done|].
  rewrite <- (iv_log _ _ _ _ _ _ _ _ _ _ _ Hi). apply (ok_reports _ _ _ He).
Qed.

(** The buffers the kernel has been asked to fill, and those on the decoder's
    side: returned, being decoded, or waiting to be. *)
Definition kernel_buffers w : list Z :=
  let u := UringReceiver.ring_ (settled w) in rq_data <$> queued u ++ flight u.
Definition decoder_buffers w : list Z :=
  ring_list Nret (UringReceiver.ret_queue_ (w_rx w)) ++ dec_buf (w_dec_pc w) ++
  (sp_buf_id <$> ring_list Nraw (w_raw w) ++ rx_posting (w_rx_pc w)).

(** C9: at every moment each of the 64 receive buffers is in exactly one
    place, so none is ever lost; the kernel cannot write into one that is on
    the decoder's side, so a span that waits still holds the bytes received;
    and since there are more places in the two queues than buffers, neither
    the receiver nor the decoder ever has to wait to pass one on. *)
Theorem pipeline_buffers o h m ms w0 w :
  daemon o h m ms w0 w -> 64 <= Nraw -> 64 <= Nret ->
  kernel_buffers w ++ decoder_buffers w ≡ₚ seqZ 0 64 /\
  (forall q bs, enabled (KernelRecv q bs) w -> rq_data q ∉ decoder_buffers w) /\
  (exists old new, w_received w = old ++ new /\
     span_bytes (w_mem w) <$> ring_list Nraw (w_raw w) ++ rx_posting (w_rx_pc w) = new) /\
  waiting Nraw Nret Nin Nout Receiver w = false /\
  (forall buf_id turns, w_dec_pc w = DecPost [] buf_id turns ->
     waiting Nraw Nret Nin Nout DecoderT w = false).
Proof.
  intros (Hd & [v Hi] & _)%daemon_inv HN1 HN2. destruct (inv_rings _ _ _ Hi) as (Er & Et & _).
  assert (decoder_buffers w = buffers_out v w) as Ed
    by (unfold decoder_buffers, buffers_out; by rewrite Er, Et).
  rewrite Ed, Er. split_and!.
  - pose proof (ow_all _ _ _ _ _ _ (ri_own _ _ _ _ (iv_rx _ _ _ _ _ _ _ _ _ _ _ Hi))) as Ha.
    by rewrite app_nil_r in Ha.
  - intros q bs (Hq & Hne & _). by edestruct kernel_owns as (_ & _ & _ & ?);
      [exact Hd|exact Hi|exact Hq|exact Hne|].
  - exists (v_done v), (v_wait v). split; [apply Hi|].
    pose proof (iv_wait _ _ _ _ _ _ _ _ _ _ _ Hi) as Hw. unfold intact in Hw.
    induction Hw as [|span bs l ws [_ Hb] _ IH]; [done|]. cbn. by rewrite Hb, IH.
  - by eapply receiver_never_waits.
  - intros buf_id turns. by eapply return_never_waits.
Qed.

(** C16: after SIGINT or SIGTERM the workers have a bounded number of steps
    left: in every continuation in which they see the flag, at most [work w]
    of their steps are spent on anything but having exited or waiting. *)
Theorem shutdown_bounded o h m ms w0 w n w' :
  daemon o h m ms w0 w -> w_running w = false ->
  runs Capacity clock_gettime recv_bufs_ send_bufs_ Nraw Nret Nin Nout w n w' -> (n <= work w)%nat.
Proof.
  intros (Hd & [v Hi] & _)%daemon_inv Hrun Hr. by eapply runs_bound.
Qed.

(** C15: what shutdown comes to: in every fair run after the signal, with a
    kernel that completes SENDs, [main] returns or the daemon comes to hang,
    each for good.  There is a fair run from every state. *)
Theorem shutdown_outcome o h m ms w0 w :
  daemon o h m ms w0 w -> w_running w = false -> 64 <= Nraw -> 64 <= Nret ->
  (exists r sched, r 0%nat = w /\ fair_run r sched) /\
  forall r sched, r 0%nat = w -> fair_run r sched -> responsive r ->
    exists n, (forall k, w_main (r (n + k)%nat) = Returned) \/ (forall k, hung Nin Nout (r (n + k)%nat)).
Proof.
  intros Hdm Hrun HN1 HN2. destruct (daemon_inv _ _ _ _ _ _ Hdm) as (Hd & [v Hi] & _). split.
  - eexists (trace _ _ _ _ _ _ _ _ turn w), turn. split; [done|]. by eapply fair_run_exists.
  - intros r sched <- Hf Hk. eapply fair_outcome; try done. by exists v.
Qed.

(** C14: a daemon that hangs does so for good: if the matching engine waits on
    a full ring whose consumer has exited, or the decoder does, or the sender
    waits for a buffer while none of its SENDs has been submitted, then [main]
    never returns, whatever happens next, signals included.  The same holds
    earlier, for a sender inside its loop over the reports, none of whose
    SENDs has been submitted, as soon as more reports wait for it than it has
    free buffers, provided its loads return the newest values from then on. *)
Theorem hung_forever o h m ms w0 w :
  daemon o h m ms w0 w ->
  (jammed Nin Nout w -> forall w', weak_reach w w' -> jammed Nin Nout w' /\ w_main w' <> Returned) /\
  (hung Nin Nout w -> forall w', reach w w' -> hung Nin Nout w' /\ w_main w' <> Returned).
Proof.
  intros (Hd & [v Hi] & Hj)%daemon_inv.
  assert (forall w', weak_reach w w' -> hung Nin Nout w' -> w_main w' <> Returned) as Hnot.
  { intros w' Hr Hh Em.
    pose proof (joined_reach Capacity clock_gettime recv_bufs_ send_bufs_ Nraw Nret Nin Nout _ _ Hj Hr) as Hx.
    unfold joined_exited in Hx. rewrite Em in Hx. by eapply hung_not_exited. }
  split; intros Hh w' Hr.
  - pose proof (jammed_reach _ _ _ _ _ _ _ _ Hd _ _ _ _ release_off Hi Hh Hr) as Hh'.
    split; [done|]. by apply Hnot, jammed_hung.
  - pose proof (hung_reach _ _ _ _ _ _ _ _ Hd _ _ _ _ release_off Hi Hh Hr) as Hh'.
    split; [done|]. by apply Hnot; [apply reach_weak|].
Qed.

(** C17: the final statistics tell the truth (modulo 2^64): when [main]
    returns, the decoder's counters are those of a prefix of the byte strings
    received; the engine has processed the messages decoded, less those left
    in the inbound ring, and counts a fill for every two trade reports and a
    reject for every reject report it has posted, which the sender has taken,
    less those left in the outbound ring.  The receiver counts the completions
    it has looked at and the bytes they brought; the sender the SENDs it has
    prepared, one for each report taken, whether submitted or not; and the
    errors are the completions of either ring with a negative result. *)
Theorem final_statistics_exact o h m ms w0 w lg :
  daemon o h m ms w0 w -> logged w0 lg w -> w_main w = Returned ->
  let s := final_statistics w in
  let posted := e_outbound (w_eng w) in
  exists decoded trades, decoded `prefix_of` w_received w /\
    st_spans_seen s = u64 (Z.of_nat (length decoded)) /\
    st_decoded s = u64 (Z.of_nat (length (concat (bytes_msgs <$> decoded)))) /\
    st_decode_errors s = u64 (Z.of_nat (sum_list (bytes_errors <$> decoded))) /\
    concat (bytes_msgs <$> decoded) = w_msgs w ++ ring_list Nin (e_inbound (w_eng w)) /\
    st_processed s = u64 (Z.of_nat (length (w_msgs w))) /\
    trade_count posted = (2 * trades)%nat /\ st_fills s = u64 (Z.of_nat trades) /\
    st_rejected s = u64 (Z.of_nat (reject_count posted)) /\
    posted = w_sent w ++ ring_list Nout (UringSender.out_queue_ (w_tx w)) /\
    (fun bs => Z.of_nat (length bs)) <$> w_received w = payloads (received lg) /\
    st_bytes_received s = u64 (total (payloads (received lg))) /\
    st_cqes s = u64 (Z.of_nat (length (received lg))) /\
    snd <$> prepared lg = report_bytes <$> w_sent w /\
    st_reports_sent s = u64 (Z.of_nat (length (prepared lg))) /\
    st_io_errors s = u64 (Z.of_nat (failures (received lg) + failures (completed lg))).
Proof.
  intros Hdm Hl Em s posted. destruct (daemon_books _ _ _ _ _ _ _ Hdm Hl) as [[Hsnt _] [Hrx Hby Htx]].
  destruct (daemon_inv _ _ _ _ _ _ Hdm) as (_ & [v Hi] & Hj). destruct Hdm as (Ho & E & _).
  destruct (start_books _ _ _ _ _ Ho E) as ([v0 Hi0] & _ & _ & Eo0 & Ef0 & Er0).
  destruct (iv_eng _ _ _ _ _ _ _ _ _ _ _ Hi0) as (L & fs & Q & He0 & _).
  destruct (engine_tallied _ _ _ _ _ _ _ _ _ v w L fs Q release_off Hi He0 Eo0 Ef0 Er0)
    as (n & Hn & Hfl & Hrj).
  destruct (inv_rings _ _ _ Hi) as (_ & _ & En & Eo).
  unfold joined_exited in Hj. rewrite Em in Hj. unfold joined, workers in Hj. rewrite !Forall_cons in Hj.
  destruct Hj as (_ & Ht & Hd & He & _). cbn [exited] in *.
  destruct (w_tx_pc w) eqn:Etx; try done. destruct (w_dec_pc w) eqn:Ede; try done.
  destruct (w_eng_pc w) eqn:Een; try done. injection Hrx as Hbr Hcq Her.
  exists (v_done v), n. unfold s, posted, final_statistics in *. cbn. destruct Hi.
  rewrite Etx, Ede, Een in *. rewrite En, Eo, iv_dec. cbn in *. rewrite !app_nil_r in *. split_and!; try done.
  - by exists (v_wait v).
  - destruct iv_seq as (es & _ & Hs). apply Hs.
  - unfold UringSender.reports_sent. rewrite iv_sent. f_equal.
    apply (f_equal length) in Hsnt. rewrite !length_fmap in Hsnt. lia.
  - unfold UringReceiver.errors_seen, UringSender.errors. rewrite Her, Htx, u64_add_l, u64_add_r. f_equal. lia.
Qed.

End daemon.

(** ** The theorems at work *)

#[local] Instance px_small : Uring SimRing := px_ring [120].

#[local] Abbreviation px_daemon := (daemon 1 (fun _ => (0, 0)) 0 0 64 64 8).
#[local] Abbreviation px_reach := (reach 1 (fun _ => (0, 0)) 0 0 64 64 8).

(** The jammed, the stopped and the doomed daemon of [PipelineRuns]. *)
Lemma px_hung_daemon :
  exists w0 w, px_daemon 2 px_os ∅ px_mem px_send w0 w /\ w_running w = false /\ hung 8 2 w /\
    w_rx_pc w = RxSeen /\ w_tx_pc w = TxExited.
Proof.
  destruct px_hung as (w0 & w & E & Hr & Hrun & Hh). exists w0, w. split; [|split; assumption].
  split; [apply px_start_ok; [apply (single_bit_pow 3)|apply (single_bit_pow 1)]; lia|split; [assumption|apply reach_weak; assumption]].
Qed.

Lemma px_returned_daemon :
  exists w0 w, px_daemon 4 px_os ∅ px_mem px_send w0 w /\ w_main w = Returned /\
    length (ring_list 4 (UringSender.out_queue_ (w_tx w))) = 3%nat.
Proof.
  destruct px_returned as (w0 & w & E & Hr & Hm & Hl). exists w0, w. split; [|split; assumption].
  split; [apply px_start_ok; [apply (single_bit_pow 3)|apply (single_bit_pow 2)]; lia|split; [assumption|apply reach_weak; assumption]].
Qed.

#[local] Abbreviation px_large := (px_ring [4080; 4080; 4080]).

Lemma px_doomed_daemon :
  exists w0 w, daemon (H := px_large) 1 (fun _ => (0, 0)) 0 0 64 64 512 512 px_os ∅ px_mem px_send w0 w /\
    w_running w = true /\ hung (H0 := px_large) 512 512 w.
Proof.
  destruct px_doomed as (w0 & w & E & Hr & Hrun & Hh). exists w0, w. split; [|split; assumption].
  split; [apply px_start_ok; apply (single_bit_pow 9); lia|split; [assumption|apply reach_weak; assumption]].
Qed.

Lemma pipeline_safe_witness :
  exists w0, main_start 1 0 64 64 8 2 px_os ∅ px_mem px_send = Ok (inl w0) /\
    exists w', step 1 (fun _ => (0, 0)) 0 0 64 64 8 2 Receiver w0 = Ok w'.
Proof.
  destruct px_hung_daemon as (w0 & _ & (_ & E & _) & _).
  destruct (pipeline_safe 1 (fun _ => (0, 0)) 0 0 64 64 8 2 px_os ∅ px_mem px_send)
    as [[err E']|(w1 & E' & Hsafe)].
  - apply px_start_ok; [apply (single_bit_pow 3)|apply (single_bit_pow 1)]; lia.
  - rewrite E in E'. discriminate E'.
  - exists w1. split; [exact E'|]. apply (Hsafe w1); [constructor|exact I].
Defined.

Lemma pipeline_reports_witness :
  exists (w : world SimRing) es, w_running w = false /\ w_sent w `prefix_of` e_outbound (S := list ExecutionReport) es.
Proof.
  destruct px_hung_daemon as (w0 & w & Hd & Hrun & _).
  destruct (pipeline_reports 1 (fun _ => (0, 0)) 0 0 64 64 8 2 px_os ∅ px_mem px_send w0 w Hd)
    as (es & _ & Hp & _).
  exists w, es. split; [exact Hrun|exact Hp].
Defined.

Lemma pipeline_types_witness :
  exists (w : world SimRing), w_running w = false /\ Forall report_ok (w_sent w).
Proof.
  destruct px_hung_daemon as (w0 & w & Hd & Hrun & _). exists w. split; [exact Hrun|].
  destruct (pipeline_types 1 (fun _ => (0, 0)) 0 0 64 64 8 2 px_os ∅ px_mem px_send w0 w Hd (map_Forall_empty _))
    as (_ & _ & Hr).
  apply Forall_app in Hr. apply Hr.
Defined.

(** A kernel that completes requests as soon as it is asked. *)
Lemma px_prompt : prompt (U := SimRing).
Proof. intros u u' E. cbn in *. unfold sim_peek in E. destruct (sim_flight u) eqn:Ef; by injection E as <-. Qed.

(** From the start, the threads in turn. *)
Lemma pipeline_delivers_witness :
  exists (r : nat -> world SimRing), w_running (r 0%nat) = true /\ forall n, exists es k, (n <= k)%nat /\
    dispatch_all 1 (fun _ => (0, 0)) (concat (bytes_msgs <$> w_received (r n))) (w_eng (r 0%nat)) = Ok es /\
    (e_outbound es `prefix_of` w_sent (r k) \/ forall j, (k <= j)%nat -> sender_doomed (r j)).
Proof.
  destruct px_hung_daemon as (w0 & _ & (Ho & E & _) & _).
  assert (px_daemon 2 px_os ∅ px_mem px_send w0 w0) as Hd by (split; [exact Ho|split; [exact E|constructor]]).
  assert (w_running w0 = true) as Hrun by exact (start_running 1 (fun _ => (0, 0)) 0 0 64 64 8 2 _ _ _ _ _ Ho E).
  destruct (pipeline_delivers 1 (fun _ => (0, 0)) 0 0 64 64 8 2 px_os ∅ px_mem px_send w0 w0 Hd Hrun)
    as [(r & sched & E0 & Hf & Hon) Hall]; [lia|lia|].
  exists r. split; [apply Hon|]. rewrite E0. apply (Hall r sched E0 Hf Hon).
  destruct (daemon_inv _ _ _ _ _ _ _ _ _ _ _ _ _ _ Hd) as (Hdep & [v Hi] & _).
  refine (prompt_responsive _ _ _ _ _ _ _ _ Hdep _ release_off r sched Hf _ px_prompt).
  exists v. rewrite E0. exact Hi.
Defined.

Lemma pipeline_drains_witness :
  exists (w w' : world SimRing), w_running w = true /\ w_received w' = w_received w /\
    reach (H0 := px_large) 1 (fun _ => (0, 0)) 0 0 64 64 512 512 w w'.
Proof.
  destruct px_doomed_daemon as (w0 & w & Hd & Hrun & _).
  destruct (pipeline_drains (H := px_large) 1 (fun _ => (0, 0)) 0 0 64 64 512 512 px_os ∅ px_mem px_send
    w0 w Hd Hrun) as (w' & Hr & Erc & _); [lia|lia|].
  exists w, w'. split; [exact Hrun|]. split; [exact Erc|exact Hr].
Defined.

Lemma pipeline_wire_witness :
  exists (w : world SimRing) lg, w_running w = false /\
    (snd <$> prepared lg) ++ (report_bytes <$> tx_pending (w_tx_pc w)) = report_bytes <$> w_sent w /\
    NoDup (rq_addr <$> outstanding (w_tx w)).
Proof.
  destruct px_hung_daemon as (w0 & w & Hd & Hrun & _).
  destruct (pipeline_wire 1 (fun _ => (0, 0)) 0 0 64 64 8 2 px_os ∅ px_mem px_send w0 w Hd)
    as [[lg Hl] Hall].
  destruct (Hall lg Hl) as (Hs & pre & done_ & in_flight & in_queue & _ & _ & _ & _ & _ & _ & Hnd).
  exists w, lg. split; [exact Hrun|]. split; [exact Hs|exact Hnd].
Defined.

Lemma pipeline_buffers_witness :
  exists (w : world SimRing), w_running w = false /\
    kernel_buffers w ++ decoder_buffers 64 64 w ≡ₚ seqZ 0 64.
Proof.
  destruct px_hung_daemon as (w0 & w & Hd & Hrun & _). exists w. split; [exact Hrun|].
  apply (pipeline_buffers 1 (fun _ => (0, 0)) 0 0 64 64 8 2 px_os ∅ px_mem px_send w0 w Hd); lia.
Defined.

(** The receiver still has the completion to mark as seen. *)
Lemma shutdown_bounded_witness :
  exists (w : world SimRing), w_running w = false /\ (1 <= work w)%nat.
Proof.
  destruct px_hung_daemon as (w0 & w & Hd & Hrun & _ & Hpc & _). exists w. split; [exact Hrun|].
  set (w1 := set_rx (UringReceiver.set_ring (cqe_seen (UringReceiver.ring_ (w_rx w))) (w_rx w)) RxCq w).
  assert (step 1 (fun _ => (0, 0)) 0 0 64 64 8 2 Receiver w = Ok w1) as E
    by (cbn [step]; unfold rx_step; rewrite Hpc; reflexivity).
  assert (exited Receiver w = false /\ waiting 64 64 8 2 Receiver w = false) as [Hx Hw]
    by (cbn [exited waiting]; rewrite Hpc; split; reflexivity).
  pose proof (runs_step 1 (fun _ => (0, 0)) 0 0 64 64 8 2 Receiver w w1 0 w1 I E
                (runs_nil 1 (fun _ => (0, 0)) 0 0 64 64 8 2 w1)) as Hr.
  rewrite Hx, Hw in Hr.
  exact (shutdown_bounded 1 (fun _ => (0, 0)) 0 0 64 64 8 2 px_os ∅ px_mem px_send w0 w 1 w1 Hd Hrun Hr).
Defined.

(** The engine is left waiting. *)
Lemma shutdown_outcome_witness :
  exists (r : nat -> world SimRing) n, w_running (r 0%nat) = false /\
    ((forall k, w_main (r (n + k)%nat) = Returned) \/ (forall k, hung 8 2 (r (n + k)%nat))).
Proof.
  destruct px_hung_daemon as (w0 & w & Hd & Hrun & _ & _ & Hpc).
  destruct (shutdown_outcome 1 (fun _ => (0, 0)) 0 0 64 64 8 2 px_os ∅ px_mem px_send w0 w Hd Hrun)
    as [(r & sched & E0 & Hf) Hall]; [lia|lia|].
  destruct (Hall r sched E0 Hf) as [n Hn].
  - refine (exited_responsive _ _ _ _ _ _ _ _ r sched Hf _). rewrite E0. cbn [exited]. rewrite Hpc. reflexivity.
  - exists r, n. split; [rewrite E0; exact Hrun|exact Hn].
Defined.

(** 306 orders in one go, and no signal ever stops the daemon. *)
Lemma hung_forever_witness :
  exists (w : world SimRing), w_running w = true /\
    forall w', reach (H0 := px_large) 1 (fun _ => (0, 0)) 0 0 64 64 512 512 w w' -> w_main w' <> Returned.
Proof.
  destruct px_doomed_daemon as (w0 & w & Hd & Hrun & Hh). exists w. split; [exact Hrun|]. intros w' Hr.
  apply (hung_forever (H := px_large) 1 (fun _ => (0, 0)) 0 0 64 64 512 512 px_os ∅ px_mem px_send w0 w Hd);
    assumption.
Defined.

Lemma final_statistics_exact_witness :
  exists (w : world SimRing) lg, w_main w = Returned /\
    st_cqes (final_statistics w) = u64 (Z.of_nat (length (received lg))).
Proof.
  destruct px_returned_daemon as (w0 & w & Hd & Hm & _).
  destruct (daemon_logged 1 (fun _ => (0, 0)) 0 0 64 64 8 4 px_os ∅ px_mem px_send w0 w Hd) as [lg Hl].
  exists w, lg. split; [exact Hm|].
  destruct (final_statistics_exact 1 (fun _ => (0, 0)) 0 0 64 64 8 4 px_os ∅ px_mem px_send w0 w lg Hd Hl Hm)
    as (decoded & trades & _ & _ & _ & _ & _ & _ & _ & _ & _ & _ & _ & _ & Hs & _).
  exact Hs.
Defined.
