(* ===== verification/ExitTheorems.v ===== *)
(** * The properties of how the daemon ends *)

From stdpp Require Import base numbers list gmap fin_maps.
From Stdlib Require Import ZArith Lia.
From S2P Require Import Prelude.
From S2P Require Import OrderTypes.
From S2P Require Import OrderPool.
From S2P Require Import SPSCQueue.
From S2P Require Import Sink.
From S2P Require Import MatchingEngine.
From S2P Require Import EngineTypes.
From S2P Require Import Decoder.
From S2P Require Import Uring.
From S2P Require UringSender.
From S2P Require UringReceiver.
From S2P Require Import UringSenderProps.
From S2P Require Import UringReceiverProps.
From S2P Require Import Pipeline.
From S2P Require Import PipelineInv.
From S2P Require Import PipelineShutdown.
From S2P Require Import PipelineHang.
From S2P Require Import PipelineDrain.
From S2P Require Import PipelineExit.
From S2P Require Import PipelineExample.
From S2P Require Import PipelineTheorems.

#[local] Existing Instance Release.

Section exit.
Context {U : Type} `{Uring U}.
Context (Capacity : nat) (clock_gettime : nat -> Z * Z) (recv_bufs_ send_bufs_ : nat).
Context (Nraw Nret Nin Nout : Z).
Implicit Types (w : world U) (r : UringReceiver.UringReceiver U (list RawByteSpan)) (e : Engine (list ExecutionReport)).

#[local] Abbreviation step := (step Capacity clock_gettime recv_bufs_ send_bufs_ Nraw Nret Nin Nout).
#[local] Abbreviation weak_reach :=
  (weak_reach Capacity clock_gettime recv_bufs_ send_bufs_ Nraw Nret Nin Nout).
#[local] Abbreviation main_start := (main_start Capacity recv_bufs_ Nraw Nret Nin Nout).
#[local] Abbreviation daemon := (daemon Capacity clock_gettime recv_bufs_ send_bufs_ Nraw Nret Nin Nout).
#[local] Abbreviation registered w := (UringReceiver.bufs_registered_ (w_rx w)).

(** ** Whether the buffers are registered does not change *)

Lemma arm_buf_registered id r r' :
  UringReceiver.arm_buf recv_bufs_ id r = Ok r' ->
  UringReceiver.bufs_registered_ r' = UringReceiver.bufs_registered_ r.
Proof. unfold UringReceiver.arm_buf. intros E. by run_step E. Qed.

Lemma arm_from_registered k : forall id r r',
  UringReceiver.arm_from recv_bufs_ id k r = Ok r' ->
  UringReceiver.bufs_registered_ r' = UringReceiver.bufs_registered_ r.
Proof.
  induction k as [|k IH]; intros id r r' E; cbn [UringReceiver.arm_from] in E; [by injection E as <-|].
  destruct (UringReceiver.arm_buf recv_bufs_ id r) as [r1|] eqn:E1; [|done].
  rewrite (IH _ _ _ E). by eapply arm_buf_registered.
Qed.

Lemma reclaim_buf_registered id r r' :
  UringReceiver.reclaim_buf recv_bufs_ id r = Ok r' ->
  UringReceiver.bufs_registered_ r' = UringReceiver.bufs_registered_ r.
Proof.
  unfold UringReceiver.reclaim_buf, bind. intros E. repeat (case_match; try discriminate E).
  all: first [by injection E as <-|by eapply arm_buf_registered].
Qed.

Lemma process_cqe_registered c r r' :
  UringReceiver.process_cqe recv_bufs_ c r = Ok r' ->
  UringReceiver.bufs_registered_ r' = UringReceiver.bufs_registered_ r.
Proof.
  unfold UringReceiver.process_cqe, bind. intros E. repeat (case_match; try discriminate E).
  all: first [by injection E as <-|by rewrite (arm_buf_registered _ _ _ E)].
Qed.

Lemma submit_pending_registered r :
  UringReceiver.bufs_registered_ (UringReceiver.submit_pending r) = UringReceiver.bufs_registered_ r.
Proof. unfold UringReceiver.submit_pending. by case_match. Qed.

Lemma rx_step_registered w w' :
  rx_step recv_bufs_ Nraw Nret w = Ok w' -> registered w' = registered w.
Proof.
  unfold rx_step. intros E. run_step E; cbn; rewrite ?submit_pending_registered; try done.
  all: first [by erewrite reclaim_buf_registered by done|by erewrite process_cqe_registered by done].
Qed.

Lemma registered_step ev w w' : step ev w = Ok w' -> registered w' = registered w.
Proof.
  intros E. destruct ev; cbn [Pipeline.step] in E; [by eapply rx_step_registered|..].
  - unfold dec_step in E. by run_step E.
  - unfold eng_step, eng_poll in E. by run_step E.
  - unfold tx_step, tx_begin in E. by run_step E.
  - destruct (main_step_pc w) as [pc Epc]. rewrite Epc in E. by injection E as <-.
  - unfold signal_handler in E. by run_step E.
  - by run_step E.
Qed.

Lemma registered_stale seen ev w w' :
  stale_step Capacity clock_gettime Nin seen ev w = Ok w' -> registered w' = registered w.
Proof.
  unfold stale_step, eng_poll, tx_begin. intros E. run_step E; cbn; by rewrite ?submit_pending_registered.
Qed.

Lemma registered_reach w w' : weak_reach w w' -> registered w' = registered w.
Proof.
  induction 1 as [|ev w1 w2 _ IH _ E|seen ev w1 w2 _ IH _ E]; [done|..].
  - by rewrite (registered_step _ _ _ E).
  - by rewrite (registered_stale _ _ _ _ E).
Qed.

(** ** What start-up acquires *)

Definition pool_due e : list effect := [Munmap (storage_ (e_pool e)) (bytes_allocated_ (e_pool e))].

Lemma engine_due o q h :
  ensures (fun x => slab_due Capacity o = match x with inl e => pool_due e | inr _ => [] end)
    (MatchingEngine_new Capacity (os_mmap (U := U) o) q ([] : list ExecutionReport) h).
Proof.
  clear clock_gettime recv_bufs_ send_bufs_ Nraw Nret Nin Nout.
  unfold MatchingEngine_new, OrderPool_new, slab_due, build_freelist, bind, ensures.
  repeat case_match; naive_solver.
Qed.

Lemma add_instrument_pool id mn mx tick e e' :
  add_instrument id mn mx tick e = Ok e' -> e_pool e' = e_pool e.
Proof. unfold add_instrument. intros E. by run_step E. Qed.

Lemma receiver_due o fd raw ret :
  ensures (fun x => rx_due o = match x with
                               | inl r => RxRing <$> UringReceiver.UringReceiver_delete r
                               | inr _ => []
                               end)
    (UringReceiver.UringReceiver_new recv_bufs_ (os_rx_init_params o) (os_rx_init o)
       (os_register_buffers o) fd (raw : list RawByteSpan) ret).
Proof.
  unfold UringReceiver.UringReceiver_new, rx_due. apply ensures_any. intros _.
  destruct (UringReceiver.init_ring _ _) as [[u sqpoll]|err]; [|done].
  unfold UringReceiver.arm_all_buffers, UringReceiver.init_fixed_buffers, UringReceiver.UringReceiver_delete.
  cbn [UringReceiver.ring_ UringReceiver.set_armed]. destruct (os_register_buffers o u) as [u1 ret1].
  destruct (UringReceiver.arm_from _ _ _ _) as [r1|] eqn:E; [|done]. apply arm_from_registered in E.
  cbn in *. rewrite E. destruct (Z.eqb_spec ret1 0); by rewrite ?decide_True, ?decide_False by done.
Qed.

Lemma sender_due o fd ms q :
  ensures (fun x => tx_due o = match x with inl _ => [TxRing QueueExit] | inr _ => [] end)
    (UringSender.UringSender_new (U := U) (os_tx_init_params o) (os_tx_init o) fd ms q).
Proof.
  unfold UringSender.UringSender_new, tx_due. apply ensures_any. intros _.
  by destruct (UringSender.init_ring _ _) as [[u sqpoll]|err].
Qed.

Definition acquired (o : os (U := U)) (x : world U + start_error (U := U)) : Prop :=
  slab_due Capacity o = default [] (pool_due <$> built x) /\
  match x with
  | inl w => rx_due o = RxRing <$> UringReceiver.UringReceiver_delete (w_rx w) /\
             tx_due o = [TxRing QueueExit]
  | inr (PoolError _) => True
  | inr (ReceiverError _ _) => rx_due o = []
  | inr (SenderError _ r _) =>
      rx_due o = RxRing <$> UringReceiver.UringReceiver_delete r /\ tx_due o = []
  end.

Lemma main_start_acquired o h m ms : ensures (acquired o) (main_start o h m ms).
Proof.
  unfold Pipeline.main_start. eapply ensures_bind; [apply engine_due|]. intros [e|err] He; [|by split].
  destruct (add_instrument _ _ _ _ e) as [e1|] eqn:E1; [|done]. apply add_instrument_pool in E1.
  assert (slab_due Capacity o = pool_due e1) as He1 by (unfold pool_due; by rewrite E1).
  cbn [bind]. destruct (open_sockets o) as [fd0 fd1].
  eapply ensures_bind; [apply receiver_due|]. intros [r|err] Hr; [|by split].
  eapply ensures_bind; [apply sender_due|]. by intros [s|err] Hs.
Qed.

(** ** The order of destruction *)

Lemma before_here a b xs : b ∈ xs -> before a b (a :: xs).
Proof. intros (l2 & l3 & ->)%list_elem_of_split. by exists [], l2, l3. Qed.

Lemma before_there a b x xs : before a b xs -> before a b (x :: xs).
Proof. intros (l1 & l2 & l3 & ->). by exists (x :: l1), l2, l3. Qed.

Lemma orderly_closes fds xs : orderly xs -> orderly (close_sockets fds ++ xs).
Proof.
  assert (forall fd ys, orderly ys -> orderly (Close fd :: ys)) as Hc.
  { intros fd ys (H1 & H2 & H3). split_and!.
    - intros x y [Hx|Hx]%elem_of_cons Hy; [done|]. by apply before_there, H1.
    - intros c [Hx|Hx]%elem_of_cons; [done|]. by apply before_there, H2.
    - intros c [Hx|Hx]%elem_of_cons; [done|]. by apply before_there, H3. }
  intros Ho. unfold close_sockets. do 2 case_match; cbn; auto.
Qed.

Ltac find_before :=
  repeat first [done | apply before_here; solve [repeat constructor] | apply before_there].
Ltac orderly_list :=
  repeat match goal with
  | |- orderly _ => split_and!
  | |- forall _, _ => intros ?
  | Hx : _ ∈ _ :: _ |- _ => apply elem_of_cons in Hx as [Hx|Hx]; [simplify_eq|]
  | Hx : _ ∈ [] |- _ => by apply elem_of_nil in Hx
  | _ => progress cbn [refers_to] in *
  end; try done; find_before.

Lemma orderly_exit o w : orderly (x_effects (main_exit o w)).
Proof.
  apply orderly_closes. unfold delete_rest, delete_receiver, UringReceiver.UringReceiver_delete.
  destruct (UringReceiver.bufs_registered_ (w_rx w)); cbn; orderly_list.
Qed.

Lemma orderly_catch h (err : start_error (U := U)) : orderly (x_effects (main_catch h err)).
Proof.
  destruct err as [err|e err|e r err]; cbn [main_catch x_effects]; unfold delete_rest;
    [orderly_list|cbn; orderly_list|].
  unfold delete_receiver, UringReceiver.UringReceiver_delete.
  destruct (UringReceiver.bufs_registered_ r); cbn; orderly_list.
Qed.

(** ** The calls made *)

Lemma calls_app xs ys : calls (xs ++ ys) = calls xs ++ calls ys.
Proof. apply filter_app. Qed.

Lemma calls_close fds : calls (close_sockets fds) = close_sockets fds.
Proof. unfold close_sockets. by do 2 case_match. Qed.

Lemma calls_receiver r : calls (delete_receiver r) = RxRing <$> UringReceiver.UringReceiver_delete r.
Proof.
  unfold delete_receiver, UringReceiver.UringReceiver_delete.
  by destruct (UringReceiver.bufs_registered_ r).
Qed.

Lemma close_sockets_due (o : os (U := U)) : close_sockets (open_sockets o) = sockets_due o.
Proof.
  unfold close_sockets, sockets_due. destruct (open_sockets o) as [fd0 fd1]. cbn [fst snd].
  rewrite !filter_cons, filter_nil.
  destruct (Z.geb_spec fd0 0), (Z.geb_spec fd1 0), (decide (0 <= fd0)), (decide (0 <= fd1)); done || lia.
Qed.

Lemma delete_dom h e0 e :
  engine_at h e0 e ->
  dom (OrderPool_delete (e_heap e) (e_pool e)) = dom h ∖ slots_of (slab_of (e_pool e0)).
Proof.
  clear Capacity clock_gettime recv_bufs_ send_bufs_ Nraw Nret Nin Nout.
  intros He. destruct (ok_heap _ _ _ He) as [_ Hd]. pose proof (ok_pool _ _ _ He) as Hp. rewrite <- Hp in *.
  unfold OrderPool_delete, slots_of. cbn [slab_of rg_base rg_bytes] in *. apply set_eq. intros a.
  assert (a ∈ dom (e_heap e) <-> a ∈ dom h \/ a ∈ slots_of (slab_of (e_pool e))) as Ha
    by (rewrite Hd; set_solver).
  unfold slots_of in Ha. cbn [slab_of rg_base rg_bytes] in Ha.
  rewrite elem_of_difference, elem_of_list_to_set, elem_of_seq in *. rewrite elem_of_dom, lookup_unmap.
  rewrite elem_of_dom in Ha. case_decide as Hin; [|tauto]. split; [by intros []|tauto].
Qed.

(** ** The properties *)

(** C18: what [main] acquired it gives back: when it returns no worker runs
    any more, and the calls it makes are one [close] for each descriptor it
    opened, one [io_uring_queue_exit] for each ring, the unregistering of the
    receive buffers exactly when registering them had succeeded, and the
    unmapping of exactly the slab that was mapped; nothing is destroyed while
    an object that refers to it exists, nor are the buffers of a ring that
    has not been shut down; the exit status is 0. *)
Theorem main_releases o h m ms w0 w :
  daemon o h m ms w0 w -> w_main w = Returned -> orders_ok h ->
  let x := main_exit o w in
  Forall (fun ev => exited ev w = true) workers /\
  calls (x_effects x) = sockets_due o ++ tx_due o ++ rx_due o ++ slab_due Capacity o /\
  orderly (x_effects x) /\
  dom (x_heap x) = dom h ∖ slots_of (slab_of (e_pool (w_eng w0))) /\
  x_status x = 0.
Proof.
  intros Hdm Em Hh x. pose proof Hdm as (_ & E & Hr).
  destruct (daemon_inv _ _ _ _ _ _ _ _ _ _ _ _ _ _ Hdm) as (_ & [v Hi] & Hj).
  pose proof (engine_types _ _ _ _ _ _ _ _ _ _ _ _ _ (start_types_inl _ _ _ _ _ _ _ _ _ _ _ Hh E) Hi) as He.
  destruct (ensures_Ok _ _ _ (main_start_acquired o h m ms) E) as (Hs & Hrx & Htx). split_and!.
  - unfold joined_exited in Hj. by rewrite Em in Hj.
  - unfold x, main_exit. cbn [x_effects].
    rewrite !calls_app, calls_close, calls_receiver, close_sockets_due, Htx, Hrx, Hs.
    unfold UringReceiver.UringReceiver_delete. rewrite (registered_reach _ _ Hr).
    pose proof (ok_pool _ _ _ He) as Hp. injection Hp as Hp1 Hp2.
    unfold delete_engine. rewrite Hp1, Hp2. done.
  - apply orderly_exit.
  - by apply delete_dom.
  - done.
Qed.

(** When the construction of one of its objects throws, [main] gives
    back everything it has acquired by then except the sockets: the rings
    that were set up are shut down and the slab is unmapped, in an order in
    which nothing refers to what is gone, no statistics are printed and the
    exit status is 1; but no call closes a descriptor. *)
Theorem start_failure o h m ms err :
  main_start o h m ms = Ok (inr err) -> orders_ok h ->
  let x := main_catch h err in
  calls (x_effects x) =
    match err with
    | PoolError _ => slab_due Capacity o
    | ReceiverError _ _ => rx_due o ++ slab_due Capacity o
    | SenderError _ _ _ => tx_due o ++ rx_due o ++ slab_due Capacity o
    end /\
  (forall fd, Close fd ∉ x_effects x) /\
  orderly (x_effects x) /\
  dom (x_heap x) = dom h ∖ default ∅ ((fun e => slots_of (slab_of (e_pool e))) <$> built (inr err)) /\
  x_printed x = None /\ x_status x = 1.
Proof.
  clear clock_gettime send_bufs_.
  intros E Hh x. destruct (ensures_Ok _ _ _ (main_start_acquired o h m ms) E) as [Hs Hd].
  pose proof (ensures_Ok _ _ _ (start_types Capacity recv_bufs_ Nraw Nret Nin Nout o h m ms Hh) E) as He.
  pose proof (orderly_catch h err) as Ho. subst x. rewrite Hs.
  assert (calls (x_effects (main_catch h err)) = match err with
    | SenderError e r _ => (RxRing <$> UringReceiver.UringReceiver_delete r) ++ pool_due e
    | ReceiverError e _ => pool_due e | PoolError _ => [] end) as Hc.
  { destruct err; try done. cbn [main_catch x_effects]. by rewrite calls_app, calls_receiver. }
  split_and!; try done.
  - rewrite Hc. destruct err; cbn in *; [done|by rewrite Hd|]. by destruct Hd as [-> ->].
  - intros fd Hfd. assert (Close fd ∈ calls (x_effects (main_catch h err))) as Hin
      by (by apply list_elem_of_filter). rewrite Hc in Hin. clear -Hin.
    destruct err as [| |e r ?]; unfold UringReceiver.UringReceiver_delete in *;
      [|..|destruct (UringReceiver.bufs_registered_ r)]; cbn in Hin; set_solver.
  - destruct err; cbn -[slots_of]; [set_solver|by apply delete_dom, He..].
  - by destruct err.
  - by destruct err.
Qed.

(** C19: when a thread other than the first cannot be started, the exception
    is not caught: unwinding joins the threads started before it, which loop
    while [g_running] is set, and nothing but a signal clears it; so [main]
    stays there, whatever the other threads and the kernel do. *)
Theorem thread_failure_hangs o h m ms w0 n w :
  start_ok Capacity recv_bufs_ send_bufs_ Nraw Nret Nin Nout o m ms ->
  main_start o h m ms = Ok (inl w0) -> (1 <= n <= 3)%nat ->
  weak_reach (spawned n w0) w -> w_running w = true -> ~ catch_entered n w.
Proof.
  intros Ho E Hn Hr Hrun. destruct (main_start_spec Capacity clock_gettime recv_bufs_ send_bufs_ Nraw Nret
    Nin Nout o h m ms release_off Ho) as [[err E']|(w1 & E' & _ & _ & _ & _ & Hpc & _)];
    rewrite E' in E; [done|]. injection E as ->. injection Hpc as E1 _ _ _.
  assert (exited Receiver (spawned n w0) = false) as Hx.
  { destruct n as [|[|[|[|]]]]; try lia; cbn; by rewrite E1. }
  assert (exited Receiver w = false) as Hw by (by eapply stays_reach).
  intros Hc. destruct n as [|n]; [lia|]. apply Forall_cons in Hc as [Hc _]. congruence.
Qed.

End exit.

(** ** The theorems at work *)

#[local] Instance px_one : Uring SimRing := px_ring [120].

Lemma main_releases_witness :
  exists (w : world SimRing), w_main w = Returned /\
    calls (x_effects (main_exit px_os w)) =
      [Close 3; Close 4; TxRing QueueExit; RxRing UnregisterBuffers; RxRing QueueExit; Munmap 0 128].
Proof.
  destruct px_returned_daemon as (w0 & w & Hd & Hm & _). exists w. split; [exact Hm|].
  destruct (main_releases 1 (fun _ => (0, 0)) 0 0 64 64 8 4 px_os ∅ px_mem px_send w0 w Hd Hm
    (map_Forall_empty _)) as (_ & Hc & _).
  rewrite Hc. reflexivity.
Defined.

(** The ring of the sender cannot be set up. *)
Definition px_os_full : os (U := SimRing) :=
  mkOs (fun _ _ => Some 0%nat) (0, (3, 4)) (-1, -1)
    (fun _ _ => (0, px_empty)) (fun _ => (-1, px_empty)) (fun u => (u, 0))
    (fun _ _ => (-1, px_empty)) (fun _ => (-12, px_empty)).

Definition sender_failed (r : res (world SimRing + start_error (U := SimRing))) : bool :=
  match r with Ok (inr (SenderError _ _ _)) => true | _ => false end.

Lemma px_full_fails m ms : sender_failed (main_start 1 0 64 64 8 4 px_os_full ∅ m ms) = true.
Proof. with_strategy transparent [gmap_empty] (lazy; reflexivity). Qed.

Lemma start_failure_witness :
  exists (err : start_error (U := SimRing)),
    calls (x_effects (main_catch ∅ err)) = [RxRing UnregisterBuffers; RxRing QueueExit; Munmap 0 128] /\
    x_status (main_catch ∅ err) = 1.
Proof.
  pose proof (px_full_fails px_mem px_send) as Hf.
  destruct (main_start 1 0 64 64 8 4 px_os_full ∅ px_mem px_send) as [[w|err]|err] eqn:E;
    [discriminate Hf| |discriminate Hf].
  exists err. pose proof (start_failure 1 0 64 64 8 4 px_os_full ∅ px_mem px_send err E
    (map_Forall_empty _)) as (Hc & _ & _ & _ & _ & Hs).
  split; [|exact Hs]. rewrite Hc. destruct err as [|e err|e r err]; [discriminate Hf..|]. reflexivity.
Defined.

Lemma thread_failure_hangs_witness :
  exists (w0 : world SimRing), w_running (spawned 2 w0) = true /\ ~ catch_entered 2 (spawned 2 w0).
Proof.
  destruct px_returned_daemon as (w0 & w & (Hok & E & _) & _). exists w0.
  assert (w_running w0 = true) as Hrun.
  { destruct (main_start_spec 1 (fun _ => (0, 0)) 0 0 64 64 8 4 px_os ∅ px_mem px_send release_off Hok)
      as [[err E']|(w1 & E' & _ & Hr & _)]; rewrite E in E'; [discriminate E'|]. injection E' as ->. exact Hr. }
  split; [exact Hrun|].
  apply (thread_failure_hangs 1 (fun _ => (0, 0)) 0 0 64 64 8 4 px_os ∅ px_mem px_send w0 2 _ Hok E);
    [lia|constructor|exact Hrun].
Defined.
